(** * koishi-plugin-my-pig-group-friends: a shallow embedding

    The plugin assigns a simulated travel destination to a chat user,
    records the trip, and offers rankings and a world map.  This file
    embeds its logic-bearing functions and proves the properties listed in
    the specification:

    - [Sunrise]      services/location.ts, [getSunriseTimezoneHint]
    - [Resolver]     services/location.ts, [parseLocationResponse],
                     [generateLocationWithLLM], [getRandomStaticLocation]
    - [Travel]       services/travel.ts, [triggerTravelSequence];
                     services/sunrise.ts, [getSunriseInfo]
    - [Leaderboard]  services/leaderboard.ts, [getPigLeaderboard]
    - [WorldMap]     services/worldmap.ts, [processMapSvg]
    - [Stats]        index.ts, the message-statistics middleware
    - [Silent]       index.ts, the silent-record middleware and the daily
                     job
    - [EventLoop], [StatsHandler], [SilentHandler]
                     the two middlewares as handlers that interleave at
                     their awaits
    - [Visits], [SleepBoard], [Monthly], [Period], [Background], [Html],
      [Pexels], [Collections]
                     the aggregation queries and helpers, each introduced
                     where it is defined

    Conventions.  A JavaScript string is a [string]: a sequence of code
    units, each below 256 (strings with larger code units are outside the
    model).  A JavaScript number that the code only counts with is a [Z].
    Time is the number of milliseconds since the epoch, a [Z].  A call to a
    host service (LLM, renderer, storage, photo search) is answered by an
    outcome supplied as an argument; a [throw] is the [Throw] constructor
    of [Result], and [try]/[catch] is [try_catch]. *)

From stdpp Require Import base gmap strings list.
From Stdlib Require Import ZArith String Ascii List Lia Bool DecimalString.
From Stdlib Require Import Sorted Permutation.
From Stdlib Require QArith.

Local Open Scope string_scope.
Local Open Scope list_scope.
Local Open Scope Z_scope.

(** ** JavaScript values, truthiness and exceptions *)

#[warnings="-register-all"]
Inductive jsval : Type :=
| JUndefined
| JNull
| JBool (b : bool)
| JNum (q : QArith_base.Q)
| JStr (s : string)
| JArr (items : list jsval)
| JObj (fields : list (string * jsval)).

(** [ToBoolean]: undefined, null, false, 0 and the empty string are falsy. *)
Definition truthy (v : jsval) : bool :=
  match v with
  | JUndefined | JNull => false
  | JBool b => b
  | JNum q => negb (QArith_base.Qeq_bool q (QArith_base.Qmake 0 1))
  | JStr s => negb (String.eqb s "")
  | JArr _ | JObj _ => true
  end.

(** [a || b] *)
Definition js_or (a b : jsval) : jsval := if truthy a then a else b.

Inductive exn : Type :=
| SyntaxError
| TypeError
| URIError
| RangeError
| HostError (msg : string).

Inductive Result (A : Type) : Type :=
| Ok (a : A)
| Throw (e : exn).
Arguments Ok {A} a.
Arguments Throw {A} e.

(** Own-property lookup in a parsed JSON object. *)
Fixpoint assoc (k : string) (fields : list (string * jsval)) : jsval :=
  match fields with
  | [] => JUndefined
  | (k', v) :: rest => if String.eqb k k' then v else assoc k rest
  end.

(** [data.k] for a value that came out of [JSON.parse] and a key [k] that no
    prototype defines: a property of an object, [undefined] on a boolean,
    number, string or array, and a [TypeError] on [null]. *)
Definition get_prop (data : jsval) (k : string) : Result jsval :=
  match data with
  | JObj fields => Ok (assoc k fields)
  | JNull | JUndefined => Throw TypeError
  | _ => Ok JUndefined
  end.

(** ** Strings *)

Definition Z_to_string (z : Z) : string := NilZero.string_of_int (Z.to_int z).

(** [String(n).padStart(2, '0')] for an integer [n >= 0]. *)
Definition pad2 (n : Z) : string :=
  let s := Z_to_string n in
  if (String.length s <? 2)%nat then "0" +:+ s else s.

(** The double quote, and a string between double quotes. *)
Definition dq : ascii := ascii_of_nat 34.
Definition quoted (s : string) : string := String dq (s +:+ String dq "").

(** [s] with the prefix [p] removed, when [s] starts with [p]. *)
Fixpoint strip_prefix (p s : string) : option string :=
  match p with
  | "" => Some s
  | String a p' =>
      match s with
      | "" => None
      | String b s' => if Ascii.eqb a b then strip_prefix p' s' else None
      end
  end.

(** The text before and after the first occurrence of [lit] in [s]. *)
Fixpoint split_first (lit s : string) : option (string * string) :=
  match strip_prefix lit s with
  | Some rest => Some ("", rest)
  | None =>
      match s with
      | "" => None
      | String c s' =>
          match split_first lit s' with
          | Some (before, after) => Some (String c before, after)
          | None => None
          end
      end
  end.

(** [s] up to and including the last occurrence of the character [c]. *)
Fixpoint upto_last (c : ascii) (s : string) : option string :=
  match s with
  | "" => None
  | String x s' =>
      match upto_last c s' with
      | Some t => Some (String x t)
      | None => if Ascii.eqb x c then Some (String x "") else None
      end
  end.

(** White space and line terminators among the code units below 256: the
    class [\s] of a regular expression and what [trim] removes. *)
Definition is_space (c : ascii) : bool :=
  let n := nat_of_ascii c in
  ((9 <=? n) && (n <=? 13) || (n =? 32) || (n =? 160))%nat.

Fixpoint trim_start (s : string) : string :=
  match s with
  | "" => ""
  | String c s' => if is_space c then trim_start s' else s
  end.

Fixpoint trim_end (s : string) : string :=
  match s with
  | "" => ""
  | String c s' =>
      match trim_end s' with
      | "" => if is_space c then "" else String c ""
      | t => String c t
      end
  end.

Definition trim (s : string) : string := trim_end (trim_start s).

(** ** State and exceptions

    A computation reads and writes a world [W] and either returns or
    throws; what it wrote before throwing stays written. *)

Definition M (W A : Type) : Type := W -> Result A * W.

Definition ret {W A} (a : A) : M W A := fun w => (Ok a, w).

Definition bind {W A B} (m : M W A) (k : A -> M W B) : M W B :=
  fun w => match m w with
           | (Ok a, w') => k a w'
           | (Throw e, w') => (Throw e, w')
           end.

Definition throw {W A} (e : exn) : M W A := fun w => (Throw e, w).

Definition try_catch {W A} (m : M W A) (handler : exn -> M W A) : M W A :=
  fun w => match m w with
           | (Ok a, w') => (Ok a, w')
           | (Throw e, w') => handler e w'
           end.

Definition lift {W A} (r : Result A) : M W A := fun w => (r, w).
Definition gets {W A} (f : W -> A) : M W A := fun w => (Ok (f w), w).
Definition modify {W} (f : W -> W) : M W unit := fun w => (Ok tt, f w).
Definition when {W} (b : bool) (m : M W unit) : M W unit :=
  if b then m else ret tt.

Notation "'let*' x ':=' m 'in' k" := (bind m (fun x => k))
  (at level 10, x name, m at level 100, k at level 200).
Notation "m ;;; k" := (bind m (fun _ => k))
  (at level 100, k at level 200, right associativity).

(** * The Sunrise-Band Calculator *)

Module Sunrise.

(** The fixed table of [getRegionByOffset]; [Everywhere] is the generic
    hint returned outside all named buckets. *)
Inductive Region : Type :=
| EastAsiaPacific        (* 9 .. 12 *)
| SouthAndCentralAsia    (* 5 .. 8 *)
| MiddleEastEastAfrica   (* 2 .. 4 *)
| WestEuropeWestAfrica   (* -1 .. 1 *)
| SouthAmericaAtlantic   (* -5 .. -2 *)
| NorthAmericaWest       (* -8 .. -6 *)
| CentralPacific         (* -12 .. -9 *)
| Everywhere.

Record SunriseTimezoneHint : Type := {
  utcOffsetRange : string * string;  (* the two formatted bounds *)
  regionHint : Region;
  beijingTime : string;
  beijingHour : Z;
  idealOffset : Z;
  minOffset : Z;
  maxOffset : Z;
}.

(** [Date.prototype.getUTCHours] and [getUTCMinutes] of a time value. *)
Definition getUTCHours (t : Z) : Z := (t / 3600000) mod 24.
Definition getUTCMinutes (t : Z) : Z := (t / 60000) mod 60.

Definition normalizeOffset (offset : Z) : Z :=
  if offset <? -12 then offset + 24
  else if offset >? 14 then offset - 24
  else offset.

Definition getRegionByOffset (offset : Z) : Region :=
  if (offset >=? 9) && (offset <=? 12) then EastAsiaPacific
  else if (offset >=? 5) && (offset <=? 8) then SouthAndCentralAsia
  else if (offset >=? 2) && (offset <=? 4) then MiddleEastEastAfrica
  else if (offset >=? -1) && (offset <=? 1) then WestEuropeWestAfrica
  else if (offset >=? -5) && (offset <=? -2) then SouthAmericaAtlantic
  else if (offset >=? -8) && (offset <=? -6) then NorthAmericaWest
  else if (offset >=? -12) && (offset <=? -9) then CentralPacific
  else Everywhere.

Definition formatOffset (offset : Z) : string :=
  if offset >=? 0 then "UTC+" +:+ Z_to_string offset
  else "UTC" +:+ Z_to_string offset.

(** [now] is the value of [new Date().getTime()]. *)
Definition getSunriseTimezoneHint (now : Z) : SunriseTimezoneHint :=
  let beijingNow := now + 8 * 60 * 60 * 1000 in
  let beijingHour := getUTCHours beijingNow in
  let beijingMinute := getUTCMinutes beijingNow in
  let targetLocalHour := 6 in
  let idealOffset := targetLocalHour - beijingHour + 8 in
  let minOffset := normalizeOffset (idealOffset - 1) in
  let maxOffset := normalizeOffset (idealOffset + 1) in
  {| utcOffsetRange := (formatOffset minOffset, formatOffset maxOffset);
     regionHint := getRegionByOffset idealOffset;
     beijingTime := pad2 beijingHour +:+ ":" +:+ pad2 beijingMinute;
     beijingHour := beijingHour;
     idealOffset := idealOffset;
     minOffset := minOffset;
     maxOffset := maxOffset |}.

End Sunrise.


(** * The Destination Resolver *)

(** What the host and the language provide.  [JSON_parse] is [JSON.parse]
    ([None] for a [SyntaxError]); [encodeURIComponent] converts its argument
    to a string and encodes it (a [URIError] on a lone surrogate);
    [String_replace s pat r] is [s.replace(pat, r)] for three strings;
    [cleanQuery] is the replacement of non-Latin characters by blanks
    followed by blank-collapsing and trimming; [NumberToString] is the
    string conversion of a number; [newDate v] is the time value of
    [new Date(v)]. *)
Class Numbers : Type := {
  NumberToString : QArith_base.Q -> string;
}.

Class Runtime : Type := {
  runtime_numbers :: Numbers;
  JSON_parse : string -> option jsval;
  encodeURIComponent : jsval -> Result string;
  String_replace : string -> string -> string -> string;
  cleanQuery : string -> string;
  newDate : jsval -> Z;
}.

(** ** String conversion

    A field of a location built from a reply holds any JSON value, and the
    code converts it wherever it places it in a text.  [ToString] of a
    value that came out of [JSON.parse]: an array is joined with commas,
    [null] and [undefined] elements giving the empty string; an object
    gives the text of [Object.prototype.toString], unless it has an own
    property [toString], which cannot be a function: then neither
    [toString] nor the inherited [valueOf] yields a primitive and the
    conversion is a [TypeError]. *)
Definition has_own (k : string) (fields : list (string * jsval)) : bool :=
  existsb (fun kv => String.eqb (fst kv) k) fields.

Fixpoint ToString `{Numbers} (v : jsval) : Result string :=
  match v with
  | JUndefined => Ok "undefined"
  | JNull => Ok "null"
  | JBool true => Ok "true"
  | JBool false => Ok "false"
  | JNum q => Ok (NumberToString q)
  | JStr s => Ok s
  | JArr items =>
      (fix join (items : list jsval) : Result string :=
         match items with
         | [] => Ok ""
         | item :: rest =>
             match match item with
                   | JUndefined | JNull => Ok ""
                   | _ => ToString item
                   end with
             | Throw e => Throw e
             | Ok first =>
                 match rest with
                 | [] => Ok first
                 | _ =>
                     match join rest with
                     | Throw e => Throw e
                     | Ok others => Ok (first +:+ "," +:+ others)
                     end
                 end
             end
         end) items
  | JObj fields =>
      if has_own "toString" fields then Throw TypeError
      else Ok "[object Object]"
  end.

(** [s.replace(pat, v)] for a string pattern: the replacement is converted
    to a string first, whether or not the pattern occurs. *)
Definition js_replace `{Runtime} (s pat : string) (v : jsval)
  : Result string :=
  match ToString v with
  | Ok r => Ok (String_replace s pat r)
  | Throw e => Throw e
  end.

(** [q.replace(...)...] as [cleanQuery] does it, on a value: a method of
    strings only. *)
Definition cleanQueryOf `{Runtime} (q : jsval) : Result string :=
  match q with
  | JStr s => Ok (cleanQuery s)
  | _ => Throw TypeError
  end.

(** The conversions of a template literal, in the order of its
    placeholders. *)
Fixpoint interpolate `{Numbers} (values : list jsval)
  : Result (list string) :=
  match values with
  | [] => Ok []
  | v :: rest =>
      match ToString v with
      | Throw e => Throw e
      | Ok s =>
          match interpolate rest with
          | Throw e => Throw e
          | Ok ss => Ok (s :: ss)
          end
      end
  end.

(** The fields of the [Location] interface.  The interface types them as
    strings; at run time a location built from an LLM reply carries whatever
    JSON values the reply had. *)
Record Location : Type := {
  country : jsval;
  countryZh : jsval;
  city : jsval;
  landmark : jsval;
  landmarkZh : jsval;
  timezone : jsval;
  landscapeUrl : jsval;
}.

(** A field that the [Location] interface types as a string, or as an
    optional string. *)
Definition is_string (v : jsval) : bool :=
  match v with
  | JStr _ => true
  | _ => false
  end.

Definition is_optional_string (v : jsval) : bool :=
  match v with
  | JStr _ | JUndefined => true
  | _ => false
  end.

Definition wellTyped (location : Location) : bool :=
  is_string (country location) && is_string (countryZh location)
  && is_optional_string (city location) && is_string (landmark location)
  && is_string (landmarkZh location)
  && is_optional_string (timezone location)
  && is_string (landscapeUrl location).

(** The Static Location Catalog, constants.ts, is a fixed non-empty list
    of locations: a first entry and the rest.  Its entries are literals
    of the type [Location], so their fields are strings. *)
Class Catalog : Type := {
  LOCATION_0 : Location;
  LOCATIONS_rest : list Location;
  LOCATIONS_typed : forallb wellTyped (LOCATION_0 :: LOCATIONS_rest) = true;
}.
Definition LOCATIONS `{Catalog} : list Location := LOCATION_0 :: LOCATIONS_rest.

(** config.ts, [interface Config]. *)
Inductive OutputMode : Type := OutText | OutImage.
Inductive FetchMode : Type := FetchAuto | FetchAlways | FetchNever.
Inductive Scope : Type := ScopeGlobal | ScopeGuild.
Inductive DetectScope : Type := DetectGuild | DetectAll.

Record Config : Type := {
  sunriseApi : option string;             (* deprecated *)
  defaultLat : QArith_base.Q;
  defaultLng : QArith_base.Q;
  abnormalThreshold : Z;
  outputMode : OutputMode;
  useStorageService : bool;
  storageCacheHours : Z;
  travelMessageTemplate : string;
  aigcEnabled : bool;
  aigcChannel : string;
  aigcPrompt : string;
  logPath : option string;                (* deprecated *)
  backgroundStoragePath : string;
  llmLocationEnabled : bool;
  llmLocationModel : string;
  llmLocationCustomContext : string;
  llmFailureCooldownMs : option Z;
  imageSearchPrompt : string;
  unsplashAccessKey : string;
  pexelsApiKey : string;
  backgroundFetchMode : FetchMode;
  backgroundFetchTimeoutMs : Z;
  backgroundInlineMaxBytes : Z;
  worldMapUseTianditu : bool;
  tiandituToken : string;
  tiandituTimeoutMs : Z;
  worldMapOfficialOnly : bool;
  logRetentionDays : Z;
  monthlySummaryEnabled : bool;
  monthlySummaryScope : Scope;
  experimentalAutoDetect : bool;
  experimentalAutoDetectScope : DetectScope;
  silentRecordEnabled : bool;
  silentRecordAutoTravel : bool;
  nightOwlEnabled : bool;
  nightOwlStartHour : option Z;
  nightOwlEndHour : option Z;
  nightOwlGrayscaleAvatar : bool;
  debug : bool;
}.

(** A string in a condition: the empty string is falsy. *)
Definition nonempty (s : string) : bool := negb (String.eqb s "").

(** The object literal that [triggerTravelSequence] passes to
    [ctx.database.create('pig_travel_log', ...)]. *)
Record NewTravelLog : Type := {
  log_userId : string;
  log_platform : string;
  log_guildId : string;
  log_timestamp : Z;
  log_country : jsval;
  log_countryZh : jsval;
  log_location : jsval;
  log_locationZh : jsval;
  log_timezone : jsval;
  log_imagePath : jsval;
  log_isAIGC : bool;
}.

(** Calls to the host that the model records, in the order made. *)
Inductive Event : Type :=
| EvCreateChatModel (model : string)
| EvInvoke
| EvPexels (query : string)
| EvUnsplash (query : string)
| EvMediaLuna (channel prompt : string)
| EvRenderCard
| EvCreateTempFile.

(** The mutable state: the module-level variable [llmCooldownUntil] of
    location.ts, the travel-log table, and the record of host calls. *)
Record World : Type := {
  llmCooldownUntil : Z;
  pig_travel_log : list NewTravelLog;
  events : list Event;
}.

Definition set_llmCooldownUntil (v : Z) (w : World) : World :=
  {| llmCooldownUntil := v;
     pig_travel_log := pig_travel_log w;
     events := events w |}.

Definition emit (e : Event) : M World unit :=
  modify (fun w => {| llmCooldownUntil := llmCooldownUntil w;
                      pig_travel_log := pig_travel_log w;
                      events := events w ++ [e] |}).

(** [ctx.database.create('pig_travel_log', row)]: the table gains the row. *)
Definition database_create (row : NewTravelLog) : M World unit :=
  modify (fun w => {| llmCooldownUntil := llmCooldownUntil w;
                      pig_travel_log := pig_travel_log w ++ [row];
                      events := events w |}).

(** [modelRef.value]: a chat model, whose [invoke] returns a reply text or
    throws, or [undefined]. *)
Inductive ModelRef : Type :=
| NoModel
| Model (reply : Result string).

(** media-luna's [GenerationResult] and its first output asset. *)
Record GenerationResult : Type := {
  gen_success : bool;
  gen_output : option (list jsval);    (* the [url] of each output asset *)
}.

Record CardResult : Type := {
  card_buffer : string;
  card_filename : string;
}.

Record CardData : Type := {
  card_location : Location;
  card_msg : string;
}.

Record UserInfo : Type := {
  userId : string;
  username : string;
  avatarUrl : string;
}.

(** What the host answers during one invocation.  An optional service that
    is not injected is [None]; a call that rejects is a [Throw].
    [randomIndex] stands for the draw [Math.random()], and the clock fields
    for the readings of [Date.now()] and [new Date()].  [renderCard] is the
    work of the browser, the file system and the network for a footprint
    card: the screenshot, or the error, for the values that
    [generateFootprintCard] reads. *)
Record Host : Type := {
  nowAtGate : Z;
  nowAtFailure : Z;
  nowAtInsert : Z;
  randomIndex : nat;
  stackDepth : nat;
  chatluna : option (Result ModelRef);
  searchPexelsPhoto : string -> string -> option string;
  searchUnsplashPhoto : string -> string -> option string;
  mediaLuna : option (Result GenerationResult);
  renderCard :
    bool -> Z -> Z -> FetchMode ->
    CardData -> UserInfo -> string -> jsval -> Result CardResult;
  chatluna_storage : option (Result jsval);   (* [fileInfo.url] *)
  http_get : string -> Result jsval;
}.

Module Resolver.
Section WithRuntime.
Context `{Runtime} `{Catalog}.

(** *** parseLocationResponse *)

(** [content.match(/```(?:json)?\s*([\s\S]*?)\s*```/)], group 1: the text
    between the first fence, an optional [json] after it, and the next
    fence, without the white space at both ends. *)
Definition fence : string := "```".

Definition fenced_block (content : string) : option string :=
  match split_first fence content with
  | None => None
  | Some (_, after) =>
      let after' := match strip_prefix "json" after with
                    | Some r => r
                    | None => after
                    end in
      match split_first fence after' with
      | None => None
      | Some (inner, _) => Some (trim_end (trim_start inner))
      end
  end.

(** [content.match(/\{[\s\S]*"country"[\s\S]*"landmark"[\s\S]*\}/)],
    group 0: from the first brace to the last closing brace, when the
    quoted words country and landmark and a closing brace follow that
    first brace in this order. *)
Definition objectMatch (content : string) : option string :=
  match split_first "{" content with
  | None => None
  | Some (_, rest) =>
      match split_first (quoted "country") rest with
      | None => None
      | Some (_, r1) =>
          match split_first (quoted "landmark") r1 with
          | None => None
          | Some (_, r2) =>
              match upto_last "}" r2 with
              | None => None
              | Some _ =>
                  match upto_last "}" rest with
                  | Some body => Some (String "{" body)
                  | None => None
                  end
              end
          end
      end
  end.

(** [url.startsWith('http')]: a method of strings only. *)
Definition startsWith_http (url : jsval) : Result bool :=
  match url with
  | JStr s => Ok (String.prefix "http" s)
  | _ => Throw TypeError
  end.

Definition result_bind {A B} (r : Result A) (k : A -> Result B) : Result B :=
  match r with
  | Ok a => k a
  | Throw e => Throw e
  end.

(** The statements of the [try] block after [JSON.parse]. *)
Definition locationOfData (data : jsval) : Result (option Location) :=
  result_bind (get_prop data "country") (fun d_country =>
  result_bind (get_prop data "landmark") (fun d_landmark =>
  result_bind (get_prop data "landscapeUrl") (fun d_landscapeUrl =>
  if negb (truthy d_country) || negb (truthy d_landmark)
     || negb (truthy d_landscapeUrl)
  then Ok None
  else
  result_bind (get_prop data "countryZh") (fun d_countryZh =>
  result_bind (get_prop data "city") (fun d_city =>
  result_bind (get_prop data "landmarkZh") (fun d_landmarkZh =>
  result_bind (get_prop data "timezone") (fun d_timezone =>
  let location :=
    {| country := d_country;
       countryZh := js_or d_countryZh d_country;
       city := js_or d_city (JStr "");
       landmark := d_landmark;
       landmarkZh := js_or d_landmarkZh d_landmark;
       timezone := js_or d_timezone (JStr "UTC");
       landscapeUrl := d_landscapeUrl |} in
  result_bind (startsWith_http (landscapeUrl location)) (fun http =>
  if negb http then
    result_bind (encodeURIComponent (landmark location)) (fun q1 =>
    result_bind (encodeURIComponent (country location)) (fun q2 =>
    let query := q1 +:+ "," +:+ q2 in
    Ok (Some
      {| country := country location;
         countryZh := countryZh location;
         city := city location;
         landmark := landmark location;
         landmarkZh := landmarkZh location;
         timezone := timezone location;
         landscapeUrl :=
           JStr ("https://images.unsplash.com/featured/?" +:+ query) |})))
  else Ok (Some location))))))))).

(** The [try] block: choose the text, parse it, build the location. *)
Definition jsonStr (content : string) : string :=
  match fenced_block content with
  | Some inner => inner
  | None => content
  end.

Definition tryBlock (content : string) : Result (option Location) :=
  match JSON_parse (trim (jsonStr content)) with
  | None => Throw SyntaxError
  | Some data => locationOfData data
  end.

(** [stack] counts the calls that still fit on the call stack: a call
    with none left is a [RangeError], which the [catch] of the calling
    frame swallows like any other error. *)
Fixpoint parseLocationResponse (stack : nat) (content : string)
  : Result (option Location) :=
  match stack with
  | O => Throw RangeError
  | S stack' =>
      match tryBlock content with
      | Ok r => Ok r
      | Throw _ =>
          match objectMatch content with
          | Some m =>
              match parseLocationResponse stack' m with
              | Ok r => Ok r
              | Throw _ => Ok None
              end
          | None => Ok None
          end
      end
  end.

(** *** getRandomStaticLocation *)

(** [LOCATIONS[Math.floor(Math.random() * LOCATIONS.length)]]: the draw
    selects an index below the length. *)
Definition getRandomStaticLocation (host : Host) : Location :=
  nth (randomIndex host mod length LOCATIONS)%nat LOCATIONS LOCATION_0.

(** *** generateLocationWithLLM *)

Definition truthy_url (u : option string) : bool :=
  match u with
  | Some s => nonempty s
  | None => false
  end.

(** [formatQuery(tmpl)]: the three replacements, each of which converts
    its replacement to a string first, then the trimming and cleaning. *)
Definition formatQuery (location : Location) (tmpl : string)
  : Result string :=
  result_bind (js_replace tmpl "{landmark}" (landmark location)) (fun r1 =>
  result_bind (js_replace r1 "{country}" (country location)) (fun r2 =>
  result_bind (js_replace r2 "{city}" (js_or (city location) (JStr "")))
    (fun r3 =>
  Ok (cleanQuery (trim r3))))).

(** The candidate search queries, [null] and empty entries removed.  The
    array literal is evaluated before any search: two template literals
    convert the landmark, the city and the country, and the last entry
    calls [replace] on the country itself. *)
Definition searchQueries (config : Config) (location : Location)
  : Result (list string) :=
  let template :=
    if nonempty (imageSearchPrompt config) then imageSearchPrompt config
    else "{landmark} {country} landscape" in
  result_bind (formatQuery location template) (fun primary =>
  result_bind (interpolate [landmark location; country location])
    (fun specific =>
  result_bind
    (if truthy (city location)
     then result_bind (interpolate [city location; country location])
            (fun parts => Ok (cleanQuery (String.concat " " parts)))
     else Ok "") (fun byCity =>
  result_bind (cleanQueryOf (country location)) (fun byCountry =>
  Ok (List.filter nonempty
        [ primary;
          cleanQuery (String.concat " " specific);
          byCity;
          byCountry ]))))).

(** The [for] loop over the queries; [photoUrl] is the variable of that
    name, and the loop stops at the first truthy result. *)
Fixpoint searchLoop (config : Config) (host : Host)
    (queries : list string) (photoUrl : option string)
  : M World (option string) :=
  match queries with
  | [] => ret photoUrl
  | query :: rest =>
      let* p1 :=
        (if nonempty (pexelsApiKey config)
         then emit (EvPexels query) ;;;
              ret (searchPexelsPhoto host (pexelsApiKey config) query)
         else ret photoUrl) in
      let* p2 :=
        (if negb (truthy_url p1) && nonempty (unsplashAccessKey config)
         then emit (EvUnsplash query) ;;;
              ret (searchUnsplashPhoto host (unsplashAccessKey config) query)
         else ret p1) in
      if truthy_url p2 then ret p2 else searchLoop config host rest p2
  end.

Definition with_landscapeUrl (location : Location) (url : jsval) : Location :=
  {| country := country location;
     countryZh := countryZh location;
     city := city location;
     landmark := landmark location;
     landmarkZh := landmarkZh location;
     timezone := timezone location;
     landscapeUrl := url |}.

Definition replacePhoto (config : Config) (host : Host) (location : Location)
  : M World Location :=
  if nonempty (unsplashAccessKey config) || nonempty (pexelsApiKey config)
  then
    let* queries := lift (searchQueries config location) in
    let* photoUrl := searchLoop config host queries None in
    match photoUrl with
    | Some url =>
        if nonempty url then ret (with_landscapeUrl location (JStr url))
        else ret location
    | None => ret location
    end
  else ret location.

(** The conversions of the log line that follows a successful parse:
    [`... ${location.landmarkZh} (${location.landmark}),
    ${location.countryZh}`]. *)
Definition generatedLine (location : Location) : Result (list string) :=
  interpolate [landmarkZh location; landmark location; countryZh location].

(** [if (cooldownMs > 0) llmCooldownUntil = Date.now() + cooldownMs] *)
Definition startCooldown (host : Host) (cooldownMs : Z) : M World unit :=
  when (cooldownMs >? 0)
       (modify (set_llmCooldownUntil (nowAtFailure host + cooldownMs))).

Definition available {A} (service : option A) : bool :=
  match service with
  | Some _ => true
  | None => false
  end.

(** [await ctx.chatluna.createChatModel(name)] *)
Definition createChatModel (host : Host) (name : string) : M World ModelRef :=
  emit (EvCreateChatModel name) ;;;
  match chatluna host with
  | Some outcome => lift outcome
  | None => throw TypeError
  end.

(** [await model.invoke(messages, { temperature: 1.0 })], reduced to its
    text: the prompt is not modelled, the reply is any text or error. *)
Definition invoke (reply : Result string) : M World string :=
  emit EvInvoke ;;; lift reply.

Definition generateLocationWithLLM (config : Config) (host : Host)
  : M World Location :=
  if negb (llmLocationEnabled config)
     || negb (nonempty (llmLocationModel config))
     || negb (available (chatluna host))
  then ret (getRandomStaticLocation host)
  else
    let cooldownMs := default 0 (llmFailureCooldownMs config) in
    let* cooldownUntil := gets llmCooldownUntil in
    if (cooldownMs >? 0) && (nowAtGate host <? cooldownUntil)
    then ret (getRandomStaticLocation host)
    else
      try_catch
        (let* modelRef := createChatModel host (llmLocationModel config) in
         match modelRef with
         | NoModel =>
             startCooldown host cooldownMs ;;;
             ret (getRandomStaticLocation host)
         | Model reply =>
             let* content := invoke reply in
             let* location :=
               lift (parseLocationResponse (S (stackDepth host)) content) in
             match location with
             | Some location =>
                 modify (set_llmCooldownUntil 0) ;;;
                 lift (generatedLine location) ;;;
                 replacePhoto config host location
             | None => ret (getRandomStaticLocation host)
             end
         end)
        (fun _ =>
           startCooldown host cooldownMs ;;;
           ret (getRandomStaticLocation host)).

End WithRuntime.
End Resolver.

(** * The Travel Orchestrator *)

Module Travel.
Section WithRuntime.
Context `{Runtime} `{Catalog}.

Record TravelResult : Type := {
  location : Location;
  imageBuffer : option string;
  imageUrl : jsval;
  isAIGC : bool;
  msg : string;
}.

(** [await ctx.mediaLuna.generateByName({ channelName, prompt, ... })] *)
Definition generateByName (host : Host) (channel prompt : string)
  : M World GenerationResult :=
  emit (EvMediaLuna channel prompt) ;;;
  match mediaLuna host with
  | Some outcome => lift outcome
  | None => throw TypeError
  end.

(** [config.aigcPrompt.replace('{landmark}', ...).replace('{country}',
    ...)] *)
Definition aigcPromptFor (config : Config) (location : Location)
  : Result string :=
  Resolver.result_bind
    (js_replace (aigcPrompt config) "{landmark}" (landmark location))
    (fun withLandmark =>
       js_replace withLandmark "{country}" (country location)).

(** The AIGC block: the background URL it found, or [null], and the
    value of [isAIGC] after it.  The log line that names the landmark and
    the prompt are built before the [try].  Inside it, the URL of the
    first output is assigned to [backgroundUrl] before the log line that
    converts it, so a conversion that throws leaves the URL assigned and
    clears the flag in the [catch]. *)
Definition aigcBackground (config : Config) (host : Host)
    (location : Location) : M World (jsval * bool) :=
  if aigcEnabled config && nonempty (aigcChannel config)
     && Resolver.available (mediaLuna host)
  then
    lift (ToString (landmark location)) ;;;
    let* prompt := lift (aigcPromptFor config location) in
    try_catch
      (let* result := generateByName host (aigcChannel config) prompt in
       match gen_output result with
       | Some (output :: _) =>
           if gen_success result
           then if truthy output
                then try_catch
                       (lift (ToString output) ;;; ret (output, true))
                       (fun _ => ret (output, false))
                else ret (JNull, true)
           else ret (JNull, false)
       | _ => ret (JNull, false)
       end)
      (fun _ => ret (JNull, false))
  else ret (JNull, false).

(** [if (!backgroundUrl) { backgroundUrl = location.landscapeUrl; ... }]
    with the log line that converts the landmark and the URL. *)
Definition presetBackground (location : Location) (backgroundUrl : jsval)
  : M World jsval :=
  if negb (truthy backgroundUrl)
  then lift (interpolate [landmark location; landscapeUrl location]) ;;;
       ret (landscapeUrl location)
  else ret backgroundUrl.

(** [if (config.debug) ctx.logger('pig').debug(`... ${backgroundUrl}`)] *)
Definition debugBackground (config : Config) (backgroundUrl : jsval)
  : M World unit :=
  when (debug config) (lift (ToString backgroundUrl) ;;; ret tt).

(** card.ts, [generateFootprintCard].  Of the configuration the function
    reads [debug], [backgroundInlineMaxBytes], [backgroundFetchTimeoutMs]
    and [backgroundFetchMode], which decide how the background image is
    fetched and inlined; the page and its screenshot are the host's. *)
Definition generateFootprintCard (host : Host) (config : Config)
    (data : CardData) (userInfo : UserInfo) (platform : string)
    (backgroundUrl : jsval) : Result CardResult :=
  let inlineMaxBytes := backgroundInlineMaxBytes config in
  let fetchTimeoutMs := backgroundFetchTimeoutMs config in
  let mode := backgroundFetchMode config in
  renderCard host (debug config) inlineMaxBytes fetchTimeoutMs mode
    data userInfo platform backgroundUrl.

(** [await ctx.chatluna_storage.createTempFile(buffer, filename, hours)],
    reduced to the [url] of the file information it returns. *)
Definition createTempFile (host : Host) : M World jsval :=
  emit EvCreateTempFile ;;;
  match chatluna_storage host with
  | Some outcome => lift outcome
  | None => throw TypeError
  end.

(** The card block: [imageBuffer] and [imageUrl] after it. *)
Definition renderAndUpload (config : Config) (host : Host)
    (cardData : CardData) (userInfo : UserInfo) (platform : string)
    (backgroundUrl : jsval) : M World (option string * jsval) :=
  try_catch
    (emit EvRenderCard ;;;
     let* cardResult :=
       lift (generateFootprintCard host config cardData userInfo platform
               backgroundUrl) in
     let imageBuffer := Some (card_buffer cardResult) in
     if useStorageService config && Resolver.available (chatluna_storage host)
     then
       try_catch
         (let* url := createTempFile host in
          ret (imageBuffer, url))
         (fun _ => ret (imageBuffer, JNull))
     else ret (imageBuffer, JNull))
    (fun _ => ret (None, JNull)).

Definition is_image (mode : OutputMode) : bool :=
  match mode with
  | OutImage => true
  | OutText => false
  end.

(** [config.travelMessageTemplate.replace('{landmark}', ...)
    .replace('{country}', ...)] *)
Definition travelMessage (config : Config) (location : Location)
  : Result string :=
  Resolver.result_bind
    (js_replace (travelMessageTemplate config) "{landmark}"
       (js_or (landmarkZh location) (landmark location)))
    (fun withLandmark =>
       js_replace withLandmark "{country}"
         (js_or (countryZh location) (country location))).

Definition triggerTravelSequence (host : Host) (config : Config)
    (userInfo : UserInfo) (platform guildId : string)
  : M World TravelResult :=
  let* location :=
    (if llmLocationEnabled config && Resolver.available (chatluna host)
     then Resolver.generateLocationWithLLM config host
     else ret (Resolver.getRandomStaticLocation host)) in
  let* msg := lift (travelMessage config location) in
  let* image :=
    (if is_image (outputMode config)
     then
       let* aigc := aigcBackground config host location in
       let* backgroundUrl := presetBackground location (fst aigc) in
       debugBackground config backgroundUrl ;;;
       let* card :=
         renderAndUpload config host
           {| card_location := location; card_msg := msg |}
           userInfo platform backgroundUrl in
       ret (fst card, snd card, snd aigc)
     else ret (None, JNull, false)) in
  let '(imageBuffer, imageUrl, isAIGC) := image in
  database_create
    {| log_userId := userId userInfo;
       log_platform := platform;
       log_guildId := guildId;
       log_timestamp := nowAtInsert host;
       log_country := country location;
       log_countryZh := js_or (countryZh location) (country location);
       log_location := landmark location;
       log_locationZh := js_or (landmarkZh location) (landmark location);
       log_timezone := js_or (timezone location) (JStr "UTC");
       log_imagePath := js_or imageUrl (JStr "");
       log_isAIGC := isAIGC |} ;;;
  ret {| location := location;
         imageBuffer := imageBuffer;
         imageUrl := imageUrl;
         isAIGC := isAIGC;
         msg := msg |}.

(** *** services/sunrise.ts *)

Record SunriseInfo : Type := {
  sunrise : Z;
  sunset : Z;
}.

Definition sunriseRequestUrl (lat lng : QArith_base.Q) (date : string)
  : string :=
  "https://api.sunrise-sunset.org/json?lat=" +:+ NumberToString lat
  +:+ "&lng=" +:+ NumberToString lng
  +:+ "&formatted=0&date=" +:+ date.

Definition is_OK (status : jsval) : bool :=
  match status with
  | JStr s => String.eqb s "OK"
  | _ => false
  end.

Definition getSunriseInfo (host : Host) (lat lng : QArith_base.Q)
    (date : string) : Result SunriseInfo :=
  Resolver.result_bind (http_get host (sunriseRequestUrl lat lng date))
    (fun data =>
  Resolver.result_bind (get_prop data "status") (fun status =>
  if negb (is_OK status)
  then Throw (HostError "Failed to fetch sunrise info")
  else
  Resolver.result_bind (get_prop data "results") (fun results =>
  Resolver.result_bind (get_prop results "sunrise") (fun rise =>
  Resolver.result_bind (get_prop results "sunset") (fun set =>
  Ok {| sunrise := newDate rise; sunset := newDate set |}))))).

End WithRuntime.
End Travel.

(** * Aggregation queries: the trip leaderboard *)

Module Leaderboard.
Section WithMapping.

(** utils/countryMapping.ts is not among the sources: the ISO-code lookup
    is any function from a country name to a code, [None] or the empty
    string when it knows none. *)
Variable getCountryISOCode : string -> option string.

(** The columns of a stored travel-log row (database.ts). *)
Record PigTravelLog : Type := {
  id : Z;
  userId : string;
  platform : string;
  guildId : string;
  timestamp : Z;
  country : string;
  countryZh : string;
  location : string;
  locationZh : string;
  timezone : string;
  imagePath : string;
  isAIGC : bool;
}.

Record PigLeaderboardEntry : Type := {
  e_userId : string;
  e_username : string;
  e_avatarUrl : string;
  e_tripCount : Z;
  e_countryCount : Z;
  e_score : Z;
}.

(** [ctx.database.get('pig_travel_log', { guildId, platform })] *)
Definition database_get (table : list PigTravelLog) (g p : string)
  : list PigTravelLog :=
  List.filter (fun log => String.eqb (guildId log) g
                          && String.eqb (platform log) p) table.

(** The value of [{ tripCount, countries }] in the [Map]. *)
Record UserStat : Type := {
  tripCount : Z;
  countries : gset string;
}.

(** A [Map<string, UserStat>] keeps its keys in insertion order. *)
Definition StatMap : Type := list (string * UserStat).

Fixpoint map_has (k : string) (m : StatMap) : bool :=
  match m with
  | [] => false
  | (k', _) :: rest => String.eqb k' k || map_has k rest
  end.

(** [m.set(k, v)] for a key that [m] does not have. *)
Definition map_set_new (k : string) (v : UserStat) (m : StatMap) : StatMap :=
  m ++ [(k, v)].

(** Mutation of the object that [m.get(k)] returns. *)
Fixpoint map_mutate (k : string) (f : UserStat -> UserStat) (m : StatMap)
  : StatMap :=
  match m with
  | [] => []
  | (k', v) :: rest =>
      if String.eqb k' k then (k', f v) :: rest
      else (k', v) :: map_mutate k f rest
  end.

(** A looked-up code in a condition: [null] and the empty string are
    falsy. *)
Definition codeOf (name : string) : option string :=
  match getCountryISOCode name with
  | Some code => if nonempty code then Some code else None
  | None => None
  end.

(** [getCountryISOCode(log.country) || getCountryISOCode(log.countryZh)
    || log.country] *)
Definition countryKey (log : PigTravelLog) : string :=
  match codeOf (country log) with
  | Some code => code
  | None =>
      match codeOf (countryZh log) with
      | Some code => code
      | None => country log
      end
  end.

(** One iteration of [for (const log of logs)]. *)
Definition addLog (userStats : StatMap) (log : PigTravelLog) : StatMap :=
  let userStats1 :=
    if negb (map_has (userId log) userStats)
    then map_set_new (userId log)
           {| tripCount := 0; countries := ∅ |} userStats
    else userStats in
  map_mutate (userId log)
    (fun stat => {| tripCount := tripCount stat + 1;
                    countries := countries stat ∪ {[ countryKey log ]} |})
    userStats1.

Definition entryOf (kv : string * UserStat) : PigLeaderboardEntry :=
  let countryCount := Z.of_nat (size (countries (snd kv))) in
  {| e_userId := fst kv;
     e_username := fst kv;
     e_avatarUrl := "";
     e_tripCount := tripCount (snd kv);
     e_countryCount := countryCount;
     e_score := tripCount (snd kv) + countryCount * 2 |}.

(** [entries.sort((a, b) => b.score - a.score)].  The sort of an array is
    stable, so its result is the one of any stable sort; this one inserts
    each entry, from the last to the first, before the first entry that
    the comparator does not put ahead of it. *)
Definition compareFn (a b : PigLeaderboardEntry) : Z := e_score b - e_score a.

Fixpoint insertEntry (a : PigLeaderboardEntry) (sorted : list PigLeaderboardEntry)
  : list PigLeaderboardEntry :=
  match sorted with
  | [] => [a]
  | b :: rest =>
      if compareFn a b <=? 0 then a :: b :: rest
      else b :: insertEntry a rest
  end.

Definition sortEntries (entries : list PigLeaderboardEntry)
  : list PigLeaderboardEntry :=
  fold_right insertEntry [] entries.

(** The entries before sorting, in the iteration order of the [Map]. *)
Definition leaderboardEntries (logs : list PigTravelLog)
  : list PigLeaderboardEntry :=
  List.map entryOf (fold_left addLog logs []).

Definition getPigLeaderboard (table : list PigTravelLog) (g p : string)
    (limit : nat) : list PigLeaderboardEntry :=
  let logs := database_get table g p in
  if (length logs =? 0)%nat then []
  else firstn limit (sortEntries (leaderboardEntries logs)).

End WithMapping.
End Leaderboard.

(** * The World-Map SVG Patcher

    In this module a string is the list of its code units, which makes the
    scans of the regular expressions structural. *)

Module WorldMap.

(** The code units of a literal. *)
Definition lit (s : string) : list ascii := list_ascii_of_string s.

Record VisitedCountry : Type := {
  isoCode : list ascii;
  countryName : list ascii;
  countryNameZh : list ascii;
  visitCount : Z;
  firstVisit : Z;
  lastVisit : Z;
}.

Definition getVisitClass (count : Z) : list ascii :=
  if count >=? 5 then lit "visited-4"
  else if count >=? 3 then lit "visited-3"
  else if count >=? 1 then lit "visited-2"
  else [].

(** ** Characters *)

(** [\w]: letters, digits and the underscore. *)
Definition is_word (c : ascii) : bool :=
  let n := nat_of_ascii c in
  ((48 <=? n) && (n <=? 57) || (65 <=? n) && (n <=? 90)
   || (97 <=? n) && (n <=? 122) || (n =? 95))%nat.

(** The canonical form of a character under the flag [i]: its upper case,
    for the letters of ASCII and of Latin-1 that have one below 256. *)
Definition canonicalize (c : ascii) : ascii :=
  let n := nat_of_ascii c in
  if ((97 <=? n) && (n <=? 122)
      || (224 <=? n) && (n <=? 254) && negb (n =? 247))%nat
  then ascii_of_nat (n - 32)
  else c.

Definition eq_cs (a b : ascii) : bool := Ascii.eqb a b.
Definition eq_ci (a b : ascii) : bool :=
  Ascii.eqb (canonicalize a) (canonicalize b).

(** [s.toUpperCase()], on the same letters. *)
Definition toUpperCase (s : list ascii) : list ascii := List.map canonicalize s.

(** The class of the two quote characters in the patterns, written Q
    below. *)
Definition is_quote (c : ascii) : bool := Ascii.eqb c dq || Ascii.eqb c "'".

(** ** Pieces of the patterns *)

(** The literal [pat] at the start of [s], compared with [eq]: the text it
    matched and the text behind it. *)
Fixpoint match_lit (eq : ascii -> ascii -> bool) (pat s : list ascii)
  : option (list ascii * list ascii) :=
  match pat with
  | [] => Some ([], s)
  | p :: pat' =>
      match s with
      | [] => None
      | c :: s' =>
          if eq p c
          then match match_lit eq pat' s' with
               | Some (m, r) => Some (c :: m, r)
               | None => None
               end
          else None
      end
  end.

(** [[^>]*] followed by [>]: the text before the first [>] and the text
    behind it. *)
Fixpoint until_gt (s : list ascii) : option (list ascii * list ascii) :=
  match s with
  | [] => None
  | c :: s' =>
      if Ascii.eqb c ">" then Some ([], s')
      else match until_gt s' with
           | Some (t, r) => Some (c :: t, r)
           | None => None
           end
  end.

(** Any characters but quotes, followed by a quote: the text before the
    first quote, that quote, and the text behind it. *)
Fixpoint until_quote (s : list ascii)
  : option (list ascii * ascii * list ascii) :=
  match s with
  | [] => None
  | c :: s' =>
      if is_quote c then Some ([], c, s')
      else match until_quote s' with
           | Some (t, q, r) => Some (c :: t, q, r)
           | None => None
           end
  end.

(** [\battr=Q value Q] under the flag [i], at the start of [s] with
    [prev] the character before it.  The names id, name and class start
    with a word character, so that the boundary holds exactly when [prev]
    is not a word character.  The result is the text matched and the text
    behind it. *)
Definition attr_here (attr value : list ascii) (prev : ascii) (s : list ascii)
  : option (list ascii * list ascii) :=
  if is_word prev then None
  else
    match match_lit eq_ci (attr ++ lit "=") s with
    | Some (m1, q1 :: s2) =>
        if is_quote q1
        then match match_lit eq_ci value s2 with
             | Some (m2, q2 :: s4) =>
                 if is_quote q2 then Some (m1 ++ q1 :: m2 ++ [q2], s4)
                 else None
             | _ => None
             end
        else None
    | _ => None
    end.

(** The attribute, then [[^>]*>]. *)
Definition attr_to_gt (attr value : list ascii) (prev : ascii)
    (s : list ascii) : option (list ascii * list ascii) :=
  match attr_here attr value prev s with
  | Some (m, r) =>
      match until_gt r with
      | Some (t, rest) => Some (m ++ t, rest)
      | None => None
      end
  | None => None
  end.

(** [[^>]*\battr=Q value Q[^>]*>] behind a [<]: the first star is
    greedy, so the attribute is tried at the furthest place first.  The
    result is group 1 without its [<], and the text behind the [>]. *)
Fixpoint scan_tag (attr value : list ascii) (prev : ascii) (s : list ascii)
  : option (list ascii * list ascii) :=
  match s with
  | [] => attr_to_gt attr value prev s
  | c :: s' =>
      if Ascii.eqb c ">" then attr_to_gt attr value prev s
      else match scan_tag attr value c s' with
           | Some (g, rest) => Some (c :: g, rest)
           | None => attr_to_gt attr value prev s
           end
  end.

(** [svg.replace(new RegExp(pattern, 'gi'), (match, prefix, suffix) =>
    callback(prefix))] where the pattern has two groups, the tag up to its
    closing [>] and that [>]: every match, from the left, gives way to what
    the callback returns for its group 1.
    After a match the scan resumes behind it: [skip] counts the characters
    of the match that are still to pass. *)
Fixpoint replace_tags (attr value : list ascii)
    (callback : list ascii -> list ascii) (skip : nat) (s : list ascii)
  : list ascii :=
  match s with
  | [] => []
  | c :: s' =>
      match skip with
      | S skip' => replace_tags attr value callback skip' s'
      | O =>
          if Ascii.eqb c "<"
          then match scan_tag attr value c s' with
               | Some (g, _) =>
                   callback (c :: g)
                   ++ replace_tags attr value callback (S (length g)) s'
               | None => c :: replace_tags attr value callback 0 s'
               end
          else c :: replace_tags attr value callback 0 s'
      end
  end.

(** [\bclass=], a quote, characters that are no quotes (the group) and a
    quote, case-sensitive, at the start of [s]: the two quotes, the
    class value between them, and the text behind. *)
Definition class_here (prev : option ascii) (s : list ascii)
  : option (ascii * list ascii * ascii * list ascii) :=
  if match prev with
     | Some p => is_word p
     | None => false
     end
  then None
  else
    match match_lit eq_cs (lit "class=") s with
    | Some (_, q1 :: s2) =>
        if is_quote q1
        then match until_quote s2 with
             | Some (cls, q2, rest) => Some (q1, cls, q2, rest)
             | None => None
             end
        else None
    | _ => None
    end.

(** The first match of that expression: the text before it, the match,
    the text behind it. *)
Fixpoint find_class (prev : option ascii) (s : list ascii)
  : option (list ascii * (ascii * list ascii * ascii) * list ascii) :=
  match class_here prev s with
  | Some (q1, cls, q2, rest) => Some ([], (q1, cls, q2), rest)
  | None =>
      match s with
      | [] => None
      | c :: s' =>
          match find_class (Some c) s' with
          | Some (before, m, rest) => Some (c :: before, m, rest)
          | None => None
          end
      end
  end.

(** Whether the literal [pat] occurs somewhere in [s]. *)
Fixpoint occurs (eq : ascii -> ascii -> bool) (pat s : list ascii) : bool :=
  match match_lit eq pat s with
  | Some _ => true
  | None =>
      match s with
      | [] => false
      | _ :: s' => occurs eq pat s'
      end
  end.

(** [s.includes(pat)] *)
Definition includes (pat s : list ascii) : bool := occurs eq_cs pat s.

Fixpoint trim_start (s : list ascii) : list ascii :=
  match s with
  | [] => []
  | c :: s' => if is_space c then trim_start s' else s
  end.

Fixpoint trim_end (s : list ascii) : list ascii :=
  match s with
  | [] => []
  | c :: s' =>
      match trim_end s' with
      | [] => if is_space c then [] else [c]
      | t => c :: t
      end
  end.

Definition trim (s : list ascii) : list ascii := trim_end (trim_start s).

(** The attribute [class] with the value [`${cls} ${className}`.trim()]
    in double quotes. *)
Definition mergedClass (cls className : list ascii) : list ascii :=
  lit "class=" ++ dq :: trim (cls ++ lit " " ++ className) ++ [dq].

(** ** addClassToElement and processMapSvg *)

Definition addClassToElement (prefix suffix className : list ascii)
  : list ascii :=
  match find_class None prefix with
  | Some (before, (q1, cls, q2), rest) =>
      before
      ++ (if includes (lit "visited") cls
          then lit "class=" ++ q1 :: cls ++ [q2]
          else mergedClass cls className)
      ++ rest ++ suffix
  | None => prefix ++ lit " class=" ++ dq :: className ++ dq :: suffix
  end.

(** The callback of the third pattern: [prefix.replace(existingClassRegex,
    ...) + suffix], with no look at what the class already holds. *)
Definition mergeClassOfElement (prefix suffix visitClass : list ascii)
  : list ascii :=
  match find_class None prefix with
  | Some (before, (_, cls, _), rest) =>
      before ++ mergedClass cls visitClass ++ rest ++ suffix
  | None => prefix ++ suffix
  end.

Definition nonempty (s : list ascii) : bool :=
  match s with
  | [] => false
  | _ => true
  end.

(** The body of the loop over the visited countries.  The ISO code goes
    into the first pattern as it is: the model reads it as a literal, which
    it is when it has no character that is special in a pattern. *)
Definition highlight (svg : list ascii) (country : VisitedCountry)
  : list ascii :=
  let isoCode := toUpperCase (isoCode country) in
  let englishName := countryName country in
  let visitClass := lit "visited " ++ getVisitClass (visitCount country) in
  let svg1 :=
    replace_tags (lit "id") isoCode
      (fun prefix => addClassToElement prefix (lit ">") visitClass) 0 svg in
  let svg2 :=
    if nonempty englishName
    then replace_tags (lit "name") englishName
           (fun prefix => addClassToElement prefix (lit ">") visitClass) 0 svg1
    else svg1 in
  if nonempty englishName
  then replace_tags (lit "class") englishName
         (fun prefix => mergeClassOfElement prefix (lit ">") visitClass) 0 svg2
  else svg2.

Definition processMapSvg (svgContent : list ascii)
    (visitedCountries : list VisitedCountry) : list ascii :=
  fold_left highlight visitedCountries svgContent.

(** ** Markup, tag by tag

    A document seen as its tags and the text between them, and what the
    patcher does to one tag. *)

Inductive chunk : Type :=
| Text (t : list ascii)
| Tag (body : list ascii).

Definition render_chunk (k : chunk) : list ascii :=
  match k with
  | Text t => t
  | Tag body => "<"%char :: body ++ [">"%char]
  end.

Definition render (doc : list chunk) : list ascii :=
  flat_map render_chunk doc.

(** Whether the attribute of a pattern is somewhere in [s]. *)
Fixpoint has_attr (attr value : list ascii) (prev : ascii) (s : list ascii)
  : bool :=
  match attr_here attr value prev s with
  | Some _ => true
  | None =>
      match s with
      | [] => false
      | c :: s' => has_attr attr value c s'
      end
  end.

(** [addClassToElement] and the callback of the third pattern, on the text
    between the [<] and the [>] of a tag. *)
Definition addClass (className body : list ascii) : list ascii :=
  match find_class (Some "<"%char) body with
  | Some (before, (q1, cls, q2), rest) =>
      before
      ++ (if includes (lit "visited") cls
          then lit "class=" ++ q1 :: cls ++ [q2]
          else mergedClass cls className)
      ++ rest
  | None => body ++ lit " class=" ++ dq :: className ++ [dq]
  end.

Definition mergeClass (visitClass body : list ascii) : list ascii :=
  match find_class (Some "<"%char) body with
  | Some (before, (_, cls, _), rest) =>
      before ++ mergedClass cls visitClass ++ rest
  | None => body
  end.

Definition patchTag (attr value : list ascii)
    (change : list ascii -> list ascii) (body : list ascii) : list ascii :=
  if has_attr attr value "<" body then change body else body.

Definition highlightTag (body : list ascii) (country : VisitedCountry)
  : list ascii :=
  let isoCode := toUpperCase (isoCode country) in
  let englishName := countryName country in
  let visitClass := lit "visited " ++ getVisitClass (visitCount country) in
  let body1 := patchTag (lit "id") isoCode (addClass visitClass) body in
  let body2 :=
    if nonempty englishName
    then patchTag (lit "name") englishName (addClass visitClass) body1
    else body1 in
  if nonempty englishName
  then patchTag (lit "class") englishName (mergeClass visitClass) body2
  else body2.

Definition patchBody (visitedCountries : list VisitedCountry)
    (body : list ascii) : list ascii :=
  fold_left highlightTag visitedCountries body.

Definition onTags (change : list ascii -> list ascii) (k : chunk) : chunk :=
  match k with
  | Text t => Text t
  | Tag body => Tag (change body)
  end.

Definition patchChunk (visitedCountries : list VisitedCountry) : chunk -> chunk :=
  onTags (patchBody visitedCountries).

(** Whether one of the three patterns of a country matches a tag. *)
Definition claims (country : VisitedCountry) (body : list ascii) : bool :=
  has_attr (lit "id") (toUpperCase (isoCode country)) "<" body
  || nonempty (countryName country)
     && (has_attr (lit "name") (countryName country) "<" body
         || has_attr (lit "class") (countryName country) "<" body).

(** The value of the class attribute that the patcher looks at. *)
Definition classValue (body : list ascii) : option (list ascii) :=
  match find_class (Some "<"%char) body with
  | Some (_, (_, cls, _), _) => Some cls
  | None => None
  end.

(** Whether that class is absent or free of [visited]. *)
Definition unmarked (body : list ascii) : bool :=
  match classValue body with
  | Some cls => negb (includes (lit "visited") cls)
  | None => true
  end.

(** ** Regular markup *)

Definition no_angle (c : ascii) : bool :=
  negb (Ascii.eqb c "<") && negb (Ascii.eqb c ">").

Definition class_char (c : ascii) : bool :=
  negb (is_quote c) && negb (Ascii.eqb c "=") && no_angle c.

Definition name_char (c : ascii) : bool := negb (is_quote c) && no_angle c.

(** Text has no [<], and the inside of a tag neither [<] nor [>]. *)
Definition well_formed (k : chunk) : bool :=
  match k with
  | Text t => forallb (fun c => negb (Ascii.eqb c "<")) t
  | Tag body => forallb no_angle body
  end.

(** A tag with one class attribute: it stands behind white space, and
    [class=] occurs nowhere else in the tag, in no spelling. *)
Record class_form (before : list ascii) (sp q1 : ascii) (cls : list ascii)
    (q2 : ascii) (rest : list ascii) : Prop := {
  form_before : forallb no_angle before = true;
  form_before_class : occurs eq_ci (lit "class=") before = false;
  form_space : is_space sp = true;
  form_open : is_quote q1 = true;
  form_value : forallb class_char cls = true;
  form_close : is_quote q2 = true;
  form_rest : forallb no_angle rest = true;
  form_rest_class : occurs eq_ci (lit "class=") rest = false;
}.

(** A regular tag has no class attribute, in no spelling, or one. *)
Inductive regular_body : list ascii -> Prop :=
| regular_without_class body :
    forallb no_angle body = true ->
    occurs eq_ci (lit "class=") body = false ->
    regular_body body
| regular_with_class before sp q1 cls q2 rest :
    class_form before sp q1 cls q2 rest ->
    regular_body (before ++ sp :: lit "class=" ++ q1 :: cls ++ q2 :: rest).

(** A marked tag is a regular one whose class holds [visited]. *)
Inductive marked_body : list ascii -> Prop :=
| marked_class before sp q1 cls q2 rest :
    class_form before sp q1 cls q2 rest ->
    includes (lit "visited") cls = true ->
    marked_body (before ++ sp :: lit "class=" ++ q1 :: cls ++ q2 :: rest).

(** A callback leaves a regular tag as it is or marks it. *)
Definition settles (body body' : list ascii) : Prop :=
  body' = body \/ marked_body body'.

Definition regular_chunk (k : chunk) : Prop :=
  well_formed k = true
  /\ match k with
     | Text _ => True
     | Tag body => regular_body body
     end.

(** A regular country: an ISO code of word characters, and a name without
    quotes or angle brackets in which [visited] does not occur, in no
    spelling. *)
Definition regular_country (country : VisitedCountry) : bool :=
  forallb is_word (isoCode country)
  && forallb name_char (countryName country)
  && negb (occurs eq_ci (lit "visited") (countryName country)).

(** ** Notions for the proofs *)

(** Characters that equal no other one when case is ignored. *)
Definition plain (c : ascii) : bool :=
  is_quote c || is_space c || Ascii.eqb c ">" || Ascii.eqb c "<"
  || Ascii.eqb c "=".

(** All characters. *)
Definition all_chars : list ascii := List.map ascii_of_nat (seq 0 256).

(** No character of [pat] matches [c]. *)
Definition avoids (eq : ascii -> ascii -> bool) (pat : list ascii)
    (c : ascii) : bool :=
  forallb (fun p => negb (eq p c)) pat.

(** What a pattern needs of its attribute and value to stay inside a tag. *)
Definition inside_tags (attr value : list ascii) : Prop :=
  avoids eq_ci (attr ++ lit "=") ">" = true /\ avoids eq_ci value ">" = true.

(** [cls] is [name], when case is ignored. *)
Definition ci_equal (name cls : list ascii) : bool :=
  match match_lit eq_ci name cls with
  | Some (_, []) => true
  | _ => false
  end.

End WorldMap.

(** * Behavioural middleware: message statistics and night owls *)

Module Stats.
Section WithClock.

(** The host's local time is UTC plus a fixed offset, in milliseconds. *)
Variable tzOffsetMs : Z.

(** The column [hourlyMessageCounts] holds the JSON text of a
    [Record<string, number>].  [parseHourly] is [JSON.parse] on such a
    text, [None] when it throws; [stringifyHourly] is [JSON.stringify]. *)
Variable parseHourly : string -> option (gmap string Z).
Variable stringifyHourly : gmap string Z -> string.

(** A row of [pig_user_state]; a column that was never written is
    [None]. *)
Record PigUserState : Type := {
  userId : string;
  platform : string;
  guildId : string;
  lastWakeUp : option Z;
  lastSunrise : option Z;
  abnormalCount : option Z;
  nightOwlCount : option Z;
  lastNightOwlDate : option Z;
  totalMessageCount : option Z;
  nightMessageCount : option Z;
  hourlyMessageCounts : option string;
}.

(** The fields of a session that the middleware reads; [elements] is the
    length of [session.elements] when that is an array. *)
Record Session : Type := {
  s_userId : string;
  s_platform : string;
  s_guildId : string;
  s_content : string;
  s_elements : option nat;
}.

(** [updateData]: the key and the columns it sets. *)
Record UpdateData : Type := {
  u_userId : string;
  u_platform : string;
  u_guildId : string;
  u_totalMessageCount : Z;
  u_nightMessageCount : Z;
  u_hourlyMessageCounts : string;
  u_nightOwl : option (Z * Z);   (* nightOwlCount and lastNightOwlDate *)
}.

Definition getHours (t : Z) : Z := ((t + tzOffsetMs) / 3600000) mod 24.

(** [new Date(d.getFullYear(), d.getMonth(), d.getDate()).getTime()]:
    the start of the local day of [t]. *)
Definition dateOnly (t : Z) : Z :=
  ((t + tzOffsetMs) / 86400000) * 86400000 - tzOffsetMs.

Definition same_key (userId' platform' guildId' : string)
    (row : PigUserState) : bool :=
  String.eqb (userId row) userId' && String.eqb (platform row) platform'
  && String.eqb (guildId row) guildId'.

(** [const [userState] = await ctx.database.get('pig_user_state', key)] *)
Definition database_get (table : list PigUserState)
    (userId' platform' guildId' : string) : option PigUserState :=
  head (List.filter (same_key userId' platform' guildId') table).

Definition applyUpdate (u : UpdateData) (row : PigUserState) : PigUserState :=
  {| userId := userId row;
     platform := platform row;
     guildId := guildId row;
     lastWakeUp := lastWakeUp row;
     lastSunrise := lastSunrise row;
     abnormalCount := abnormalCount row;
     nightOwlCount :=
       match u_nightOwl u with
       | Some (count, _) => Some count
       | None => nightOwlCount row
       end;
     lastNightOwlDate :=
       match u_nightOwl u with
       | Some (_, date) => Some date
       | None => lastNightOwlDate row
       end;
     totalMessageCount := Some (u_totalMessageCount u);
     nightMessageCount := Some (u_nightMessageCount u);
     hourlyMessageCounts := Some (u_hourlyMessageCounts u) |}.

Definition newRow (u : UpdateData) : PigUserState :=
  applyUpdate u
    {| userId := u_userId u;
       platform := u_platform u;
       guildId := u_guildId u;
       lastWakeUp := None;
       lastSunrise := None;
       abnormalCount := None;
       nightOwlCount := None;
       lastNightOwlDate := None;
       totalMessageCount := None;
       nightMessageCount := None;
       hourlyMessageCounts := None |}.

(** [ctx.database.upsert('pig_user_state', [u], ['platform', 'userId',
    'guildId'])]: the rows with the key of [u] take its columns; when
    there is none, a row is added. *)
Definition database_upsert (u : UpdateData) (table : list PigUserState)
  : list PigUserState :=
  let hit := same_key (u_userId u) (u_platform u) (u_guildId u) in
  if existsb hit table
  then List.map (fun row => if hit row then applyUpdate u row else row) table
  else table ++ [newRow u].

(** The [try] around [JSON.parse]: an absent or empty text and a text
    that does not parse both give the empty record. *)
Definition readHourlyCounts (userState : option PigUserState)
  : gmap string Z :=
  match userState with
  | Some row =>
      match hourlyMessageCounts row with
      | Some text =>
          if nonempty text
          then match parseHourly text with
               | Some counts => counts
               | None => ∅
               end
          else ∅
      | None => ∅
      end
  | None => ∅
  end.

(** [(hourlyCounts[hourKey] || 0) + 1] *)
Definition bumpHour (hourKey : string) (hourlyCounts : gmap string Z)
  : gmap string Z :=
  let old := match hourlyCounts !! hourKey with
             | Some n => if n =? 0 then 0 else n
             | None => 0
             end in
  <[ hourKey := old + 1 ]> hourlyCounts.

Definition isNightOwlTime (startHour endHour currentHour : Z) : bool :=
  if startHour <=? endHour
  then (currentHour >=? startHour) && (currentHour <? endHour)
  else (currentHour >=? startHour) || (currentHour <? endHour).

(** [x ?? 0] on a column of an optional row. *)
Definition column (userState : option PigUserState)
    (f : PigUserState -> option Z) : Z :=
  match userState with
  | Some row => default 0 (f row)
  | None => 0
  end.

(** The update that the middleware computes for a message received at
    [now], or [None] when it passes the message on untouched. *)
Definition statsUpdate (config : Config) (session : Session) (now : Z)
    (table : list PigUserState) : option UpdateData :=
  let hasContent := nonempty (s_content session) in
  let hasElements := match s_elements session with
                     | Some n => (0 <? n)%nat
                     | None => false
                     end in
  if negb (nonempty (s_userId session))
     || (negb hasContent && negb hasElements)
  then None
  else
    let currentHour := getHours now in
    let userState :=
      database_get table (s_userId session) (s_platform session)
        (s_guildId session) in
    let hourKey := Z_to_string currentHour in
    let hourlyCounts := bumpHour hourKey (readHourlyCounts userState) in
    let startHour := default 0 (nightOwlStartHour config) in
    let endHour := default 5 (nightOwlEndHour config) in
    let night := isNightOwlTime startHour endHour currentHour in
    let nightOwl :=
      if nightOwlEnabled config && night
      then
        let today := dateOnly now in
        let alreadyRecordedToday :=
          match userState with
          | Some row =>
              match lastNightOwlDate row with
              | Some lastDate => dateOnly lastDate =? today
              | None => false
              end
          | None => false
          end in
        if negb alreadyRecordedToday
        then Some (column userState nightOwlCount + 1, now)
        else None
      else None in
    Some {| u_userId := s_userId session;
            u_platform := s_platform session;
            u_guildId := s_guildId session;
            u_totalMessageCount := column userState totalMessageCount + 1;
            u_nightMessageCount :=
              column userState nightMessageCount + (if night then 1 else 0);
            u_hourlyMessageCounts := stringifyHourly hourlyCounts;
            u_nightOwl := nightOwl |}.

(** The middleware as a step on the table. *)
Definition statsMiddleware (config : Config) (session : Session) (now : Z)
    (table : list PigUserState) : list PigUserState :=
  match statsUpdate config session now table with
  | Some u => database_upsert u table
  | None => table
  end.

End WithClock.
End Stats.

(** * Collections of the language

    The two collection idioms that the aggregation queries share: the sort of
    an array by a numeric column, largest first, and a [Map] with string
    keys, which keeps its entries in the order of their insertion. *)

Module Collections.

Section Sorting.
Context {A : Type}.
Variable key : A -> Z.

(** [xs.sort((a, b) => key(b) - key(a))].  The sort of an array is stable,
    so its result is the one of any stable sort; this one inserts each
    element, from the last to the first, before the first element that the
    comparator does not put ahead of it. *)
Definition compareDesc (a b : A) : Z := key b - key a.

Fixpoint insertDesc (a : A) (sorted : list A) : list A :=
  match sorted with
  | [] => [a]
  | b :: rest =>
      if compareDesc a b <=? 0 then a :: b :: rest
      else b :: insertDesc a rest
  end.

Definition sortDesc (xs : list A) : list A := fold_right insertDesc [] xs.

End Sorting.

Section Maps.
Context {V : Type}.

Definition OMap : Type := list (string * V).

(** [m.get(k)] *)
Fixpoint om_get (k : string) (m : OMap) : option V :=
  match m with
  | [] => None
  | (k', v) :: rest => if String.eqb k' k then Some v else om_get k rest
  end.

(** [m.has(k)] *)
Definition om_has (k : string) (m : OMap) : bool :=
  match om_get k m with
  | Some _ => true
  | None => false
  end.

(** A change of the object that [m.get(k)] returns. *)
Fixpoint om_update (k : string) (f : V -> V) (m : OMap) : OMap :=
  match m with
  | [] => []
  | (k', v) :: rest =>
      if String.eqb k' k then (k', f v) :: rest
      else (k', v) :: om_update k f rest
  end.

(** [m.set(k, v)]: a new key goes to the end, a known key keeps its
    place. *)
Definition om_set (k : string) (v : V) (m : OMap) : OMap :=
  if om_has k m then om_update k (fun _ => v) m else m ++ [(k, v)].

(** [Array.from(m.values())] *)
Definition om_values (m : OMap) : list V := List.map snd m.

End Maps.

(** [a || b] for a string [a] that may be [null] or [undefined]. *)
Definition or_else (a : option string) (b : string) : string :=
  match a with
  | Some s => if nonempty s then s else b
  | None => b
  end.

End Collections.

(** * Aggregation queries: the visited countries of the world map *)

Module Visits.
Section WithMapping.

(** utils/countryMapping.ts is not among the sources: the three lookups
    are any functions, [None] or the empty string when they know no
    answer. *)
Variable getCountryISOCode : string -> option string.
Variable getPrimaryCountryNameEn : string -> option string.
Variable getPrimaryCountryNameZh : string -> option string.

Abbreviation PigTravelLog := Leaderboard.PigTravelLog.

(** [interface VisitedCountry]; a [Date] is its time value. *)
Record VisitedCountry : Type := {
  isoCode : string;
  countryName : string;
  countryNameZh : string;
  visitCount : Z;
  firstVisit : Z;
  lastVisit : Z;
}.

(** [getCountryISOCode(log.country) || getCountryISOCode(log.countryZh)
    || null] *)
Definition isoOf (log : PigTravelLog) : option string :=
  match Leaderboard.codeOf getCountryISOCode (Leaderboard.country log) with
  | Some code => Some code
  | None =>
      Leaderboard.codeOf getCountryISOCode (Leaderboard.countryZh log)
  end.

(** [if (!firstTrip || visitDate < firstTrip) firstTrip = visitDate] *)
Definition earliest (firstTrip : option Z) (visitDate : Z) : option Z :=
  match firstTrip with
  | None => Some visitDate
  | Some first => if visitDate <? first then Some visitDate else Some first
  end.

(** [if (!lastTrip || visitDate > lastTrip) lastTrip = visitDate] *)
Definition latest (lastTrip : option Z) (visitDate : Z) : option Z :=
  match lastTrip with
  | None => Some visitDate
  | Some last => if visitDate >? last then Some visitDate else Some last
  end.

Definition newCountry (iso : string) (log : PigTravelLog) : VisitedCountry :=
  let canonicalNameEn :=
    Collections.or_else (getPrimaryCountryNameEn iso)
      (Leaderboard.country log) in
  let canonicalNameZh :=
    Collections.or_else (getPrimaryCountryNameZh iso)
      (if nonempty (Leaderboard.countryZh log) then Leaderboard.countryZh log
       else Leaderboard.country log) in
  {| isoCode := iso;
     countryName := canonicalNameEn;
     countryNameZh := canonicalNameZh;
     visitCount := 1;
     firstVisit := Leaderboard.timestamp log;
     lastVisit := Leaderboard.timestamp log |}.

(** The three statements on [existing]. *)
Definition visitAgain (visitDate : Z) (existing : VisitedCountry)
  : VisitedCountry :=
  {| isoCode := isoCode existing;
     countryName := countryName existing;
     countryNameZh := countryNameZh existing;
     visitCount := visitCount existing + 1;
     firstVisit := if visitDate <? firstVisit existing then visitDate
                   else firstVisit existing;
     lastVisit := if visitDate >? lastVisit existing then visitDate
                  else lastVisit existing |}.

(** The part of the loop body that works on [countryMap]. *)
Definition countVisit (countryMap : Collections.OMap (V := VisitedCountry))
    (log : PigTravelLog) : Collections.OMap (V := VisitedCountry) :=
  match isoOf log with
  | None => countryMap
  | Some iso =>
      match Collections.om_get iso countryMap with
      | None => Collections.om_set iso (newCountry iso log) countryMap
      | Some _ =>
          Collections.om_update iso
            (visitAgain (Leaderboard.timestamp log)) countryMap
      end
  end.

(** The variables of the loop: [firstTrip], [lastTrip], [countryMap] and,
    in the query of a guild, [userSet]. *)
Record Tally : Type := {
  firstTrip : option Z;
  lastTrip : option Z;
  countryMap : Collections.OMap (V := VisitedCountry);
  userSet : gset string;
}.

Definition noTally : Tally :=
  {| firstTrip := None; lastTrip := None; countryMap := []; userSet := ∅ |}.

(** One iteration of [for (const log of logs)] in the query of a user,
    which has no [userSet]. *)
Definition visitUser (t : Tally) (log : PigTravelLog) : Tally :=
  {| firstTrip := earliest (firstTrip t) (Leaderboard.timestamp log);
     lastTrip := latest (lastTrip t) (Leaderboard.timestamp log);
     countryMap := countVisit (countryMap t) log;
     userSet := userSet t |}.

(** The same in the query of a guild. *)
Definition visitGuild (t : Tally) (log : PigTravelLog) : Tally :=
  {| firstTrip := earliest (firstTrip t) (Leaderboard.timestamp log);
     lastTrip := latest (lastTrip t) (Leaderboard.timestamp log);
     countryMap := countVisit (countryMap t) log;
     userSet := userSet t ∪ {[ Leaderboard.userId log ]} |}.

(** [Array.from(countryMap.values()).sort((a, b) => b.visitCount -
    a.visitCount)] *)
Definition ranked (countryMap : Collections.OMap (V := VisitedCountry))
  : list VisitedCountry :=
  Collections.sortDesc visitCount (Collections.om_values countryMap).

Record Visited : Type := {
  visitedCountries : list VisitedCountry;
  totalTrips : Z;
  v_firstTrip : option Z;
  v_lastTrip : option Z;
  uniqueUsers : option Z;     (* in the answer for a guild only *)
}.

(** [ctx.database.get('pig_travel_log', query)] with [query = { userId,
    platform }] and, for a truthy [guildId], [query.guildId = guildId]. *)
Definition logsOfUser (table : list PigTravelLog) (userId platform : string)
    (guildId : option string) : list PigTravelLog :=
  List.filter
    (fun log =>
       String.eqb (Leaderboard.userId log) userId
       && String.eqb (Leaderboard.platform log) platform
       && match guildId with
          | Some g =>
              if nonempty g then String.eqb (Leaderboard.guildId log) g
              else true
          | None => true
          end)
    table.

Definition getUserVisitedCountries (table : list PigTravelLog)
    (userId platform : string) (guildId : option string) : Visited :=
  let logs := logsOfUser table userId platform guildId in
  if (length logs =? 0)%nat
  then {| visitedCountries := []; totalTrips := 0; v_firstTrip := None;
          v_lastTrip := None; uniqueUsers := None |}
  else
    let t := fold_left visitUser logs noTally in
    {| visitedCountries := ranked (countryMap t);
       totalTrips := Z.of_nat (length logs);
       v_firstTrip := firstTrip t;
       v_lastTrip := lastTrip t;
       uniqueUsers := None |}.

Definition getGuildVisitedCountries (table : list PigTravelLog)
    (guildId platform : string) : Visited :=
  let logs := Leaderboard.database_get table guildId platform in
  if (length logs =? 0)%nat
  then {| visitedCountries := []; totalTrips := 0; v_firstTrip := None;
          v_lastTrip := None; uniqueUsers := Some 0 |}
  else
    let t := fold_left visitGuild logs noTally in
    {| visitedCountries := ranked (countryMap t);
       totalTrips := Z.of_nat (length logs);
       v_firstTrip := firstTrip t;
       v_lastTrip := lastTrip t;
       uniqueUsers := Some (Z.of_nat (size (userSet t))) |}.

(** [interface WorldMapData], without the background image. *)
Record WorldMapData : Type := {
  d_userId : string;
  d_platform : string;
  d_username : string;
  d_avatarUrl : string;
  d_visitedCountries : list VisitedCountry;
  d_totalCountries : Z;
  d_totalTrips : Z;
  d_firstTrip : option Z;
  d_lastTrip : option Z;
  d_isGuildMode : bool;
  d_uniqueUsers : option Z;
}.

Definition prepareWorldMapData (table : list PigTravelLog)
    (userId platform username avatarUrl : string) (guildId : option string)
  : WorldMapData :=
  let v := getUserVisitedCountries table userId platform guildId in
  {| d_userId := userId;
     d_platform := platform;
     d_username := username;
     d_avatarUrl := avatarUrl;
     d_visitedCountries := visitedCountries v;
     d_totalCountries := Z.of_nat (length (visitedCountries v));
     d_totalTrips := totalTrips v;
     d_firstTrip := v_firstTrip v;
     d_lastTrip := v_lastTrip v;
     d_isGuildMode := false;
     d_uniqueUsers := None |}.

Definition prepareGuildWorldMapData (table : list PigTravelLog)
    (guildId platform guildName : string) (guildAvatarUrl : option string)
  : WorldMapData :=
  let v := getGuildVisitedCountries table guildId platform in
  {| d_userId := guildId;
     d_platform := platform;
     d_username := guildName;
     d_avatarUrl := Collections.or_else guildAvatarUrl "";
     d_visitedCountries := visitedCountries v;
     d_totalCountries := Z.of_nat (length (visitedCountries v));
     d_totalTrips := totalTrips v;
     d_firstTrip := v_firstTrip v;
     d_lastTrip := v_lastTrip v;
     d_isGuildMode := true;
     d_uniqueUsers := uniqueUsers v |}.

End WithMapping.
End Visits.

(** * Aggregation queries: the sleep leaderboard *)

Module SleepBoard.
Section WithRuntime.

(** [hourlyEntries text] is [Object.entries(JSON.parse(text))] for the text
    of a record of numbers, as the statistics middleware writes it: the
    keys with their counts in the order of the language, [None] when
    that throws.  [parseInt] is the function of that name on the keys of
    such a record, which are numerals. *)
Variable hourlyEntries : string -> option (list (string * Z)).
Variable parseInt : string -> Z.

Abbreviation PigUserState := Stats.PigUserState.

Record SleepLeaderboardEntry : Type := {
  e_userId : string;
  e_username : string;
  e_avatarUrl : string;
  e_nightOwlCount : Z;
  e_totalMessageCount : Z;
  e_nightMessageCount : Z;
  e_peakHour : Z;
}.

(** [ctx.database.get('pig_user_state', { guildId, platform })] *)
Definition database_get (table : list PigUserState) (g p : string)
  : list PigUserState :=
  List.filter (fun s => String.eqb (Stats.guildId s) g
                        && String.eqb (Stats.platform s) p) table.

(** One iteration of the loop over the entries; the state is
    [(peakHour, maxCount)]. *)
Definition peakStep (state : Z * Z) (entry : string * Z) : Z * Z :=
  let '(peakHour, maxCount) := state in
  let '(hour, count) := entry in
  if count >? maxCount then (parseInt hour, count) else (peakHour, maxCount).

(** The [try] block of the callback: [peakHour] after it. *)
Definition peakHourOf (s : PigUserState) : Z :=
  match Stats.hourlyMessageCounts s with
  | Some text =>
      if nonempty text
      then match hourlyEntries text with
           | Some entries => fst (fold_left peakStep entries (0, 0))
           | None => 0
           end
      else 0
  | None => 0
  end.

Definition entryOf (s : PigUserState) : SleepLeaderboardEntry :=
  {| e_userId := Stats.userId s;
     e_username := Stats.userId s;
     e_avatarUrl := "";
     e_nightOwlCount := default 0 (Stats.nightOwlCount s);
     e_totalMessageCount := default 0 (Stats.totalMessageCount s);
     e_nightMessageCount := default 0 (Stats.nightMessageCount s);
     e_peakHour := peakHourOf s |}.

Definition getSleepLeaderboard (table : list PigUserState) (g p : string)
    (limit : nat) : list SleepLeaderboardEntry :=
  let states := database_get table g p in
  if (length states =? 0)%nat then []
  else
    firstn limit
      (Collections.sortDesc e_nightOwlCount
         (List.map entryOf
            (List.filter (fun s => default 0 (Stats.nightOwlCount s) >? 0)
               states))).

End WithRuntime.
End SleepBoard.

(** * Text placed in the markup of a card *)

Module Html.

(** The callback [m => map[m]] on one character of the text: the five
    characters of the class of the pattern have an entry in [map], any
    other character is not matched and stays. *)
Definition escapeChar (c : ascii) : string :=
  if Ascii.eqb c "&" then "&amp;"
  else if Ascii.eqb c "<" then "&lt;"
  else if Ascii.eqb c ">" then "&gt;"
  else if Ascii.eqb c dq then "&quot;"
  else if Ascii.eqb c "'" then "&#039;"
  else String c "".

(** [text.replace(/[&<>Q']/g, m => map[m])], Q the double quote.  The five
    characters are ASCII, so the replacement is the same on the bytes of
    the text as on its code units. *)
Fixpoint escapeHtml (text : string) : string :=
  match text with
  | EmptyString => ""
  | String c rest => escapeChar c +:+ escapeHtml rest
  end.

End Html.

(** * The background image of a guild *)

Module Background.

(** A row of [pig_guild_config] without its [id], which no code reads;
    a column without a value is [None]. *)
Record PigGuildConfig : Type := {
  platform : string;
  guildId : string;
  backgroundImage : option string;
  backgroundSetBy : option string;
  backgroundSetAt : option Z;
}.

Definition same_key (platform' guildId' : string) (row : PigGuildConfig)
  : bool :=
  String.eqb (platform row) platform' && String.eqb (guildId row) guildId'.

(** [const [guildConfig] = await ctx.database.get('pig_guild_config',
    { platform, guildId })] *)
Definition database_get (table : list PigGuildConfig)
    (platform' guildId' : string) : option PigGuildConfig :=
  head (List.filter (same_key platform' guildId') table).

(** [ctx.database.remove('pig_guild_config', { platform, guildId })] *)
Definition database_remove (table : list PigGuildConfig)
    (platform' guildId' : string) : list PigGuildConfig :=
  List.filter (fun row => negb (same_key platform' guildId' row)) table.

(** [ctx.database.upsert('pig_guild_config', [row], ['platform',
    'guildId'])]: the rows with the key of [row] take its columns; when
    there is none, the row is added. *)
Definition database_upsert (row : PigGuildConfig)
    (table : list PigGuildConfig) : list PigGuildConfig :=
  let hit := same_key (platform row) (guildId row) in
  if existsb hit table
  then List.map (fun old => if hit old then row else old) table
  else table ++ [row].

Definition getAdminBackgroundImage (table : list PigGuildConfig)
    (platform' guildId' : string) : option string :=
  if negb (nonempty guildId') then None
  else
    match database_get table platform' guildId' with
    | Some guildConfig => backgroundImage guildConfig
    | None => None
    end.

(** [now] is the value of [new Date()]. *)
Definition setGuildBackgroundImage (now : Z) (table : list PigGuildConfig)
    (platform' guildId' : string) (backgroundImage' : option string)
    (setByUserId : string) : list PigGuildConfig :=
  match backgroundImage' with
  | None => database_remove table platform' guildId'
  | Some image =>
      database_upsert
        {| platform := platform';
           guildId := guildId';
           backgroundImage := Some image;
           backgroundSetBy := Some setByUserId;
           backgroundSetAt := Some now |}
        table
  end.

Record BackgroundInfo : Type := {
  i_backgroundImage : option string;
  setBy : option string;
  setAt : option Z;
}.

Definition getGuildBackgroundInfo (table : list PigGuildConfig)
    (platform' guildId' : string) : option BackgroundInfo :=
  if negb (nonempty guildId') then None
  else
    match database_get table platform' guildId' with
    | Some guildConfig =>
        match backgroundImage guildConfig with
        | Some image =>
            if nonempty image
            then Some {| i_backgroundImage := Some image;
                         setBy := backgroundSetBy guildConfig;
                         setAt := backgroundSetAt guildConfig |}
            else None
        | None => None
        end
    | None => None
    end.

End Background.

(** * The month of a monthly summary *)

Module Period.

(** [!monthArg] for an optional number. *)
Definition falsy (arg : option Z) : bool :=
  match arg with
  | Some n => n =? 0
  | None => true
  end.

(** The year and the month that the command [pig.summary] works on, from
    its arguments and from [now.getFullYear()] and [now.getMonth()];
    [None] is the answer that the month must lie between 1 and 12. *)
Definition summaryPeriod (yearArg monthArg : option Z)
    (fullYear monthIndex : Z) : option (Z * Z) :=
  let year := default fullYear yearArg in
  let month := default monthIndex monthArg in
  let '(year, month) :=
    if falsy monthArg && (monthIndex =? 0) then (fullYear - 1, 12)
    else if falsy monthArg then (year, monthIndex)
    else (year, month) in
  if (month <? 1) || (month >? 12) then None else Some (year, month).

(** The same in the monthly job, which has no arguments. *)
Definition cronPeriod (fullYear monthIndex : Z) : Z * Z :=
  if monthIndex =? 0 then (fullYear - 1, 12) else (fullYear, monthIndex).

End Period.

(** * The monthly summaries *)

Module Monthly.
Section WithCalendar.

(** [new Date(year, monthIndex, 1).getTime()]: the start, in the time of
    the host, of the month of index [monthIndex] of [year]. *)
Variable monthStart : Z -> Z -> Z.

Abbreviation PigTravelLog := Leaderboard.PigTravelLog.

(** [timestamp: { $gte: startDate, $lt: endDate }] *)
Definition inMonth (year month : Z) (log : PigTravelLog) : bool :=
  (monthStart year (month - 1) <=? Leaderboard.timestamp log)
  && (Leaderboard.timestamp log <? monthStart year month).

(** [...(guildId ? { guildId } : {})] *)
Definition inGuild (guildId : option string) (log : PigTravelLog) : bool :=
  match guildId with
  | Some g => if nonempty g then String.eqb (Leaderboard.guildId log) g
              else true
  | None => true
  end.

Definition getMonthlyLogs (table : list PigTravelLog)
    (userId platform : string) (year month : Z) (guildId : option string)
  : list PigTravelLog :=
  let logs :=
    List.filter
      (fun log => String.eqb (Leaderboard.userId log) userId
                  && String.eqb (Leaderboard.platform log) platform
                  && inGuild guildId log && inMonth year month log)
      table in
  Collections.sortDesc Leaderboard.timestamp logs.

(** The logs of a month, of a guild when one is given. *)
Definition logsInMonth (table : list PigTravelLog) (year month : Z)
    (guildId : option string) : list PigTravelLog :=
  List.filter (fun log => inGuild guildId log && inMonth year month log)
    table.

(** The template [platform:userId]. *)
Definition userKey (log : PigTravelLog) : string :=
  Leaderboard.platform log +:+ ":" +:+ Leaderboard.userId log.

Record UserRef : Type := {
  r_userId : string;
  r_platform : string;
}.

Definition noteUser (userMap : Collections.OMap (V := UserRef))
    (log : PigTravelLog) : Collections.OMap (V := UserRef) :=
  if negb (Collections.om_has (userKey log) userMap)
  then Collections.om_set (userKey log)
         {| r_userId := Leaderboard.userId log;
            r_platform := Leaderboard.platform log |} userMap
  else userMap.

Definition getUsersWithLogsInMonth (table : list PigTravelLog)
    (year month : Z) (guildId : option string) : list UserRef :=
  Collections.om_values
    (fold_left noteUser (logsInMonth table year month guildId) []).

(** [set.add(x)] on a [Set] of strings, which keeps the order of
    insertion. *)
Definition set_add (set : list string) (x : string) : list string :=
  if existsb (String.eqb x) set then set else set ++ [x].

(** The value of an entry of [userMap]; of the two sets of an entry only
    the size is read. *)
Record GroupEntry : Type := {
  g_userId : string;
  g_platform : string;
  g_totalTrips : Z;
  g_countries : gset string;
  g_locations : gset string;
}.

Record GroupTally : Type := {
  countriesSet : list string;
  locationsSet : list string;
  userMap : Collections.OMap (V := GroupEntry);
}.

Definition countTrip (log : PigTravelLog) (entry : GroupEntry) : GroupEntry :=
  {| g_userId := g_userId entry;
     g_platform := g_platform entry;
     g_totalTrips := g_totalTrips entry + 1;
     g_countries := g_countries entry ∪ {[ Leaderboard.country log ]};
     g_locations := g_locations entry ∪ {[ Leaderboard.location log ]} |}.

Definition newEntry (log : PigTravelLog) : GroupEntry :=
  {| g_userId := Leaderboard.userId log;
     g_platform := Leaderboard.platform log;
     g_totalTrips := 0;
     g_countries := ∅;
     g_locations := ∅ |}.

Definition addUserLog (userMap : Collections.OMap (V := GroupEntry))
    (log : PigTravelLog) : Collections.OMap (V := GroupEntry) :=
  let userMap1 :=
    if negb (Collections.om_has (userKey log) userMap)
    then Collections.om_set (userKey log) (newEntry log) userMap
    else userMap in
  Collections.om_update (userKey log) (countTrip log) userMap1.

(** One iteration of [for (const log of logs)]. *)
Definition addGroupLog (t : GroupTally) (log : PigTravelLog) : GroupTally :=
  {| countriesSet := set_add (countriesSet t) (Leaderboard.country log);
     locationsSet := set_add (locationsSet t) (Leaderboard.location log);
     userMap := addUserLog (userMap t) log |}.

Record Profile : Type := {
  p_username : option string;
  p_avatarUrl : option string;
}.

Record MonthlySummaryGroupUser : Type := {
  u_userId : string;
  u_platform : string;
  u_username : string;
  u_avatarUrl : string;
  u_totalTrips : Z;
  u_countriesCount : Z;
  u_locationsCount : Z;
}.

Record MonthlySummaryGroupData : Type := {
  gd_year : Z;
  gd_month : Z;
  gd_totalUsers : Z;
  gd_totalTrips : Z;
  gd_countriesVisited : list string;
  gd_locationsVisited : list string;
  gd_users : list MonthlySummaryGroupUser;
}.

(** [profiles] is the optional [Map] of profiles, by its [get]. *)
Definition groupUser (profiles : option (string -> option Profile))
    (entry : GroupEntry) : MonthlySummaryGroupUser :=
  let profile :=
    match profiles with
    | Some get => get (g_platform entry +:+ ":" +:+ g_userId entry)
    | None => None
    end in
  {| u_userId := g_userId entry;
     u_platform := g_platform entry;
     u_username :=
       match profile with
       | Some p => Collections.or_else (p_username p) (g_userId entry)
       | None => g_userId entry
       end;
     u_avatarUrl :=
       match profile with
       | Some p => Collections.or_else (p_avatarUrl p) ""
       | None => ""
       end;
     u_totalTrips := g_totalTrips entry;
     u_countriesCount := Z.of_nat (size (g_countries entry));
     u_locationsCount := Z.of_nat (size (g_locations entry)) |}.

Definition prepareMonthlySummaryGroup (table : list PigTravelLog)
    (year month : Z) (guildId : option string)
    (profiles : option (string -> option Profile))
  : MonthlySummaryGroupData :=
  let logs := logsInMonth table year month guildId in
  let t := fold_left addGroupLog logs
             {| countriesSet := []; locationsSet := []; userMap := [] |} in
  let users :=
    Collections.sortDesc u_totalTrips
      (List.map (groupUser profiles) (Collections.om_values (userMap t))) in
  {| gd_year := year;
     gd_month := month;
     gd_totalUsers := Z.of_nat (length users);
     gd_totalTrips := Z.of_nat (length logs);
     gd_countriesVisited := countriesSet t;
     gd_locationsVisited := locationsSet t;
     gd_users := users |}.

Record MonthlySummaryData : Type := {
  sd_userId : string;
  sd_platform : string;
  sd_username : string;
  sd_avatarUrl : string;
  sd_year : Z;
  sd_month : Z;
  sd_logs : list PigTravelLog;
  sd_totalTrips : Z;
  sd_countriesVisited : list string;
  sd_locationsVisited : list string;
  sd_backgroundImage : option string;
}.

Definition prepareMonthlySummary (table : list PigTravelLog)
    (guildConfigs : list Background.PigGuildConfig)
    (userId platform username avatarUrl : string) (year month : Z)
    (guildId : option string) : MonthlySummaryData :=
  let logs := getMonthlyLogs table userId platform year month guildId in
  let sets :=
    fold_left
      (fun sets log =>
         (set_add (fst sets) (Leaderboard.country log),
          set_add (snd sets) (Leaderboard.location log)))
      logs ([], []) in
  let backgroundImage :=
    match guildId with
    | Some g =>
        if nonempty g
        then Background.getAdminBackgroundImage guildConfigs platform g
        else None
    | None => None
    end in
  {| sd_userId := userId;
     sd_platform := platform;
     sd_username := username;
     sd_avatarUrl := avatarUrl;
     sd_year := year;
     sd_month := month;
     sd_logs := logs;
     sd_totalTrips := Z.of_nat (length logs);
     sd_countriesVisited := fst sets;
     sd_locationsVisited := snd sets;
     sd_backgroundImage := backgroundImage |}.

End WithCalendar.
End Monthly.

(** * The silent record of the first message after sunrise *)

Module Silent.

Abbreviation PigUserState := Stats.PigUserState.

(** A value of the cache [dailyUserState]. *)
Record DayState : Type := {
  recordedToday : bool;
  cardSentToday : bool;
  lastSunrise : option Z;
}.

(** A message as the middleware sees it, with what the host answers
    while the middleware works on it: [getTodaySunrise()], [new Date()]
    and the upsert. *)
Record Message : Type := {
  m_platform : string;
  m_userId : string;
  m_guildId : string;
  m_sunrise : Result Z;
  m_now : Z;
  m_upsert : Result unit;
}.

(** The cache, the table, and the automatic travels started so far, each
    with its user, platform and guild. *)
Record State : Type := {
  dailyUserState : gmap string DayState;
  pig_user_state : list PigUserState;
  travels : list (string * string * string);
}.

Definition setWake (now sunrise : Z) (row : PigUserState) : PigUserState :=
  {| Stats.userId := Stats.userId row;
     Stats.platform := Stats.platform row;
     Stats.guildId := Stats.guildId row;
     Stats.lastWakeUp := Some now;
     Stats.lastSunrise := Some sunrise;
     Stats.abnormalCount := Stats.abnormalCount row;
     Stats.nightOwlCount := Stats.nightOwlCount row;
     Stats.lastNightOwlDate := Stats.lastNightOwlDate row;
     Stats.totalMessageCount := Stats.totalMessageCount row;
     Stats.nightMessageCount := Stats.nightMessageCount row;
     Stats.hourlyMessageCounts := Stats.hourlyMessageCounts row |}.

Definition newWakeRow (userId platform guildId : string) (now sunrise : Z)
  : PigUserState :=
  setWake now sunrise
    {| Stats.userId := userId;
       Stats.platform := platform;
       Stats.guildId := guildId;
       Stats.lastWakeUp := None;
       Stats.lastSunrise := None;
       Stats.abnormalCount := None;
       Stats.nightOwlCount := None;
       Stats.lastNightOwlDate := None;
       Stats.totalMessageCount := None;
       Stats.nightMessageCount := None;
       Stats.hourlyMessageCounts := None |}.

(** [ctx.database.upsert('pig_user_state', [{ platform, userId, guildId,
    lastWakeUp, lastSunrise }], ['platform', 'userId', 'guildId'])] *)
Definition database_upsert (userId platform guildId : string)
    (now sunrise : Z) (table : list PigUserState) : list PigUserState :=
  let hit := Stats.same_key userId platform guildId in
  if existsb hit table
  then List.map (fun row => if hit row then setWake now sunrise row else row)
         table
  else table ++ [newWakeRow userId platform guildId now sunrise].

Definition userKey (msg : Message) : string :=
  m_platform msg +:+ ":" +:+ m_userId msg.

(** [state?.recordedToday] and [state?.cardSentToday] *)
Definition recorded (state : option DayState) : bool :=
  match state with
  | Some s => recordedToday s
  | None => false
  end.

Definition cardSent (state : option DayState) : bool :=
  match state with
  | Some s => cardSentToday s
  | None => false
  end.

Definition sendCard (s : DayState) : DayState :=
  {| recordedToday := recordedToday s;
     cardSentToday := true;
     lastSunrise := lastSunrise s |}.

(** The middleware as a step on the state; the travel that it starts
    without waiting for it is noted in [travels]. *)
Definition silentRecord (config : Config) (msg : Message) (st : State)
  : State :=
  if negb (silentRecordEnabled config) then st
  else if negb (nonempty (m_userId msg)) || negb (nonempty (m_guildId msg))
  then st
  else
    let state := dailyUserState st !! userKey msg in
    if recorded state then st
    else
      match m_sunrise msg with
      | Throw _ => st
      | Ok sunrise =>
          if m_now msg <? sunrise then st
          else
            match m_upsert msg with
            | Throw _ => st
            | Ok _ =>
                let table :=
                  database_upsert (m_userId msg) (m_platform msg)
                    (m_guildId msg) (m_now msg) sunrise
                    (pig_user_state st) in
                let daily :=
                  <[ userKey msg :=
                       {| recordedToday := true;
                          cardSentToday := cardSent state;
                          lastSunrise := Some sunrise |} ]>
                    (dailyUserState st) in
                if silentRecordAutoTravel config && negb (cardSent state)
                then
                  {| dailyUserState := alter sendCard (userKey msg) daily;
                     pig_user_state := table;
                     travels :=
                       travels st
                       ++ [(m_userId msg, m_platform msg, m_guildId msg)] |}
                else
                  {| dailyUserState := daily;
                     pig_user_state := table;
                     travels := travels st |}
            end
      end.

(** The daily job: [dailyUserState.clear()]. *)
Definition dailyReset (st : State) : State :=
  {| dailyUserState := ∅;
     pig_user_state := pig_user_state st;
     travels := travels st |}.

End Silent.

(** * The photo search of Pexels *)

Module Pexels.

(** The class [\d] *)
Definition is_digit (c : ascii) : bool :=
  let n := nat_of_ascii c in ((48 <=? n) && (n <=? 57))%nat.

(** What is left of a text after the digits at its start. *)
Fixpoint skip_digits (s : list ascii) : list ascii :=
  match s with
  | [] => []
  | c :: rest => if is_digit c then skip_digits rest else s
  end.

(** A match of the pattern [w=] and one digit or more at the start of
    the text: what follows the match. *)
Definition width_here (s : list ascii) : option (list ascii) :=
  match s with
  | w :: e :: d :: rest =>
      if Ascii.eqb w "w" && Ascii.eqb e "=" && is_digit d
      then Some (skip_digits rest)
      else None
  | _ => None
  end.

(** The text with the first match of the pattern replaced by [w=1080];
    [None] when the pattern has no match, in which case [replace] returns
    the text. *)
Fixpoint replaceWidth (s : list ascii) : option (list ascii) :=
  match width_here s with
  | Some rest => Some (WorldMap.lit "w=1080" ++ rest)
  | None =>
      match s with
      | [] => None
      | c :: rest =>
          match replaceWidth rest with
          | Some out => Some (c :: out)
          | None => None
          end
      end
  end.

(** The three branches on [photoUrl]. *)
Definition withWidth (photoUrl : list ascii) : list ascii :=
  if WorldMap.includes (WorldMap.lit "w=") photoUrl
  then match replaceWidth photoUrl with
       | Some out => out
       | None => photoUrl
       end
  else if WorldMap.includes (WorldMap.lit "?") photoUrl
  then photoUrl ++ WorldMap.lit "&w=1080"
  else photoUrl ++ WorldMap.lit "?w=1080".

(** The two fields of [src] that are read; an absent field is [None]. *)
Record PexelsPhoto : Type := {
  large2x : option (list ascii);
  large : option (list ascii);
}.

(** [selectedPhoto.src.large2x || selectedPhoto.src.large] *)
Definition largeUrl (photo : PexelsPhoto) : option (list ascii) :=
  match large2x photo with
  | Some (c :: url) => Some (c :: url)
  | _ => large photo
  end.

(** [response] is what the request answers, with the [photos] of the
    body, [None] for a falsy value; [draw] stands for [Math.random()],
    the index being any one below the number of photos.  A rejected
    request, and a photo without either field, which makes [includes]
    throw, end in the [catch]. *)
Definition searchPexelsPhoto (apiKey : string)
    (response : Result (option (list PexelsPhoto))) (draw : nat)
  : option (list ascii) :=
  if negb (nonempty apiKey) then None
  else
    match response with
    | Ok (Some photos) =>
        if (0 <? length photos)%nat
        then
          match nth_error photos (draw mod length photos) with
          | Some selectedPhoto =>
              match largeUrl selectedPhoto with
              | Some photoUrl => Some (withWidth photoUrl)
              | None => None
              end
          | None => None
          end
        else None
    | Ok None => None
    | Throw _ => None
    end.

End Pexels.

(** * Handlers and the event loop

    The host starts a handler for every message and does not wait for the
    handler of the message before.  A handler runs until its next
    [await]; there it stops, and the event loop gives a turn to any
    handler that has not started or whose awaited call has been served.
    So the handlers interleave at their awaits, and only there. *)

Module EventLoop.
Section Scheduler.
Context {Shared Local Input : Type}.

(** The code of a handler up to its first [await], and from one [await]
    to the next: the shared state that it leaves and, when it stops at an
    [await], what its local variables hold. *)
Variable begin : Input -> Shared -> Shared * option Local.
Variable resume : Input -> Local -> Shared -> Shared * option Local.

(** The shared state, the handlers that wait at an [await], and the
    handlers that have started. *)
Record Pool : Type := {
  shared : Shared;
  waiting : gmap nat Local;
  started : gset nat;
}.

Definition idle (s : Shared) : Pool :=
  {| shared := s; waiting := ∅; started := ∅ |}.

Definition suspend (h : nat) (next : option Local)
    (handlers : gmap nat Local) : gmap nat Local :=
  match next with
  | Some local => <[ h := local ]> handlers
  | None => delete h handlers
  end.

(** A turn of the handler of the message number [h]: it begins, or it
    resumes after its [await]; a handler that has finished, and a number
    without a message, leave the pool as it is. *)
Definition turn (inputs : list Input) (pool : Pool) (h : nat) : Pool :=
  match inputs !! h with
  | None => pool
  | Some input =>
      match waiting pool !! h with
      | Some local =>
          let '(s, next) := resume input local (shared pool) in
          {| shared := s;
             waiting := suspend h next (waiting pool);
             started := started pool |}
      | None =>
          if bool_decide (h ∈ started pool) then pool
          else
            let '(s, next) := begin input (shared pool) in
            {| shared := s;
               waiting := suspend h next (waiting pool);
               started := {[ h ]} ∪ started pool |}
      end
  end.

(** The turns of a schedule, one after the other. *)
Definition interleave (inputs : list Input) (schedule : list nat)
    (pool : Pool) : Pool :=
  fold_left (turn inputs) schedule pool.

(** The schedule without overlap: the handler of each message, in the
    order of the messages, gets its [turns] turns in a row. *)
Definition sequential (turns n : nat) : list nat :=
  flat_map (fun h => repeat h turns) (seq 0 n).

End Scheduler.
End EventLoop.

(** * The statistics middleware as a handler

    index.ts, the middleware of the message statistics: [new Date()] is
    read before the first [await]; the row is read by the awaited
    [database.get], the update is computed from that row, and it is
    written by the awaited [database.upsert]. *)

Module StatsHandler.
Section WithClock.
Variable tzOffsetMs : Z.
Variable parseHourly : string -> option (gmap string Z).
Variable stringifyHourly : gmap string Z -> string.
Variable config : Config.

(** Where the handler waits: for the row, or for the upsert of the update
    that it computed. *)
Inductive Local : Type :=
| AwaitGet
| AwaitUpsert (updateData : Stats.UpdateData).

(** [if (!session.userId || (!hasContent && !hasElements)) return next()] *)
Definition passesOn (session : Stats.Session) : bool :=
  let hasContent := nonempty (Stats.s_content session) in
  let hasElements := match Stats.s_elements session with
                     | Some n => (0 <? n)%nat
                     | None => false
                     end in
  negb (nonempty (Stats.s_userId session))
  || (negb hasContent && negb hasElements).

Definition begin (m : Stats.Session * Z) (table : list Stats.PigUserState)
  : list Stats.PigUserState * option Local :=
  if passesOn m.1 then (table, None) else (table, Some AwaitGet).

Definition resume (m : Stats.Session * Z) (local : Local)
    (table : list Stats.PigUserState)
  : list Stats.PigUserState * option Local :=
  match local with
  | AwaitGet =>
      match Stats.statsUpdate tzOffsetMs parseHourly stringifyHourly config
              m.1 m.2 table with
      | Some updateData => (table, Some (AwaitUpsert updateData))
      | None => (table, None)
      end
  | AwaitUpsert updateData => (Stats.database_upsert updateData table, None)
  end.

(** The handlers of a list of messages under a schedule. *)
Definition run (messages : list (Stats.Session * Z)) (schedule : list nat)
    (table : list Stats.PigUserState) : list Stats.PigUserState :=
  EventLoop.shared
    (EventLoop.interleave begin resume messages schedule
       (EventLoop.idle table)).

End WithClock.
End StatsHandler.

(** * The silent record as a handler

    index.ts, the middleware of the silent record: the entry of the cache
    is read before the first [await], that of [getTodaySunrise()];
    [new Date()] is read after it; after the second [await], that of
    [database.upsert], the entry read at the start is used for the new
    entry of the cache and for the decision to travel. *)

Module SilentHandler.

Inductive Local : Type :=
| AwaitSunrise (state : option Silent.DayState)
| AwaitUpsert (state : option Silent.DayState) (sunrise : Z).

Definition begin (config : Config) (msg : Silent.Message) (st : Silent.State)
  : Silent.State * option Local :=
  if negb (silentRecordEnabled config) then (st, None)
  else if negb (nonempty (Silent.m_userId msg))
          || negb (nonempty (Silent.m_guildId msg))
  then (st, None)
  else
    let state := Silent.dailyUserState st !! Silent.userKey msg in
    if Silent.recorded state then (st, None)
    else (st, Some (AwaitSunrise state)).

Definition resume (config : Config) (msg : Silent.Message) (local : Local)
    (st : Silent.State) : Silent.State * option Local :=
  match local with
  | AwaitSunrise state =>
      match Silent.m_sunrise msg with
      | Throw _ => (st, None)
      | Ok sunrise =>
          if Silent.m_now msg <? sunrise then (st, None)
          else (st, Some (AwaitUpsert state sunrise))
      end
  | AwaitUpsert state sunrise =>
      match Silent.m_upsert msg with
      | Throw _ => (st, None)
      | Ok _ =>
          let table :=
            Silent.database_upsert (Silent.m_userId msg)
              (Silent.m_platform msg) (Silent.m_guildId msg)
              (Silent.m_now msg) sunrise (Silent.pig_user_state st) in
          let daily :=
            <[ Silent.userKey msg :=
                 {| Silent.recordedToday := true;
                    Silent.cardSentToday := Silent.cardSent state;
                    Silent.lastSunrise := Some sunrise |} ]>
              (Silent.dailyUserState st) in
          if silentRecordAutoTravel config && negb (Silent.cardSent state)
          then
            ({| Silent.dailyUserState :=
                  alter Silent.sendCard (Silent.userKey msg) daily;
                Silent.pig_user_state := table;
                Silent.travels :=
                  Silent.travels st
                  ++ [(Silent.m_userId msg, Silent.m_platform msg,
                       Silent.m_guildId msg)] |}, None)
          else
            ({| Silent.dailyUserState := daily;
                Silent.pig_user_state := table;
                Silent.travels := Silent.travels st |}, None)
      end
  end.

Definition run (config : Config) (messages : list Silent.Message)
    (schedule : list nat) (st : Silent.State) : Silent.State :=
  EventLoop.shared
    (EventLoop.interleave (begin config) (resume config) messages schedule
       (EventLoop.idle st)).

End SilentHandler.

(** * A runtime to evaluate the model on concrete inputs

    The theorems below hold for every [Runtime] and every [Catalog].  To run
    the model, this runtime implements the built-ins on the fragment the
    examples need: [JSON_parse] is exact on texts that are no JSON at all
    and on values made of objects with distinct keys, arrays, strings
    without escapes, integers, booleans and [null]; [NumberToString] is
    exact on integers; [String_replace] does not expand dollar patterns;
    [newDate] is not used by any example. *)

Module Demo.

Definition json_space (c : ascii) : bool :=
  let n := nat_of_ascii c in
  ((n =? 32) || (n =? 9) || (n =? 10) || (n =? 13))%nat.

Fixpoint skip_ws (s : string) : string :=
  match s with
  | "" => ""
  | String c r => if json_space c then skip_ws r else s
  end.

(** The characters of a string literal after its opening quote. *)
Fixpoint read_string (s : string) : option (string * string) :=
  match s with
  | "" => None
  | String c r =>
      if Ascii.eqb c dq then Some ("", r)
      else if Ascii.eqb c "\" || (nat_of_ascii c <? 32)%nat then None
      else match read_string r with
           | Some (v, r') => Some (String c v, r')
           | None => None
           end
  end.

Definition is_digit (c : ascii) : bool :=
  let n := nat_of_ascii c in ((48 <=? n) && (n <=? 57))%nat.

(** The digits at the head of a text, as a number, and the rest. *)
Fixpoint read_digits (acc : Z) (s : string) : Z * string :=
  match s with
  | String c r =>
      if is_digit c
      then read_digits (10 * acc + Z.of_nat (nat_of_ascii c) - 48) r
      else (acc, s)
  | "" => (acc, s)
  end.

Definition integer (z : Z) : jsval := JNum (QArith_base.Qmake z 1).

(** A value at the head of a text, and the rest of the text. *)
Fixpoint parse_value (fuel : nat) (s : string) : option (jsval * string) :=
  match fuel with
  | O => None
  | S fuel' =>
      match skip_ws s with
      | String c r =>
          if Ascii.eqb c dq then
            match read_string r with
            | Some (v, r') => Some (JStr v, r')
            | None => None
            end
          else if Ascii.eqb c "{" then
            match skip_ws r with
            | String "}" r' => Some (JObj [], r')
            | r1 =>
                match parse_members fuel' r1 with
                | Some (ms, r') => Some (JObj ms, r')
                | None => None
                end
            end
          else if Ascii.eqb c "[" then
            match skip_ws r with
            | String "]" r' => Some (JArr [], r')
            | r1 =>
                match parse_elements fuel' r1 with
                | Some (vs, r') => Some (JArr vs, r')
                | None => None
                end
            end
          else if Ascii.eqb c "-" then
            match r with
            | String d _ =>
                if is_digit d
                then let '(z, r') := read_digits 0 r in
                     Some (integer (- z), r')
                else None
            | "" => None
            end
          else if is_digit c then
            let '(z, r') := read_digits 0 (String c r) in
            Some (integer z, r')
          else
            match strip_prefix "true" (String c r) with
            | Some r' => Some (JBool true, r')
            | None =>
                match strip_prefix "false" (String c r) with
                | Some r' => Some (JBool false, r')
                | None =>
                    match strip_prefix "null" (String c r) with
                    | Some r' => Some (JNull, r')
                    | None => None
                    end
                end
            end
      | "" => None
      end
  end
with parse_members (fuel : nat) (s : string)
  : option (list (string * jsval) * string) :=
  match fuel with
  | O => None
  | S fuel' =>
      match s with
      | String c r =>
          if negb (Ascii.eqb c dq) then None else
          match read_string r with
          | None => None
          | Some (k, r1) =>
              match skip_ws r1 with
              | String ":" r2 =>
                  match parse_value fuel' r2 with
                  | None => None
                  | Some (v, r4) =>
                      match skip_ws r4 with
                      | String "," r5 =>
                          match parse_members fuel' (skip_ws r5) with
                          | Some (ms, r6) => Some ((k, v) :: ms, r6)
                          | None => None
                          end
                      | String "}" r5 => Some ([(k, v)], r5)
                      | _ => None
                      end
                  end
              | _ => None
              end
          end
      | "" => None
      end
  end
with parse_elements (fuel : nat) (s : string)
  : option (list jsval * string) :=
  match fuel with
  | O => None
  | S fuel' =>
      match parse_value fuel' s with
      | None => None
      | Some (v, r1) =>
          match skip_ws r1 with
          | String "," r2 =>
              match parse_elements fuel' r2 with
              | Some (vs, r3) => Some (v :: vs, r3)
              | None => None
              end
          | String "]" r2 => Some ([v], r2)
          | _ => None
          end
      end
  end.

Definition parse_json (s : string) : option jsval :=
  match parse_value (S (String.length s)) s with
  | Some (v, r) => if String.eqb (skip_ws r) "" then Some v else None
  | None => None
  end.

#[export] Instance numbers : Numbers := {|
  NumberToString := fun q => Z_to_string (QArith_base.Qnum q);
|}.

Definition hex_digit (n : nat) : ascii :=
  ascii_of_nat (if (n <? 10)%nat then 48 + n else 55 + n)%nat.

Definition percent (n : nat) : string :=
  String "%" (String (hex_digit (n / 16)) (String (hex_digit (n mod 16)) "")).

Definition unreserved (c : ascii) : bool :=
  let n := nat_of_ascii c in
  ((48 <=? n) && (n <=? 57) || (65 <=? n) && (n <=? 90)
   || (97 <=? n) && (n <=? 122)
   || existsb (Nat.eqb n) [45; 95; 46; 33; 126; 42; 39; 40; 41])%nat.

Fixpoint encode (s : string) : string :=
  match s with
  | "" => ""
  | String c r =>
      let n := nat_of_ascii c in
      (if unreserved c then String c ""
       else if (n <? 128)%nat then percent n
       else percent (192 + n / 64) +:+ percent (128 + n mod 64))
      +:+ encode r
  end.

Definition replace_first (s pat r : string) : string :=
  match split_first pat s with
  | Some (before, after) => before +:+ r +:+ after
  | None => s
  end.

Fixpoint collapse (in_space : bool) (s : string) : string :=
  match s with
  | "" => ""
  | String c r =>
      let n := nat_of_ascii c in
      if is_space c || ((128 <=? n) && (n <? 192))%nat
      then (if in_space then collapse true r
            else String " " (collapse true r))
      else String c (collapse false r)
  end.

#[export] Instance runtime : Runtime := {|
  runtime_numbers := numbers;
  JSON_parse := parse_json;
  encodeURIComponent := fun v =>
    match ToString v with
    | Ok s => Ok (encode s)
    | Throw e => Throw e
    end;
  String_replace := replace_first;
  cleanQuery := fun s => trim (collapse false s);
  newDate := fun _ => 0;
|}.

Definition place (country' countryZh' city' landmark' landmarkZh' timezone'
    landscapeUrl' : string) : Location :=
  {| country := JStr country'; countryZh := JStr countryZh';
     city := JStr city'; landmark := JStr landmark';
     landmarkZh := JStr landmarkZh'; timezone := JStr timezone';
     landscapeUrl := JStr landscapeUrl' |}.

#[export] Instance catalog : Catalog := {|
  LOCATION_0 :=
    place "Iceland" "Iceland" "Grindavik" "Blue Lagoon" "Blue Lagoon"
      "Atlantic/Reykjavik" "https://images.example/blue-lagoon.jpg";
  LOCATIONS_rest :=
    [ place "Norway" "Norway" "Stranda" "Geirangerfjord" "Geirangerfjord"
        "Europe/Oslo" "https://images.example/geiranger.jpg" ];
  LOCATIONS_typed := eq_refl;
|}.

(** A reply in JSON: the braces around the members [k1: v1, k2: v2, ...]. *)
Fixpoint members (kvs : list (string * string)) : string :=
  match kvs with
  | [] => ""
  | (k, v) :: rest =>
      quoted k +:+ ":" +:+ quoted v
      +:+ match rest with
          | [] => ""
          | _ => "," +:+ members rest
          end
  end.

Definition object (kvs : list (string * string)) : string :=
  "{" +:+ members kvs +:+ "}".

(** An object whose members are given as JSON texts, and an array. *)
Fixpoint raw_members (kvs : list (string * string)) : string :=
  match kvs with
  | [] => ""
  | (k, v) :: rest =>
      quoted k +:+ ":" +:+ v
      +:+ match rest with
          | [] => ""
          | _ => "," +:+ raw_members rest
          end
  end.

Definition record (kvs : list (string * string)) : string :=
  "{" +:+ raw_members kvs +:+ "}".

Definition array (items : list string) : string :=
  "[" +:+ String.concat "," items +:+ "]".

Definition config : Config :=
  {| sunriseApi := None; defaultLat := QArith_base.Qmake 30 1;
     defaultLng := QArith_base.Qmake 120 1; abnormalThreshold := 3;
     outputMode := OutImage; useStorageService := true;
     storageCacheHours := 24;
     travelMessageTemplate := "went to {landmark}, {country}!";
     aigcEnabled := false; aigcChannel := ""; aigcPrompt := "";
     logPath := None; backgroundStoragePath := "./data/pig/backgrounds";
     llmLocationEnabled := true; llmLocationModel := "gemini-flash";
     llmLocationCustomContext := ""; llmFailureCooldownMs := Some 300000;
     imageSearchPrompt := "{landmark} {country} landscape";
     unsplashAccessKey := ""; pexelsApiKey := "";
     backgroundFetchMode := FetchAuto; backgroundFetchTimeoutMs := 8000;
     backgroundInlineMaxBytes := 8 * 1024 * 1024;
     worldMapUseTianditu := false; tiandituToken := "";
     tiandituTimeoutMs := 5000; worldMapOfficialOnly := false;
     logRetentionDays := 45; monthlySummaryEnabled := false;
     monthlySummaryScope := ScopeGlobal; experimentalAutoDetect := false;
     experimentalAutoDetectScope := DetectGuild;
     silentRecordEnabled := true; silentRecordAutoTravel := false;
     nightOwlEnabled := true; nightOwlStartHour := Some 0;
     nightOwlEndHour := Some 5; nightOwlGrayscaleAvatar := false;
     debug := false |}.

(** A host whose chat model answers [reply], at the given clock
    readings; no photo provider finds anything, the renderer fails. *)
Definition host (reply : Result ModelRef) (gate failure : Z) : Host :=
  {| nowAtGate := gate; nowAtFailure := failure; nowAtInsert := failure;
     randomIndex := 1; stackDepth := 100;
     chatluna := Some reply;
     searchPexelsPhoto := fun _ _ => None;
     searchUnsplashPhoto := fun _ _ => None;
     mediaLuna := None;
     renderCard := fun _ _ _ _ _ _ _ _ => Throw (HostError "no browser");
     chatluna_storage := None;
     http_get := fun _ => Throw (HostError "offline") |}.

Definition world (cooldown : Z) : World :=
  {| llmCooldownUntil := cooldown; pig_travel_log := []; events := [] |}.

(** Three replies of a chat model: a refusal in prose, an object without
    a photo URL, and an object with a relative photo URL inside prose. *)
Definition reply_refusal : string := "I can not answer that.".

Definition reply_no_url : string :=
  object [("country", "Norway"); ("landmark", "Geirangerfjord")].

Definition reply_prose : string :=
  "Sure! " +:+ object [("country", "Norway"); ("landmark", "Geirangerfjord");
                       ("landscapeUrl", "photos/fjord.jpg")].

Definition parsed_prose : Location :=
  {| country := JStr "Norway"; countryZh := JStr "Norway"; city := JStr "";
     landmark := JStr "Geirangerfjord"; landmarkZh := JStr "Geirangerfjord";
     timezone := JStr "UTC";
     landscapeUrl :=
       JStr "https://images.unsplash.com/featured/?Geirangerfjord,Norway" |}.

(** A lookup of ISO codes that knows three countries. *)
Definition isoCode (name : string) : option string :=
  if String.eqb name "Norway" then Some "NO"
  else if String.eqb name "Kingdom of Norway" then Some "NO"
  else if String.eqb name "Iceland" then Some "IS"
  else if String.eqb name "Japan" then Some "JP"
  else None.

Definition trip (n : Z) (user country' : string) : Leaderboard.PigTravelLog :=
  {| Leaderboard.id := n; Leaderboard.userId := user;
     Leaderboard.platform := "onebot"; Leaderboard.guildId := "g1";
     Leaderboard.timestamp := n; Leaderboard.country := country';
     Leaderboard.countryZh := country'; Leaderboard.location := "";
     Leaderboard.locationZh := ""; Leaderboard.timezone := "UTC";
     Leaderboard.imagePath := ""; Leaderboard.isAIGC := false |}.

(** User A: 3 trips in 2 countries; user B: 5 trips in 1 country. *)
Definition trips : list Leaderboard.PigTravelLog :=
  [ trip 1 "A" "Norway"; trip 2 "B" "Japan"; trip 3 "B" "Japan";
    trip 4 "A" "Kingdom of Norway"; trip 5 "B" "Japan"; trip 6 "A" "Iceland";
    trip 7 "B" "Japan"; trip 8 "B" "Japan" ].

(** The same configuration with the two deprecated fields filled in. *)
Definition config_legacy : Config :=
  {| sunriseApi := Some "https://api.example/sun"; defaultLat := defaultLat config;
     defaultLng := defaultLng config;
     abnormalThreshold := abnormalThreshold config;
     outputMode := outputMode config;
     useStorageService := useStorageService config;
     storageCacheHours := storageCacheHours config;
     travelMessageTemplate := travelMessageTemplate config;
     aigcEnabled := aigcEnabled config; aigcChannel := aigcChannel config;
     aigcPrompt := aigcPrompt config; logPath := Some "./data/pig/logs";
     backgroundStoragePath := backgroundStoragePath config;
     llmLocationEnabled := llmLocationEnabled config;
     llmLocationModel := llmLocationModel config;
     llmLocationCustomContext := llmLocationCustomContext config;
     llmFailureCooldownMs := llmFailureCooldownMs config;
     imageSearchPrompt := imageSearchPrompt config;
     unsplashAccessKey := unsplashAccessKey config;
     pexelsApiKey := pexelsApiKey config;
     backgroundFetchMode := backgroundFetchMode config;
     backgroundFetchTimeoutMs := backgroundFetchTimeoutMs config;
     backgroundInlineMaxBytes := backgroundInlineMaxBytes config;
     worldMapUseTianditu := worldMapUseTianditu config;
     tiandituToken := tiandituToken config;
     tiandituTimeoutMs := tiandituTimeoutMs config;
     worldMapOfficialOnly := worldMapOfficialOnly config;
     logRetentionDays := logRetentionDays config;
     monthlySummaryEnabled := monthlySummaryEnabled config;
     monthlySummaryScope := monthlySummaryScope config;
     experimentalAutoDetect := experimentalAutoDetect config;
     experimentalAutoDetectScope := experimentalAutoDetectScope config;
     silentRecordEnabled := silentRecordEnabled config;
     silentRecordAutoTravel := silentRecordAutoTravel config;
     nightOwlEnabled := nightOwlEnabled config;
     nightOwlStartHour := nightOwlStartHour config;
     nightOwlEndHour := nightOwlEndHour config;
     nightOwlGrayscaleAvatar := nightOwlGrayscaleAvatar config;
     debug := debug config |}.

(** Norway, visited six times, and markup for the patcher of the world
    map: a regular document, a tag whose class holds the word unvisited,
    and a tag with a second attribute whose name ends in class. *)
Definition norway : WorldMap.VisitedCountry :=
  {| WorldMap.isoCode := WorldMap.lit "no";
     WorldMap.countryName := WorldMap.lit "Norway";
     WorldMap.countryNameZh := [];
     WorldMap.visitCount := 6;
     WorldMap.firstVisit := 1;
     WorldMap.lastVisit := 6 |}.

Definition attribute (name value : string) : string :=
  " " +:+ name +:+ "=" +:+ quoted value.

Definition map_doc : list WorldMap.chunk :=
  [ WorldMap.Tag (WorldMap.lit "svg");
    WorldMap.Tag
      (WorldMap.lit ("path" +:+ attribute "id" "NO" +:+ attribute "d" "M0"));
    WorldMap.Text (WorldMap.lit " ");
    WorldMap.Tag
      (WorldMap.lit ("path" +:+ attribute "class" "Norway"
                     +:+ attribute "d" "M1"));
    WorldMap.Tag
      (WorldMap.lit ("path" +:+ attribute "id" "SE"
                     +:+ attribute "class" "land"));
    WorldMap.Tag (WorldMap.lit "/svg") ].

Definition map_doc_patched : list ascii :=
  WorldMap.lit
    ("<svg><path" +:+ attribute "id" "NO" +:+ attribute "d" "M0"
     +:+ attribute "class" "visited visited-4" +:+ "> <path"
     +:+ attribute "class" "Norway visited visited-4" +:+ attribute "d" "M1"
     +:+ "><path" +:+ attribute "id" "SE" +:+ attribute "class" "land"
     +:+ "></svg>").

Definition svg_unvisited : list ascii :=
  WorldMap.lit ("<path" +:+ attribute "id" "NO"
                +:+ attribute "class" "unvisited" +:+ ">").

Definition svg_data_class : list ascii :=
  WorldMap.lit ("<path" +:+ attribute "data-class" "x"
                +:+ attribute "class" "Norway" +:+ ">").

Definition svg_data_class_once : list ascii :=
  WorldMap.lit ("<path" +:+ attribute "data-class" "x visited visited-4"
                +:+ attribute "class" "Norway" +:+ ">").

Definition svg_data_class_twice : list ascii :=
  WorldMap.lit ("<path"
                +:+ attribute "data-class" "x visited visited-4 visited visited-4"
                +:+ attribute "class" "Norway" +:+ ">").

End Demo.

(** * Further sample inputs *)

Module Samples.

(** The sample configuration in the text output mode. *)
Definition config_text : Config :=
  {| sunriseApi := sunriseApi Demo.config;
     defaultLat := defaultLat Demo.config;
     defaultLng := defaultLng Demo.config;
     abnormalThreshold := abnormalThreshold Demo.config;
     outputMode := OutText;
     useStorageService := useStorageService Demo.config;
     storageCacheHours := storageCacheHours Demo.config;
     travelMessageTemplate := travelMessageTemplate Demo.config;
     aigcEnabled := aigcEnabled Demo.config;
     aigcChannel := aigcChannel Demo.config;
     aigcPrompt := aigcPrompt Demo.config;
     logPath := logPath Demo.config;
     backgroundStoragePath := backgroundStoragePath Demo.config;
     llmLocationEnabled := llmLocationEnabled Demo.config;
     llmLocationModel := llmLocationModel Demo.config;
     llmLocationCustomContext := llmLocationCustomContext Demo.config;
     llmFailureCooldownMs := llmFailureCooldownMs Demo.config;
     imageSearchPrompt := imageSearchPrompt Demo.config;
     unsplashAccessKey := unsplashAccessKey Demo.config;
     pexelsApiKey := pexelsApiKey Demo.config;
     backgroundFetchMode := backgroundFetchMode Demo.config;
     backgroundFetchTimeoutMs := backgroundFetchTimeoutMs Demo.config;
     backgroundInlineMaxBytes := backgroundInlineMaxBytes Demo.config;
     worldMapUseTianditu := worldMapUseTianditu Demo.config;
     tiandituToken := tiandituToken Demo.config;
     tiandituTimeoutMs := tiandituTimeoutMs Demo.config;
     worldMapOfficialOnly := worldMapOfficialOnly Demo.config;
     logRetentionDays := logRetentionDays Demo.config;
     monthlySummaryEnabled := monthlySummaryEnabled Demo.config;
     monthlySummaryScope := monthlySummaryScope Demo.config;
     experimentalAutoDetect := experimentalAutoDetect Demo.config;
     experimentalAutoDetectScope := experimentalAutoDetectScope Demo.config;
     silentRecordEnabled := silentRecordEnabled Demo.config;
     silentRecordAutoTravel := silentRecordAutoTravel Demo.config;
     nightOwlEnabled := nightOwlEnabled Demo.config;
     nightOwlStartHour := nightOwlStartHour Demo.config;
     nightOwlEndHour := nightOwlEndHour Demo.config;
     nightOwlGrayscaleAvatar := nightOwlGrayscaleAvatar Demo.config;
     debug := debug Demo.config |}.

(** The sample configuration with the AI image service switched on. *)
Definition config_aigc : Config :=
  {| sunriseApi := sunriseApi Demo.config;
     defaultLat := defaultLat Demo.config;
     defaultLng := defaultLng Demo.config;
     abnormalThreshold := abnormalThreshold Demo.config;
     outputMode := outputMode Demo.config;
     useStorageService := useStorageService Demo.config;
     storageCacheHours := storageCacheHours Demo.config;
     travelMessageTemplate := travelMessageTemplate Demo.config;
     aigcEnabled := true;
     aigcChannel := "draw";
     aigcPrompt := "{landmark}, {country}";
     logPath := logPath Demo.config;
     backgroundStoragePath := backgroundStoragePath Demo.config;
     llmLocationEnabled := llmLocationEnabled Demo.config;
     llmLocationModel := llmLocationModel Demo.config;
     llmLocationCustomContext := llmLocationCustomContext Demo.config;
     llmFailureCooldownMs := llmFailureCooldownMs Demo.config;
     imageSearchPrompt := imageSearchPrompt Demo.config;
     unsplashAccessKey := unsplashAccessKey Demo.config;
     pexelsApiKey := pexelsApiKey Demo.config;
     backgroundFetchMode := backgroundFetchMode Demo.config;
     backgroundFetchTimeoutMs := backgroundFetchTimeoutMs Demo.config;
     backgroundInlineMaxBytes := backgroundInlineMaxBytes Demo.config;
     worldMapUseTianditu := worldMapUseTianditu Demo.config;
     tiandituToken := tiandituToken Demo.config;
     tiandituTimeoutMs := tiandituTimeoutMs Demo.config;
     worldMapOfficialOnly := worldMapOfficialOnly Demo.config;
     logRetentionDays := logRetentionDays Demo.config;
     monthlySummaryEnabled := monthlySummaryEnabled Demo.config;
     monthlySummaryScope := monthlySummaryScope Demo.config;
     experimentalAutoDetect := experimentalAutoDetect Demo.config;
     experimentalAutoDetectScope := experimentalAutoDetectScope Demo.config;
     silentRecordEnabled := silentRecordEnabled Demo.config;
     silentRecordAutoTravel := silentRecordAutoTravel Demo.config;
     nightOwlEnabled := nightOwlEnabled Demo.config;
     nightOwlStartHour := nightOwlStartHour Demo.config;
     nightOwlEndHour := nightOwlEndHour Demo.config;
     nightOwlGrayscaleAvatar := nightOwlGrayscaleAvatar Demo.config;
     debug := debug Demo.config |}.

(** A generation that succeeds with one output that has no URL. *)
Definition generated : GenerationResult :=
  {| gen_success := true; gen_output := Some [JNull] |}.

(** The sample host without a chat model, with an image service that
    answers [generated]. *)
Definition host_aigc : Host :=
  {| nowAtGate := 1000; nowAtFailure := 1500; nowAtInsert := 1500;
     randomIndex := 1; stackDepth := 100;
     chatluna := Some (Ok NoModel);
     searchPexelsPhoto := fun _ _ => None;
     searchUnsplashPhoto := fun _ _ => None;
     mediaLuna := Some (Ok generated);
     renderCard := fun _ _ _ _ _ _ _ _ => Throw (HostError "no browser");
     chatluna_storage := None;
     http_get := fun _ => Throw (HostError "offline") |}.

Definition visitor : UserInfo :=
  {| userId := "A"; username := "A"; avatarUrl := "" |}.

(** The sample configuration with an API key of Pexels. *)
Definition config_photo : Config :=
  {| sunriseApi := sunriseApi Demo.config;
     defaultLat := defaultLat Demo.config;
     defaultLng := defaultLng Demo.config;
     abnormalThreshold := abnormalThreshold Demo.config;
     outputMode := outputMode Demo.config;
     useStorageService := useStorageService Demo.config;
     storageCacheHours := storageCacheHours Demo.config;
     travelMessageTemplate := travelMessageTemplate Demo.config;
     aigcEnabled := aigcEnabled Demo.config;
     aigcChannel := aigcChannel Demo.config;
     aigcPrompt := aigcPrompt Demo.config;
     logPath := logPath Demo.config;
     backgroundStoragePath := backgroundStoragePath Demo.config;
     llmLocationEnabled := llmLocationEnabled Demo.config;
     llmLocationModel := llmLocationModel Demo.config;
     llmLocationCustomContext := llmLocationCustomContext Demo.config;
     llmFailureCooldownMs := llmFailureCooldownMs Demo.config;
     imageSearchPrompt := imageSearchPrompt Demo.config;
     unsplashAccessKey := unsplashAccessKey Demo.config;
     pexelsApiKey := "key";
     backgroundFetchMode := backgroundFetchMode Demo.config;
     backgroundFetchTimeoutMs := backgroundFetchTimeoutMs Demo.config;
     backgroundInlineMaxBytes := backgroundInlineMaxBytes Demo.config;
     worldMapUseTianditu := worldMapUseTianditu Demo.config;
     tiandituToken := tiandituToken Demo.config;
     tiandituTimeoutMs := tiandituTimeoutMs Demo.config;
     worldMapOfficialOnly := worldMapOfficialOnly Demo.config;
     logRetentionDays := logRetentionDays Demo.config;
     monthlySummaryEnabled := monthlySummaryEnabled Demo.config;
     monthlySummaryScope := monthlySummaryScope Demo.config;
     experimentalAutoDetect := experimentalAutoDetect Demo.config;
     experimentalAutoDetectScope := experimentalAutoDetectScope Demo.config;
     silentRecordEnabled := silentRecordEnabled Demo.config;
     silentRecordAutoTravel := silentRecordAutoTravel Demo.config;
     nightOwlEnabled := nightOwlEnabled Demo.config;
     nightOwlStartHour := nightOwlStartHour Demo.config;
     nightOwlEndHour := nightOwlEndHour Demo.config;
     nightOwlGrayscaleAvatar := nightOwlGrayscaleAvatar Demo.config;
     debug := debug Demo.config |}.

(** Replies that are JSON and have the three required fields, with a
    field that is no string: a country that is an object with a member
    named toString, a country that is an array, a landmark that is an
    object with a member named toString; and a reply of strings. *)
Definition reply_country_object : string :=
  Demo.record [("country", Demo.record [("toString", "1")]);
               ("countryZh", quoted "X");
               ("landmark", quoted "L");
               ("landscapeUrl", quoted "http://x")].

Definition reply_country_array : string :=
  Demo.record [("country", Demo.array [quoted "Norway"]);
               ("landmark", quoted "X");
               ("landscapeUrl", quoted "http://a")].

Definition reply_landmark_object : string :=
  Demo.record [("country", quoted "Norway");
               ("landmark", Demo.record [("toString", "1")]);
               ("landscapeUrl", quoted "http://a")].

Definition reply_strings : string :=
  Demo.record [("country", quoted "Norway");
               ("landmark", quoted "Geirangerfjord");
               ("landscapeUrl", quoted "http://a")].

(** A renderer that answers with a card for every input, the text of the
    card being the message; a debug run names its file differently. *)
Definition rendering (debugging : bool) (inlineMaxBytes fetchTimeoutMs : Z)
    (mode : FetchMode) (data : CardData) (userInfo : UserInfo)
    (platform : string) (backgroundUrl : jsval) : Result CardResult :=
  Ok {| card_buffer := card_msg data;
        card_filename := if debugging then "debug.png" else "card.png" |}.

(** A host on which every service is present and answers: the chat model
    with [reply], Pexels with a photo for every query, the image service
    with [generated], the renderer with a card, the storage service with
    a URL. *)
Definition host_reply (reply : string) : Host :=
  {| nowAtGate := 1000; nowAtFailure := 1500; nowAtInsert := 1500;
     randomIndex := 1; stackDepth := 100;
     chatluna := Some (Ok (Model (Ok reply)));
     searchPexelsPhoto := fun _ _ => Some "https://images.example/found.jpg";
     searchUnsplashPhoto := fun _ _ => None;
     mediaLuna := Some (Ok generated);
     renderCard := rendering;
     chatluna_storage := Some (Ok (JStr "https://storage.example/card.png"));
     http_get := fun _ => Throw (HostError "offline") |}.

End Samples.

(** * Properties *)

(** ** The Sunrise-Band Calculator *)

Lemma getUTCHours_range (t : Z) : 0 <= Sunrise.getUTCHours t <= 23.
Proof.
  unfold Sunrise.getUTCHours.
  pose proof (Z.mod_pos_bound (t / 3600000) 24 ltac:(lia)). lia.
Qed.

Lemma getUTCHours_onto (h : Z) :
  0 <= h <= 23 -> Sunrise.getUTCHours (h * 3600000 - 8 * 60 * 60 * 1000 + 8 * 60 * 60 * 1000) = h.
Proof.
  intros Hh. unfold Sunrise.getUTCHours.
  replace (h * 3600000 - 8 * 60 * 60 * 1000 + 8 * 60 * 60 * 1000)
    with (h * 3600000) by lia.
  rewrite Z.div_mul by lia. apply Z.mod_small. lia.
Qed.

Example sunrise_midnight :
  let h := Sunrise.getSunriseTimezoneHint (16 * 3600000) in
  (Sunrise.beijingHour h, Sunrise.idealOffset h, Sunrise.minOffset h,
   Sunrise.maxOffset h, Sunrise.utcOffsetRange h, Sunrise.beijingTime h)
  = (0, 14, 13, -9, ("UTC+13", "UTC-9"), "00:00").
Proof. vm_compute. reflexivity. Qed.

(** C5.  At every instant the anchor-zone hour is one of 0..23, and every
    such hour occurs; the ideal offset is 6 - hour + 8 and already lies in
    [-12, 14], so that normalising it changes nothing; the two bounds are
    the normalised values of ideal - 1 and ideal + 1, each differs from
    its raw value by 0 or 24, each lies in [-12, 14], and the band from
    the lower to the upper bound is 2 wide modulo 24. *)
Theorem sunrise_band_normalized :
  (forall now : Z,
     let hint := Sunrise.getSunriseTimezoneHint now in
     let ideal := Sunrise.idealOffset hint in
     0 <= Sunrise.beijingHour hint <= 23
     /\ ideal = 6 - Sunrise.beijingHour hint + 8
     /\ -12 <= ideal <= 14
     /\ Sunrise.normalizeOffset ideal = ideal
     /\ Sunrise.minOffset hint = Sunrise.normalizeOffset (ideal - 1)
     /\ Sunrise.maxOffset hint = Sunrise.normalizeOffset (ideal + 1)
     /\ (Sunrise.minOffset hint = ideal - 1
         \/ Sunrise.minOffset hint = ideal - 1 + 24)
     /\ (Sunrise.maxOffset hint = ideal + 1
         \/ Sunrise.maxOffset hint = ideal + 1 - 24)
     /\ -12 <= Sunrise.minOffset hint <= 14
     /\ -12 <= Sunrise.maxOffset hint <= 14
     /\ (Sunrise.maxOffset hint - Sunrise.minOffset hint) mod 24 = 2)
  /\ (forall h : Z, 0 <= h <= 23 ->
        exists now, Sunrise.beijingHour (Sunrise.getSunriseTimezoneHint now) = h).
Proof.
  split.
  - intros now. cbn zeta.
    unfold Sunrise.getSunriseTimezoneHint; cbn [Sunrise.beijingHour
      Sunrise.idealOffset Sunrise.minOffset Sunrise.maxOffset].
    pose proof (getUTCHours_range (now + 8 * 60 * 60 * 1000)) as Hh.
    set (h := Sunrise.getUTCHours (now + 8 * 60 * 60 * 1000)) in *.
    unfold Sunrise.normalizeOffset.
    repeat match goal with
           | |- context [?a <? ?b] => destruct (Z.ltb_spec a b)
           | |- context [?a >? ?b] =>
               rewrite (Z.gtb_ltb a b); destruct (Z.ltb_spec b a)
           end;
      repeat split; try lia;
      match goal with
      | |- (?a mod 24) = 2 =>
          first [ replace a with 2 by lia; reflexivity
                | replace a with (2 + (-1) * 24) by lia;
                  rewrite Z.mod_add by lia; reflexivity ]
      end.
  - intros h Hh. exists (h * 3600000 - 8 * 60 * 60 * 1000).
    unfold Sunrise.getSunriseTimezoneHint; cbn [Sunrise.beijingHour].
    apply getUTCHours_onto; exact Hh.
Qed.

(** ** The Destination Resolver: the two-stage parser *)

Lemma upto_last_fix (c : ascii) (s t : string) :
  upto_last c s = Some t -> upto_last c t = Some t.
Proof.
  revert t; induction s as [|x s IH]; intros t; simpl; [discriminate|].
  destruct (upto_last c s) as [t'|] eqn:E.
  - intros [= <-]. simpl. rewrite (IH t' eq_refl). reflexivity.
  - destruct (Ascii.eqb x c) eqn:Ex; [|discriminate].
    intros [= <-]. simpl. rewrite Ex. reflexivity.
Qed.

Lemma strip_prefix_app (p s r : string) :
  strip_prefix p s = Some r -> s = p +:+ r.
Proof.
  revert s; induction p as [|a p IH]; intros s; simpl.
  - intros [= ->]. reflexivity.
  - destruct s as [|b s]; [discriminate|].
    destruct (Ascii.eqb_spec a b) as [->|]; [|discriminate].
    intros Hs. rewrite (IH _ Hs). reflexivity.
Qed.

Lemma strip_prefix_extend (p s r t : string) :
  strip_prefix p s = Some r -> strip_prefix p (s +:+ t) = Some (r +:+ t).
Proof.
  revert s; induction p as [|a p IH]; intros s; simpl.
  - intros [= ->]. reflexivity.
  - destruct s as [|b s]; [discriminate|]. simpl.
    destruct (Ascii.eqb a b); [apply IH|discriminate].
Qed.

(** Cutting a text after a closing brace that follows the first occurrence
    of [lit] keeps that first occurrence. *)
Lemma upto_last_app (c : ascii) (a r r' : string) :
  upto_last c r = Some r' -> upto_last c (a +:+ r) = Some (a +:+ r').
Proof.
  intros Hr. induction a as [|x a IH]; simpl; [exact Hr|].
  rewrite IH. reflexivity.
Qed.

Lemma upto_last_prefix (c : ascii) (s t : string) :
  upto_last c s = Some t -> exists u, s = t +:+ u.
Proof.
  revert t; induction s as [|x s IH]; intros t; simpl; [discriminate|].
  destruct (upto_last c s) as [t'|] eqn:E.
  - intros [= <-]. destruct (IH t' eq_refl) as [u ->]. exists u. reflexivity.
  - destruct (Ascii.eqb x c); [|discriminate].
    intros [= <-]. exists s. reflexivity.
Qed.

Lemma split_first_cons (lit : string) (x : ascii) (s : string) :
  split_first lit (String x s)
  = match strip_prefix lit (String x s) with
    | Some rest => Some ("", rest)
    | None =>
        match split_first lit s with
        | Some (before, after) => Some (String x before, after)
        | None => None
        end
    end.
Proof. reflexivity. Qed.

Lemma split_first_cut (c : ascii) (lit s a r r' : string) :
  split_first lit s = Some (a, r) ->
  upto_last c r = Some r' ->
  upto_last c s = Some (a +:+ lit +:+ r')
  /\ split_first lit (a +:+ lit +:+ r') = Some (a, r').
Proof.
  revert a; induction s as [|x s IH]; intros a Hs Hr.
  - simpl in Hs. destruct (strip_prefix lit "") as [rest|] eqn:E; [|discriminate].
    injection Hs as <- <-.
    destruct lit; simpl in E; [|discriminate]. injection E as <-.
    simpl in Hr. discriminate.
  - cbn [split_first] in Hs.
    destruct (strip_prefix lit (String x s)) as [rest|] eqn:E.
    + injection Hs as <- <-.
      pose proof (strip_prefix_app _ _ _ E) as Hx.
      split.
      * rewrite Hx. change ("" +:+ lit +:+ r') with (lit +:+ r').
        apply upto_last_app. exact Hr.
      * change ("" +:+ lit +:+ r') with (lit +:+ r').
        assert (Hp : strip_prefix lit (lit +:+ r') = Some r').
        { clear. induction lit as [|y l IHl]; simpl; [reflexivity|].
          rewrite Ascii.eqb_refl. exact IHl. }
        destruct (lit +:+ r') as [|y l] eqn:El.
        -- simpl. rewrite Hp. reflexivity.
        -- cbn [split_first]. rewrite Hp. reflexivity.
    + destruct (split_first lit s) as [[b a']|] eqn:Es; [|discriminate].
      injection Hs as <- <-.
      destruct (IH b eq_refl Hr) as [H1 H2].
      split.
      * simpl. rewrite H1. reflexivity.
      * change (String x b +:+ lit +:+ r') with (String x (b +:+ lit +:+ r')).
        rewrite split_first_cons, H2.
        destruct (strip_prefix lit (String x (b +:+ lit +:+ r'))) as [t|] eqn:E2;
          [|reflexivity].
        exfalso.
        destruct (upto_last_prefix _ _ _ H1) as [u Hu].
        assert (E3 : strip_prefix lit (String x s) = Some (t +:+ u)).
        { rewrite Hu. exact (strip_prefix_extend _ _ _ u E2). }
        congruence.
Qed.

Section ResolverFacts.
Context `{Runtime} `{Catalog}.

(** The loosely extracted object is its own loose extraction: the lenient
    stage, applied again, finds the same text. *)
Lemma objectMatch_fix (content m : string) :
  Resolver.objectMatch content = Some m -> Resolver.objectMatch m = Some m.
Proof.
  unfold Resolver.objectMatch.
  destruct (split_first "{" content) as [[pre rest]|]; [|discriminate].
  destruct (split_first (quoted "country") rest) as [[a1 r1]|] eqn:E1;
    [|discriminate].
  destruct (split_first (quoted "landmark") r1) as [[a2 r2]|] eqn:E2;
    [|discriminate].
  destruct (upto_last "}" r2) as [r2'|] eqn:E3; [|discriminate].
  destruct (split_first_cut "}" _ _ _ _ _ E2 E3) as [F1 F2].
  destruct (split_first_cut "}" _ _ _ _ _ E1 F1) as [G1 G2].
  rewrite G1. intros [= <-].
  rewrite split_first_cons. cbn [strip_prefix].
  rewrite Ascii.eqb_refl.
  rewrite G2, F2, (upto_last_fix _ _ _ E3), (upto_last_fix _ _ _ G1).
  reflexivity.
Qed.

(** The parser never raises while at least one call fits on the stack. *)
Lemma parseLocationResponse_returns (stack : nat) (content : string) :
  exists r, Resolver.parseLocationResponse (S stack) content = Ok r.
Proof.
  cbn [Resolver.parseLocationResponse].
  destruct (Resolver.tryBlock content) as [r|e]; [eauto|].
  destruct (Resolver.objectMatch content) as [m|]; [|eauto].
  destruct (Resolver.parseLocationResponse stack m); eauto.
Qed.

(** The closed form of the recursion: the first stage on the reply, else
    the first stage on the loosely extracted object, else [null]. *)
Definition parseTwoStage (content : string) : option Location :=
  match Resolver.tryBlock content with
  | Ok r => r
  | Throw _ =>
      match Resolver.objectMatch content with
      | Some m =>
          match Resolver.tryBlock m with
          | Ok r => r
          | Throw _ => None
          end
      | None => None
      end
  end.

Lemma parse_loop (stack : nat) (m : string) :
  Resolver.objectMatch m = Some m ->
  (exists e, Resolver.tryBlock m = Throw e) ->
  Resolver.parseLocationResponse stack m = Throw RangeError
  \/ Resolver.parseLocationResponse stack m = Ok None.
Proof.
  intros Hm [e He]. induction stack as [|stack IH]; [left; reflexivity|].
  right. cbn [Resolver.parseLocationResponse]. rewrite He, Hm.
  destruct IH as [-> | ->]; reflexivity.
Qed.

Lemma parseLocationResponse_closed_form (stack : nat) (content : string) :
  Resolver.parseLocationResponse (S (S stack)) content
  = Ok (parseTwoStage content).
Proof.
  unfold parseTwoStage.
  change (Resolver.parseLocationResponse (S (S stack)) content)
    with (match Resolver.tryBlock content with
          | Ok r => Ok r
          | Throw _ =>
              match Resolver.objectMatch content with
              | Some m =>
                  match Resolver.parseLocationResponse (S stack) m with
                  | Ok r => Ok r
                  | Throw _ => Ok None
                  end
              | None => Ok None
              end
          end).
  destruct (Resolver.tryBlock content) as [r|e]; [reflexivity|].
  destruct (Resolver.objectMatch content) as [m|] eqn:Em; [|reflexivity].
  pose proof (objectMatch_fix _ _ Em) as Hm.
  cbn [Resolver.parseLocationResponse].
  destruct (Resolver.tryBlock m) as [r|e'] eqn:Et; [reflexivity|].
  rewrite Hm.
  destruct (parse_loop stack m Hm (ex_intro _ e' Et)) as [-> | ->];
    reflexivity.
Qed.

(** A location that the parser returns was built by the [try] block,
    from the reply or from the loosely extracted object. *)
Lemma parseLocationResponse_origin (stack : nat) (content : string)
    (loc : Location) :
  Resolver.parseLocationResponse stack content = Ok (Some loc) ->
  Resolver.tryBlock content = Ok (Some loc)
  \/ exists m, Resolver.objectMatch content = Some m
               /\ Resolver.tryBlock m = Ok (Some loc).
Proof.
  destruct stack as [|[|stack]].
  - discriminate.
  - cbn [Resolver.parseLocationResponse].
    destruct (Resolver.tryBlock content) as [r|e]; [intros [= ->]; auto|].
    destruct (Resolver.objectMatch content); discriminate.
  - rewrite parseLocationResponse_closed_form. unfold parseTwoStage.
    destruct (Resolver.tryBlock content) as [r|e]; [intros [= ->]; auto|].
    destruct (Resolver.objectMatch content) as [m|]; [|discriminate].
    destruct (Resolver.tryBlock m) as [r|e'] eqn:Et; [|discriminate].
    intros [= ->]. right. eauto.
Qed.

End ResolverFacts.

(** ** The Destination Resolver: fallback and cooldown *)

Ltac run_monad :=
  unfold bind, ret, lift, throw, try_catch, gets, modify, when, emit,
    database_create in *.

Section ResolverRuns.
Context `{Runtime} `{Catalog}.

Lemma getRandomStaticLocation_in (host : Host) :
  In (Resolver.getRandomStaticLocation host) LOCATIONS.
Proof.
  unfold Resolver.getRandomStaticLocation. apply nth_In.
  apply Nat.mod_upper_bound. unfold LOCATIONS. simpl. lia.
Qed.

(** What a run of the resolver leaves of the world: the travel log is
    never touched, and host calls are only added. *)
Definition extends (w w' : World) : Prop :=
  pig_travel_log w' = pig_travel_log w
  /\ exists added, events w' = events w ++ added.

Lemma extends_refl (w : World) : extends w w.
Proof. split; [reflexivity|]. exists []. rewrite app_nil_r. reflexivity. Qed.

Lemma extends_trans (w1 w2 w3 : World) :
  extends w1 w2 -> extends w2 w3 -> extends w1 w3.
Proof.
  intros [L1 [a1 E1]] [L2 [a2 E2]]. split; [congruence|].
  exists (a1 ++ a2). rewrite E2, E1, app_assoc. reflexivity.
Qed.

Lemma searchLoop_returns (config : Config) (host : Host)
    (queries : list string) (photoUrl : option string) (w : World) :
  exists r w',
    Resolver.searchLoop config host queries photoUrl w = (Ok r, w')
    /\ llmCooldownUntil w' = llmCooldownUntil w /\ extends w w'.
Proof.
  revert photoUrl w.
  induction queries as [|q rest IH]; intros photoUrl w;
    cbn [Resolver.searchLoop].
  - run_monad. eauto using extends_refl.
  - run_monad.
    destruct (nonempty (pexelsApiKey config)); cbn;
      match goal with
      | |- context [negb (Resolver.truthy_url ?p) && ?k] =>
          destruct (negb (Resolver.truthy_url p) && k); cbn
      end;
      match goal with
      | |- context [if Resolver.truthy_url ?p then _ else _] =>
          destruct (Resolver.truthy_url p)
      end;
      try (eexists _, _; split; [reflexivity|]; split; [reflexivity|];
           split; [reflexivity|]; cbn; eexists; rewrite <- ?app_assoc;
           try reflexivity; rewrite app_nil_r; reflexivity);
      match goal with
      | |- context [Resolver.searchLoop config host rest ?p ?w0] =>
          destruct (IH p w0) as (r & w' & -> & Hc & He);
          exists r, w'; split; [reflexivity|]; split; [exact Hc|];
          refine (extends_trans _ w0 _ _ He); split; [reflexivity|];
          cbn; eexists; rewrite <- ?app_assoc; try reflexivity;
          rewrite app_nil_r; reflexivity
      end.
Qed.

(** An API key of a photo service is configured. *)
Definition photoKeys (config : Config) : bool :=
  nonempty (unsplashAccessKey config) || nonempty (pexelsApiKey config).

(** The photo search returns, or throws while it builds the queries,
    before any search call. *)
Lemma replacePhoto_runs (config : Config) (host : Host)
    (location : Location) (w : World) :
  (exists loc w',
     Resolver.replacePhoto config host location w = (Ok loc, w')
     /\ (photoKeys config = true ->
         exists queries, Resolver.searchQueries config location = Ok queries)
     /\ (loc = location
         \/ exists url, loc = Resolver.with_landscapeUrl location (JStr url))
     /\ llmCooldownUntil w' = llmCooldownUntil w /\ extends w w')
  \/ (exists e,
        Resolver.replacePhoto config host location w = (Throw e, w)
        /\ photoKeys config = true
        /\ Resolver.searchQueries config location = Throw e).
Proof.
  unfold Resolver.replacePhoto, photoKeys.
  destruct (nonempty (unsplashAccessKey config)
            || nonempty (pexelsApiKey config)).
  - unfold bind at 1, lift.
    destruct (Resolver.searchQueries config location) as [queries|e];
      [|right; eauto].
    left. unfold bind.
    destruct (searchLoop_returns config host queries None w)
      as (r & w' & -> & Hc & He).
    destruct r as [url|]; [destruct (nonempty url)|]; run_monad;
      eexists _, w'; (split; [reflexivity|]); eauto 8.
  - left. run_monad. exists location, w.
    split; [reflexivity|]. split; [discriminate|].
    eauto using extends_refl.
Qed.

(** The conditions under which a call goes past the two early returns. *)
Definition attempts (config : Config) (host : Host) (w : World) : Prop :=
  llmLocationEnabled config = true
  /\ nonempty (llmLocationModel config) = true
  /\ Resolver.available (chatluna host) = true
  /\ ((default 0 (llmFailureCooldownMs config) >? 0)
      && (nowAtGate host <? llmCooldownUntil w)) = false.

Definition after_call (name : string) (w : World) : World :=
  {| llmCooldownUntil := llmCooldownUntil w;
     pig_travel_log := pig_travel_log w;
     events := events w ++ [EvCreateChatModel name] |}.

Definition after_invoke (name : string) (w : World) : World :=
  {| llmCooldownUntil := llmCooldownUntil w;
     pig_travel_log := pig_travel_log w;
     events := (events w ++ [EvCreateChatModel name]) ++ [EvInvoke] |}.

(** The cooldown after a failure: started when a duration is configured. *)
Definition cooled (config : Config) (host : Host) (w : World) : World :=
  let cooldownMs := default 0 (llmFailureCooldownMs config) in
  if cooldownMs >? 0
  then set_llmCooldownUntil (nowAtFailure host + cooldownMs) w
  else w.

(** The paths of an attempt, one equation each. *)
Lemma attempt_createChatModel_throws config host w e :
  attempts config host w -> chatluna host = Some (Throw e) ->
  Resolver.generateLocationWithLLM config host w
  = (Ok (Resolver.getRandomStaticLocation host),
     cooled config host (after_call (llmLocationModel config) w)).
Proof.
  intros (He & Hm & Ha & Hg) Hc. unfold Resolver.generateLocationWithLLM.
  rewrite He, Hm, Ha. cbn [negb orb]. run_monad. rewrite Hg.
  unfold Resolver.createChatModel, Resolver.startCooldown, cooled.
  run_monad. rewrite Hc. cbn.
  destruct (default 0 (llmFailureCooldownMs config) >? 0); reflexivity.
Qed.

Lemma attempt_no_model config host w :
  attempts config host w -> chatluna host = Some (Ok NoModel) ->
  Resolver.generateLocationWithLLM config host w
  = (Ok (Resolver.getRandomStaticLocation host),
     cooled config host (after_call (llmLocationModel config) w)).
Proof.
  intros (He & Hm & Ha & Hg) Hc. unfold Resolver.generateLocationWithLLM.
  rewrite He, Hm, Ha. cbn [negb orb]. run_monad. rewrite Hg.
  unfold Resolver.createChatModel, Resolver.startCooldown, cooled.
  run_monad. rewrite Hc. cbn.
  destruct (default 0 (llmFailureCooldownMs config) >? 0); reflexivity.
Qed.

Lemma attempt_invoke_throws config host w e :
  attempts config host w -> chatluna host = Some (Ok (Model (Throw e))) ->
  Resolver.generateLocationWithLLM config host w
  = (Ok (Resolver.getRandomStaticLocation host),
     cooled config host (after_invoke (llmLocationModel config) w)).
Proof.
  intros (He & Hm & Ha & Hg) Hc. unfold Resolver.generateLocationWithLLM.
  rewrite He, Hm, Ha. cbn [negb orb]. run_monad. rewrite Hg.
  unfold Resolver.createChatModel, Resolver.invoke, Resolver.startCooldown,
    cooled.
  run_monad. rewrite Hc. cbn.
  destruct (default 0 (llmFailureCooldownMs config) >? 0); reflexivity.
Qed.

Lemma attempt_parse_fails config host w content :
  attempts config host w ->
  chatluna host = Some (Ok (Model (Ok content))) ->
  Resolver.parseLocationResponse (S (stackDepth host)) content = Ok None ->
  Resolver.generateLocationWithLLM config host w
  = (Ok (Resolver.getRandomStaticLocation host),
     after_invoke (llmLocationModel config) w).
Proof.
  intros (He & Hm & Ha & Hg) Hc Hp.
  unfold Resolver.generateLocationWithLLM.
  rewrite He, Hm, Ha. cbn [negb orb]. run_monad. rewrite Hg.
  unfold Resolver.createChatModel, Resolver.invoke. run_monad.
  rewrite Hc. cbn -[Resolver.parseLocationResponse]. rewrite Hp.
  reflexivity.
Qed.

(** After a successful parse: the log line and the queries of the photo
    search are built without an exception. *)
Definition finishes (config : Config) (location : Location) : bool :=
  match Resolver.generatedLine location with
  | Throw _ => false
  | Ok _ =>
      if photoKeys config
      then match Resolver.searchQueries config location with
           | Ok _ => true
           | Throw _ => false
           end
      else true
  end.

Lemma attempt_parse_succeeds config host w content location :
  attempts config host w ->
  chatluna host = Some (Ok (Model (Ok content))) ->
  Resolver.parseLocationResponse (S (stackDepth host)) content
  = Ok (Some location) ->
  finishes config location = true ->
  Resolver.generateLocationWithLLM config host w
  = Resolver.replacePhoto config host location
      (set_llmCooldownUntil 0 (after_invoke (llmLocationModel config) w)).
Proof.
  intros (He & Hm & Ha & Hg) Hc Hp Hf.
  unfold Resolver.generateLocationWithLLM.
  rewrite He, Hm, Ha. cbn [negb orb]. run_monad. rewrite Hg.
  unfold Resolver.createChatModel, Resolver.invoke. run_monad.
  rewrite Hc.
  cbn -[Resolver.parseLocationResponse Resolver.replacePhoto
        Resolver.generatedLine].
  rewrite Hp. unfold finishes in Hf.
  destruct (Resolver.generatedLine location) as [line|e]; [|discriminate].
  destruct (replacePhoto_runs config host location
              (set_llmCooldownUntil 0
                 (after_invoke (llmLocationModel config) w)))
    as [(loc & w' & E & _) | (e & E & Hk & Hq)].
  - unfold set_llmCooldownUntil, after_invoke in *. cbn in *.
    rewrite E. reflexivity.
  - rewrite Hk, Hq in Hf. discriminate.
Qed.

(** An exception after a successful parse reaches the [catch] of the
    attempt: the cooldown, just cleared, is started again, and a catalog
    entry is returned. *)
Lemma attempt_parse_then_throws config host w content location :
  attempts config host w ->
  chatluna host = Some (Ok (Model (Ok content))) ->
  Resolver.parseLocationResponse (S (stackDepth host)) content
  = Ok (Some location) ->
  finishes config location = false ->
  Resolver.generateLocationWithLLM config host w
  = (Ok (Resolver.getRandomStaticLocation host),
     cooled config host
       (set_llmCooldownUntil 0 (after_invoke (llmLocationModel config) w))).
Proof.
  intros (He & Hm & Ha & Hg) Hc Hp Hf.
  unfold Resolver.generateLocationWithLLM.
  rewrite He, Hm, Ha. cbn [negb orb]. run_monad. rewrite Hg.
  unfold Resolver.createChatModel, Resolver.invoke. run_monad.
  rewrite Hc.
  cbn -[Resolver.parseLocationResponse Resolver.replacePhoto
        Resolver.generatedLine].
  rewrite Hp. unfold finishes in Hf. unfold Resolver.startCooldown, cooled.
  run_monad.
  destruct (Resolver.generatedLine location) as [line|e].
  - destruct (replacePhoto_runs config host location
                (set_llmCooldownUntil 0
                   (after_invoke (llmLocationModel config) w)))
      as [(loc & w' & E & Hq & _) | (e & E & Hk & Hq)].
    + exfalso. destruct (photoKeys config); [|discriminate].
      destruct (Hq eq_refl) as [queries Eq]. rewrite Eq in Hf. discriminate.
    + unfold set_llmCooldownUntil, after_invoke in *. cbn in *.
      rewrite E.
      destruct (default 0 (llmFailureCooldownMs config) >? 0); reflexivity.
  - cbn. destruct (default 0 (llmFailureCooldownMs config) >? 0); reflexivity.
Qed.

(** A call that does not attempt returns a catalog entry and leaves the
    world as it was: no host call is made. *)
Lemma no_attempt config host w :
  ~ attempts config host w ->
  Resolver.generateLocationWithLLM config host w
  = (Ok (Resolver.getRandomStaticLocation host), w).
Proof.
  intros Hn. unfold Resolver.generateLocationWithLLM, attempts in *.
  destruct (llmLocationEnabled config); [|reflexivity].
  destruct (nonempty (llmLocationModel config)); [|reflexivity].
  destruct (Resolver.available (chatluna host)); [|reflexivity].
  cbn [negb orb]. run_monad.
  destruct ((default 0 (llmFailureCooldownMs config) >? 0)
            && (nowAtGate host <? llmCooldownUntil w)); [reflexivity|].
  exfalso. apply Hn. auto.
Qed.

Lemma attempts_dec config host w :
  attempts config host w \/ ~ attempts config host w.
Proof.
  unfold attempts.
  destruct (llmLocationEnabled config); [|right; intros (? & _); congruence].
  destruct (nonempty (llmLocationModel config));
    [|right; intros (_ & ? & _); congruence].
  destruct (Resolver.available (chatluna host));
    [|right; intros (_ & _ & ? & _); congruence].
  destruct ((default 0 (llmFailureCooldownMs config) >? 0)
            && (nowAtGate host <? llmCooldownUntil w));
    [right; intros (_ & _ & _ & ?); congruence|left; auto].
Qed.

End ResolverRuns.

Section ResolverClaims.
Context `{Runtime} `{Catalog}.

(** [data.k] read as a value: [undefined] wherever there is no such
    property. *)
Definition field (data : jsval) (k : string) : jsval :=
  match data with
  | JObj fields => assoc k fields
  | _ => JUndefined
  end.

(** A parsed value that lacks one of the three required fields. *)
Definition missing_required (data : jsval) : Prop :=
  truthy (field data "country") = false
  \/ truthy (field data "landmark") = false
  \/ truthy (field data "landscapeUrl") = false.

(** A text from which the first stage gets no location: the JSON it
    selects is malformed, or parses to a value that lacks a required
    field. *)
Definition unusable (text : string) : Prop :=
  match JSON_parse (trim (Resolver.jsonStr text)) with
  | None => True
  | Some data => missing_required data
  end.

Lemma unusable_tryBlock (text : string) :
  unusable text ->
  Resolver.tryBlock text = Ok None \/ exists e, Resolver.tryBlock text = Throw e.
Proof.
  unfold unusable, Resolver.tryBlock.
  destruct (JSON_parse (trim (Resolver.jsonStr text))) as [data|];
    [|right; eauto].
  unfold missing_required, Resolver.locationOfData.
  destruct data; cbn; try (right; eauto; fail); try (left; reflexivity).
  intros [-> | [-> | ->]]; left; cbn; rewrite ?orb_true_r; reflexivity.
Qed.

Lemma unusable_object_parse (stack : nat) (m : string) :
  unusable m -> Resolver.objectMatch m = Some m ->
  Resolver.parseLocationResponse stack m = Throw RangeError
  \/ Resolver.parseLocationResponse stack m = Ok None.
Proof.
  intros Hu Hm. destruct (unusable_tryBlock m Hu) as [E | E].
  - destruct stack; [left; reflexivity|]. right.
    cbn [Resolver.parseLocationResponse]. rewrite E. reflexivity.
  - apply parse_loop; assumption.
Qed.

Lemma unusable_parse (stack : nat) (content : string) :
  unusable content ->
  (forall m, Resolver.objectMatch content = Some m -> unusable m) ->
  Resolver.parseLocationResponse (S stack) content = Ok None.
Proof.
  intros Hu Hm. cbn [Resolver.parseLocationResponse].
  destruct (unusable_tryBlock content Hu) as [-> | [e ->]]; [reflexivity|].
  destruct (Resolver.objectMatch content) as [m|] eqn:Em; [|reflexivity].
  destruct (unusable_object_parse stack m (Hm m eq_refl)
              (objectMatch_fix _ _ Em)) as [-> | ->]; reflexivity.
Qed.


(** What the [try] block builds from a parsed value. *)
Lemma locationOfData_some (data : jsval) (loc : Location) :
  Resolver.locationOfData data = Ok (Some loc) ->
  exists fields,
    data = JObj fields
    /\ country loc = assoc "country" fields
    /\ landmark loc = assoc "landmark" fields
    /\ countryZh loc = js_or (assoc "countryZh" fields) (country loc)
    /\ landmarkZh loc = js_or (assoc "landmarkZh" fields) (landmark loc)
    /\ timezone loc = js_or (assoc "timezone" fields) (JStr "UTC")
    /\ exists parsedUrl url,
         assoc "landscapeUrl" fields = JStr parsedUrl
         /\ landscapeUrl loc = JStr url
         /\ String.prefix "http" url = true
         /\ (String.prefix "http" parsedUrl = true -> url = parsedUrl)
         /\ (String.prefix "http" parsedUrl = false ->
             exists q1 q2,
               encodeURIComponent (landmark loc) = Ok q1
               /\ encodeURIComponent (country loc) = Ok q2
               /\ url = "https://images.unsplash.com/featured/?"
                        +:+ q1 +:+ "," +:+ q2).
Proof.
  unfold Resolver.locationOfData.
  destruct data as [| | | | |items|fields]; try (cbn; discriminate).
  cbn [get_prop Resolver.result_bind].
  destruct (negb (truthy (assoc "country" fields))
            || negb (truthy (assoc "landmark" fields))
            || negb (truthy (assoc "landscapeUrl" fields))); [discriminate|].
  cbn [landscapeUrl landmark country].
  destruct (assoc "landscapeUrl" fields) as [| | | |url| |] eqn:Eu;
    cbn [Resolver.startsWith_http Resolver.result_bind]; try discriminate.
  destruct (String.prefix "http" url) eqn:Ep; cbn [negb].
  - intros [= <-]. exists fields. cbn. repeat (split; [reflexivity|]).
    exists url, url. repeat split; auto. congruence.
  - destruct (encodeURIComponent (assoc "landmark" fields)) as [q1|] eqn:E1;
      cbn [Resolver.result_bind]; [|discriminate].
    destruct (encodeURIComponent (assoc "country" fields)) as [q2|] eqn:E2;
      cbn [Resolver.result_bind]; [|discriminate].
    intros [= <-]. exists fields. cbn. repeat (split; [reflexivity|]).
    exists url, ("https://images.unsplash.com/featured/?" +:+ q1 +:+ "," +:+ q2).
    repeat split; auto; [congruence|]. intros _. eauto.
Qed.

(** C6.  A location that the parser returns was built from a JSON object,
    parsed from the text that the first stage selects from the reply or
    from the loosely extracted object.  Its country and landmark are the
    object's; its localized country is [countryZh || country], so the
    canonical name when the field is absent, and likewise for the
    landmark; its timezone is [timezone || 'UTC'], so UTC when absent;
    its photo URL is a string that begins with http: the parsed one when
    that begins with http, and otherwise the search-style URL made of the
    encoded landmark, a comma and the encoded country. *)
Theorem parsed_location_defaults (stack : nat) (content : string)
    (loc : Location) :
  Resolver.parseLocationResponse stack content = Ok (Some loc) ->
  exists text fields,
    (text = content \/ Resolver.objectMatch content = Some text)
    /\ JSON_parse (trim (Resolver.jsonStr text)) = Some (JObj fields)
    /\ country loc = assoc "country" fields
    /\ landmark loc = assoc "landmark" fields
    /\ countryZh loc = js_or (assoc "countryZh" fields) (country loc)
    /\ landmarkZh loc = js_or (assoc "landmarkZh" fields) (landmark loc)
    /\ timezone loc = js_or (assoc "timezone" fields) (JStr "UTC")
    /\ (assoc "countryZh" fields = JUndefined -> countryZh loc = country loc)
    /\ (assoc "landmarkZh" fields = JUndefined ->
        landmarkZh loc = landmark loc)
    /\ (assoc "timezone" fields = JUndefined -> timezone loc = JStr "UTC")
    /\ exists parsedUrl url,
         assoc "landscapeUrl" fields = JStr parsedUrl
         /\ landscapeUrl loc = JStr url
         /\ String.prefix "http" url = true
         /\ (String.prefix "http" parsedUrl = true -> url = parsedUrl)
         /\ (String.prefix "http" parsedUrl = false ->
             exists q1 q2,
               encodeURIComponent (landmark loc) = Ok q1
               /\ encodeURIComponent (country loc) = Ok q2
               /\ url = "https://images.unsplash.com/featured/?"
                        +:+ q1 +:+ "," +:+ q2).
Proof.
  intros Hp.
  assert (Ht : exists text,
             (text = content \/ Resolver.objectMatch content = Some text)
             /\ Resolver.tryBlock text = Ok (Some loc)).
  { destruct (parseLocationResponse_origin _ _ _ Hp) as [E | (m & Em & E)];
      eauto. }
  destruct Ht as (text & Hfrom & Etry). unfold Resolver.tryBlock in Etry.
  destruct (JSON_parse (trim (Resolver.jsonStr text))) as [data|] eqn:Ej;
    [|discriminate].
  destruct (locationOfData_some data loc Etry)
    as (fields & -> & Hc & Hl & Hcz & Hlz & Htz & Hurl).
  exists text, fields. repeat (split; [assumption|]).
  split; [intros E; rewrite Hcz, E; reflexivity|].
  split; [intros E; rewrite Hlz, E; reflexivity|].
  split; [intros E; rewrite Htz, E; reflexivity|].
  exact Hurl.
Qed.

Lemma cooled_until (config : Config) (host : Host) (w : World) (N : Z) :
  llmFailureCooldownMs config = Some N -> N > 0 ->
  llmCooldownUntil (cooled config host w) = nowAtFailure host + N.
Proof.
  intros HN Hpos. unfold cooled. rewrite HN.
  change (default 0 (Some N)) with N.
  destruct (Z.gtb_spec N 0); [reflexivity|lia].
Qed.

(** An attempt that ends in an exception or without a model returns a
    catalog entry and starts the cooldown. *)
Lemma failure_starts_cooldown (config : Config) (host : Host) (w : World)
    (N : Z) (e : exn) :
  attempts config host w ->
  llmFailureCooldownMs config = Some N -> N > 0 ->
  chatluna host = Some (Throw e) \/ chatluna host = Some (Ok NoModel)
  \/ chatluna host = Some (Ok (Model (Throw e))) ->
  exists w',
    Resolver.generateLocationWithLLM config host w
    = (Ok (Resolver.getRandomStaticLocation host), w')
    /\ llmCooldownUntil w' = nowAtFailure host + N.
Proof.
  intros Ha HN Hpos [Hc | [Hc | Hc]].
  - rewrite (attempt_createChatModel_throws _ _ _ e Ha Hc).
    eauto using cooled_until.
  - rewrite (attempt_no_model _ _ _ Ha Hc). eauto using cooled_until.
  - rewrite (attempt_invoke_throws _ _ _ e Ha Hc). eauto using cooled_until.
Qed.

(** C3, as far as the code goes.  With a cooldown configured, an attempt
    that ends in an exception (the model cannot be created, or its call
    rejects) or without a model sets the cooldown to the failure time
    plus the duration and returns a catalog entry.  An attempt whose
    reply fails to parse also returns a catalog entry, but leaves the
    cooldown as it found it: that branch has no assignment to
    [llmCooldownUntil]. *)
Theorem failed_parse_leaves_cooldown (config : Config) (host : Host)
    (w : World) (N : Z) :
  attempts config host w ->
  llmFailureCooldownMs config = Some N -> N > 0 ->
  (forall e, chatluna host = Some (Throw e)
             \/ chatluna host = Some (Ok NoModel)
             \/ chatluna host = Some (Ok (Model (Throw e))) ->
     exists w',
       Resolver.generateLocationWithLLM config host w
       = (Ok (Resolver.getRandomStaticLocation host), w')
       /\ llmCooldownUntil w' = nowAtFailure host + N)
  /\ (forall content,
        chatluna host = Some (Ok (Model (Ok content))) ->
        Resolver.parseLocationResponse (S (stackDepth host)) content
        = Ok None ->
        exists w',
          Resolver.generateLocationWithLLM config host w
          = (Ok (Resolver.getRandomStaticLocation host), w')
          /\ llmCooldownUntil w' = llmCooldownUntil w).
Proof.
  intros Ha HN Hpos.
  split.
  - intros e Hc. exact (failure_starts_cooldown _ _ _ N e Ha HN Hpos Hc).
  - intros content Hc Hp.
    rewrite (attempt_parse_fails _ _ _ content Ha Hc Hp). eauto.
Qed.

(** The cases of a call under a configured cooldown of [N] > 0. *)
Lemma cooldown_cases (config : Config) (N : Z) :
  llmLocationEnabled config = true ->
  nonempty (llmLocationModel config) = true ->
  llmFailureCooldownMs config = Some N -> N > 0 ->
  (forall host w e,
     attempts config host w ->
     chatluna host = Some (Throw e) \/ chatluna host = Some (Ok NoModel)
     \/ chatluna host = Some (Ok (Model (Throw e))) ->
     exists loc w',
       Resolver.generateLocationWithLLM config host w = (Ok loc, w')
       /\ In loc LOCATIONS
       /\ llmCooldownUntil w' = nowAtFailure host + N)
  /\ (forall host w,
        nowAtGate host < llmCooldownUntil w ->
        Resolver.generateLocationWithLLM config host w
        = (Ok (Resolver.getRandomStaticLocation host), w)
        /\ In (Resolver.getRandomStaticLocation host) LOCATIONS)
  /\ (forall host w,
        Resolver.available (chatluna host) = true ->
        llmCooldownUntil w <= nowAtGate host ->
        exists r w' later,
          Resolver.generateLocationWithLLM config host w = (r, w')
          /\ events w'
             = events w ++ EvCreateChatModel (llmLocationModel config) :: later)
  /\ (forall host w content location,
        attempts config host w ->
        chatluna host = Some (Ok (Model (Ok content))) ->
        Resolver.parseLocationResponse (S (stackDepth host)) content
        = Ok (Some location) ->
        exists loc w',
          Resolver.generateLocationWithLLM config host w = (Ok loc, w')
          /\ (finishes config location = true ->
              llmCooldownUntil w' = 0
              /\ (loc = location
                  \/ exists url,
                       loc = Resolver.with_landscapeUrl location (JStr url)))
          /\ (finishes config location = false ->
              loc = Resolver.getRandomStaticLocation host
              /\ llmCooldownUntil w' = nowAtFailure host + N)).
Proof.
  intros He Hm HN Hpos.
  split; [|split; [|split]].
  - intros host w e Ha Hc.
    destruct (failure_starts_cooldown config host w N e Ha HN Hpos Hc)
      as (w' & E & Hcd).
    eauto 6 using getRandomStaticLocation_in.
  - intros host w Hlt. split; [|apply getRandomStaticLocation_in].
    apply no_attempt. intros (_ & _ & _ & Hg).
    rewrite HN in Hg. change (default 0 (Some N)) with N in Hg.
    destruct (Z.gtb_spec N 0); [|lia].
    destruct (Z.ltb_spec (nowAtGate host) (llmCooldownUntil w)); [|lia].
    discriminate.
  - intros host w Hav Hle.
    assert (Ha : attempts config host w).
    { repeat split; try assumption.
      destruct (Z.ltb_spec (nowAtGate host) (llmCooldownUntil w)); [lia|].
      apply andb_false_r. }
    destruct (chatluna host) as [[[|[content|e]]|e]|] eqn:Hc;
      [| | | |discriminate].
    + rewrite (attempt_no_model _ _ _ Ha Hc).
      eexists _, _, []. split; [reflexivity|].
      unfold cooled. destruct (_ >? 0); reflexivity.
    + destruct (parseLocationResponse_returns (stackDepth host) content)
        as [[location|] Hp].
      * destruct (finishes config location) eqn:Ef.
        -- rewrite (attempt_parse_succeeds _ _ _ content location Ha Hc Hp Ef).
           destruct (replacePhoto_runs config host location
                       (set_llmCooldownUntil 0
                          (after_invoke (llmLocationModel config) w)))
             as [(loc & w' & -> & _ & _ & _ & _ & added & Ev)
                | (e & -> & _)].
           ++ eexists _, _, _. split; [reflexivity|]. rewrite Ev. cbn.
              rewrite <- !app_assoc. reflexivity.
           ++ eexists _, _, _. split; [reflexivity|]. cbn.
              rewrite <- !app_assoc. reflexivity.
        -- rewrite (attempt_parse_then_throws _ _ _ content location Ha Hc Hp
                      Ef).
           eexists _, _, _. split; [reflexivity|].
           unfold cooled. destruct (_ >? 0); cbn; rewrite <- !app_assoc;
             reflexivity.
      * rewrite (attempt_parse_fails _ _ _ content Ha Hc Hp).
        eexists _, _, _. split; [reflexivity|]. cbn.
        rewrite <- !app_assoc. reflexivity.
    + rewrite (attempt_invoke_throws _ _ _ e Ha Hc).
      eexists _, _, _. split; [reflexivity|].
      unfold cooled. destruct (_ >? 0); cbn; rewrite <- !app_assoc;
        reflexivity.
    + rewrite (attempt_createChatModel_throws _ _ _ e Ha Hc).
      eexists _, _, []. split; [reflexivity|].
      unfold cooled. destruct (_ >? 0); reflexivity.
  - intros host w content location Ha Hc Hp.
    destruct (finishes config location) eqn:Ef.
    + rewrite (attempt_parse_succeeds _ _ _ content location Ha Hc Hp Ef).
      destruct (replacePhoto_runs config host location
                  (set_llmCooldownUntil 0
                     (after_invoke (llmLocationModel config) w)))
        as [(loc & w' & E & _ & Hloc & Hcd & _) | (e & E & Hk & Hq)].
      * exists loc, w'. split; [exact E|].
        split; [intros _; split; [rewrite Hcd; reflexivity|exact Hloc]|].
        discriminate.
      * exfalso. unfold finishes in Ef. rewrite Hk, Hq in Ef.
        destruct (Resolver.generatedLine location); discriminate.
    + rewrite (attempt_parse_then_throws _ _ _ content location Ha Hc Hp Ef).
      eexists _, _. split; [reflexivity|]. split; [discriminate|].
      intros _. split; [reflexivity|]. apply cooled_until; assumption.
Qed.

(** C4.  With generation enabled and a cooldown of [N] > 0 configured, let
    an attempt fail (an exception, or no model) with the clock at the
    failure time.  It returns a catalog entry and sets the cooldown to the
    failure time plus [N].  From the state it leaves, a call made while the
    clock reads less than the cooldown returns a catalog entry, changes
    nothing and makes no host call; a call made with the clock more than
    [N] after the failure asks the host for the chat model again.  An
    attempt whose reply parses sets the cooldown to 0.  It is 0 when the
    call returns, with the parsed location or that location under another
    photo URL, provided the steps that follow the parse in the same [try]
    (the log line and the building of the photo queries, which convert
    fields of the location to strings) do not throw.  When one of them
    throws, the [catch] treats the attempt as failed like any other: the
    call returns a catalog entry and the cooldown is the failure time plus
    [N]. *)
Theorem cooldown_gates_generation (config : Config) (N : Z) :
  llmLocationEnabled config = true ->
  nonempty (llmLocationModel config) = true ->
  llmFailureCooldownMs config = Some N -> N > 0 ->
  (forall host1 w e,
     attempts config host1 w ->
     chatluna host1 = Some (Throw e) \/ chatluna host1 = Some (Ok NoModel)
     \/ chatluna host1 = Some (Ok (Model (Throw e))) ->
     exists w1,
       Resolver.generateLocationWithLLM config host1 w
       = (Ok (Resolver.getRandomStaticLocation host1), w1)
       /\ In (Resolver.getRandomStaticLocation host1) LOCATIONS
       /\ llmCooldownUntil w1 = nowAtFailure host1 + N
       /\ forall host2,
            (nowAtGate host2 < llmCooldownUntil w1 ->
             Resolver.generateLocationWithLLM config host2 w1
             = (Ok (Resolver.getRandomStaticLocation host2), w1)
             /\ In (Resolver.getRandomStaticLocation host2) LOCATIONS)
            /\ (Resolver.available (chatluna host2) = true ->
                nowAtGate host2 > nowAtFailure host1 + N ->
                exists r w2 later,
                  Resolver.generateLocationWithLLM config host2 w1 = (r, w2)
                  /\ events w2
                     = events w1
                       ++ EvCreateChatModel (llmLocationModel config) :: later))
  /\ (forall host w content location,
        attempts config host w ->
        chatluna host = Some (Ok (Model (Ok content))) ->
        Resolver.parseLocationResponse (S (stackDepth host)) content
        = Ok (Some location) ->
        exists loc w',
          Resolver.generateLocationWithLLM config host w = (Ok loc, w')
          /\ (finishes config location = true ->
              llmCooldownUntil w' = 0
              /\ (loc = location
                  \/ exists url,
                       loc = Resolver.with_landscapeUrl location (JStr url)))
          /\ (finishes config location = false ->
              w' = cooled config host
                     (set_llmCooldownUntil 0
                        (after_invoke (llmLocationModel config) w))
              /\ loc = Resolver.getRandomStaticLocation host
              /\ In loc LOCATIONS
              /\ llmCooldownUntil w' = nowAtFailure host + N
              /\ forall host2,
                   nowAtGate host2 < llmCooldownUntil w' ->
                   Resolver.generateLocationWithLLM config host2 w'
                   = (Ok (Resolver.getRandomStaticLocation host2), w'))).
Proof.
  intros He Hm HN Hpos.
  destruct (cooldown_cases config N He Hm HN Hpos)
    as (_ & Hgate & Hagain & Hclear).
  split.
  - intros host1 w e Ha Hc.
    destruct (failure_starts_cooldown config host1 w N e Ha HN Hpos Hc)
      as (w1 & E & Hcd).
    exists w1. split; [exact E|].
    split; [apply getRandomStaticLocation_in|]. split; [exact Hcd|].
    intros host2. split.
    + apply Hgate.
    + intros Hav Hlater. apply Hagain; [exact Hav|]. lia.
  - intros host w content location Ha Hc Hp.
    destruct (finishes config location) eqn:Ef.
    + destruct (Hclear host w content location Ha Hc Hp)
        as (loc & w' & E & Hyes & _).
      exists loc, w'. split; [exact E|]. split; [intros _; auto|].
      discriminate.
    + rewrite (attempt_parse_then_throws _ _ _ content location Ha Hc Hp Ef).
      eexists _, _. split; [reflexivity|]. split; [discriminate|].
      intros _. split; [reflexivity|]. split; [reflexivity|].
      split; [apply getRandomStaticLocation_in|].
      split; [apply cooled_until; assumption|].
      intros host2 Hlt. apply Hgate. exact Hlt.
Qed.

End ResolverClaims.

(** ** The Travel Orchestrator *)

Section TravelFacts.
Context `{Runtime} `{Catalog}.

Lemma extends_emit (w : World) (e : Event) :
  extends w {| llmCooldownUntil := llmCooldownUntil w;
               pig_travel_log := pig_travel_log w;
               events := events w ++ [e] |}.
Proof. split; [reflexivity|]. cbn. eauto. Qed.

Lemma extends_cooled config host w : extends w (cooled config host w).
Proof.
  unfold cooled. destruct (_ >? 0); [|apply extends_refl].
  split; [reflexivity|]. exists []. cbn. rewrite app_nil_r. reflexivity.
Qed.

(** A value whose conversion to a string returns. *)
Definition convertible (v : jsval) : Prop := exists s, ToString v = Ok s.

(** A location that the orchestrator can name: the conversions of its
    message and of the log lines about the landmark and the preset photo
    return. *)
Definition settled (loc : Location) : Prop :=
  convertible (landmarkZh loc) /\ convertible (landmark loc)
  /\ convertible (js_or (countryZh loc) (country loc))
  /\ convertible (landscapeUrl loc).

Lemma is_string_convertible (v : jsval) : is_string v = true -> convertible v.
Proof. destruct v; try discriminate. intros _. eexists. reflexivity. Qed.

Lemma convertible_js_or (a b : jsval) :
  convertible a -> convertible b -> convertible (js_or a b).
Proof. intros Ha Hb. unfold js_or. destruct (truthy a); assumption. Qed.

(** The entries of the catalog are settled: their fields are strings. *)
Lemma catalog_settled (loc : Location) : In loc LOCATIONS -> settled loc.
Proof.
  intros Hin. pose proof LOCATIONS_typed as Ht.
  rewrite forallb_forall in Ht. specialize (Ht loc Hin).
  unfold wellTyped in Ht. rewrite !andb_true_iff in Ht.
  destruct Ht as ((((((Hc & Hcz) & _) & Hl) & Hlz) & _) & Hu).
  repeat split; auto using is_string_convertible, convertible_js_or.
Qed.

(** What the [try] block of the parser guarantees of its location: a
    truthy country, hence a truthy localized country, and a photo URL
    that is a string. *)
Lemma locationOfData_shape (data : jsval) (loc : Location) :
  Resolver.locationOfData data = Ok (Some loc) ->
  truthy (countryZh loc) = true /\ exists url, landscapeUrl loc = JStr url.
Proof.
  unfold Resolver.locationOfData.
  destruct data as [| | | | |items|fields]; try (cbn; discriminate).
  cbn [get_prop Resolver.result_bind].
  destruct (truthy (assoc "country" fields)) eqn:Ec; cbn [negb orb];
    [|discriminate].
  destruct (negb (truthy (assoc "landmark" fields))
            || negb (truthy (assoc "landscapeUrl" fields))); [discriminate|].
  cbn [landscapeUrl landmark country].
  assert (Hz : truthy (js_or (assoc "countryZh" fields)
                         (assoc "country" fields)) = true).
  { unfold js_or.
    destruct (truthy (assoc "countryZh" fields)) eqn:Ez; assumption. }
  destruct (assoc "landscapeUrl" fields) as [| | | |url| |] eqn:Eu;
    cbn [Resolver.startsWith_http Resolver.result_bind]; try discriminate.
  destruct (String.prefix "http" url) eqn:Ep; cbn [negb].
  - intros [= <-]. cbn. eauto.
  - destruct (encodeURIComponent (assoc "landmark" fields)) as [q1|];
      cbn [Resolver.result_bind]; [|discriminate].
    destruct (encodeURIComponent (assoc "country" fields)) as [q2|];
      cbn [Resolver.result_bind]; [|discriminate].
    intros [= <-]. cbn. eauto.
Qed.

Lemma parsed_shape (stack : nat) (content : string) (loc : Location) :
  Resolver.parseLocationResponse stack content = Ok (Some loc) ->
  truthy (countryZh loc) = true /\ exists url, landscapeUrl loc = JStr url.
Proof.
  intros Hp.
  assert (Ht : exists text, Resolver.tryBlock text = Ok (Some loc)).
  { destruct (parseLocationResponse_origin _ _ _ Hp) as [E | (m & _ & E)];
      eauto. }
  destruct Ht as (text & Etry). unfold Resolver.tryBlock in Etry.
  destruct (JSON_parse (trim (Resolver.jsonStr text))) as [data|];
    [|discriminate].
  exact (locationOfData_shape data loc Etry).
Qed.

Lemma generatedLine_convertible (location : Location) :
  (exists line, Resolver.generatedLine location = Ok line) ->
  convertible (landmarkZh location) /\ convertible (landmark location)
  /\ convertible (countryZh location).
Proof.
  unfold Resolver.generatedLine, convertible. cbn [interpolate].
  destruct (ToString (landmarkZh location)); [|intros [? ?]; discriminate].
  destruct (ToString (landmark location)); [|intros [? ?]; discriminate].
  destruct (ToString (countryZh location)); [|intros [? ?]; discriminate].
  intros _. repeat split; eexists; reflexivity.
Qed.

(** A parsed location that passed the log line is settled, and stays so
    under another photo URL. *)
Lemma finished_settled (config : Config) (stack : nat) (content : string)
    (location : Location) :
  Resolver.parseLocationResponse stack content = Ok (Some location) ->
  finishes config location = true ->
  settled location
  /\ forall url, settled (Resolver.with_landscapeUrl location (JStr url)).
Proof.
  intros Hp Hf. destruct (parsed_shape _ _ _ Hp) as (Hz & url & Hu).
  unfold finishes in Hf.
  destruct (Resolver.generatedLine location) as [line|] eqn:El;
    [|discriminate].
  destruct (generatedLine_convertible location (ex_intro _ line El))
    as (Hlz & Hl & Hcz).
  assert (Hco : convertible (js_or (countryZh location) (country location))).
  { unfold js_or. rewrite Hz. exact Hcz. }
  split.
  - repeat split; auto. rewrite Hu. eexists. reflexivity.
  - intros url'. repeat split; auto. cbn. eexists. reflexivity.
Qed.

(** The resolver returns normally on every input, with a settled
    location, and never touches the travel log. *)
Lemma generateLocationWithLLM_returns config host w :
  exists loc w',
    Resolver.generateLocationWithLLM config host w = (Ok loc, w')
    /\ extends w w' /\ settled loc.
Proof.
  pose proof (catalog_settled _ (getRandomStaticLocation_in host)) as Hs.
  destruct (attempts_dec config host w) as [Ha | Hn].
  - pose proof Ha as (_ & _ & Hav & _).
    assert (Hi : extends w (after_invoke (llmLocationModel config) w)).
    { split; [reflexivity|]. cbn. rewrite <- app_assoc. eauto. }
    assert (Hc : extends w (after_call (llmLocationModel config) w))
      by apply extends_emit.
    assert (Hz : extends (after_invoke (llmLocationModel config) w)
                   (set_llmCooldownUntil 0
                      (after_invoke (llmLocationModel config) w))).
    { split; [reflexivity|]. exists []. cbn. rewrite app_nil_r.
      reflexivity. }
    destruct (chatluna host) as [[[|[content|e]]|e]|] eqn:Hc';
      [| | | |discriminate].
    + rewrite (attempt_no_model _ _ _ Ha Hc').
      eauto 6 using extends_trans, extends_cooled.
    + destruct (parseLocationResponse_returns (stackDepth host) content)
        as [[location|] Hp].
      * destruct (finishes config location) eqn:Ef.
        -- rewrite (attempt_parse_succeeds _ _ _ content location Ha Hc' Hp
                      Ef).
           destruct (finished_settled config _ _ _ Hp Ef) as (Hs1 & Hs2).
           destruct (replacePhoto_runs config host location
                       (set_llmCooldownUntil 0
                          (after_invoke (llmLocationModel config) w)))
             as [(loc & w' & -> & _ & Hloc & _ & He) | (e & E & Hk & Hq)].
           ++ exists loc, w'. split; [reflexivity|].
              split; [eauto using extends_trans|].
              destruct Hloc as [-> | (url & ->)]; auto.
           ++ exfalso. unfold finishes in Ef. rewrite Hk, Hq in Ef.
              destruct (Resolver.generatedLine location); discriminate.
        -- rewrite (attempt_parse_then_throws _ _ _ content location Ha Hc'
                      Hp Ef).
           eauto 8 using extends_trans, extends_cooled.
      * rewrite (attempt_parse_fails _ _ _ content Ha Hc' Hp). eauto.
    + rewrite (attempt_invoke_throws _ _ _ e Ha Hc').
      eauto 6 using extends_trans, extends_cooled.
    + rewrite (attempt_createChatModel_throws _ _ _ e Ha Hc').
      eauto 6 using extends_trans, extends_cooled.
  - rewrite (no_attempt _ _ _ Hn). eauto using extends_refl.
Qed.

(** The location phase of the orchestrator. *)
Definition chooseLocation (config : Config) (host : Host) : M World Location :=
  if llmLocationEnabled config && Resolver.available (chatluna host)
  then Resolver.generateLocationWithLLM config host
  else ret (Resolver.getRandomStaticLocation host).

Lemma chooseLocation_returns (config : Config) (host : Host) (w : World) :
  exists loc w1,
    chooseLocation config host w = (Ok loc, w1)
    /\ extends w w1 /\ settled loc.
Proof.
  unfold chooseLocation.
  destruct (llmLocationEnabled config && Resolver.available (chatluna host)).
  - apply generateLocationWithLLM_returns.
  - run_monad.
    eauto 6 using extends_refl, catalog_settled, getRandomStaticLocation_in.
Qed.

(** The message of a settled location is built without an exception. *)
Lemma travelMessage_returns (config : Config) (loc : Location) :
  settled loc -> exists m, Travel.travelMessage config loc = Ok m.
Proof.
  intros (Hlz & Hl & Hc & _).
  destruct (convertible_js_or _ _ Hlz Hl) as [s1 E1].
  destruct Hc as [s2 E2].
  unfold Travel.travelMessage, js_replace. rewrite E1.
  cbn [Resolver.result_bind]. rewrite E2. eauto.
Qed.

(** *** The image block, step by step *)

(** The AI image service is switched on, has a channel and is present. *)
Definition aigcConfigured (config : Config) (host : Host) : bool :=
  aigcEnabled config && nonempty (aigcChannel config)
  && Resolver.available (mediaLuna host).

(** The first output of a generation that reports success. *)
Definition firstOutput (host : Host) : option jsval :=
  match mediaLuna host with
  | Some (Ok generated) =>
      if gen_success generated
      then match gen_output generated with
           | Some (output :: _) => Some output
           | _ => None
           end
      else None
  | _ => None
  end.

(** What the [try] of the AIGC block leaves: the background URL and the
    flag. *)
Definition aigcOutcome (host : Host) : jsval * bool :=
  match firstOutput host with
  | Some output =>
      if truthy output
      then (output, match ToString output with
                    | Ok _ => true
                    | Throw _ => false
                    end)
      else (JNull, true)
  | None => (JNull, false)
  end.

Definition emitted (e : Event) (w : World) : World :=
  {| llmCooldownUntil := llmCooldownUntil w;
     pig_travel_log := pig_travel_log w;
     events := events w ++ [e] |}.

Lemma aigcBackground_run (config : Config) (host : Host)
    (location : Location) (w : World) :
  Travel.aigcBackground config host location w
  = if aigcConfigured config host
    then match ToString (landmark location) with
         | Throw e => (Throw e, w)
         | Ok _ =>
             match Travel.aigcPromptFor config location with
             | Throw e => (Throw e, w)
             | Ok prompt =>
                 (Ok (aigcOutcome host),
                  emitted (EvMediaLuna (aigcChannel config) prompt) w)
             end
         end
    else (Ok (JNull, false), w).
Proof.
  unfold Travel.aigcBackground, aigcConfigured.
  destruct (aigcEnabled config && nonempty (aigcChannel config)
            && Resolver.available (mediaLuna host)); [|reflexivity].
  run_monad. destruct (ToString (landmark location)); [|reflexivity].
  destruct (Travel.aigcPromptFor config location) as [prompt|e];
    [|reflexivity].
  unfold Travel.generateByName, aigcOutcome, firstOutput, emitted.
  run_monad. cbn.
  destruct (mediaLuna host) as [[generated|e]|]; cbn; try reflexivity.
  destruct (gen_output generated) as [[|output rest]|];
    destruct (gen_success generated); try reflexivity.
  destruct (truthy output); [|reflexivity].
  destruct (ToString output); reflexivity.
Qed.

Lemma presetBackground_run (loc : Location) (backgroundUrl : jsval)
    (w : World) :
  settled loc ->
  Travel.presetBackground loc backgroundUrl w
  = (Ok (if truthy backgroundUrl then backgroundUrl else landscapeUrl loc),
     w).
Proof.
  intros (_ & [s1 E1] & _ & [s2 E2]). unfold Travel.presetBackground.
  destruct (truthy backgroundUrl); [reflexivity|]. cbn [negb]. run_monad.
  cbn [interpolate]. rewrite E1, E2. reflexivity.
Qed.

Lemma debugBackground_run (config : Config) (backgroundUrl : jsval)
    (w : World) :
  Travel.debugBackground config backgroundUrl w
  = if debug config
    then match ToString backgroundUrl with
         | Ok _ => (Ok tt, w)
         | Throw e => (Throw e, w)
         end
    else (Ok tt, w).
Proof.
  unfold Travel.debugBackground. destruct (debug config); [|reflexivity].
  run_monad. destruct (ToString backgroundUrl); reflexivity.
Qed.

(** The durable URL: what the storage service answers for a rendered
    card, when it is switched on and present. *)
Definition uploadFor (config : Config) (host : Host) : jsval :=
  if useStorageService config
  then match chatluna_storage host with
       | Some (Ok url) => url
       | _ => JNull
       end
  else JNull.

Lemma renderAndUpload_run config host cardData userInfo platform
    backgroundUrl w :
  exists w',
    Travel.renderAndUpload config host cardData userInfo platform
      backgroundUrl w
    = (Ok match Travel.generateFootprintCard host config cardData userInfo
                  platform backgroundUrl with
          | Ok card => (Some (card_buffer card), uploadFor config host)
          | Throw _ => (None, JNull)
          end, w')
    /\ extends w w' /\ llmCooldownUntil w' = llmCooldownUntil w.
Proof.
  unfold Travel.renderAndUpload, Travel.createTempFile, uploadFor.
  run_monad. cbn.
  destruct (Travel.generateFootprintCard host config cardData userInfo
              platform backgroundUrl) as [cardResult|e];
    [|eexists; split; [reflexivity|split; [apply extends_emit|reflexivity]]].
  destruct (useStorageService config); cbn [andb];
    [|eexists; split; [reflexivity|split; [apply extends_emit|reflexivity]]].
  destruct (chatluna_storage host) as [[url|e]|]; cbn;
    eexists; (split; [reflexivity|]); (split; [|reflexivity]);
    (split; [reflexivity|]); cbn; rewrite <- ?app_assoc; eauto.
Qed.

(** *** An invocation, from the location on *)

(** The background of the card: the generated one, else the photo of the
    location. *)
Definition backgroundFor (config : Config) (host : Host) (loc : Location)
  : jsval :=
  let generated :=
    if aigcConfigured config host then fst (aigcOutcome host) else JNull in
  if truthy generated then generated else landscapeUrl loc.

Definition cardFor (config : Config) (host : Host) (userInfo : UserInfo)
    (platform : string) (loc : Location) (m : string) : Result CardResult :=
  Travel.generateFootprintCard host config
    {| card_location := loc; card_msg := m |} userInfo platform
    (backgroundFor config host loc).

Definition bufferFor (config : Config) (host : Host) (userInfo : UserInfo)
    (platform : string) (loc : Location) (m : string) : option string :=
  if Travel.is_image (outputMode config)
  then match cardFor config host userInfo platform loc m with
       | Ok card => Some (card_buffer card)
       | Throw _ => None
       end
  else None.

Definition urlFor (config : Config) (host : Host) (userInfo : UserInfo)
    (platform : string) (loc : Location) (m : string) : jsval :=
  if Travel.is_image (outputMode config)
  then match cardFor config host userInfo platform loc m with
       | Ok _ => uploadFor config host
       | Throw _ => JNull
       end
  else JNull.

Definition flagFor (config : Config) (host : Host) : bool :=
  Travel.is_image (outputMode config) && aigcConfigured config host
  && snd (aigcOutcome host).

(** The exception that ends an invocation before the insertion, if any:
    in the image mode with the AI image service configured, from the
    prompt, built outside every [try], or from the debug line about a
    generated background. *)
Definition rejection (config : Config) (host : Host) (loc : Location)
  : option exn :=
  if Travel.is_image (outputMode config) && aigcConfigured config host
  then match Travel.aigcPromptFor config loc with
       | Throw e => Some e
       | Ok _ =>
           if debug config && truthy (fst (aigcOutcome host))
           then match ToString (fst (aigcOutcome host)) with
                | Throw e => Some e
                | Ok _ => None
                end
           else None
       end
  else None.

Definition resultFor (config : Config) (host : Host) (userInfo : UserInfo)
    (platform : string) (loc : Location) (m : string) : Travel.TravelResult :=
  {| Travel.location := loc;
     Travel.imageBuffer := bufferFor config host userInfo platform loc m;
     Travel.imageUrl := urlFor config host userInfo platform loc m;
     Travel.isAIGC := flagFor config host;
     Travel.msg := m |}.

Definition rowFor (config : Config) (host : Host) (userInfo : UserInfo)
    (platform guildId : string) (loc : Location) (m : string)
  : NewTravelLog :=
  {| log_userId := userId userInfo;
     log_platform := platform;
     log_guildId := guildId;
     log_timestamp := nowAtInsert host;
     log_country := country loc;
     log_countryZh := js_or (countryZh loc) (country loc);
     log_location := landmark loc;
     log_locationZh := js_or (landmarkZh loc) (landmark loc);
     log_timezone := js_or (timezone loc) (JStr "UTC");
     log_imagePath :=
       js_or (urlFor config host userInfo platform loc m) (JStr "");
     log_isAIGC := flagFor config host |}.

(** An invocation whose location phase returned [loc]: it throws the
    rejection, with the travel log as it was, or returns the result above
    and appends the row above; in the text mode it makes no further host
    call. *)
Lemma triggerTravelSequence_run (config : Config) (host : Host)
    (userInfo : UserInfo) (platform guildId : string) (w : World)
    (loc : Location) (w1 : World) :
  chooseLocation config host w = (Ok loc, w1) -> settled loc ->
  exists m,
    Travel.travelMessage config loc = Ok m
    /\ exists w2 added,
    match rejection config host loc with
    | Some e =>
        Travel.triggerTravelSequence host config userInfo platform
          guildId w = (Throw e, w2)
        /\ pig_travel_log w2 = pig_travel_log w1
    | None =>
        Travel.triggerTravelSequence host config userInfo platform
          guildId w
        = (Ok (resultFor config host userInfo platform loc m), w2)
        /\ pig_travel_log w2
           = pig_travel_log w1
             ++ [rowFor config host userInfo platform guildId loc m]
    end
    /\ events w2 = events w1 ++ added
    /\ llmCooldownUntil w2 = llmCooldownUntil w1
    /\ (Travel.is_image (outputMode config) = false -> added = []).
Proof.
  intros Eloc Hs. destruct (travelMessage_returns config loc Hs) as [m Em].
  exists m. split; [exact Em|].
  remember (Travel.triggerTravelSequence host config userInfo platform
              guildId w) as run eqn:Erun.
  unfold Travel.triggerTravelSequence in Erun.
  unfold chooseLocation in Eloc. unfold bind at 1 in Erun.
  rewrite Eloc in Erun. unfold bind at 1, lift at 1 in Erun.
  rewrite Em in Erun.
  unfold rejection, resultFor, rowFor, flagFor, bufferFor, urlFor, cardFor,
    backgroundFor.
  destruct (Travel.is_image (outputMode config)) eqn:Emode; cbn [andb].
  2: { run_monad. cbn in Erun. subst run. eexists _, [].
       split; [split; reflexivity|]. cbn. rewrite app_nil_r. auto. }
  unfold bind at 1 in Erun. unfold bind at 1 in Erun.
  rewrite aigcBackground_run in Erun.
  destruct Hs as (Hlz & [s Hl] & Hc & Hu).
  assert (Hs : settled loc) by (repeat split; eauto; exists s; exact Hl).
  destruct (aigcConfigured config host) eqn:Ea; cbn [andb].
  - rewrite Hl in Erun.
    destruct (Travel.aigcPromptFor config loc) as [prompt|e].
    2: { subst run. exists w1, []. rewrite app_nil_r.
         split; [split; reflexivity|]. repeat (split; [reflexivity|]).
         discriminate. }
    cbn [fst snd] in Erun. unfold bind at 1 in Erun.
    rewrite (presetBackground_run _ _ _ Hs) in Erun.
    unfold bind at 1 in Erun. rewrite debugBackground_run in Erun.
    destruct Hu as [su Eu].
    destruct (truthy (fst (aigcOutcome host))) eqn:Et;
      destruct (debug config) eqn:Ed; cbn [andb];
      rewrite ?Eu in Erun;
      try (destruct (ToString (fst (aigcOutcome host))) as [conv|e];
           [|subst run; eexists _, _; split; [split; reflexivity|];
             cbn; repeat (split; [reflexivity|]); discriminate]);
      unfold bind at 1 in Erun;
      match type of Erun with
      | context [Travel.renderAndUpload ?c ?h ?d ?u ?p ?b ?w0] =>
          destruct (renderAndUpload_run c h d u p b w0)
            as (w3 & E3 & [L3 [added3 Ev3]] & C3);
          rewrite E3 in Erun; clear E3;
          destruct (Travel.generateFootprintCard h c d u p b)
      end;
      run_monad; cbn in Erun; subst run;
      eexists _, _; (split; [split; [reflexivity|]|]); cbn;
      rewrite ?L3, ?Ev3, ?C3; cbn; rewrite <- ?app_assoc;
      try reflexivity;
      (split; [reflexivity|]); (split; [reflexivity|]); discriminate.
  - cbn [fst snd truthy] in Erun |- *. unfold bind at 1 in Erun.
    rewrite (presetBackground_run _ _ _ Hs) in Erun.
    unfold bind at 1 in Erun. rewrite debugBackground_run in Erun.
    cbn [truthy] in Erun. destruct Hu as [su Eu]. rewrite Eu in Erun.
    assert (Edbg : (if debug config
                    then (Ok tt, w1) else (Ok tt, w1)) = (Ok tt, w1))
      by (destruct (debug config); reflexivity).
    rewrite Edbg in Erun. unfold bind at 1 in Erun.
    match type of Erun with
    | context [Travel.renderAndUpload ?c ?h ?d ?u ?p ?b ?w0] =>
        destruct (renderAndUpload_run c h d u p b w0)
          as (w3 & E3 & [L3 [added3 Ev3]] & C3);
        rewrite E3 in Erun; clear E3;
        destruct (Travel.generateFootprintCard h c d u p b)
    end;
      run_monad; cbn in Erun; subst run;
      (eexists _, _; split; [split; [reflexivity|]|]; cbn;
       [rewrite L3; reflexivity|]);
      rewrite Ev3, C3; repeat (split; [reflexivity|]); discriminate.
Qed.

(** What an invocation does to the travel log, on every host and
    configuration. *)
Lemma triggerTravelSequence_row (host : Host) (config : Config)
    (userInfo : UserInfo) (platform guildId : string) (w : World) :
  exists loc w1 m,
    chooseLocation config host w = (Ok loc, w1)
    /\ pig_travel_log w1 = pig_travel_log w
    /\ Travel.travelMessage config loc = Ok m
    /\ (Travel.is_image (outputMode config) = false
        \/ aigcConfigured config host = false
        \/ (convertible (country loc)
            /\ (debug config = false
                \/ convertible (fst (aigcOutcome host)))) ->
        rejection config host loc = None)
    /\ match rejection config host loc with
       | Some e =>
           exists w',
             Travel.triggerTravelSequence host config userInfo platform
               guildId w = (Throw e, w')
             /\ pig_travel_log w' = pig_travel_log w
       | None =>
           exists result row w',
             Travel.triggerTravelSequence host config userInfo platform
               guildId w = (Ok result, w')
             /\ pig_travel_log w' = pig_travel_log w ++ [row]
             /\ log_userId row = userId userInfo
             /\ log_platform row = platform
             /\ log_guildId row = guildId
             /\ log_timestamp row = nowAtInsert host
             /\ log_isAIGC row = Travel.isAIGC result
             /\ log_imagePath row = js_or (Travel.imageUrl result) (JStr "")
             /\ Travel.imageUrl result
                = urlFor config host userInfo platform loc m
             /\ (Travel.is_image (outputMode config) = false ->
                 log_imagePath row = JStr "")
             /\ (forall e,
                   cardFor config host userInfo platform loc m = Throw e ->
                   log_imagePath row = JStr "")
             /\ (useStorageService config = false ->
                 log_imagePath row = JStr "")
             /\ (chatluna_storage host = None -> log_imagePath row = JStr "")
             /\ (forall e,
                   chatluna_storage host = Some (Throw e) ->
                   log_imagePath row = JStr "")
             /\ (forall url,
                   chatluna_storage host = Some (Ok url) ->
                   truthy url = false -> log_imagePath row = JStr "")
             /\ (forall card url,
                   Travel.is_image (outputMode config) = true ->
                   cardFor config host userInfo platform loc m = Ok card ->
                   useStorageService config = true ->
                   chatluna_storage host = Some (Ok url) ->
                   truthy url = true -> log_imagePath row = url)
       end.
Proof.
  destruct (chooseLocation_returns config host w)
    as (loc & w1 & Eloc & [L1 _] & Hs).
  destruct (triggerTravelSequence_run config host userInfo platform guildId
              w loc w1 Eloc Hs)
    as (m & Em & w2 & added & Hrun & _).
  exists loc, w1, m. split; [exact Eloc|]. split; [exact L1|].
  split; [exact Em|]. split.
  { unfold rejection. intros [-> | [-> | (Hc & Hd)]];
      rewrite ?andb_false_r; try reflexivity.
    destruct (Travel.is_image (outputMode config) && aigcConfigured config host);
      [|reflexivity].
    destruct Hs as (_ & [s1 E1] & _). destruct Hc as [s2 E2].
    unfold Travel.aigcPromptFor, js_replace. rewrite E1.
    cbn [Resolver.result_bind]. rewrite E2.
    destruct Hd as [-> | [s3 ->]]; [reflexivity|].
    destruct (debug config && truthy (fst (aigcOutcome host))); reflexivity. }
  destruct (rejection config host loc) as [e|].
  - destruct Hrun as [E L2]. exists w2. split; [exact E|]. congruence.
  - destruct Hrun as [E L2].
    exists (resultFor config host userInfo platform loc m),
      (rowFor config host userInfo platform guildId loc m), w2.
    split; [exact E|]. split; [rewrite L2, L1; reflexivity|].
    cbn [rowFor resultFor log_userId log_platform log_guildId log_timestamp
         log_isAIGC log_imagePath Travel.isAIGC Travel.imageUrl].
    repeat (split; [reflexivity|]).
    unfold urlFor, uploadFor.
    split; [intros ->; reflexivity|].
    split; [intros e ->; destruct (Travel.is_image _); reflexivity|].
    split; [intros ->; destruct (Travel.is_image _);
            [destruct (cardFor _ _ _ _ _ _)|]; reflexivity|].
    split; [intros ->; destruct (Travel.is_image _);
            [destruct (cardFor _ _ _ _ _ _); [destruct (useStorageService _)|]
            |]; reflexivity|].
    split; [intros e ->; destruct (Travel.is_image _);
            [destruct (cardFor _ _ _ _ _ _); [destruct (useStorageService _)|]
            |]; reflexivity|].
    split.
    + intros url -> Hf. destruct (Travel.is_image _);
        [destruct (cardFor _ _ _ _ _ _); [destruct (useStorageService _)|]|];
        try reflexivity.
      unfold js_or. rewrite Hf. reflexivity.
    + intros card url -> -> -> -> Ht. unfold js_or. rewrite Ht. reflexivity.
Qed.

End TravelFacts.

(** C1.  On every host and under every configuration, an invocation whose
    location is [loc] either returns, and then the travel-log table
    afterwards is the table before followed by exactly one row, or throws
    the rejection of [loc], and then the table is as before.  It returns
    whenever the output mode is text, or the AI image service is not
    configured, or the country of the location converts to a string (and,
    with debugging on, so does the generated background): so whatever the
    image service, the renderer and the storage service answer.  The row
    carries the user, platform and guild of the invocation and the
    insertion time.  Its image path is the URL that the storage service
    answered for the rendered card, and it is the empty string whenever no
    such URL was produced: in the text mode, when the renderer throws,
    when the storage service is switched off, absent, throws, or answers
    with a falsy URL.  The second part evaluates the failing input: the
    chat model replies with an object whose country is an object with a
    member named toString, no photo key is configured, and the AI image
    service is configured and present.  The prompt is built outside every
    [try]; its conversion of the country throws a [TypeError], and no row
    is inserted.  With the AI image service switched off, the same reply
    gives one row. *)
Theorem travel_row_unless_prompt_throws :
  (forall (runtime : Runtime) (catalog : Catalog) (host : Host)
          (config : Config) (userInfo : UserInfo) (platform guildId : string)
          (w : World),
     exists loc w1 m,
       chooseLocation config host w = (Ok loc, w1)
       /\ pig_travel_log w1 = pig_travel_log w
       /\ Travel.travelMessage config loc = Ok m
       /\ (Travel.is_image (outputMode config) = false
           \/ aigcConfigured config host = false
           \/ (convertible (country loc)
               /\ (debug config = false
                   \/ convertible (fst (aigcOutcome host)))) ->
           rejection config host loc = None)
       /\ match rejection config host loc with
          | Some e =>
              exists w',
                Travel.triggerTravelSequence host config userInfo platform
                  guildId w = (Throw e, w')
                /\ pig_travel_log w' = pig_travel_log w
          | None =>
              exists result row w',
                Travel.triggerTravelSequence host config userInfo platform
                  guildId w = (Ok result, w')
                /\ pig_travel_log w' = pig_travel_log w ++ [row]
                /\ log_userId row = userId userInfo
                /\ log_platform row = platform
                /\ log_guildId row = guildId
                /\ log_timestamp row = nowAtInsert host
                /\ log_isAIGC row = Travel.isAIGC result
                /\ log_imagePath row
                   = js_or (Travel.imageUrl result) (JStr "")
                /\ Travel.imageUrl result
                   = urlFor config host userInfo platform loc m
                /\ (Travel.is_image (outputMode config) = false ->
                    log_imagePath row = JStr "")
                /\ (forall e,
                      cardFor config host userInfo platform loc m = Throw e ->
                      log_imagePath row = JStr "")
                /\ (useStorageService config = false ->
                    log_imagePath row = JStr "")
                /\ (chatluna_storage host = None ->
                    log_imagePath row = JStr "")
                /\ (forall e,
                      chatluna_storage host = Some (Throw e) ->
                      log_imagePath row = JStr "")
                /\ (forall url,
                      chatluna_storage host = Some (Ok url) ->
                      truthy url = false -> log_imagePath row = JStr "")
                /\ (forall card url,
                      Travel.is_image (outputMode config) = true ->
                      cardFor config host userInfo platform loc m = Ok card ->
                      useStorageService config = true ->
                      chatluna_storage host = Some (Ok url) ->
                      truthy url = true -> log_imagePath row = url)
          end)
  /\ (let host := Samples.host_reply Samples.reply_country_object in
      @Travel.triggerTravelSequence Demo.runtime Demo.catalog host
        Samples.config_aigc Samples.visitor "onebot" "g1" (Demo.world 0)
      = (Throw TypeError,
         {| llmCooldownUntil := 0;
            pig_travel_log := [];
            events := [EvCreateChatModel "gemini-flash"; EvInvoke] |})
      /\ List.map log_imagePath
           (pig_travel_log
              (snd (@Travel.triggerTravelSequence Demo.runtime Demo.catalog
                      host Demo.config Samples.visitor "onebot" "g1"
                      (Demo.world 0))))
         = [JStr "https://storage.example/card.png"]).
Proof.
  split.
  - intros runtime catalog host config userInfo platform guildId w.
    apply triggerTravelSequence_row.
  - vm_compute. split; reflexivity.
Qed.

(** ** The trip leaderboard *)

Section LeaderboardFacts.
Variable getCountryISOCode : string -> option string.

Abbreviation PigTravelLog := Leaderboard.PigTravelLog.
Abbreviation Entry := Leaderboard.PigLeaderboardEntry.
Abbreviation countryKey := (Leaderboard.countryKey getCountryISOCode).
Abbreviation addLog := (Leaderboard.addLog getCountryISOCode).
Abbreviation leaderboardEntries :=
  (Leaderboard.leaderboardEntries getCountryISOCode).

(** The distinct elements of a list in the order of their first
    occurrence. *)
Fixpoint firstSeen (l : list string) : list string :=
  match l with
  | [] => []
  | u :: rest => u :: List.filter (fun v => negb (String.eqb v u)) (firstSeen rest)
  end.

Definition logsOf (u : string) (logs : list PigTravelLog) : list PigTravelLog :=
  List.filter (fun log => String.eqb (Leaderboard.userId log) u) logs.

(** The number of trips of a user, and the set of the canonical countries
    of these trips. *)
Definition trips (u : string) (logs : list PigTravelLog) : Z :=
  Z.of_nat (length (logsOf u logs)).

Definition visited (u : string) (logs : list PigTravelLog) : gset string :=
  list_to_set (List.map countryKey (logsOf u logs)).

Definition statOf (logs : list PigTravelLog) (u : string)
  : string * Leaderboard.UserStat :=
  (u, {| Leaderboard.tripCount := trips u logs;
         Leaderboard.countries := visited u logs |}).

Lemma firstSeen_in (l : list string) (u : string) :
  In u (firstSeen l) <-> In u l.
Proof.
  induction l as [|v l IH]; simpl; [tauto|].
  rewrite filter_In, IH.
  destruct (String.eqb_spec u v) as [->|Hne]; simpl; [tauto|].
  split; [tauto|]. intros [->|Hin]; [tauto|]. auto.
Qed.

Lemma filter_notin (l : list string) (x : string) :
  ~ In x l -> List.filter (fun v => negb (String.eqb v x)) l = l.
Proof.
  induction l as [|v l IH]; simpl; [reflexivity|]. intros Hn.
  destruct (String.eqb_spec v x) as [->|Hne]; simpl; [tauto|].
  rewrite IH; [reflexivity|tauto].
Qed.

Lemma firstSeen_snoc (l : list string) (x : string) :
  firstSeen (l ++ [x])
  = if existsb (String.eqb x) l then firstSeen l else firstSeen l ++ [x].
Proof.
  induction l as [|u l IH]; simpl; [reflexivity|].
  rewrite IH. destruct (String.eqb_spec x u) as [->|Hne]; simpl.
  - destruct (existsb (String.eqb u) l); [reflexivity|].
    rewrite List.filter_app. simpl. rewrite String.eqb_refl. simpl.
    rewrite app_nil_r. reflexivity.
  - destruct (existsb (String.eqb x) l); [reflexivity|].
    rewrite List.filter_app. simpl.
    destruct (String.eqb_spec x u); [contradiction|]. reflexivity.
Qed.

Lemma existsb_eqb_in (x : string) (l : list string) :
  existsb (String.eqb x) l = true <-> In x l.
Proof.
  rewrite existsb_exists. split.
  - intros (y & Hy & E). apply String.eqb_eq in E. subst. exact Hy.
  - intros Hx. exists x. split; [exact Hx|apply String.eqb_refl].
Qed.

Lemma map_has_statOf (logs : list PigTravelLog) (us : list string) (x : string) :
  Leaderboard.map_has x (List.map (statOf logs) us) = existsb (String.eqb x) us.
Proof.
  induction us as [|u us IH]; simpl; [reflexivity|].
  rewrite IH, (String.eqb_sym u x). reflexivity.
Qed.

Lemma logsOf_snoc (u : string) (logs : list PigTravelLog) (x : PigTravelLog) :
  logsOf u (logs ++ [x])
  = logsOf u logs
    ++ (if String.eqb (Leaderboard.userId x) u then [x] else []).
Proof. unfold logsOf. rewrite List.filter_app. reflexivity. Qed.

Lemma statOf_snoc_other (u : string) (logs : list PigTravelLog) (x : PigTravelLog) :
  String.eqb (Leaderboard.userId x) u = false ->
  statOf (logs ++ [x]) u = statOf logs u.
Proof.
  intros Hne. unfold statOf, trips, visited.
  rewrite logsOf_snoc, Hne, app_nil_r. reflexivity.
Qed.

Lemma statOf_snoc_same (logs : list PigTravelLog) (x : PigTravelLog) :
  statOf (logs ++ [x]) (Leaderboard.userId x)
  = (Leaderboard.userId x,
     {| Leaderboard.tripCount := trips (Leaderboard.userId x) logs + 1;
        Leaderboard.countries :=
          visited (Leaderboard.userId x) logs ∪ {[ countryKey x ]} |}).
Proof.
  unfold statOf, trips, visited.
  rewrite logsOf_snoc, String.eqb_refl, length_app, List.map_app,
    list_to_set_app_L.
  cbn [length List.map list_to_set]. f_equal. f_equal; [lia|].
  f_equal. apply (right_id_L ∅ (∪)).
Qed.

Lemma logsOf_absent (u : string) (logs : list PigTravelLog) :
  ~ In u (List.map Leaderboard.userId logs) -> logsOf u logs = [].
Proof.
  induction logs as [|x logs IH]; simpl; [reflexivity|]. intros Hn.
  destruct (String.eqb_spec (Leaderboard.userId x) u); [tauto|].
  apply IH. tauto.
Qed.

(** Mutating the entry of [x] in a map whose keys are distinct. *)
Lemma map_mutate_statOf (logs : list PigTravelLog) (x : PigTravelLog)
    (us : list string) (f : Leaderboard.UserStat -> Leaderboard.UserStat) :
  NoDup us ->
  statOf (logs ++ [x]) (Leaderboard.userId x)
  = (Leaderboard.userId x, f (snd (statOf logs (Leaderboard.userId x)))) ->
  Leaderboard.map_mutate (Leaderboard.userId x) f (List.map (statOf logs) us)
  = List.map (statOf (logs ++ [x])) us.
Proof.
  intros Hnd Hf. induction Hnd as [|u us Hu Hnd IH]; simpl; [reflexivity|].
  destruct (String.eqb_spec u (Leaderboard.userId x)) as [->|Hne].
  - rewrite Hf. simpl. f_equal.
    apply map_ext_in. intros v Hv. symmetry. apply statOf_snoc_other.
    apply String.eqb_neq. intros E. rewrite <- E in Hv. contradiction.
  - rewrite IH. f_equal. symmetry. apply statOf_snoc_other.
    apply String.eqb_neq. congruence.
Qed.

Lemma firstSeen_NoDup (l : list string) : NoDup (firstSeen l).
Proof.
  induction l as [|u l IH]; simpl; constructor.
  - rewrite filter_In, String.eqb_refl. simpl. intros [_ Hf]. discriminate.
  - apply NoDup_filter. exact IH.
Qed.

(** The [Map] after the loop: one entry per user, in the order in which
    the users first occur in the logs, holding the number of the user's
    logs and the set of their country keys. *)
Lemma userStats_spec (logs : list PigTravelLog) :
  fold_left addLog logs []
  = List.map (statOf logs) (firstSeen (List.map Leaderboard.userId logs)).
Proof.
  induction logs as [|x logs IH] using rev_ind; [reflexivity|].
  rewrite fold_left_app. cbn [fold_left]. rewrite IH.
  set (us := firstSeen (List.map Leaderboard.userId logs)).
  rewrite List.map_app. cbn [List.map]. rewrite firstSeen_snoc. fold us.
  unfold Leaderboard.addLog. rewrite map_has_statOf.
  assert (Hex : existsb (String.eqb (Leaderboard.userId x))
                  (List.map Leaderboard.userId logs)
                = existsb (String.eqb (Leaderboard.userId x)) us).
  { apply eq_true_iff_eq. rewrite !existsb_eqb_in. unfold us.
    symmetry. apply firstSeen_in. }
  rewrite Hex.
  destruct (existsb (String.eqb (Leaderboard.userId x)) us) eqn:Eh;
    cbn [negb].
  - apply map_mutate_statOf; [apply firstSeen_NoDup|].
    rewrite statOf_snoc_same. reflexivity.
  - assert (Hnot : ~ In (Leaderboard.userId x) us).
    { rewrite <- existsb_eqb_in. congruence. }
    unfold Leaderboard.map_set_new.
    assert (Hskip : forall (vs : list string) tail,
               ~ In (Leaderboard.userId x) vs ->
               Leaderboard.map_mutate (Leaderboard.userId x)
                 (fun stat =>
                    {| Leaderboard.tripCount := Leaderboard.tripCount stat + 1;
                       Leaderboard.countries :=
                         Leaderboard.countries stat ∪ {[ countryKey x ]} |})
                 (List.map (statOf logs) vs ++ tail)
               = List.map (statOf (logs ++ [x])) vs
                 ++ Leaderboard.map_mutate (Leaderboard.userId x)
                      (fun stat =>
                         {| Leaderboard.tripCount :=
                              Leaderboard.tripCount stat + 1;
                            Leaderboard.countries :=
                              Leaderboard.countries stat ∪ {[ countryKey x ]} |})
                      tail).
    { induction vs as [|v vs IHv]; intros tail Hv; simpl; [reflexivity|].
      destruct (String.eqb_spec v (Leaderboard.userId x)) as [->|Hne];
        [simpl in Hv; tauto|].
      rewrite IHv by (simpl in Hv; tauto). f_equal.
      symmetry. apply statOf_snoc_other. apply String.eqb_neq. congruence. }
    rewrite Hskip by exact Hnot. rewrite List.map_app. f_equal.
    cbn [List.map Leaderboard.map_mutate]. rewrite String.eqb_refl.
    rewrite statOf_snoc_same. cbn [Leaderboard.tripCount Leaderboard.countries].
    unfold trips, visited.
    rewrite logsOf_absent; [reflexivity|].
    unfold us in Hnot. rewrite firstSeen_in in Hnot. exact Hnot.
Qed.

(** *** The sort *)

Definition hasScore (v : Z) (e : Entry) : bool := Leaderboard.e_score e =? v.

Definition ahead (a b : Entry) : Prop :=
  Leaderboard.e_score a >= Leaderboard.e_score b.

Lemma insertEntry_perm (a : Entry) (l : list Entry) :
  Permutation (Leaderboard.insertEntry a l) (a :: l).
Proof.
  induction l as [|b l IH]; simpl; [reflexivity|].
  destruct (Leaderboard.compareFn a b <=? 0); [reflexivity|].
  rewrite IH. apply perm_swap.
Qed.

Lemma sortEntries_perm (l : list Entry) :
  Permutation (Leaderboard.sortEntries l) l.
Proof.
  induction l as [|a l IH]; simpl; [reflexivity|].
  rewrite insertEntry_perm. constructor. exact IH.
Qed.

Lemma insertEntry_sorted (a : Entry) (l : list Entry) :
  StronglySorted ahead l -> StronglySorted ahead (Leaderboard.insertEntry a l).
Proof.
  induction 1 as [|b l Hs IH Hb]; simpl.
  - repeat constructor.
  - unfold Leaderboard.compareFn.
    destruct (Z.leb_spec (Leaderboard.e_score b - Leaderboard.e_score a) 0).
    + constructor; [constructor; assumption|].
      constructor; [unfold ahead; lia|].
      eapply Forall_impl; [|exact Hb]. unfold ahead. intros; lia.
    + constructor; [exact IH|].
      eapply Permutation_Forall; [symmetry; apply insertEntry_perm|].
      constructor; [unfold ahead; lia|exact Hb].
Qed.

Lemma sortEntries_sorted (l : list Entry) :
  StronglySorted ahead (Leaderboard.sortEntries l).
Proof.
  induction l as [|a l IH]; simpl; [constructor|].
  apply insertEntry_sorted. exact IH.
Qed.

Lemma insertEntry_stable (v : Z) (a : Entry) (l : list Entry) :
  List.filter (hasScore v) (Leaderboard.insertEntry a l)
  = List.filter (hasScore v) (a :: l).
Proof.
  induction l as [|b l IH]; simpl; [reflexivity|].
  unfold Leaderboard.compareFn.
  destruct (Z.leb_spec (Leaderboard.e_score b - Leaderboard.e_score a) 0);
    [reflexivity|].
  simpl. rewrite IH. simpl. unfold hasScore.
  destruct (Z.eqb_spec (Leaderboard.e_score a) v),
           (Z.eqb_spec (Leaderboard.e_score b) v); try reflexivity; lia.
Qed.

Lemma sortEntries_stable (v : Z) (l : list Entry) :
  List.filter (hasScore v) (Leaderboard.sortEntries l)
  = List.filter (hasScore v) l.
Proof.
  induction l as [|a l IH]; simpl; [reflexivity|].
  rewrite insertEntry_stable. simpl. rewrite IH. reflexivity.
Qed.

(** The canonical country of a row, in the words of the specification:
    the ISO code that the lookup knows for the country or, failing that,
    for the localized country; the country as it is written when the
    lookup has no code for either.  A code that is the empty string is no
    code. *)
Definition knownCode (name : string) : option string :=
  match getCountryISOCode name with
  | Some code => if String.eqb code "" then None else Some code
  | None => None
  end.

Definition canonical (log : PigTravelLog) : string :=
  match knownCode (Leaderboard.country log),
        knownCode (Leaderboard.countryZh log) with
  | Some code, _ => code
  | None, Some code => code
  | None, None => Leaderboard.country log
  end.

(** The distinct canonical countries of the rows of a user. *)
Definition canonicalCountries (u : string) (logs : list PigTravelLog)
  : gset string :=
  list_to_set (List.map canonical (logsOf u logs)).

Lemma countryKey_canonical (log : PigTravelLog) :
  countryKey log = canonical log.
Proof.
  unfold Leaderboard.countryKey, Leaderboard.codeOf, canonical, knownCode,
    nonempty.
  destruct (getCountryISOCode (Leaderboard.country log)) as [c1|];
    [destruct (String.eqb c1 ""); cbn [negb]|];
    try reflexivity;
    destruct (getCountryISOCode (Leaderboard.countryZh log)) as [c2|];
    try reflexivity; destruct (String.eqb c2 ""); reflexivity.
Qed.

Lemma visited_canonical (u : string) (logs : list PigTravelLog) :
  visited u logs = canonicalCountries u logs.
Proof.
  unfold visited, canonicalCountries. f_equal.
  apply map_ext. intros log. apply countryKey_canonical.
Qed.

Lemma leaderboard_ranking_of (table : list PigTravelLog) (g p : string)
    (limit : nat) :
  let logs := Leaderboard.database_get table g p in
  let out := Leaderboard.getPigLeaderboard getCountryISOCode table g p limit in
  exists ranking,
    out = firstn limit ranking
    /\ (length out <= limit)%nat
    /\ List.map Leaderboard.e_userId (leaderboardEntries logs)
       = firstSeen (List.map Leaderboard.userId logs)
    /\ (forall e, In e (leaderboardEntries logs) ->
          Leaderboard.e_tripCount e = trips (Leaderboard.e_userId e) logs
          /\ Leaderboard.e_countryCount e
             = Z.of_nat
                 (size (canonicalCountries (Leaderboard.e_userId e) logs))
          /\ Leaderboard.e_score e
             = Leaderboard.e_tripCount e + 2 * Leaderboard.e_countryCount e)
    /\ Permutation ranking (leaderboardEntries logs)
    /\ StronglySorted ahead ranking
    /\ (forall v, List.filter (hasScore v) ranking
                  = List.filter (hasScore v) (leaderboardEntries logs)).
Proof.
  intros logs out.
  exists (Leaderboard.sortEntries (leaderboardEntries logs)).
  assert (Hout : out = firstn limit
                         (Leaderboard.sortEntries (leaderboardEntries logs))).
  { unfold out, Leaderboard.getPigLeaderboard. fold logs.
    destruct logs as [|x logs']; [|reflexivity].
    cbn. destruct limit; reflexivity. }
  split; [exact Hout|].
  split; [rewrite Hout; apply firstn_le_length|].
  unfold Leaderboard.leaderboardEntries. rewrite userStats_spec.
  split; [|split; [|split; [|split]]].
  - rewrite !List.map_map. cbn. apply map_id.
  - intros e He. apply in_map_iff in He as (kv & <- & Hkv).
    apply in_map_iff in Hkv as (u & <- & _). cbn.
    rewrite visited_canonical. repeat split. lia.
  - apply sortEntries_perm.
  - apply sortEntries_sorted.
  - intros v. apply sortEntries_stable.
Qed.

End LeaderboardFacts.

(** C7.  Let [logs] be the rows of the guild, in the order in which the
    database returns them, and let the canonical country of a row be the
    ISO code that the lookup knows for its country or else for its
    localized country, and the country as written when it knows neither.
    Before sorting there is one entry per user, in the order in which the
    users first occur in [logs]; the entry of a user holds the number t of
    the user's rows, the number c of distinct canonical countries of these
    rows, and the score t + 2 c.  The result is the first [limit] entries
    of a ranking that is a permutation of these entries, descending in
    score, in which the entries of any one score stand in the same order
    as before sorting; so the result has at most [limit] entries.  On the
    sample rows, user A has three trips, to Norway, to the Kingdom of
    Norway, which has the same code, and to Iceland: two countries, score
    7, as user B with five trips to Japan, and A, who occurs first, stays
    ahead. *)
Theorem leaderboard_ranking :
  (forall (getCountryISOCode : string -> option string)
          (table : list Leaderboard.PigTravelLog) (g p : string)
          (limit : nat),
     let logs := Leaderboard.database_get table g p in
     let entries := Leaderboard.leaderboardEntries getCountryISOCode logs in
     let out :=
       Leaderboard.getPigLeaderboard getCountryISOCode table g p limit in
     exists ranking,
       out = firstn limit ranking
       /\ (length out <= limit)%nat
       /\ List.map Leaderboard.e_userId entries
          = firstSeen (List.map Leaderboard.userId logs)
       /\ (forall e, In e entries ->
             Leaderboard.e_tripCount e = trips (Leaderboard.e_userId e) logs
             /\ Leaderboard.e_countryCount e
                = Z.of_nat
                    (size (canonicalCountries getCountryISOCode
                             (Leaderboard.e_userId e) logs))
             /\ Leaderboard.e_score e
                = Leaderboard.e_tripCount e
                  + 2 * Leaderboard.e_countryCount e)
       /\ Permutation ranking entries
       /\ StronglySorted ahead ranking
       /\ (forall v, List.filter (hasScore v) ranking
                     = List.filter (hasScore v) entries))
  /\ List.map (fun e => (Leaderboard.e_userId e, Leaderboard.e_tripCount e,
                         Leaderboard.e_countryCount e, Leaderboard.e_score e))
       (Leaderboard.getPigLeaderboard Demo.isoCode Demo.trips "g1" "onebot"
          10)
     = [("A", 3, 2, 7); ("B", 5, 1, 7)]
  /\ List.map (canonical Demo.isoCode) Demo.trips
     = ["NO"; "JP"; "JP"; "NO"; "JP"; "IS"; "JP"; "JP"].
Proof.
  split; [|split; vm_compute; reflexivity].
  intros getCountryISOCode table g p limit.
  exact (leaderboard_ranking_of getCountryISOCode table g p limit).
Qed.

(** ** Message statistics and night owls *)

Section StatsFacts.
Variable tzOffsetMs : Z.
Variable parseHourly : string -> option (gmap string Z).
Variable stringifyHourly : gmap string Z -> string.

Abbreviation statsUpdate :=
  (Stats.statsUpdate tzOffsetMs parseHourly stringifyHourly).
Abbreviation statsMiddleware :=
  (Stats.statsMiddleware tzOffsetMs parseHourly stringifyHourly).
Abbreviation dateOnly := (Stats.dateOnly tzOffsetMs).
Abbreviation getHours := (Stats.getHours tzOffsetMs).

(** The row that the middleware reads for a session. *)
Definition rowOf (table : list Stats.PigUserState) (k : string * string * string)
  : option Stats.PigUserState :=
  Stats.database_get table k.1.1 k.1.2 k.2.

Definition keyOf (session : Stats.Session) : string * string * string :=
  (Stats.s_userId session, Stats.s_platform session, Stats.s_guildId session).

(** The count of an hour in the record, 0 when it has no such key. *)
Definition hourCount (counts : gmap string Z) (hourKey : string) : Z :=
  default 0 (counts !! hourKey).

(** The messages of a run, each with the time at which it is processed,
    go through the middleware one after the other. *)
Definition runMiddleware (config : Config) (messages : list (Stats.Session * Z))
    (table : list Stats.PigUserState) : list Stats.PigUserState :=
  fold_left (fun t m => statsMiddleware config m.1 m.2 t) messages table.

Lemma same_key_eq (k k' : string * string * string) (row : Stats.PigUserState) :
  Stats.same_key k.1.1 k.1.2 k.2 row = true ->
  Stats.same_key k'.1.1 k'.1.2 k'.2 row = true -> k = k'.
Proof.
  destruct k as [[a b] c], k' as [[a' b'] c']. unfold Stats.same_key. cbn.
  rewrite !andb_true_iff, !String.eqb_eq. intros [[<- <-] <-] [[<- <-] <-].
  reflexivity.
Qed.

Lemma same_key_applyUpdate u a b c (row : Stats.PigUserState) :
  Stats.same_key a b c (Stats.applyUpdate u row) = Stats.same_key a b c row.
Proof. reflexivity. Qed.

Lemma same_key_newRow (u : Stats.UpdateData) :
  Stats.same_key (Stats.u_userId u) (Stats.u_platform u) (Stats.u_guildId u)
    (Stats.newRow u) = true.
Proof. unfold Stats.same_key. cbn. rewrite !String.eqb_refl. reflexivity. Qed.

Definition updateKey (u : Stats.UpdateData) : string * string * string :=
  (Stats.u_userId u, Stats.u_platform u, Stats.u_guildId u).

(** The row of a key after an upsert: the updated row, or the new row,
    when the update has this key; the row as it was otherwise. *)
Lemma rowOf_upsert_same (u : Stats.UpdateData) (table : list Stats.PigUserState) :
  rowOf (Stats.database_upsert u table) (updateKey u)
  = Some match rowOf table (updateKey u) with
         | Some row => Stats.applyUpdate u row
         | None => Stats.newRow u
         end.
Proof.
  unfold rowOf, Stats.database_get, Stats.database_upsert, updateKey. cbn.
  set (hit := Stats.same_key _ _ _).
  destruct (existsb hit table) eqn:Ex.
  - induction table as [|row table IH]; cbn in *; [discriminate|].
    destruct (hit row) eqn:Eh; cbn.
    + change (hit (Stats.applyUpdate u row)) with (hit row). rewrite Eh.
      reflexivity.
    + rewrite Eh. apply IH. exact Ex.
  - assert (Hf : List.filter hit table = []).
    { induction table as [|row table IH]; [reflexivity|]. cbn in *.
      apply orb_false_iff in Ex as [-> Ex]. auto. }
    rewrite List.filter_app, Hf. cbn. unfold hit at 1.
    rewrite same_key_newRow. reflexivity.
Qed.

Lemma rowOf_upsert_other (u : Stats.UpdateData) (table : list Stats.PigUserState)
    (k : string * string * string) :
  k <> updateKey u ->
  rowOf (Stats.database_upsert u table) k = rowOf table k.
Proof.
  intros Hk. unfold rowOf, Stats.database_get, Stats.database_upsert.
  set (hit := Stats.same_key (Stats.u_userId u) _ _).
  set (mine := Stats.same_key k.1.1 k.1.2 k.2).
  assert (Hdisj : forall row, mine row = true -> hit row = false).
  { intros row Hm. destruct (hit row) eqn:Eh; [|reflexivity].
    exfalso. apply Hk. exact (same_key_eq k (updateKey u) row Hm Eh). }
  destruct (existsb hit table).
  - f_equal. induction table as [|row table IH]; [reflexivity|]. cbn.
    destruct (hit row) eqn:Eh.
    + change (mine (Stats.applyUpdate u row)) with (mine row).
      destruct (mine row) eqn:Em; [rewrite (Hdisj _ Em) in Eh; discriminate|].
      exact IH.
    + destruct (mine row); [f_equal|]; exact IH.
  - rewrite List.filter_app. cbn.
    destruct (mine (Stats.newRow u)) eqn:Em.
    + pose proof (Hdisj _ Em) as Hh. unfold hit in Hh.
      rewrite same_key_newRow in Hh. discriminate.
    + rewrite app_nil_r. reflexivity.
Qed.

(** The update of a processed message has the key of its session. *)
Lemma statsUpdate_key config session now table u :
  statsUpdate config session now table = Some u -> updateKey u = keyOf session.
Proof.
  unfold Stats.statsUpdate.
  destruct (negb (nonempty (Stats.s_userId session)) || _); [discriminate|].
  intros [= <-]. reflexivity.
Qed.

(** The night-owl counter of a row, 0 when there is no row or no value. *)
Definition nightOwls (row : option Stats.PigUserState) : Z :=
  Stats.column row Stats.nightOwlCount.

(** The local day on which the row was last counted as a night owl. *)
Definition lastNightOwlDay (row : option Stats.PigUserState) : option Z :=
  match row with
  | Some r => dateOnly <$> Stats.lastNightOwlDate r
  | None => None
  end.

(** The night-owl columns that the middleware writes, in terms of the
    row it read. *)
Definition nightOwlUpdate (config : Config) (now : Z)
    (old : option Stats.PigUserState) : option (Z * Z) :=
  if nightOwlEnabled config
     && Stats.isNightOwlTime (default 0 (nightOwlStartHour config))
          (default 5 (nightOwlEndHour config)) (getHours now)
  then match lastNightOwlDay old with
       | Some day => if day =? dateOnly now then None
                     else Some (nightOwls old + 1, now)
       | None => Some (nightOwls old + 1, now)
       end
  else None.

Lemma statsUpdate_nightOwl config session now table u :
  statsUpdate config session now table = Some u ->
  Stats.u_nightOwl u = nightOwlUpdate config now (rowOf table (keyOf session)).
Proof.
  unfold Stats.statsUpdate.
  destruct (negb (nonempty (Stats.s_userId session)) || _); [discriminate|].
  intros [= <-]. cbn [Stats.u_nightOwl]. unfold nightOwlUpdate.
  change (Stats.database_get table (Stats.s_userId session)
            (Stats.s_platform session) (Stats.s_guildId session))
    with (rowOf table (keyOf session)).
  destruct (nightOwlEnabled config && _); [|reflexivity].
  unfold lastNightOwlDay.
  destruct (rowOf table (keyOf session)) as [row|]; [|reflexivity].
  destruct (Stats.lastNightOwlDate row) as [lastDate|]; [|reflexivity].
  cbn. destruct (_ =? _); reflexivity.
Qed.

(** One step, seen from a fixed key: either the row of the key is
    untouched as far as the night-owl columns go, or the message is of this
    key, falls in the window on a day other than the last counted one, and
    the counter rises by one while that day becomes the last counted. *)
Lemma step_nightOwl config session now table k :
  forall table', table' = statsMiddleware config session now table ->
  (nightOwls (rowOf table' k) = nightOwls (rowOf table k)
   /\ lastNightOwlDay (rowOf table' k) = lastNightOwlDay (rowOf table k))
  \/ (k = keyOf session
      /\ nightOwlEnabled config = true
      /\ Stats.isNightOwlTime (default 0 (nightOwlStartHour config))
           (default 5 (nightOwlEndHour config)) (getHours now) = true
      /\ lastNightOwlDay (rowOf table k) <> Some (dateOnly now)
      /\ nightOwls (rowOf table' k) = nightOwls (rowOf table k) + 1
      /\ lastNightOwlDay (rowOf table' k) = Some (dateOnly now)).
Proof.
  intros table' ->. unfold Stats.statsMiddleware.
  destruct (statsUpdate config session now table) as [u|] eqn:Eu; [|left; auto].
  pose proof (statsUpdate_key _ _ _ _ _ Eu) as Hkey.
  pose proof (statsUpdate_nightOwl _ _ _ _ _ Eu) as Hu.
  destruct (decide (k = updateKey u)) as [->|Hne];
    [|left; rewrite (rowOf_upsert_other u table k Hne); auto].
  rewrite rowOf_upsert_same, Hkey.
  set (old := rowOf table (keyOf session)) in *.
  assert (Hafter :
            forall r : Stats.PigUserState,
              nightOwls (Some (Stats.applyUpdate u r))
              = match Stats.u_nightOwl u with
                | Some (count, _) => count
                | None => nightOwls (Some r)
                end
              /\ lastNightOwlDay (Some (Stats.applyUpdate u r))
                 = match Stats.u_nightOwl u with
                   | Some (_, date) => Some (dateOnly date)
                   | None => lastNightOwlDay (Some r)
                   end).
  { intros r. unfold nightOwls, lastNightOwlDay. cbn.
    destruct (Stats.u_nightOwl u) as [[count date]|]; split; reflexivity. }
  assert (Hnew : nightOwls (Some (Stats.newRow u))
                 = match Stats.u_nightOwl u with
                   | Some (count, _) => count
                   | None => 0
                   end
                 /\ lastNightOwlDay (Some (Stats.newRow u))
                    = match Stats.u_nightOwl u with
                      | Some (_, date) => Some (dateOnly date)
                      | None => None
                      end).
  { unfold nightOwls, lastNightOwlDay. cbn.
    destruct (Stats.u_nightOwl u) as [[count date]|]; split; reflexivity. }
  assert (Hrow :
            nightOwls match old with
                      | Some row => Some (Stats.applyUpdate u row)
                      | None => Some (Stats.newRow u)
                      end
            = match Stats.u_nightOwl u with
              | Some (count, _) => count
              | None => nightOwls old
              end
            /\ lastNightOwlDay match old with
                               | Some row => Some (Stats.applyUpdate u row)
                               | None => Some (Stats.newRow u)
                               end
               = match Stats.u_nightOwl u with
                 | Some (_, date) => Some (dateOnly date)
                 | None => lastNightOwlDay old
                 end).
  { destruct old as [row|]; [apply Hafter|exact Hnew]. }
  destruct Hrow as [Hc Hl].
  assert (Hshape : Some match old with
                        | Some row => Stats.applyUpdate u row
                        | None => Stats.newRow u
                        end
                   = match old with
                     | Some row => Some (Stats.applyUpdate u row)
                     | None => Some (Stats.newRow u)
                     end) by (destruct old; reflexivity).
  rewrite Hshape, Hc, Hl, Hu. unfold nightOwlUpdate.
  destruct (nightOwlEnabled config); cbn [andb]; [|left; auto].
  destruct (Stats.isNightOwlTime _ _ _) eqn:En; [|left; auto].
  destruct (lastNightOwlDay old) as [day|] eqn:Ed.
  - destruct (Z.eqb_spec day (dateOnly now)) as [->|Hneq]; [left; auto|].
    right. repeat split; try reflexivity. congruence.
  - right. repeat split; try reflexivity. discriminate.
Qed.

(** A run of messages that are all processed on the local day [day]. *)
Definition onDay (day : Z) (messages : list (Stats.Session * Z)) : Prop :=
  Forall (fun m => dateOnly m.2 = day) messages.

Lemma runMiddleware_cons config session now messages table :
  runMiddleware config ((session, now) :: messages) table
  = runMiddleware config messages (statsMiddleware config session now table).
Proof. reflexivity. Qed.

Lemma run_same_day config day messages table k :
  onDay day messages ->
  forall table', table' = runMiddleware config messages table ->
  (nightOwls (rowOf table' k) = nightOwls (rowOf table k)
   /\ lastNightOwlDay (rowOf table' k) = lastNightOwlDay (rowOf table k))
  \/ (nightOwls (rowOf table' k) = nightOwls (rowOf table k) + 1
      /\ lastNightOwlDay (rowOf table' k) = Some day).
Proof.
  intros Hday. revert table.
  induction Hday as [|[session now] messages Hnow Hday IH]; intros table ? ->;
    [left; auto|].
  rewrite runMiddleware_cons. cbn in Hnow.
  assert (Hstay : forall t,
             lastNightOwlDay (rowOf t k) = Some day ->
             nightOwls (rowOf (runMiddleware config messages t) k)
             = nightOwls (rowOf t k)
             /\ lastNightOwlDay (rowOf (runMiddleware config messages t) k)
                = Some day).
  { clear IH table. induction Hday as [|[s n] ms Hn Hd IHd]; intros t Ht;
      [auto|]. rewrite runMiddleware_cons. cbn in Hn.
    destruct (step_nightOwl config s n t k _ eq_refl)
      as [[Hc Hl] | (_ & _ & _ & Hdiff & _)].
    - destruct (IHd (statsMiddleware config s n t)) as [Hc' Hl'];
        [congruence|]. split; congruence.
    - exfalso. apply Hdiff. congruence. }
  destruct (step_nightOwl config session now table k _ eq_refl)
    as [[Hc Hl] | (_ & _ & _ & _ & Hc & Hl)].
  - destruct (IH (statsMiddleware config session now table) _ eq_refl)
      as [[Hc' Hl'] | [Hc' Hl']]; [left|right]; split; congruence.
  - right. rewrite Hnow in Hl.
    destruct (Hstay _ Hl) as [Hc' Hl']. split; congruence.
Qed.


End StatsFacts.

(** ** The deprecated configuration fields *)

(** A configuration with its two deprecated fields blanked. *)
Definition withoutDeprecated (c : Config) : Config :=
  {| sunriseApi := None;
     defaultLat := defaultLat c;
     defaultLng := defaultLng c;
     abnormalThreshold := abnormalThreshold c;
     outputMode := outputMode c;
     useStorageService := useStorageService c;
     storageCacheHours := storageCacheHours c;
     travelMessageTemplate := travelMessageTemplate c;
     aigcEnabled := aigcEnabled c;
     aigcChannel := aigcChannel c;
     aigcPrompt := aigcPrompt c;
     logPath := None;
     backgroundStoragePath := backgroundStoragePath c;
     llmLocationEnabled := llmLocationEnabled c;
     llmLocationModel := llmLocationModel c;
     llmLocationCustomContext := llmLocationCustomContext c;
     llmFailureCooldownMs := llmFailureCooldownMs c;
     imageSearchPrompt := imageSearchPrompt c;
     unsplashAccessKey := unsplashAccessKey c;
     pexelsApiKey := pexelsApiKey c;
     backgroundFetchMode := backgroundFetchMode c;
     backgroundFetchTimeoutMs := backgroundFetchTimeoutMs c;
     backgroundInlineMaxBytes := backgroundInlineMaxBytes c;
     worldMapUseTianditu := worldMapUseTianditu c;
     tiandituToken := tiandituToken c;
     tiandituTimeoutMs := tiandituTimeoutMs c;
     worldMapOfficialOnly := worldMapOfficialOnly c;
     logRetentionDays := logRetentionDays c;
     monthlySummaryEnabled := monthlySummaryEnabled c;
     monthlySummaryScope := monthlySummaryScope c;
     experimentalAutoDetect := experimentalAutoDetect c;
     experimentalAutoDetectScope := experimentalAutoDetectScope c;
     silentRecordEnabled := silentRecordEnabled c;
     silentRecordAutoTravel := silentRecordAutoTravel c;
     nightOwlEnabled := nightOwlEnabled c;
     nightOwlStartHour := nightOwlStartHour c;
     nightOwlEndHour := nightOwlEndHour c;
     nightOwlGrayscaleAvatar := nightOwlGrayscaleAvatar c;
     debug := debug c |}.

(** Two configurations that differ at most in [sunriseApi] and [logPath]. *)
Definition sameButDeprecated (c1 c2 : Config) : Prop :=
  withoutDeprecated c1 = withoutDeprecated c2.

Lemma prefix_append (p s : string) : String.prefix p (p +:+ s) = true.
Proof.
  induction p as [|a p IH]; simpl; [destruct s; reflexivity|].
  destruct (ascii_dec a a); [exact IH|contradiction].
Qed.

(** Two computations that agree step by step agree. *)
Lemma bind_ext {W A B : Type} (m m' : M W A) (k k' : A -> M W B) (w : W) :
  m w = m' w -> (forall a w1, k a w1 = k' a w1) ->
  bind m k w = bind m' k' w.
Proof.
  intros Hm Hk. unfold bind. rewrite Hm.
  destruct (m' w) as [[a|e] w1]; [apply Hk|reflexivity].
Qed.

Lemma try_catch_ext {W A : Type} (m m' : M W A) (h h' : exn -> M W A)
    (w : W) :
  m w = m' w -> (forall e w1, h e w1 = h' e w1) ->
  try_catch m h w = try_catch m' h' w.
Proof.
  intros Hm Hh. unfold try_catch. rewrite Hm.
  destruct (m' w) as [[a|e] w1]; [reflexivity|apply Hh].
Qed.

(** Handlers that agree on every input give the same pool under every
    schedule. *)
Lemma interleave_ext {Shared Local Input : Type}
    (begin begin' : Input -> Shared -> Shared * option Local)
    (resume resume' : Input -> Local -> Shared -> Shared * option Local)
    (inputs : list Input) (schedule : list nat)
    (pool : @EventLoop.Pool Shared Local) :
  (forall i s, begin i s = begin' i s) ->
  (forall i l s, resume i l s = resume' i l s) ->
  EventLoop.interleave begin resume inputs schedule pool
  = EventLoop.interleave begin' resume' inputs schedule pool.
Proof.
  intros Hb Hr. unfold EventLoop.interleave. revert pool.
  induction schedule as [|h schedule IH]; intros pool; [reflexivity|].
  cbn [fold_left]. rewrite IH. f_equal. unfold EventLoop.turn.
  destruct (inputs !! h) as [input|]; [|reflexivity].
  destruct (EventLoop.waiting pool !! h) as [local|].
  - rewrite Hr. reflexivity.
  - rewrite Hb. reflexivity.
Qed.

Section DeprecatedFields.
Context `{Runtime} `{Catalog}.
Variables c1 c2 : Config.
Hypothesis same : sameButDeprecated c1 c2.

(** Every field but the two deprecated ones is the same in both. *)
Lemma same_field {A : Type} (field : Config -> A) :
  (forall c, field (withoutDeprecated c) = field c) -> field c1 = field c2.
Proof.
  intros Hf. rewrite <- (Hf c1), <- (Hf c2). unfold sameButDeprecated in same.
  rewrite same. reflexivity.
Qed.

Lemma searchQueries_same (location : Location) :
  Resolver.searchQueries c1 location = Resolver.searchQueries c2 location.
Proof.
  unfold Resolver.searchQueries.
  rewrite (same_field imageSearchPrompt (fun c => eq_refl)). reflexivity.
Qed.

Lemma searchLoop_same (host : Host) (queries : list string)
    (photoUrl : option string) (w : World) :
  Resolver.searchLoop c1 host queries photoUrl w
  = Resolver.searchLoop c2 host queries photoUrl w.
Proof.
  pose proof (same_field pexelsApiKey (fun c => eq_refl)) as E1.
  pose proof (same_field unsplashAccessKey (fun c => eq_refl)) as E2.
  revert photoUrl w.
  induction queries as [|query rest IH]; intros photoUrl w; [reflexivity|].
  cbn [Resolver.searchLoop]. rewrite E1, E2. run_monad.
  destruct (nonempty (pexelsApiKey c2)); cbn;
    match goal with
    | |- context [negb (Resolver.truthy_url ?p) && ?k] =>
        destruct (negb (Resolver.truthy_url p) && k); cbn
    end;
    match goal with
    | |- context [if Resolver.truthy_url ?p then _ else _] =>
        destruct (Resolver.truthy_url p)
    end;
    try reflexivity; apply IH.
Qed.

Lemma replacePhoto_same (host : Host) (location : Location) (w : World) :
  Resolver.replacePhoto c1 host location w
  = Resolver.replacePhoto c2 host location w.
Proof.
  unfold Resolver.replacePhoto.
  rewrite (same_field pexelsApiKey (fun c => eq_refl)),
    (same_field unsplashAccessKey (fun c => eq_refl)), searchQueries_same.
  destruct (_ || _); [|reflexivity].
  apply bind_ext; [reflexivity|]. intros queries w1.
  apply bind_ext; [apply searchLoop_same|reflexivity].
Qed.

Lemma generateLocationWithLLM_same (host : Host) (w : World) :
  Resolver.generateLocationWithLLM c1 host w
  = Resolver.generateLocationWithLLM c2 host w.
Proof.
  unfold Resolver.generateLocationWithLLM.
  rewrite (same_field llmLocationEnabled (fun c => eq_refl)),
    (same_field llmLocationModel (fun c => eq_refl)),
    (same_field llmFailureCooldownMs (fun c => eq_refl)).
  destruct (_ || _); [reflexivity|].
  apply bind_ext; [reflexivity|]. intros cooldownUntil w1.
  destruct (_ && _); [reflexivity|].
  apply try_catch_ext; [|reflexivity].
  apply bind_ext; [reflexivity|]. intros [|reply] w2; [reflexivity|].
  apply bind_ext; [reflexivity|]. intros content w3.
  apply bind_ext; [reflexivity|]. intros [location|] w4; [|reflexivity].
  apply bind_ext; [reflexivity|]. intros _ w5.
  apply bind_ext; [reflexivity|]. intros _ w6.
  apply replacePhoto_same.
Qed.

Lemma generateFootprintCard_same (host : Host) (data : CardData)
    (userInfo : UserInfo) (platform : string) (backgroundUrl : jsval) :
  Travel.generateFootprintCard host c1 data userInfo platform backgroundUrl
  = Travel.generateFootprintCard host c2 data userInfo platform
      backgroundUrl.
Proof.
  unfold Travel.generateFootprintCard.
  rewrite (same_field debug (fun c => eq_refl)),
    (same_field backgroundInlineMaxBytes (fun c => eq_refl)),
    (same_field backgroundFetchTimeoutMs (fun c => eq_refl)),
    (same_field backgroundFetchMode (fun c => eq_refl)).
  reflexivity.
Qed.

Lemma renderAndUpload_same (host : Host) cardData userInfo platform
    backgroundUrl w :
  Travel.renderAndUpload c1 host cardData userInfo platform backgroundUrl w
  = Travel.renderAndUpload c2 host cardData userInfo platform backgroundUrl w.
Proof.
  unfold Travel.renderAndUpload.
  rewrite generateFootprintCard_same,
    (same_field useStorageService (fun c => eq_refl)).
  reflexivity.
Qed.

Lemma aigcBackground_same (host : Host) (location : Location) (w : World) :
  Travel.aigcBackground c1 host location w
  = Travel.aigcBackground c2 host location w.
Proof.
  unfold Travel.aigcBackground, Travel.aigcPromptFor.
  rewrite (same_field aigcEnabled (fun c => eq_refl)),
    (same_field aigcChannel (fun c => eq_refl)),
    (same_field aigcPrompt (fun c => eq_refl)).
  reflexivity.
Qed.

Lemma travelMessage_same (location : Location) :
  Travel.travelMessage c1 location = Travel.travelMessage c2 location.
Proof.
  unfold Travel.travelMessage.
  rewrite (same_field travelMessageTemplate (fun c => eq_refl)).
  reflexivity.
Qed.

Lemma triggerTravelSequence_same (host : Host) (userInfo : UserInfo)
    (platform guildId : string) (w : World) :
  Travel.triggerTravelSequence host c1 userInfo platform guildId w
  = Travel.triggerTravelSequence host c2 userInfo platform guildId w.
Proof.
  unfold Travel.triggerTravelSequence, Travel.debugBackground.
  rewrite (same_field llmLocationEnabled (fun c => eq_refl)),
    (same_field outputMode (fun c => eq_refl)),
    (same_field debug (fun c => eq_refl)).
  apply bind_ext.
  { destruct (_ && _); [apply generateLocationWithLLM_same|reflexivity]. }
  intros location w1. rewrite travelMessage_same.
  apply bind_ext; [reflexivity|]. intros msg w2.
  apply bind_ext; [|reflexivity].
  destruct (Travel.is_image (outputMode c2)); [|reflexivity].
  apply bind_ext; [apply aigcBackground_same|]. intros aigc w3.
  apply bind_ext; [reflexivity|]. intros backgroundUrl w4.
  apply bind_ext; [reflexivity|]. intros _ w5.
  apply bind_ext; [apply renderAndUpload_same|reflexivity].
Qed.

(** The operations of the embedding that receive the configuration, under
    two configurations that differ at most in the deprecated fields. *)
Lemma operations_same :
  (forall location,
     Resolver.searchQueries c1 location = Resolver.searchQueries c2 location)
  /\ (forall host queries photoUrl w,
        Resolver.searchLoop c1 host queries photoUrl w
        = Resolver.searchLoop c2 host queries photoUrl w)
  /\ (forall host location w,
        Resolver.replacePhoto c1 host location w
        = Resolver.replacePhoto c2 host location w)
  /\ (forall host w,
        Resolver.generateLocationWithLLM c1 host w
        = Resolver.generateLocationWithLLM c2 host w)
  /\ (forall location,
        Travel.travelMessage c1 location = Travel.travelMessage c2 location)
  /\ (forall location,
        Travel.aigcPromptFor c1 location = Travel.aigcPromptFor c2 location)
  /\ (forall host location w,
        Travel.aigcBackground c1 host location w
        = Travel.aigcBackground c2 host location w)
  /\ (forall backgroundUrl w,
        Travel.debugBackground c1 backgroundUrl w
        = Travel.debugBackground c2 backgroundUrl w)
  /\ (forall host data userInfo platform backgroundUrl,
        Travel.generateFootprintCard host c1 data userInfo platform
          backgroundUrl
        = Travel.generateFootprintCard host c2 data userInfo platform
            backgroundUrl)
  /\ (forall host data userInfo platform backgroundUrl w,
        Travel.renderAndUpload c1 host data userInfo platform backgroundUrl w
        = Travel.renderAndUpload c2 host data userInfo platform
            backgroundUrl w)
  /\ (forall host userInfo platform guildId w,
        Travel.triggerTravelSequence host c1 userInfo platform guildId w
        = Travel.triggerTravelSequence host c2 userInfo platform guildId w)
  /\ (forall tz parseHourly stringifyHourly session now table,
        Stats.statsUpdate tz parseHourly stringifyHourly c1 session now table
        = Stats.statsUpdate tz parseHourly stringifyHourly c2 session now
            table)
  /\ (forall tz parseHourly stringifyHourly session now table,
        Stats.statsMiddleware tz parseHourly stringifyHourly c1 session now
          table
        = Stats.statsMiddleware tz parseHourly stringifyHourly c2 session now
            table)
  /\ (forall msg st, Silent.silentRecord c1 msg st
                     = Silent.silentRecord c2 msg st)
  /\ (forall tz parseHourly stringifyHourly messages schedule table,
        StatsHandler.run tz parseHourly stringifyHourly c1 messages schedule
          table
        = StatsHandler.run tz parseHourly stringifyHourly c2 messages
            schedule table)
  /\ (forall messages schedule st,
        SilentHandler.run c1 messages schedule st
        = SilentHandler.run c2 messages schedule st)
  /\ (forall host date,
        Travel.getSunriseInfo host (defaultLat c1) (defaultLng c1) date
        = Travel.getSunriseInfo host (defaultLat c2) (defaultLng c2) date).
Proof.
  assert (Hstats : forall tz parseHourly stringifyHourly session now table,
             Stats.statsUpdate tz parseHourly stringifyHourly c1 session now
               table
             = Stats.statsUpdate tz parseHourly stringifyHourly c2 session
                 now table).
  { intros. unfold Stats.statsUpdate.
    rewrite (same_field nightOwlStartHour (fun c => eq_refl)),
      (same_field nightOwlEndHour (fun c => eq_refl)),
      (same_field nightOwlEnabled (fun c => eq_refl)).
    reflexivity. }
  repeat split; intros.
  - apply searchQueries_same.
  - apply searchLoop_same.
  - apply replacePhoto_same.
  - apply generateLocationWithLLM_same.
  - apply travelMessage_same.
  - unfold Travel.aigcPromptFor.
    rewrite (same_field aigcPrompt (fun c => eq_refl)). reflexivity.
  - apply aigcBackground_same.
  - unfold Travel.debugBackground.
    rewrite (same_field debug (fun c => eq_refl)). reflexivity.
  - apply generateFootprintCard_same.
  - apply renderAndUpload_same.
  - apply triggerTravelSequence_same.
  - apply Hstats.
  - unfold Stats.statsMiddleware. rewrite Hstats. reflexivity.
  - unfold Silent.silentRecord.
    rewrite (same_field silentRecordEnabled (fun c => eq_refl)),
      (same_field silentRecordAutoTravel (fun c => eq_refl)).
    reflexivity.
  - unfold StatsHandler.run. f_equal. apply interleave_ext.
    + reflexivity.
    + intros m local t. unfold StatsHandler.resume. rewrite Hstats.
      reflexivity.
  - unfold SilentHandler.run. f_equal. apply interleave_ext.
    + intros m t. unfold SilentHandler.begin.
      rewrite (same_field silentRecordEnabled (fun c => eq_refl)).
      reflexivity.
    + intros m local t. unfold SilentHandler.resume.
      rewrite (same_field silentRecordAutoTravel (fun c => eq_refl)).
      reflexivity.
  - rewrite (same_field defaultLat (fun c => eq_refl)),
      (same_field defaultLng (fun c => eq_refl)).
    reflexivity.
Qed.

End DeprecatedFields.


(** ** The model at concrete inputs *)

(** The band at 05:00 in the anchor zone. *)
Lemma sunrise_band_witness :
  exists now,
    Sunrise.beijingHour (Sunrise.getSunriseTimezoneHint now) = 5.
Proof.
  destruct sunrise_band_normalized as [_ Honto].
  apply (Honto 5). lia.
Defined.



(** A reply in prose around an object with a relative photo URL: the
    lenient stage finds the object, and the URL is synthesized. *)
Lemma parsed_location_witness :
  @Resolver.parseLocationResponse Demo.runtime 2 Demo.reply_prose
  = Ok (Some Demo.parsed_prose)
  /\ exists url,
       landscapeUrl Demo.parsed_prose = JStr url
       /\ String.prefix "http" url = true.
Proof.
  assert (Hp : @Resolver.parseLocationResponse Demo.runtime 2 Demo.reply_prose
               = Ok (Some Demo.parsed_prose)) by (vm_compute; reflexivity).
  split; [exact Hp|].
  destruct (@parsed_location_defaults Demo.runtime 2 Demo.reply_prose
              Demo.parsed_prose Hp)
    as (text & fields & _ & _ & _ & _ & _ & _ & _ & _ & _ & _
        & parsedUrl & url & _ & Hurl & Hhttp & _).
  exists url. split; assumption.
Defined.

(** The failing input of the cooldown on a failed parse: the model answers
    with a refusal, 300000 ms of cooldown are configured, and afterwards
    the cooldown is still 0. *)
Lemma failed_parse_witness :
  exists w',
    @Resolver.generateLocationWithLLM Demo.runtime Demo.catalog Demo.config
      (Demo.host (Ok (Model (Ok Demo.reply_refusal))) 1000 1500) (Demo.world 0)
    = (Ok (@Resolver.getRandomStaticLocation Demo.catalog
             (Demo.host (Ok (Model (Ok Demo.reply_refusal))) 1000 1500)), w')
    /\ llmCooldownUntil w' = 0.
Proof.
  destruct (@failed_parse_leaves_cooldown Demo.runtime Demo.catalog Demo.config
              (Demo.host (Ok (Model (Ok Demo.reply_refusal))) 1000 1500)
              (Demo.world 0) 300000) as [_ Hparse].
  - repeat split; reflexivity.
  - reflexivity.
  - reflexivity.
  - apply (Hparse Demo.reply_refusal); [reflexivity|].
    vm_compute. reflexivity.
Defined.

Example failed_parse_then_next_call_attempts :
  let host := Demo.host (Ok (Model (Ok Demo.reply_refusal))) 1000 1500 in
  let w1 := snd (@Resolver.generateLocationWithLLM Demo.runtime Demo.catalog
                   Demo.config host (Demo.world 0)) in
  let host2 := Demo.host (Ok (Model (Ok Demo.reply_refusal))) 1501 1600 in
  let w2 := snd (@Resolver.generateLocationWithLLM Demo.runtime Demo.catalog
                   Demo.config host2 w1) in
  llmCooldownUntil w1 = 0
  /\ events w2 = [EvCreateChatModel "gemini-flash"; EvInvoke;
                  EvCreateChatModel "gemini-flash"; EvInvoke].
Proof. vm_compute. split; reflexivity. Qed.

(** A failure at time 1500 with 300000 ms configured: a call at 2000 is
    gated and makes no host call, a call at 301501 asks for the model. *)
Lemma cooldown_witness :
  let failing := Demo.host (Throw (HostError "unreachable")) 1000 1500 in
  exists w1,
    @Resolver.generateLocationWithLLM Demo.runtime Demo.catalog Demo.config
      failing (Demo.world 0)
    = (Ok (@Resolver.getRandomStaticLocation Demo.catalog failing), w1)
    /\ llmCooldownUntil w1 = 301500
    /\ @Resolver.generateLocationWithLLM Demo.runtime Demo.catalog Demo.config
         (Demo.host (Ok NoModel) 2000 2500) w1
       = (Ok (@Resolver.getRandomStaticLocation Demo.catalog
                (Demo.host (Ok NoModel) 2000 2500)), w1)
    /\ exists r w2 later,
         @Resolver.generateLocationWithLLM Demo.runtime Demo.catalog
           Demo.config (Demo.host (Ok NoModel) 301501 301600) w1 = (r, w2)
         /\ events w2
            = events w1 ++ EvCreateChatModel "gemini-flash" :: later.
Proof.
  intros failing.
  destruct (@cooldown_gates_generation Demo.runtime Demo.catalog Demo.config
              300000 eq_refl eq_refl eq_refl eq_refl) as [Hfail _].
  destruct (Hfail failing (Demo.world 0) (HostError "unreachable"))
    as (w1 & E & _ & Hcd & Hnext).
  - repeat split; reflexivity.
  - left. reflexivity.
  - exists w1. split; [exact E|]. split; [exact Hcd|].
    destruct (Hnext (Demo.host (Ok NoModel) 2000 2500)) as [Hgate _].
    destruct (Hnext (Demo.host (Ok NoModel) 301501 301600)) as [_ Hagain].
    split.
    + apply Hgate. rewrite Hcd. reflexivity.
    + apply Hagain; reflexivity.
Defined.

(** A reply that parses, with a country that is an array, under a
    configured key of Pexels and 300000 ms of cooldown: the parse clears
    the cooldown, the last photo query calls [replace] on the array and
    throws, and the call returns a catalog entry with the cooldown at the
    failure time plus the duration, without a search call.  The same
    happens without a key when the landmark is an object with a member
    named toString, at the log line. *)
Lemma cooldown_after_parse_counterexample :
  let host := Samples.host_reply Samples.reply_country_array in
  let run := @Resolver.generateLocationWithLLM Demo.runtime Demo.catalog
               Samples.config_photo host (Demo.world 0) in
  let host' := Samples.host_reply Samples.reply_landmark_object in
  let run' := @Resolver.generateLocationWithLLM Demo.runtime Demo.catalog
                Demo.config host' (Demo.world 0) in
  (exists location,
     @Resolver.parseLocationResponse Demo.runtime (S (stackDepth host))
       Samples.reply_country_array = Ok (Some location)
     /\ country location = JArr [JStr "Norway"]
     /\ @finishes Demo.runtime Samples.config_photo location = false)
  /\ fst run = Ok (@Resolver.getRandomStaticLocation Demo.catalog host)
  /\ llmCooldownUntil (snd run) = 301500
  /\ events (snd run) = [EvCreateChatModel "gemini-flash"; EvInvoke]
  /\ (exists location,
        @Resolver.parseLocationResponse Demo.runtime (S (stackDepth host'))
          Samples.reply_landmark_object = Ok (Some location)
        /\ @finishes Demo.runtime Demo.config location = false)
  /\ fst run' = Ok (@Resolver.getRandomStaticLocation Demo.catalog host')
  /\ llmCooldownUntil (snd run') = 301500.
Proof.
  cbn zeta.
  split; [eexists; split; [vm_compute; reflexivity|];
          split; vm_compute; reflexivity|].
  split; [vm_compute; reflexivity|].
  split; [vm_compute; reflexivity|].
  split; [vm_compute; reflexivity|].
  split; [eexists; split; vm_compute; reflexivity|].
  split; vm_compute; reflexivity.
Qed.

(** The renderer fails and no storage is there: one row, empty path. *)
Example travel_row_without_image :
  let host := Demo.host (Ok (Model (Ok Demo.reply_prose))) 1000 1500 in
  let user := {| userId := "42"; username := "pig"; avatarUrl := "" |} in
  let run := @Travel.triggerTravelSequence Demo.runtime Demo.catalog host
               Demo.config user "onebot" "g1" (Demo.world 0) in
  List.map (fun row => (log_userId row, log_country row, log_imagePath row,
                        log_timestamp row))
    (pig_travel_log (snd run))
  = [("42", JStr "Norway", JStr "", 1500)].
Proof. vm_compute. reflexivity. Qed.

(** User A has 3 trips in 2 countries, user B 5 trips in 1 country: both
    score 7, and A, whose first trip comes first, stays ahead. *)
Example leaderboard_tie :
  List.map (fun e => (Leaderboard.e_userId e, Leaderboard.e_tripCount e,
                      Leaderboard.e_countryCount e, Leaderboard.e_score e))
    (Leaderboard.getPigLeaderboard Demo.isoCode Demo.trips "g1" "onebot" 10)
  = [("A", 3, 2, 7); ("B", 5, 1, 7)].
Proof. vm_compute. reflexivity. Qed.


(** The trip of that witness: the card is rendered and uploaded. *)
Example deprecated_fields_trip :
  let host := Samples.host_reply Samples.reply_strings in
  let user := {| userId := "42"; username := "pig"; avatarUrl := "" |} in
  let run := @Travel.triggerTravelSequence Demo.runtime Demo.catalog host
               Demo.config_legacy user "onebot" "g1" (Demo.world 0) in
  List.map (fun row => (log_country row, log_imagePath row))
    (pig_travel_log (snd run))
  = [(JStr "Norway", JStr "https://storage.example/card.png")].
Proof. vm_compute. reflexivity. Qed.

(** ** The world-map patcher *)

Section WorldMapProperties.
Import WorldMap.

Lemma in_all_chars (c : ascii) : In c all_chars.
Proof.
  rewrite <- (ascii_nat_embedding c). apply in_map. apply in_seq.
  pose proof (nat_ascii_bounded c). lia.
Qed.

Lemma char_check (P : ascii -> bool) :
  forallb P all_chars = true -> forall c, P c = true.
Proof.
  intros Hall c. rewrite forallb_forall in Hall. apply Hall, in_all_chars.
Qed.

Lemma eq_ci_plain (p c : ascii) :
  plain c = true -> eq_ci p c = Ascii.eqb p c.
Proof.
  intros Hc.
  assert (Hall : forallb (fun c' =>
                   forallb (fun p' =>
                     implb (plain c') (Bool.eqb (eq_ci p' c') (Ascii.eqb p' c')))
                     all_chars) all_chars = true)
    by (vm_compute; reflexivity).
  pose proof (char_check _ (char_check _ Hall c) p) as Hp. cbn beta in Hp.
  rewrite Hc in Hp. apply Bool.eqb_prop in Hp. exact Hp.
Qed.

Lemma eq_ci_sym (a b : ascii) : eq_ci a b = eq_ci b a.
Proof. unfold eq_ci. apply Ascii.eqb_sym. Qed.

Lemma eq_cs_ci (a b : ascii) : eq_cs a b = true -> eq_ci a b = true.
Proof.
  unfold eq_cs, eq_ci. intros E. apply Ascii.eqb_eq in E. subst.
  apply Ascii.eqb_refl.
Qed.

Lemma space_not_word (c : ascii) : is_space c = true -> is_word c = false.
Proof.
  intros Hc.
  pose proof (char_check (fun c => implb (is_space c) (negb (is_word c)))
                ltac:(vm_compute; reflexivity) c) as Hp.
  cbn beta in Hp. rewrite Hc in Hp. apply negb_true_iff in Hp. exact Hp.
Qed.

Lemma space_plain (c : ascii) : is_space c = true -> plain c = true.
Proof. unfold plain. intros ->. apply orb_true_iff. left. apply orb_true_iff. left. apply orb_true_iff. left. apply orb_true_r. Qed.

Lemma quote_plain (c : ascii) : is_quote c = true -> plain c = true.
Proof. unfold plain. intros ->. reflexivity. Qed.

Lemma plain_avoids_class (c : ascii) :
  plain c = true -> Ascii.eqb c "=" = false ->
  avoids eq_ci (lit "class=") c = true.
Proof.
  intros Hc He. unfold avoids. cbn [lit list_ascii_of_string forallb].
  rewrite !(eq_ci_plain _ c Hc).
  rewrite (Ascii.eqb_sym "="%char c), He.
  pose proof (char_check
                (fun c => implb (plain c)
                            (negb (Ascii.eqb "c" c) && negb (Ascii.eqb "l" c)
                             && negb (Ascii.eqb "a" c)
                             && negb (Ascii.eqb "s" c)))
                ltac:(vm_compute; reflexivity) c) as Hp.
  cbn beta in Hp. rewrite Hc in Hp. cbn [implb] in Hp.
  repeat (apply andb_prop in Hp as [Hp ?]).
  repeat (apply andb_true_intro; split); assumption || reflexivity.
Qed.

Lemma avoids_cs_ci (pat : list ascii) (c : ascii) :
  avoids eq_ci pat c = true -> avoids eq_cs pat c = true.
Proof.
  unfold avoids. rewrite !forallb_forall. intros Hall p Hp.
  specialize (Hall p Hp). destruct (eq_cs p c) eqn:E; [|reflexivity].
  apply eq_cs_ci in E. rewrite E in Hall. discriminate.
Qed.

(** *** Literals *)

Lemma match_lit_sep eq (pat x : list ascii) (c : ascii) (y : list ascii) :
  avoids eq pat c = true ->
  match_lit eq pat (x ++ c :: y)
  = match match_lit eq pat x with
    | Some (m, r) => Some (m, r ++ c :: y)
    | None => None
    end.
Proof.
  revert x. induction pat as [|p pat IH]; intros x Hav; [reflexivity|].
  cbn [avoids forallb] in Hav. apply andb_prop in Hav as [Hp Hav].
  destruct x as [|a x]; cbn [match_lit app].
  - apply negb_true_iff in Hp. rewrite Hp. reflexivity.
  - destruct (eq p a); [|reflexivity].
    rewrite (IH x Hav). destruct (match_lit eq pat x) as [[m r]|]; reflexivity.
Qed.

Lemma match_lit_app eq (pat s m r : list ascii) :
  match_lit eq pat s = Some (m, r) ->
  s = m ++ r /\ Forall2 (fun p c => eq p c = true) pat m.
Proof.
  revert s m r. induction pat as [|p pat IH]; intros s m r Hm.
  - cbn in Hm. injection Hm as <- <-. split; [reflexivity|constructor].
  - destruct s as [|a s]; [discriminate|]. cbn [match_lit] in Hm.
    destruct (eq p a) eqn:E; [|discriminate].
    destruct (match_lit eq pat s) as [[m' r']|] eqn:Em; [|discriminate].
    injection Hm as <- <-. destruct (IH _ _ _ Em) as [-> HF].
    split; [reflexivity|]. constructor; assumption.
Qed.

Lemma match_lit_self (pat w : list ascii) :
  match_lit eq_cs pat (pat ++ w) = Some (pat, w).
Proof.
  induction pat as [|p pat IH]; [reflexivity|].
  cbn [match_lit app]. unfold eq_cs at 1. rewrite Ascii.eqb_refl, IH.
  reflexivity.
Qed.

Lemma match_lit_cs_ci (pat s : list ascii) :
  match_lit eq_ci pat s = None -> match_lit eq_cs pat s = None.
Proof.
  revert s. induction pat as [|p pat IH]; intros s; [discriminate|].
  destruct s as [|a s]; [reflexivity|]. cbn [match_lit].
  destruct (eq_cs p a) eqn:E; [|reflexivity].
  rewrite (eq_cs_ci _ _ E).
  destruct (match_lit eq_ci pat s) as [[m r]|] eqn:Em; [discriminate|].
  rewrite (IH s Em). reflexivity.
Qed.

(** *** Occurrences *)

Lemma occurs_sep eq (pat x : list ascii) (c : ascii) (y : list ascii) :
  avoids eq pat c = true ->
  occurs eq pat (x ++ c :: y) = occurs eq pat x || occurs eq pat y.
Proof.
  intros Hav. induction x as [|a x IH].
  - pose proof (match_lit_sep eq pat [] c y Hav) as E. cbn [app] in *.
    cbn [occurs]. rewrite E.
    destruct (match_lit eq pat []) as [[m r]|]; reflexivity.
  - pose proof (match_lit_sep eq pat (a :: x) c y Hav) as E.
    cbn [app] in E. cbn [app occurs]. rewrite E.
    destruct (match_lit eq pat (a :: x)) as [[m r]|]; [reflexivity|].
    exact IH.
Qed.

Lemma occurs_cs_ci (pat s : list ascii) :
  occurs eq_ci pat s = false -> occurs eq_cs pat s = false.
Proof.
  induction s as [|a s IH]; cbn [occurs].
  - destruct (match_lit eq_ci pat []) as [[m r]|] eqn:E; [discriminate|].
    rewrite (match_lit_cs_ci _ _ E). reflexivity.
  - destruct (match_lit eq_ci pat (a :: s)) as [[m r]|] eqn:E; [discriminate|].
    rewrite (match_lit_cs_ci _ _ E). exact IH.
Qed.

Lemma occurs_intro (pat u w : list ascii) :
  occurs eq_cs pat (u ++ pat ++ w) = true.
Proof.
  induction u as [|a u IH].
  - cbn [app]. destruct (pat ++ w) eqn:E; cbn [occurs];
      rewrite <- ?E, match_lit_self; reflexivity.
  - cbn [app occurs]. rewrite IH. destruct (match_lit _ _ _); reflexivity.
Qed.


(** *** The scan of one tag *)

Lemma until_gt_app (r rest : list ascii) :
  forallb no_angle r = true -> until_gt (r ++ ">"%char :: rest) = Some (r, rest).
Proof.
  induction r as [|a r IH]; intros Hr; [reflexivity|].
  cbn [forallb] in Hr. apply andb_prop in Hr as [Ha Hr].
  cbn [app until_gt]. rewrite (IH Hr).
  unfold no_angle in Ha. apply andb_prop in Ha as [_ Ha].
  apply negb_true_iff in Ha. rewrite Ha. reflexivity.
Qed.

Lemma until_quote_app (cls : list ascii) (q : ascii) (rest : list ascii) :
  forallb class_char cls = true -> is_quote q = true ->
  until_quote (cls ++ q :: rest) = Some (cls, q, rest).
Proof.
  intros Hcls Hq. induction cls as [|a cls IH].
  - cbn [app until_quote]. rewrite Hq. reflexivity.
  - cbn [forallb] in Hcls. apply andb_prop in Hcls as [Ha Hcls].
    cbn [app until_quote]. rewrite (IH Hcls).
    unfold class_char in Ha. apply andb_prop in Ha as [Ha _].
    apply andb_prop in Ha as [Ha _]. apply negb_true_iff in Ha.
    rewrite Ha. reflexivity.
Qed.

Lemma forallb_app_r (P : ascii -> bool) (m r : list ascii) :
  forallb P (m ++ r) = true -> forallb P r = true.
Proof. rewrite forallb_app. intros E. apply andb_prop in E. tauto. Qed.

Lemma attr_here_sep (attr value : list ascii) (prev : ascii)
    (u : list ascii) (c : ascii) (y : list ascii) :
  avoids eq_ci (attr ++ lit "=") c = true ->
  avoids eq_ci value c = true ->
  is_quote c = false ->
  attr_here attr value prev (u ++ c :: y)
  = match attr_here attr value prev u with
    | Some (m, r) => Some (m, r ++ c :: y)
    | None => None
    end.
Proof.
  intros Ha Hv Hq. unfold attr_here.
  destruct (is_word prev); [reflexivity|].
  rewrite (match_lit_sep _ _ _ _ _ Ha).
  destruct (match_lit eq_ci (attr ++ lit "=") u) as [[m1 r1]|]; [|reflexivity].
  destruct r1 as [|q1 s2]; cbn [app]; [rewrite Hq; reflexivity|].
  destruct (is_quote q1); [|reflexivity].
  rewrite (match_lit_sep _ _ _ _ _ Hv).
  destruct (match_lit eq_ci value s2) as [[m2 r2]|]; [|reflexivity].
  destruct r2 as [|q2 s4]; cbn [app]; [rewrite Hq; reflexivity|].
  destruct (is_quote q2); reflexivity.
Qed.

Lemma attr_here_app (attr value : list ascii) (prev : ascii)
    (s m r : list ascii) :
  attr_here attr value prev s = Some (m, r) -> s = m ++ r.
Proof.
  unfold attr_here. destruct (is_word prev); [discriminate|].
  destruct (match_lit eq_ci (attr ++ lit "=") s) as [[m1 r1]|] eqn:E1;
    [|discriminate].
  destruct r1 as [|q1 s2]; [discriminate|].
  destruct (is_quote q1); [|discriminate].
  destruct (match_lit eq_ci value s2) as [[m2 r2]|] eqn:E2; [|discriminate].
  destruct r2 as [|q2 s4]; [discriminate|].
  destruct (is_quote q2); [|discriminate].
  intros E. injection E as <- <-.
  apply match_lit_app in E1 as [-> _]. apply match_lit_app in E2 as [-> _].
  rewrite <- !app_assoc. cbn [app]. rewrite <- !app_assoc. reflexivity.
Qed.

Lemma attr_to_gt_tag (attr value : list ascii) (prev : ascii)
    (u rest : list ascii) :
  inside_tags attr value -> forallb no_angle u = true ->
  attr_to_gt attr value prev (u ++ ">"%char :: rest)
  = match attr_here attr value prev u with
    | Some _ => Some (u, rest)
    | None => None
    end.
Proof.
  intros [Ha Hv] Hu. unfold attr_to_gt.
  rewrite (attr_here_sep _ _ _ _ _ _ Ha Hv eq_refl).
  destruct (attr_here attr value prev u) as [[m r]|] eqn:E; [|reflexivity].
  apply attr_here_app in E. subst u.
  rewrite (until_gt_app r rest (forallb_app_r _ _ _ Hu)). reflexivity.
Qed.

Lemma scan_tag_tag (attr value : list ascii) (prev : ascii)
    (u rest : list ascii) :
  inside_tags attr value -> forallb no_angle u = true ->
  scan_tag attr value prev (u ++ ">"%char :: rest)
  = if has_attr attr value prev u then Some (u, rest) else None.
Proof.
  intros Hin. revert prev. induction u as [|a u IH]; intros prev Hu.
  - pose proof (attr_to_gt_tag attr value prev [] rest Hin eq_refl) as E.
    cbn [app] in E. cbn [app scan_tag has_attr].
    change (Ascii.eqb ">" ">") with true. cbn iota. rewrite E.
    destruct (attr_here attr value prev []); reflexivity.
  - pose proof (attr_to_gt_tag attr value prev (a :: u) rest Hin Hu) as E.
    cbn [app] in E. cbn [forallb] in Hu. apply andb_prop in Hu as [Ha Hu].
    cbn [app scan_tag has_attr]. rewrite (IH a Hu), E.
    unfold no_angle in Ha. apply andb_prop in Ha as [_ Ha].
    apply negb_true_iff in Ha. rewrite Ha.
    destruct (has_attr attr value a u), (attr_here attr value prev (a :: u));
      reflexivity.
Qed.

(** *** The replacement, tag by tag *)

Lemma replace_tags_skip attr value callback (x : list ascii) (c : ascii)
    (rest : list ascii) :
  replace_tags attr value callback (S (length x)) (x ++ c :: rest)
  = replace_tags attr value callback 0 rest.
Proof.
  induction x as [|a x IH]; [reflexivity|]. cbn [app length replace_tags].
  exact IH.
Qed.

Lemma replace_tags_copy attr value callback (x rest : list ascii) :
  forallb (fun c => negb (Ascii.eqb c "<")) x = true ->
  replace_tags attr value callback 0 (x ++ rest)
  = x ++ replace_tags attr value callback 0 rest.
Proof.
  induction x as [|a x IH]; intros Hx; [reflexivity|].
  cbn [forallb] in Hx. apply andb_prop in Hx as [Ha Hx].
  apply negb_true_iff in Ha. cbn [app replace_tags]. rewrite Ha, (IH Hx).
  reflexivity.
Qed.

Lemma no_angle_no_lt (x : list ascii) :
  forallb no_angle x = true ->
  forallb (fun c => negb (Ascii.eqb c "<")) x = true.
Proof.
  rewrite !forallb_forall. intros Hall c Hc. specialize (Hall c Hc).
  unfold no_angle in Hall. apply andb_prop in Hall. tauto.
Qed.

Lemma replace_tags_render attr value callback change (doc : list chunk) :
  inside_tags attr value ->
  (forall body, callback ("<"%char :: body) = "<"%char :: change body ++ [">"%char]) ->
  Forall (fun k => well_formed k = true) doc ->
  replace_tags attr value callback 0 (render doc)
  = render (List.map (onTags (patchTag attr value change)) doc).
Proof.
  intros Hin Hcb Hdoc. induction Hdoc as [|k doc Hk _ IH]; [reflexivity|].
  unfold render in *. cbn [flat_map List.map].
  destruct k as [t|body]; cbn [render_chunk onTags well_formed] in *.
  - rewrite (replace_tags_copy _ _ _ _ _ Hk), IH. reflexivity.
  - cbn [app replace_tags]. change (Ascii.eqb "<" "<") with true. cbn iota.
    rewrite <- app_assoc. cbn [app].
    rewrite (scan_tag_tag _ _ _ _ _ Hin Hk). unfold patchTag.
    destruct (has_attr attr value "<" body).
    + rewrite Hcb, replace_tags_skip, IH. cbn [app].
      rewrite <- !app_assoc. reflexivity.
    + pose proof (replace_tags_copy attr value callback (body ++ [">"%char])
                    (flat_map render_chunk doc)) as E.
      rewrite <- app_assoc in E. cbn [app] in E. rewrite E, IH.
      * rewrite <- !app_assoc. reflexivity.
      * rewrite forallb_app. rewrite (no_angle_no_lt _ Hk). reflexivity.
Qed.

Lemma find_class_tag (body : list ascii) :
  find_class None ("<"%char :: body)
  = match find_class (Some "<"%char) body with
    | Some (before, m, rest) => Some ("<"%char :: before, m, rest)
    | None => None
    end.
Proof. reflexivity. Qed.

Lemma addClassToElement_tag (className body : list ascii) :
  addClassToElement ("<"%char :: body) (lit ">") className
  = "<"%char :: addClass className body ++ [">"%char].
Proof.
  unfold addClassToElement, addClass. rewrite find_class_tag.
  destruct (find_class (Some "<"%char) body) as [[[before [[q1 cls] q2]] rest]|].
  - cbn [app]. rewrite <- !app_assoc. reflexivity.
  - cbn [app]. rewrite <- !app_assoc. cbn [app]. rewrite <- !app_assoc.
    reflexivity.
Qed.

Lemma mergeClassOfElement_tag (visitClass body : list ascii) :
  mergeClassOfElement ("<"%char :: body) (lit ">") visitClass
  = "<"%char :: mergeClass visitClass body ++ [">"%char].
Proof.
  unfold mergeClassOfElement, mergeClass. rewrite find_class_tag.
  destruct (find_class (Some "<"%char) body) as [[[before [[q1 cls] q2]] rest]|].
  - cbn [app]. rewrite <- !app_assoc. reflexivity.
  - reflexivity.
Qed.


(** *** Tags without a class attribute, and with one *)

Lemma match_lit_needs eq (pat s m r : list ascii) (p : ascii) :
  In p pat -> match_lit eq pat s = Some (m, r) ->
  exists c, In c s /\ eq p c = true.
Proof.
  revert s m r. induction pat as [|p0 pat IH]; intros s m r Hp Hm; [easy|].
  destruct s as [|a s]; [discriminate|]. cbn [match_lit] in Hm.
  destruct (eq p0 a) eqn:E; [|discriminate].
  destruct (match_lit eq pat s) as [[m' r']|] eqn:Em; [|discriminate].
  destruct Hp as [->|Hp].
  - exists a. split; [left; reflexivity|exact E].
  - destruct (IH _ _ _ Hp Em) as (c & Hc & Hpc).
    exists c. split; [right; exact Hc|exact Hpc].
Qed.

Lemma occurs_needs eq (pat s : list ascii) (p : ascii) :
  In p pat -> occurs eq pat s = true -> exists c, In c s /\ eq p c = true.
Proof.
  intros Hp. induction s as [|a s IH]; cbn [occurs].
  - destruct (match_lit eq pat []) as [[m r]|] eqn:E; [|discriminate].
    intros _. exact (match_lit_needs _ _ _ _ _ _ Hp E).
  - destruct (match_lit eq pat (a :: s)) as [[m r]|] eqn:E.
    + intros _. exact (match_lit_needs _ _ _ _ _ _ Hp E).
    + intros Ho. destruct (IH Ho) as (c & Hc & Hpc).
      exists c. split; [right; exact Hc|exact Hpc].
Qed.

Lemma occurs_class_char (cls : list ascii) :
  forallb class_char cls = true -> occurs eq_ci (lit "class=") cls = false.
Proof.
  intros Hcls. destruct (occurs eq_ci (lit "class=") cls) eqn:E; [|reflexivity].
  destruct (occurs_needs eq_ci (lit "class=") cls "="%char) as (c & Hc & Hpc);
    [cbn; tauto|exact E|].
  rewrite forallb_forall in Hcls. specialize (Hcls c Hc).
  rewrite eq_ci_sym, (eq_ci_plain c "=" eq_refl) in Hpc.
  unfold class_char in Hcls. rewrite Hpc in Hcls. rewrite andb_false_r in Hcls.
  discriminate.
Qed.

Lemma match_lit_ci_self (pat w : list ascii) :
  match_lit eq_ci pat (pat ++ w) = Some (pat, w).
Proof.
  induction pat as [|p pat IH]; [reflexivity|].
  cbn [match_lit app]. unfold eq_ci at 1. rewrite Ascii.eqb_refl, IH.
  reflexivity.
Qed.

Lemma occurs_head eq (pat s : list ascii) :
  occurs eq pat s = false -> match_lit eq pat s = None.
Proof.
  destruct s; cbn [occurs]; destruct (match_lit eq pat _); easy.
Qed.

Lemma occurs_tail eq (pat : list ascii) (a : ascii) (s : list ascii) :
  occurs eq pat (a :: s) = false -> occurs eq pat s = false.
Proof. cbn [occurs]. destruct (match_lit eq pat _); easy. Qed.

Lemma class_here_none (prev : option ascii) (s : list ascii) :
  match_lit eq_cs (lit "class=") s = None -> class_here prev s = None.
Proof.
  intros E. unfold class_here. rewrite E.
  destruct (match prev with Some p => is_word p | None => false end);
    reflexivity.
Qed.

Lemma find_class_none (prev : option ascii) (body : list ascii) :
  occurs eq_ci (lit "class=") body = false -> find_class prev body = None.
Proof.
  revert prev. induction body as [|a body IH]; intros prev Ho.
  - cbn [find_class]. rewrite class_here_none; reflexivity.
  - cbn [find_class].
    rewrite class_here_none
      by (apply occurs_head, occurs_cs_ci; exact Ho).
    rewrite (IH (Some a) (occurs_tail _ _ _ _ Ho)). reflexivity.
Qed.

Lemma space_avoids_class (sp : ascii) :
  is_space sp = true -> avoids eq_ci (lit "class=") sp = true.
Proof.
  intros Hsp. apply plain_avoids_class; [apply space_plain; exact Hsp|].
  pose proof (char_check (fun c => implb (is_space c) (negb (Ascii.eqb c "=")))
                ltac:(vm_compute; reflexivity) sp) as Hp.
  cbn beta in Hp. rewrite Hsp in Hp. apply negb_true_iff in Hp. exact Hp.
Qed.

Lemma quote_avoids_class (q : ascii) :
  is_quote q = true -> avoids eq_ci (lit "class=") q = true.
Proof.
  intros Hq. apply plain_avoids_class; [apply quote_plain; exact Hq|].
  unfold is_quote in Hq. apply orb_prop in Hq as [Hq|Hq];
    apply Ascii.eqb_eq in Hq; subst; reflexivity.
Qed.

Lemma find_class_skip (prev : option ascii) (x : list ascii) (sp : ascii)
    (y : list ascii) :
  occurs eq_ci (lit "class=") x = false -> is_space sp = true ->
  find_class prev (x ++ sp :: y)
  = match find_class (Some sp) y with
    | Some (before, m, rest) => Some (x ++ sp :: before, m, rest)
    | None => None
    end.
Proof.
  intros Ho Hsp.
  pose proof (avoids_cs_ci _ _ (space_avoids_class sp Hsp)) as Hav.
  revert prev Ho. induction x as [|a x IH]; intros prev Ho.
  - pose proof (match_lit_sep eq_cs (lit "class=") [] sp y Hav) as E.
    cbn [app] in E. cbn [app find_class].
    rewrite (class_here_none prev (sp :: y) E). reflexivity.
  - pose proof (match_lit_sep eq_cs (lit "class=") (a :: x) sp y Hav) as E.
    rewrite (occurs_head _ _ _ (occurs_cs_ci _ _ Ho)) in E. cbn [app] in E.
    cbn [app find_class]. rewrite (class_here_none prev _ E).
    rewrite (IH (Some a) (occurs_tail _ _ _ _ Ho)).
    destruct (find_class (Some sp) y) as [[[before m] rest]|]; reflexivity.
Qed.

Lemma find_class_form (prev : option ascii) before sp q1 cls q2 rest :
  class_form before sp q1 cls q2 rest ->
  find_class prev (before ++ sp :: lit "class=" ++ q1 :: cls ++ q2 :: rest)
  = Some (before ++ [sp], (q1, cls, q2), rest).
Proof.
  intros F. rewrite (find_class_skip _ _ _ _ (form_before_class _ _ _ _ _ _ F)
                       (form_space _ _ _ _ _ _ F)).
  assert (E : class_here (Some sp) (lit "class=" ++ q1 :: cls ++ q2 :: rest)
              = Some (q1, cls, q2, rest)).
  { unfold class_here.
    rewrite (space_not_word sp (form_space _ _ _ _ _ _ F)), match_lit_self.
    rewrite (form_open _ _ _ _ _ _ F).
    rewrite (until_quote_app _ _ _ (form_value _ _ _ _ _ _ F)
               (form_close _ _ _ _ _ _ F)).
    reflexivity. }
  destruct (lit "class=" ++ q1 :: cls ++ q2 :: rest) eqn:El;
    cbn [find_class]; rewrite E; reflexivity.
Qed.

Lemma attr_here_none (attr value : list ascii) (prev : ascii)
    (s : list ascii) :
  match_lit eq_ci (attr ++ lit "=") s = None ->
  attr_here attr value prev s = None.
Proof.
  intros E. unfold attr_here. rewrite E. destruct (is_word prev); reflexivity.
Qed.

Lemma has_attr_none (attr value : list ascii) (prev : ascii)
    (body : list ascii) :
  occurs eq_ci (attr ++ lit "=") body = false ->
  has_attr attr value prev body = false.
Proof.
  revert prev. induction body as [|a body IH]; intros prev Ho.
  - cbn [has_attr]. rewrite (attr_here_none _ _ _ _ (occurs_head _ _ _ Ho)).
    reflexivity.
  - cbn [has_attr]. rewrite (attr_here_none _ _ _ _ (occurs_head _ _ _ Ho)).
    apply IH. exact (occurs_tail _ _ _ _ Ho).
Qed.

Lemma has_attr_skip (attr value : list ascii) (prev : ascii)
    (x : list ascii) (sp : ascii) (y : list ascii) :
  occurs eq_ci (attr ++ lit "=") x = false ->
  avoids eq_ci (attr ++ lit "=") sp = true ->
  has_attr attr value prev (x ++ sp :: y) = has_attr attr value sp y.
Proof.
  intros Ho Hav. revert prev Ho. induction x as [|a x IH]; intros prev Ho.
  - pose proof (match_lit_sep eq_ci (attr ++ lit "=") [] sp y Hav) as E.
    rewrite (occurs_head _ _ _ Ho) in E. cbn [app] in E.
    cbn [app has_attr]. rewrite (attr_here_none _ _ _ _ E). reflexivity.
  - pose proof (match_lit_sep eq_ci (attr ++ lit "=") (a :: x) sp y Hav) as E.
    rewrite (occurs_head _ _ _ Ho) in E. cbn [app] in E.
    cbn [app has_attr]. rewrite (attr_here_none _ _ _ _ E).
    apply IH. exact (occurs_tail _ _ _ _ Ho).
Qed.

Lemma name_avoids_quote (name : list ascii) (q : ascii) :
  forallb name_char name = true -> is_quote q = true ->
  avoids eq_ci name q = true.
Proof.
  intros Hn Hq. unfold avoids. rewrite forallb_forall in *. intros p Hp.
  specialize (Hn p Hp). rewrite (eq_ci_plain p q (quote_plain q Hq)).
  unfold name_char in Hn. apply andb_prop in Hn as [Hn _].
  destruct (Ascii.eqb p q) eqn:E; [|reflexivity].
  apply Ascii.eqb_eq in E. subst. rewrite Hq in Hn. discriminate.
Qed.

Lemma name_inside_tags (attr name : list ascii) :
  avoids eq_ci (attr ++ lit "=") ">" = true ->
  forallb name_char name = true -> inside_tags attr name.
Proof.
  intros Ha Hn. split; [exact Ha|].
  unfold avoids. rewrite forallb_forall in *. intros p Hp.
  specialize (Hn p Hp). rewrite (eq_ci_plain p ">" eq_refl).
  unfold name_char, no_angle in Hn. apply andb_prop in Hn as [_ Hn].
  apply andb_prop in Hn as [_ Hn]. exact Hn.
Qed.

(** In a tag with one class attribute, the third pattern of a country
    matches exactly when the class is the name of the country. *)
Lemma has_class_form (name : list ascii) (prev : ascii)
    before sp q1 cls q2 rest :
  class_form before sp q1 cls q2 rest ->
  forallb name_char name = true ->
  has_attr (lit "class") name prev
    (before ++ sp :: lit "class=" ++ q1 :: cls ++ q2 :: rest)
  = ci_equal name cls.
Proof.
  intros F Hn.
  rewrite (has_attr_skip (lit "class") name prev before sp _
             (form_before_class _ _ _ _ _ _ F)
             (space_avoids_class sp (form_space _ _ _ _ _ _ F))).
  assert (Htail : has_attr (lit "class") name "c"
                    (lit "lass=" ++ q1 :: cls ++ q2 :: rest) = false).
  { apply has_attr_none. change (lit "class" ++ lit "=") with (lit "class=").
    rewrite (occurs_sep _ _ _ _ _
               (quote_avoids_class q1 (form_open _ _ _ _ _ _ F))).
    rewrite (occurs_sep _ _ _ _ _
               (quote_avoids_class q2 (form_close _ _ _ _ _ _ F))).
    rewrite (occurs_class_char cls (form_value _ _ _ _ _ _ F)).
    rewrite (form_rest_class _ _ _ _ _ _ F). reflexivity. }
  change (lit "class=" ++ q1 :: cls ++ q2 :: rest)
    with ("c"%char :: lit "lass=" ++ q1 :: cls ++ q2 :: rest).
  cbn [has_attr]. rewrite Htail.
  change ("c"%char :: lit "lass=" ++ q1 :: cls ++ q2 :: rest)
    with (lit "class=" ++ q1 :: cls ++ q2 :: rest).
  unfold attr_here. rewrite (space_not_word sp (form_space _ _ _ _ _ _ F)).
  change (lit "class" ++ lit "=") with (lit "class=").
  rewrite match_lit_ci_self, (form_open _ _ _ _ _ _ F).
  rewrite (match_lit_sep eq_ci name cls q2 rest
             (name_avoids_quote name q2 Hn (form_close _ _ _ _ _ _ F))).
  unfold ci_equal.
  destruct (match_lit eq_ci name cls) as [[m r]|] eqn:E; [|reflexivity].
  destruct r as [|c r]; cbn [app].
  - rewrite (form_close _ _ _ _ _ _ F). reflexivity.
  - apply match_lit_app in E as [E _].
    pose proof (form_value _ _ _ _ _ _ F) as Hv. rewrite E in Hv.
    apply forallb_app_r in Hv. cbn [forallb] in Hv.
    apply andb_prop in Hv as [Hv _]. unfold class_char in Hv.
    apply andb_prop in Hv as [Hv _]. apply andb_prop in Hv as [Hv _].
    apply negb_true_iff in Hv. rewrite Hv. reflexivity.
Qed.


(** *** Merged class values *)

Ltac list_norm := repeat first [rewrite <- app_assoc | progress cbn [app]].

Lemma trim_start_chars (P : ascii -> bool) (s : list ascii) :
  forallb P s = true -> forallb P (trim_start s) = true.
Proof.
  induction s as [|a s IH]; [easy|]. intros Hs. cbn [trim_start].
  destruct (is_space a); [|exact Hs].
  cbn [forallb] in Hs. apply andb_prop in Hs as [_ Hs]. exact (IH Hs).
Qed.

Lemma trim_end_chars (P : ascii -> bool) (s : list ascii) :
  forallb P s = true -> forallb P (trim_end s) = true.
Proof.
  induction s as [|a s IH]; [easy|]. intros Hs. cbn [forallb] in Hs.
  apply andb_prop in Hs as [Ha Hs]. specialize (IH Hs). cbn [trim_end].
  destruct (trim_end s) as [|b t].
  - destruct (is_space a); [reflexivity|]. cbn [forallb]. rewrite Ha.
    reflexivity.
  - cbn [forallb] in *. rewrite Ha. exact IH.
Qed.

Lemma trim_chars (P : ascii -> bool) (s : list ascii) :
  forallb P s = true -> forallb P (trim s) = true.
Proof. intros Hs. apply trim_end_chars, trim_start_chars, Hs. Qed.

Lemma trim_end_cons (c : ascii) (s : list ascii) :
  is_space c = false -> trim_end (c :: s) = c :: trim_end s.
Proof. intros Hc. cbn [trim_end]. rewrite Hc. destruct (trim_end s); reflexivity. Qed.

Lemma trim_end_app (a b : list ascii) :
  trim_end b <> [] -> trim_end (a ++ b) = a ++ trim_end b.
Proof.
  intros Hb. induction a as [|c a IH]; [reflexivity|].
  cbn [app trim_end]. rewrite IH.
  destruct (a ++ trim_end b) eqn:E; [|reflexivity].
  apply app_eq_nil in E as [_ E]. contradiction.
Qed.

Lemma trim_start_app (x : list ascii) (c : ascii) (w : list ascii) :
  is_space c = false ->
  exists u, trim_start (x ++ " "%char :: c :: w) = u ++ c :: w.
Proof.
  intros Hc. induction x as [|a x IH].
  - exists []. cbn [app trim_start]. change (is_space " ") with true.
    cbn iota. rewrite Hc. reflexivity.
  - cbn [app trim_start]. destruct (is_space a); [exact IH|].
    exists (a :: x ++ [" "%char]). list_norm. reflexivity.
Qed.

Lemma trim_merged (cls tier : list ascii) :
  exists u,
    trim (cls ++ lit " " ++ lit "visited " ++ tier)
    = u ++ lit "visited" ++ trim_end (" "%char :: tier).
Proof.
  change (lit " " ++ lit "visited " ++ tier)
    with (" "%char :: "v"%char :: lit "isited" ++ " "%char :: tier).
  destruct (trim_start_app cls "v" (lit "isited" ++ " "%char :: tier) eq_refl)
    as [u Hu].
  exists u. unfold trim. rewrite Hu.
  change ("v"%char :: lit "isited" ++ " "%char :: tier)
    with (lit "visited" ++ " "%char :: tier).
  assert (E : trim_end (lit "visited" ++ " "%char :: tier)
              = lit "visited" ++ trim_end (" "%char :: tier)).
  { cbn [lit list_ascii_of_string app].
    do 7 (rewrite trim_end_cons by reflexivity). reflexivity. }
  rewrite trim_end_app; rewrite E; [reflexivity|discriminate].
Qed.

Lemma merged_marks (cls tier : list ascii) :
  includes (lit "visited") (trim (cls ++ lit " " ++ lit "visited " ++ tier))
  = true.
Proof.
  destruct (trim_merged cls tier) as [u ->]. apply occurs_intro.
Qed.

Lemma visit_class_chars (count : Z) :
  forallb class_char (lit " " ++ lit "visited " ++ getVisitClass count) = true.
Proof.
  unfold getVisitClass.
  destruct (count >=? 5), (count >=? 3), (count >=? 1); reflexivity.
Qed.

Lemma visit_class_marks (count : Z) :
  includes (lit "visited") (lit "visited " ++ getVisitClass count) = true.
Proof.
  unfold getVisitClass.
  destruct (count >=? 5), (count >=? 3), (count >=? 1); reflexivity.
Qed.

Lemma merged_chars (cls : list ascii) (count : Z) :
  forallb class_char cls = true ->
  forallb class_char
    (trim (cls ++ lit " " ++ lit "visited " ++ getVisitClass count)) = true.
Proof.
  intros Hcls. apply trim_chars. rewrite forallb_app, Hcls.
  apply visit_class_chars.
Qed.

(** *** The two callbacks on regular tags *)

Lemma class_form_merged before sp q1 cls q2 rest (count : Z) :
  class_form before sp q1 cls q2 rest ->
  class_form before sp dq
    (trim (cls ++ lit " " ++ lit "visited " ++ getVisitClass count)) dq rest.
Proof.
  intros [F1 F2 F3 F4 F5 F6 F7 F8].
  split; try assumption; try reflexivity. apply merged_chars, F5.
Qed.

Lemma class_form_appended (body : list ascii) (count : Z) :
  forallb no_angle body = true ->
  occurs eq_ci (lit "class=") body = false ->
  class_form body " " dq (lit "visited " ++ getVisitClass count) dq [].
Proof.
  intros Hb Ho. split; try assumption; try reflexivity.
  pose proof (visit_class_chars count) as Hv.
  change (lit " " ++ lit "visited " ++ getVisitClass count)
    with (" "%char :: lit "visited " ++ getVisitClass count) in Hv.
  cbn [forallb] in Hv. apply andb_prop in Hv as [_ Hv]. exact Hv.
Qed.

Lemma regular_no_angle (body : list ascii) :
  regular_body body -> forallb no_angle body = true.
Proof.
  intros [b Hb _|before sp q1 cls q2 rest [F1 F2 F3 F4 F5 F6 F7 F8]];
    [exact Hb|].
  assert (Hsp : no_angle sp = true).
  { pose proof (char_check (fun c => implb (is_space c) (no_angle c))
                  ltac:(vm_compute; reflexivity) sp) as Hp.
    cbn beta in Hp. rewrite F3 in Hp. exact Hp. }
  assert (Hq : forall q, is_quote q = true -> no_angle q = true).
  { intros q Hq. unfold is_quote in Hq. apply orb_prop in Hq as [Hq|Hq];
      apply Ascii.eqb_eq in Hq; subst; reflexivity. }
  assert (Hcls : forallb no_angle cls = true).
  { rewrite forallb_forall in *. intros c Hc. specialize (F5 c Hc).
    unfold class_char in F5. apply andb_prop in F5. tauto. }
  rewrite forallb_app. cbn [forallb]. rewrite forallb_app. cbn [forallb].
  rewrite forallb_app. cbn [forallb].
  rewrite F1, Hsp, (Hq q1 F4), (Hq q2 F6), Hcls, F7. reflexivity.
Qed.

Lemma marked_regular (body : list ascii) :
  marked_body body -> regular_body body.
Proof.
  intros [before sp q1 cls q2 rest F _]. apply regular_with_class. exact F.
Qed.

Lemma addClass_form (className : list ascii) before sp q1 cls q2 rest :
  class_form before sp q1 cls q2 rest ->
  addClass className
    (before ++ sp :: lit "class=" ++ q1 :: cls ++ q2 :: rest)
  = if includes (lit "visited") cls
    then before ++ sp :: lit "class=" ++ q1 :: cls ++ q2 :: rest
    else before ++ sp :: lit "class=" ++ dq
           :: trim (cls ++ lit " " ++ className) ++ dq :: rest.
Proof.
  intros F. unfold addClass. rewrite (find_class_form _ _ _ _ _ _ _ F).
  destruct (includes (lit "visited") cls); unfold mergedClass; list_norm;
    reflexivity.
Qed.

Lemma mergeClass_form (visitClass : list ascii) before sp q1 cls q2 rest :
  class_form before sp q1 cls q2 rest ->
  mergeClass visitClass
    (before ++ sp :: lit "class=" ++ q1 :: cls ++ q2 :: rest)
  = before ++ sp :: lit "class=" ++ dq
      :: trim (cls ++ lit " " ++ visitClass) ++ dq :: rest.
Proof.
  intros F. unfold mergeClass. rewrite (find_class_form _ _ _ _ _ _ _ F).
  unfold mergedClass. list_norm. reflexivity.
Qed.

Lemma addClass_plain (className body : list ascii) :
  occurs eq_ci (lit "class=") body = false ->
  addClass className body
  = body ++ " "%char :: lit "class=" ++ dq :: className ++ [dq].
Proof.
  intros Ho. unfold addClass. rewrite (find_class_none _ _ Ho). reflexivity.
Qed.

Lemma settles_regular (body body' : list ascii) :
  regular_body body -> settles body body' -> regular_body body'.
Proof. intros Hr [->|Hm]; [exact Hr|exact (marked_regular _ Hm)]. Qed.

Lemma addClass_settles (count : Z) (body : list ascii) :
  regular_body body ->
  settles body (addClass (lit "visited " ++ getVisitClass count) body).
Proof.
  intros [b Hb Ho|before sp q1 cls q2 rest F].
  - right. rewrite (addClass_plain _ _ Ho).
    apply marked_class;
      [apply class_form_appended; assumption|apply visit_class_marks].
  - rewrite (addClass_form _ _ _ _ _ _ _ F).
    destruct (includes (lit "visited") cls); [left; reflexivity|].
    right. apply marked_class;
      [apply (class_form_merged _ _ _ _ _ _ count F)|apply merged_marks].
Qed.

Lemma addClass_marked (className body : list ascii) :
  marked_body body -> addClass className body = body.
Proof.
  intros [before sp q1 cls q2 rest F Hv].
  rewrite (addClass_form _ _ _ _ _ _ _ F), Hv. reflexivity.
Qed.


(** *** A class that is the name of a regular country is not marked *)

Lemma match_transfer (pat name cls : list ascii) :
  Forall2 (fun p c => eq_ci p c = true) name cls ->
  match_lit eq_cs pat cls <> None -> match_lit eq_ci pat name <> None.
Proof.
  revert name cls. induction pat as [|p pat IH]; intros name cls HF;
    [discriminate|].
  destruct HF as [|n c name cls Hnc HF]; [easy|]. cbn [match_lit].
  destruct (eq_cs p c) eqn:E; [|easy].
  apply Ascii.eqb_eq in E. subst c. rewrite eq_ci_sym, Hnc.
  specialize (IH name cls HF).
  destruct (match_lit eq_cs pat cls) as [[m r]|]; [|easy].
  destruct (match_lit eq_ci pat name) as [[m' r']|]; [discriminate|].
  intros _. exfalso. apply IH; easy.
Qed.

Lemma occurs_transfer (pat name cls : list ascii) :
  Forall2 (fun p c => eq_ci p c = true) name cls ->
  occurs eq_cs pat cls = true -> occurs eq_ci pat name = true.
Proof.
  intros HF. pose proof HF as HF'.
  induction HF as [|n c name cls Hnc HF IH]; cbn [occurs].
  - pose proof (match_transfer pat [] [] HF') as Ht.
    destruct (match_lit eq_cs pat []); [|discriminate].
    destruct (match_lit eq_ci pat []); [reflexivity|].
    exfalso. apply Ht; easy.
  - pose proof (match_transfer pat _ _ HF') as Ht.
    destruct (match_lit eq_cs pat (c :: cls)).
    + destruct (match_lit eq_ci pat (n :: name)); [reflexivity|].
      exfalso. apply Ht; easy.
    + destruct (match_lit eq_ci pat (n :: name)); [reflexivity|].
      apply IH. exact HF.
Qed.

Lemma ci_equal_unmarked (name cls : list ascii) :
  occurs eq_ci (lit "visited") name = false ->
  includes (lit "visited") cls = true ->
  ci_equal name cls = false.
Proof.
  intros Hn Hc. unfold ci_equal.
  destruct (match_lit eq_ci name cls) as [[m r]|] eqn:E; [|reflexivity].
  destruct r; [|reflexivity].
  apply match_lit_app in E as [E HF]. rewrite app_nil_r in E. subst m.
  rewrite (occurs_transfer _ _ _ HF Hc) in Hn. discriminate.
Qed.

(** *** One pattern, one country, all countries, on one tag *)

Lemma patch_add_settles attr value (count : Z) (body : list ascii) :
  regular_body body ->
  settles body
    (patchTag attr value (addClass (lit "visited " ++ getVisitClass count))
       body).
Proof.
  intros Hr. unfold patchTag. destruct (has_attr attr value "<" body);
    [apply addClass_settles; exact Hr|left; reflexivity].
Qed.

Lemma patch_add_marked attr value (className body : list ascii) :
  marked_body body -> patchTag attr value (addClass className) body = body.
Proof.
  intros Hm. unfold patchTag. destruct (has_attr attr value "<" body);
    [apply addClass_marked; exact Hm|reflexivity].
Qed.

Lemma patch_merge_settles (name : list ascii) (count : Z)
    (body : list ascii) :
  forallb name_char name = true -> regular_body body ->
  settles body
    (patchTag (lit "class") name
       (mergeClass (lit "visited " ++ getVisitClass count)) body).
Proof.
  intros Hn [b Hb Ho|before sp q1 cls q2 rest F]; unfold patchTag.
  - rewrite (has_attr_none (lit "class") name "<" b Ho). left. reflexivity.
  - rewrite (has_class_form name "<" _ _ _ _ _ _ F Hn).
    destruct (ci_equal name cls); [|left; reflexivity].
    right. rewrite (mergeClass_form _ _ _ _ _ _ _ F).
    apply marked_class;
      [apply (class_form_merged _ _ _ _ _ _ count F)|apply merged_marks].
Qed.

Lemma patch_merge_marked (name visitClass body : list ascii) :
  forallb name_char name = true ->
  occurs eq_ci (lit "visited") name = false ->
  marked_body body ->
  patchTag (lit "class") name (mergeClass visitClass) body = body.
Proof.
  intros Hn Hv [before sp q1 cls q2 rest F Hc]. unfold patchTag.
  rewrite (has_class_form name "<" _ _ _ _ _ _ F Hn).
  rewrite (ci_equal_unmarked name cls Hv Hc). reflexivity.
Qed.

Lemma regular_country_name (country : VisitedCountry) :
  regular_country country = true ->
  forallb is_word (isoCode country) = true
  /\ forallb name_char (countryName country) = true
  /\ occurs eq_ci (lit "visited") (countryName country) = false.
Proof.
  unfold regular_country. intros H. apply andb_prop in H as [H H3].
  apply andb_prop in H as [H1 H2]. apply negb_true_iff in H3. tauto.
Qed.

Lemma highlightTag_marked (body : list ascii) (country : VisitedCountry) :
  regular_country country = true -> marked_body body ->
  highlightTag body country = body.
Proof.
  intros Hc Hm. destruct (regular_country_name _ Hc) as (_ & Hn & Hv).
  unfold highlightTag. rewrite (patch_add_marked _ _ _ _ Hm).
  destruct (nonempty (countryName country)); [|reflexivity].
  rewrite (patch_add_marked _ _ _ _ Hm).
  apply patch_merge_marked; assumption.
Qed.

Lemma highlightTag_settles (body : list ascii) (country : VisitedCountry) :
  regular_country country = true -> regular_body body ->
  settles body (highlightTag body country).
Proof.
  intros Hc Hr. destruct (regular_country_name _ Hc) as (_ & Hn & Hv).
  unfold highlightTag.
  pose proof (patch_add_settles (lit "id") (toUpperCase (isoCode country))
                (visitCount country) body Hr) as H1.
  set (body1 := patchTag (lit "id") _ _ body) in *.
  pose proof (settles_regular _ _ Hr H1) as Hr1.
  destruct (nonempty (countryName country)); [|exact H1].
  pose proof (patch_add_settles (lit "name") (countryName country)
                (visitCount country) body1 Hr1) as H2.
  set (body2 := patchTag (lit "name") _ _ body1) in *.
  pose proof (settles_regular _ _ Hr1 H2) as Hr2.
  pose proof (patch_merge_settles (countryName country) (visitCount country)
                body2 Hn Hr2) as H3.
  set (body3 := patchTag (lit "class") _ _ body2) in *.
  destruct H1 as [E1|M1].
  - destruct H2 as [E2|M2].
    + rewrite E2, E1 in H3. exact H3.
    + right. destruct H3 as [E3|M3]; [rewrite E3; exact M2|exact M3].
  - right. destruct H2 as [E2|M2].
    + destruct H3 as [E3|M3]; [rewrite E3, E2; exact M1|exact M3].
    + destruct H3 as [E3|M3]; [rewrite E3; exact M2|exact M3].
Qed.

Lemma patchBody_marked (countries : list VisitedCountry) (body : list ascii) :
  forallb regular_country countries = true -> marked_body body ->
  patchBody countries body = body.
Proof.
  unfold patchBody. induction countries as [|c cs IH]; intros Hcs Hm;
    [reflexivity|].
  cbn [forallb] in Hcs. apply andb_prop in Hcs as [Hc Hcs].
  cbn [fold_left]. rewrite (highlightTag_marked _ _ Hc Hm). exact (IH Hcs Hm).
Qed.

Lemma patchBody_settles (countries : list VisitedCountry)
    (body : list ascii) :
  forallb regular_country countries = true -> regular_body body ->
  settles body (patchBody countries body).
Proof.
  unfold patchBody. revert body.
  induction countries as [|c cs IH]; intros body Hcs Hr; [left; reflexivity|].
  cbn [forallb] in Hcs. apply andb_prop in Hcs as [Hc Hcs].
  cbn [fold_left].
  destruct (highlightTag_settles body c Hc Hr) as [->|Hm];
    [exact (IH body Hcs Hr)|].
  right. pose proof (patchBody_marked cs _ Hcs Hm) as E. unfold patchBody in E.
  rewrite E. exact Hm.
Qed.

Lemma patchBody_twice (countries : list VisitedCountry) (body : list ascii) :
  forallb regular_country countries = true -> regular_body body ->
  patchBody countries (patchBody countries body) = patchBody countries body.
Proof.
  intros Hcs Hr. destruct (patchBody_settles countries body Hcs Hr) as [E|Hm].
  - rewrite !E. reflexivity.
  - apply patchBody_marked; assumption.
Qed.

Lemma patchBody_unclaimed (countries : list VisitedCountry)
    (body : list ascii) :
  forallb (fun country => negb (claims country body)) countries = true ->
  patchBody countries body = body.
Proof.
  unfold patchBody. induction countries as [|c cs IH]; intros Hcs;
    [reflexivity|].
  cbn [forallb] in Hcs. apply andb_prop in Hcs as [Hc Hcs].
  cbn [fold_left].
  assert (E : highlightTag body c = body).
  { apply negb_true_iff in Hc. unfold claims in Hc.
    apply orb_false_iff in Hc as [H1 Hc]. unfold highlightTag, patchTag.
    rewrite H1. destruct (nonempty (countryName c)); [|reflexivity].
    cbn [andb] in Hc. apply orb_false_iff in Hc as [H2 H3].
    rewrite H2, H3. reflexivity. }
  rewrite E. exact (IH Hcs).
Qed.


(** *** The document, tag by tag *)

Lemma regular_tag (body : list ascii) :
  regular_body body -> regular_chunk (Tag body).
Proof. intros Hr. split; [exact (regular_no_angle _ Hr)|exact Hr]. Qed.

Lemma regular_well_formed (doc : list chunk) :
  Forall regular_chunk doc -> Forall (fun k => well_formed k = true) doc.
Proof. apply Forall_impl. intros k [Hk _]. exact Hk. Qed.

Lemma regular_onTags (change : list ascii -> list ascii) (doc : list chunk) :
  (forall body, regular_body body -> settles body (change body)) ->
  Forall regular_chunk doc -> Forall regular_chunk (List.map (onTags change) doc).
Proof.
  intros Hch Hdoc. induction Hdoc as [|k doc Hk _ IH]; [constructor|].
  cbn [List.map]. constructor; [|exact IH].
  destruct k as [t|body]; [exact Hk|]. destruct Hk as [_ Hr].
  cbn [onTags]. apply regular_tag. exact (settles_regular _ _ Hr (Hch _ Hr)).
Qed.

Lemma iso_inside_tags (iso : list ascii) :
  forallb is_word iso = true -> inside_tags (lit "id") (toUpperCase iso).
Proof.
  intros Hi. split; [reflexivity|]. unfold avoids, toUpperCase.
  rewrite forallb_forall in *. intros p Hp. apply in_map_iff in Hp as (c & <- & Hc).
  specialize (Hi c Hc).
  pose proof (char_check
                (fun c => implb (is_word c) (negb (eq_ci (canonicalize c) ">")))
                ltac:(vm_compute; reflexivity) c) as Hcheck.
  cbn beta in Hcheck. rewrite Hi in Hcheck. exact Hcheck.
Qed.

Lemma onTags_compose (f g : list ascii -> list ascii) (doc : list chunk) :
  List.map (onTags g) (List.map (onTags f) doc)
  = List.map (onTags (fun body => g (f body))) doc.
Proof.
  rewrite List.map_map. apply List.map_ext. intros [t|body]; reflexivity.
Qed.

Lemma highlight_render (doc : list chunk) (country : VisitedCountry) :
  regular_country country = true -> Forall regular_chunk doc ->
  highlight (render doc) country
  = render (List.map (onTags (fun body => highlightTag body country)) doc).
Proof.
  intros Hc Hdoc. destruct (regular_country_name _ Hc) as (Hi & Hn & Hv).
  unfold highlight, highlightTag. cbv zeta.
  rewrite (replace_tags_render (lit "id") _ _
             (addClass (lit "visited " ++ getVisitClass (visitCount country)))
             doc (iso_inside_tags _ Hi)
             (fun body => addClassToElement_tag _ body)
             (regular_well_formed _ Hdoc)).
  pose proof (regular_onTags _ doc
                (patch_add_settles (lit "id")
                   (toUpperCase (isoCode country)) (visitCount country))
                Hdoc) as Hdoc1.
  destruct (nonempty (countryName country)); [|reflexivity].
  rewrite (replace_tags_render (lit "name") _ _
             (addClass (lit "visited " ++ getVisitClass (visitCount country)))
             _ (name_inside_tags (lit "name") _ eq_refl Hn)
             (fun body => addClassToElement_tag _ body)
             (regular_well_formed _ Hdoc1)).
  pose proof (regular_onTags _ _
                (patch_add_settles (lit "name") (countryName country)
                   (visitCount country))
                Hdoc1) as Hdoc2.
  rewrite (replace_tags_render (lit "class") _ _
             (mergeClass (lit "visited " ++ getVisitClass (visitCount country)))
             _ (name_inside_tags (lit "class") _ eq_refl Hn)
             (fun body => mergeClassOfElement_tag _ body)
             (regular_well_formed _ Hdoc2)).
  rewrite !onTags_compose. reflexivity.
Qed.

Lemma processMapSvg_render (countries : list VisitedCountry)
    (doc : list chunk) :
  forallb regular_country countries = true -> Forall regular_chunk doc ->
  processMapSvg (render doc) countries
  = render (List.map (patchChunk countries) doc).
Proof.
  unfold processMapSvg, patchChunk, patchBody. revert doc.
  induction countries as [|c cs IH]; intros doc Hcs Hdoc.
  - cbn [fold_left]. f_equal. symmetry.
    rewrite <- (List.map_id doc) at 2. apply List.map_ext.
    intros [t|body]; reflexivity.
  - cbn [forallb] in Hcs. apply andb_prop in Hcs as [Hc Hcs].
    cbn [fold_left]. rewrite (highlight_render doc c Hc Hdoc).
    rewrite (IH _ Hcs
               (regular_onTags _ doc
                  (fun body Hr => highlightTag_settles body c Hc Hr) Hdoc)).
    rewrite onTags_compose. reflexivity.
Qed.

Lemma patchChunk_regular (countries : list VisitedCountry)
    (doc : list chunk) :
  forallb regular_country countries = true -> Forall regular_chunk doc ->
  Forall regular_chunk (List.map (patchChunk countries) doc).
Proof.
  intros Hcs Hdoc. apply regular_onTags; [|exact Hdoc].
  intros body Hr. exact (patchBody_settles countries body Hcs Hr).
Qed.

Lemma patchChunk_twice (countries : list VisitedCountry) (doc : list chunk) :
  forallb regular_country countries = true -> Forall regular_chunk doc ->
  List.map (patchChunk countries) (List.map (patchChunk countries) doc)
  = List.map (patchChunk countries) doc.
Proof.
  intros Hcs Hdoc. unfold patchChunk. rewrite onTags_compose.
  induction Hdoc as [|k doc Hk _ IH]; [reflexivity|].
  cbn [List.map]. rewrite IH. f_equal.
  destruct k as [t|body]; [reflexivity|]. destruct Hk as [_ Hr].
  cbn [onTags]. rewrite (patchBody_twice countries body Hcs Hr). reflexivity.
Qed.

(** *** The first mark of a tag *)

Lemma getVisitClass_tiers (count : Z) :
  (5 <= count -> getVisitClass count = lit "visited-4")
  /\ (3 <= count < 5 -> getVisitClass count = lit "visited-3")
  /\ (1 <= count < 3 -> getVisitClass count = lit "visited-2")
  /\ (count < 1 -> getVisitClass count = []).
Proof.
  unfold getVisitClass.
  destruct (Z.geb_spec count 5), (Z.geb_spec count 3), (Z.geb_spec count 1);
    repeat split; intros ?; reflexivity || lia.
Qed.

Lemma classValue_form before sp q1 cls q2 rest :
  class_form before sp q1 cls q2 rest ->
  classValue (before ++ sp :: lit "class=" ++ q1 :: cls ++ q2 :: rest)
  = Some cls.
Proof.
  intros F. unfold classValue. rewrite (find_class_form _ _ _ _ _ _ _ F).
  reflexivity.
Qed.

Lemma merged_tier (cls : list ascii) (count : Z) :
  includes (getVisitClass count)
    (trim (cls ++ lit " " ++ lit "visited " ++ getVisitClass count)) = true.
Proof.
  destruct (trim_merged cls (getVisitClass count)) as [u ->].
  assert (E : exists pre,
               lit "visited" ++ trim_end (" "%char :: getVisitClass count)
               = pre ++ getVisitClass count ++ []).
  { unfold getVisitClass.
    destruct (count >=? 5), (count >=? 3), (count >=? 1);
      first [exists (lit "visited "); reflexivity
            |exists (lit "visited"); reflexivity]. }
  destruct E as [pre ->]. rewrite app_assoc. apply occurs_intro.
Qed.

Lemma addClass_first_mark (count : Z) (body : list ascii) :
  regular_body body -> unmarked body = true ->
  exists cls,
    marked_body (addClass (lit "visited " ++ getVisitClass count) body)
    /\ classValue (addClass (lit "visited " ++ getVisitClass count) body)
       = Some cls
    /\ includes (getVisitClass count) cls = true.
Proof.
  intros [b Hb Ho|before sp q1 cls q2 rest F] Hu.
  - exists (lit "visited " ++ getVisitClass count).
    rewrite (addClass_plain _ _ Ho).
    pose proof (class_form_appended b count Hb Ho) as F.
    split; [apply marked_class; [exact F|apply visit_class_marks]|].
    split; [apply classValue_form; exact F|].
    rewrite <- (app_nil_r (getVisitClass count)) at 2. apply occurs_intro.
  - unfold unmarked in Hu. rewrite (classValue_form _ _ _ _ _ _ F) in Hu.
    apply negb_true_iff in Hu.
    exists (trim (cls ++ lit " " ++ lit "visited " ++ getVisitClass count)).
    rewrite (addClass_form _ _ _ _ _ _ _ F), Hu.
    pose proof (class_form_merged _ _ _ _ _ _ count F) as F'.
    split; [apply marked_class; [exact F'|apply merged_marks]|].
    split; [apply classValue_form; exact F'|apply merged_tier].
Qed.


(** *** The patcher on regular markup *)

(** C8 (amended).  The tiers are: five visits or more give [visited-4],
    three or four [visited-3], one or two [visited-2], fewer none.  On a
    document of regular tags (each has no class attribute, in no spelling,
    or exactly one, behind white space) and for regular countries (an ISO
    code of word characters, a name without quotes, angle brackets or the
    word visited) the patcher rewrites the document tag by tag, and:
    a tag that the id pattern of a visited country matches (its id is the
    ISO code), which no pattern of an earlier country of the list matches
    and whose class does not hold [visited] yet, ends with a class that
    holds the tier of that country, which is [visited-4] from five visits
    on; a tag that no pattern of a visited country matches is unchanged;
    and patching the output again changes nothing. *)
Theorem processMapSvg_on_regular_markup (doc : list chunk)
    (countries : list VisitedCountry) :
  Forall regular_chunk doc ->
  forallb regular_country countries = true ->
  (forall count,
     (5 <= count -> getVisitClass count = lit "visited-4")
     /\ (3 <= count < 5 -> getVisitClass count = lit "visited-3")
     /\ (1 <= count < 3 -> getVisitClass count = lit "visited-2")
     /\ (count < 1 -> getVisitClass count = []))
  /\ processMapSvg (render doc) countries
     = render (List.map (patchChunk countries) doc)
  /\ (forall body earlier country later,
        In (Tag body) doc ->
        countries = earlier ++ country :: later ->
        forallb (fun c => negb (claims c body)) earlier = true ->
        has_attr (lit "id") (toUpperCase (isoCode country)) "<" body = true ->
        unmarked body = true ->
        exists cls,
          classValue (patchBody countries body) = Some cls
          /\ includes (getVisitClass (visitCount country)) cls = true
          /\ (5 <= visitCount country -> includes (lit "visited-4") cls = true))
  /\ (forall body,
        In (Tag body) doc ->
        forallb (fun c => negb (claims c body)) countries = true ->
        patchBody countries body = body)
  /\ processMapSvg (processMapSvg (render doc) countries) countries
     = processMapSvg (render doc) countries.
Proof.
  intros Hdoc Hcs.
  split; [exact getVisitClass_tiers|].
  split; [exact (processMapSvg_render countries doc Hcs Hdoc)|].
  split; [|split].
  - intros body earlier country later Hin -> Hearlier Hid Hun.
    rewrite Forall_forall in Hdoc. destruct (Hdoc _ Hin) as [_ Hr].
    rewrite forallb_app in Hcs. apply andb_prop in Hcs as [_ Hcs].
    cbn [forallb] in Hcs. apply andb_prop in Hcs as [Hc Hlater].
    destruct (addClass_first_mark (visitCount country) body Hr Hun)
      as (cls & Hm & Hcls & Htier).
    assert (E : patchBody (earlier ++ country :: later) body
                = addClass (lit "visited " ++ getVisitClass (visitCount country))
                    body).
    { unfold patchBody. rewrite fold_left_app. cbn [fold_left].
      pose proof (patchBody_unclaimed earlier body Hearlier) as E0.
      unfold patchBody in E0. rewrite E0.
      assert (E1 : highlightTag body country
                   = addClass
                       (lit "visited " ++ getVisitClass (visitCount country))
                       body).
      { destruct (regular_country_name _ Hc) as (_ & Hn & Hv).
        assert (P1 : patchTag (lit "id") (toUpperCase (isoCode country))
                       (addClass
                          (lit "visited "
                           ++ getVisitClass (visitCount country))) body
                     = addClass
                         (lit "visited " ++ getVisitClass (visitCount country))
                         body)
          by (unfold patchTag; rewrite Hid; reflexivity).
        unfold highlightTag. rewrite P1.
        destruct (nonempty (countryName country)); [|reflexivity].
        rewrite (patch_add_marked _ _ _ _ Hm).
        apply patch_merge_marked; assumption. }
      rewrite E1. exact (patchBody_marked later _ Hlater Hm). }
    exists cls. rewrite E. split; [exact Hcls|]. split; [exact Htier|].
    intros H5. destruct (getVisitClass_tiers (visitCount country)) as [T _].
    rewrite <- (T H5). exact Htier.
  - intros body _ Hnone. exact (patchBody_unclaimed countries body Hnone).
  - rewrite (processMapSvg_render countries doc Hcs Hdoc).
    rewrite (processMapSvg_render countries _ Hcs
               (patchChunk_regular countries doc Hcs Hdoc)).
    rewrite (patchChunk_twice countries doc Hcs Hdoc). reflexivity.
Qed.

End WorldMapProperties.

(** The regular document of the runtime, patched for Norway: both paths of
    Norway get the highest tier, the path of Sweden stays, and a second pass
    changes nothing. *)
Lemma processMapSvg_regular_witness :
  WorldMap.processMapSvg (WorldMap.render Demo.map_doc) [Demo.norway]
  = Demo.map_doc_patched
  /\ WorldMap.processMapSvg
       (WorldMap.processMapSvg (WorldMap.render Demo.map_doc) [Demo.norway])
       [Demo.norway]
     = WorldMap.processMapSvg (WorldMap.render Demo.map_doc) [Demo.norway].
Proof.
  assert (Hdoc : Forall WorldMap.regular_chunk Demo.map_doc).
  { unfold Demo.map_doc.
    repeat apply Forall_cons; try apply Forall_nil;
      (split; [reflexivity|]); try exact I.
    - apply WorldMap.regular_without_class; reflexivity.
    - apply WorldMap.regular_without_class; reflexivity.
    - exact (WorldMap.regular_with_class (WorldMap.lit "path") " " dq
               (WorldMap.lit "Norway") dq
               (WorldMap.lit (Demo.attribute "d" "M1"))
               (WorldMap.Build_class_form (WorldMap.lit "path") " " dq
                  (WorldMap.lit "Norway") dq
                  (WorldMap.lit (Demo.attribute "d" "M1"))
                  eq_refl eq_refl eq_refl eq_refl eq_refl eq_refl eq_refl
                  eq_refl)).
    - exact (WorldMap.regular_with_class
               (WorldMap.lit ("path" +:+ Demo.attribute "id" "SE")) " " dq
               (WorldMap.lit "land") dq []
               (WorldMap.Build_class_form
                  (WorldMap.lit ("path" +:+ Demo.attribute "id" "SE")) " " dq
                  (WorldMap.lit "land") dq []
                  eq_refl eq_refl eq_refl eq_refl eq_refl eq_refl eq_refl
                  eq_refl)).
    - apply WorldMap.regular_without_class; reflexivity. }
  destruct (processMapSvg_on_regular_markup Demo.map_doc [Demo.norway] Hdoc
              eq_refl) as (_ & Htags & _ & _ & Htwice).
  split; [|exact Htwice].
  rewrite Htags. vm_compute. reflexivity.
Defined.

(** Two inputs outside regular markup.  A path of Norway whose class is
    [unvisited] is left as it is, so it does not get [visited-4]; and a path
    with an attribute [data-class] before its class is extended by every
    pass, so the second pass changes the output of the first. *)
Lemma processMapSvg_counterexample :
  WorldMap.processMapSvg Demo.svg_unvisited [Demo.norway] = Demo.svg_unvisited
  /\ WorldMap.includes (WorldMap.lit "visited-4")
       (WorldMap.processMapSvg Demo.svg_unvisited [Demo.norway]) = false
  /\ WorldMap.processMapSvg Demo.svg_data_class [Demo.norway]
     = Demo.svg_data_class_once
  /\ WorldMap.processMapSvg
       (WorldMap.processMapSvg Demo.svg_data_class [Demo.norway])
       [Demo.norway]
     = Demo.svg_data_class_twice
  /\ length Demo.svg_data_class_twice
     = (length Demo.svg_data_class_once + 18)%nat.
Proof. vm_compute. repeat split; reflexivity. Qed.

(** * Further properties of the embedded code *)

(** ** The sunrise hint: regions and the wrap of the band *)

(** X1.  The ideal offset is 14 minus the anchor-zone hour.  The region
    hint is the generic one exactly in the anchor hours 0 and 1, whose
    ideal offsets 14 and 13 lie in none of the named buckets; in every
    other hour it is the named bucket of the ideal offset. *)
Theorem region_hint_by_anchor_hour (now : Z) :
  let hint := Sunrise.getSunriseTimezoneHint now in
  let hour := Sunrise.beijingHour hint in
  Sunrise.idealOffset hint = 14 - hour
  /\ (Sunrise.regionHint hint = Sunrise.Everywhere <-> hour <= 1)
  /\ (2 <= hour <= 5 -> Sunrise.regionHint hint = Sunrise.EastAsiaPacific)
  /\ (6 <= hour <= 9 ->
      Sunrise.regionHint hint = Sunrise.SouthAndCentralAsia)
  /\ (10 <= hour <= 12 ->
      Sunrise.regionHint hint = Sunrise.MiddleEastEastAfrica)
  /\ (13 <= hour <= 15 ->
      Sunrise.regionHint hint = Sunrise.WestEuropeWestAfrica)
  /\ (16 <= hour <= 19 ->
      Sunrise.regionHint hint = Sunrise.SouthAmericaAtlantic)
  /\ (20 <= hour <= 22 -> Sunrise.regionHint hint = Sunrise.NorthAmericaWest)
  /\ (hour = 23 -> Sunrise.regionHint hint = Sunrise.CentralPacific).
Proof.
  cbn zeta.
  unfold Sunrise.getSunriseTimezoneHint;
    cbn [Sunrise.beijingHour Sunrise.idealOffset Sunrise.regionHint].
  pose proof (getUTCHours_range (now + 8 * 60 * 60 * 1000)) as Hh.
  set (h := Sunrise.getUTCHours (now + 8 * 60 * 60 * 1000)) in *.
  assert (Hcases : h = 0 \/ h = 1 \/ h = 2 \/ h = 3 \/ h = 4 \/ h = 5
                   \/ h = 6 \/ h = 7 \/ h = 8 \/ h = 9 \/ h = 10 \/ h = 11
                   \/ h = 12 \/ h = 13 \/ h = 14 \/ h = 15 \/ h = 16
                   \/ h = 17 \/ h = 18 \/ h = 19 \/ h = 20 \/ h = 21
                   \/ h = 22 \/ h = 23) by lia.
  clearbody h.
  repeat (destruct Hcases as [-> | Hcases]); [..|subst h];
    (split; [lia|]); cbn;
    (split; [split; [discriminate || reflexivity || lia
                    |intros; reflexivity || lia]|]);
    repeat split; intros; reflexivity || lia.
Qed.

(** X2.  The band is emitted from its lower to its upper end, the upper
    being the lower plus 2, in every anchor hour but 0; in the hour 0 the
    ideal offset is 14, the upper end wraps, and the range reads UTC+13 to
    UTC-9. *)
Theorem sunrise_band_wraps_at_hour_zero (now : Z) :
  let hint := Sunrise.getSunriseTimezoneHint now in
  (Sunrise.beijingHour hint = 0 ->
   Sunrise.minOffset hint = 13 /\ Sunrise.maxOffset hint = -9
   /\ Sunrise.utcOffsetRange hint = ("UTC+13", "UTC-9"))
  /\ (Sunrise.beijingHour hint <> 0 ->
      Sunrise.minOffset hint = Sunrise.idealOffset hint - 1
      /\ Sunrise.maxOffset hint = Sunrise.minOffset hint + 2).
Proof.
  cbn zeta.
  unfold Sunrise.getSunriseTimezoneHint;
    cbn [Sunrise.beijingHour Sunrise.idealOffset Sunrise.minOffset
         Sunrise.maxOffset Sunrise.utcOffsetRange].
  pose proof (getUTCHours_range (now + 8 * 60 * 60 * 1000)) as Hh.
  set (h := Sunrise.getUTCHours (now + 8 * 60 * 60 * 1000)) in *.
  clearbody h. split.
  - intros ->. vm_compute. repeat split; reflexivity.
  - intros Hn. unfold Sunrise.normalizeOffset.
    repeat match goal with
           | |- context [?a <? ?b] => destruct (Z.ltb_spec a b)
           | |- context [?a >? ?b] =>
               rewrite (Z.gtb_ltb a b); destruct (Z.ltb_spec b a)
           end; lia.
Qed.

(** ** The parser: what the recursion adds *)

Section ParserRecursion.
Context `{Runtime} `{Catalog}.

(** X3.  The text that the lenient stage extracts is its own lenient
    extraction, so the recursive call meets the same text at every deeper
    level.  With room for two calls or more on the stack the result of the
    parser does not depend on the depth: it is the result of the [try]
    block on the reply when that returns, else that of the [try] block on
    the extracted object when there is one and the block returns on it,
    else [null]. *)
Theorem parser_recursion_is_one_retry (content : string) :
  (forall m, Resolver.objectMatch content = Some m ->
             Resolver.objectMatch m = Some m)
  /\ (forall stack,
        Resolver.parseLocationResponse (S (S stack)) content
        = match Resolver.tryBlock content with
          | Ok r => Ok r
          | Throw _ =>
              match Resolver.objectMatch content with
              | Some m =>
                  match Resolver.tryBlock m with
                  | Ok r => Ok r
                  | Throw _ => Ok None
                  end
              | None => Ok None
              end
          end)
  /\ (forall stack stack',
        Resolver.parseLocationResponse (S (S stack)) content
        = Resolver.parseLocationResponse (S (S stack')) content).
Proof.
  split; [|split].
  - intros m. apply objectMatch_fix.
  - intros stack. rewrite parseLocationResponse_closed_form.
    unfold parseTwoStage.
    destruct (Resolver.tryBlock content); [reflexivity|].
    destruct (Resolver.objectMatch content) as [m|]; [|reflexivity].
    destruct (Resolver.tryBlock m); reflexivity.
  - intros stack stack'. rewrite !parseLocationResponse_closed_form.
    reflexivity.
Qed.

End ParserRecursion.

(** ** The resolver: photo search and what a call leaves behind *)

Section ResolverEffects.
Context `{Runtime} `{Catalog}.

(** A search call for one of the queries. *)
Definition searchFor (queries : list string) (e : Event) : Prop :=
  exists q, In q queries /\ (e = EvPexels q \/ e = EvUnsplash q).

(** [r] is what one of the two services answered to one of the queries. *)
Definition answered (config : Config) (host : Host) (queries : list string)
    (r : option string) : Prop :=
  exists q,
    In q queries
    /\ (r = searchPexelsPhoto host (pexelsApiKey config) q
        \/ r = searchUnsplashPhoto host (unsplashAccessKey config) q).

Lemma searchFor_cons (q : string) (queries : list string) (e : Event) :
  searchFor queries e -> searchFor (q :: queries) e.
Proof. intros (q' & Hq & He). exists q'. split; [right; exact Hq|exact He]. Qed.

Lemma answered_cons config host (q : string) (queries : list string) r :
  answered config host queries r -> answered config host (q :: queries) r.
Proof. intros (q' & Hq & He). exists q'. split; [right; exact Hq|exact He]. Qed.

Lemma searchLoop_spec (config : Config) (host : Host)
    (queries : list string) (photoUrl : option string) (w : World) :
  exists r w' added,
    Resolver.searchLoop config host queries photoUrl w = (Ok r, w')
    /\ llmCooldownUntil w' = llmCooldownUntil w
    /\ pig_travel_log w' = pig_travel_log w
    /\ events w' = events w ++ added
    /\ (length added <= 2 * length queries)%nat
    /\ Forall (searchFor queries) added
    /\ (r = photoUrl \/ answered config host queries r).
Proof.
  revert photoUrl w.
  induction queries as [|q rest IH]; intros photoUrl w.
  - exists photoUrl, w, []. cbn [Resolver.searchLoop]. run_monad.
    rewrite app_nil_r. cbn. auto 10.
  - cbn [Resolver.searchLoop]. run_monad.
    assert (Hp : searchFor (q :: rest) (EvPexels q))
      by (exists q; split; [left; reflexivity|left; reflexivity]).
    assert (Hu : searchFor (q :: rest) (EvUnsplash q))
      by (exists q; split; [left; reflexivity|right; reflexivity]).
    assert (Ap : answered config host (q :: rest)
                   (searchPexelsPhoto host (pexelsApiKey config) q))
      by (exists q; split; [left; reflexivity|left; reflexivity]).
    assert (Au : answered config host (q :: rest)
                   (searchUnsplashPhoto host (unsplashAccessKey config) q))
      by (exists q; split; [left; reflexivity|right; reflexivity]).
    destruct (nonempty (pexelsApiKey config)); cbn;
      match goal with
      | |- context [negb (Resolver.truthy_url ?p) && ?k] =>
          destruct (negb (Resolver.truthy_url p) && k); cbn
      end;
      match goal with
      | |- context [if Resolver.truthy_url ?p then _ else _] =>
          destruct (Resolver.truthy_url p)
      end;
      try match goal with
          | |- context [Resolver.searchLoop config host rest ?p ?w0] =>
              destruct (IH p w0)
                as (r & w' & added & -> & Hc & Hl & He & Hlen & Hall & Hr);
              cbn [llmCooldownUntil pig_travel_log events] in Hc, Hl, He;
              rewrite <- ?app_assoc in He; cbn [app] in He;
              eexists r, w', _; split; [reflexivity|];
              split; [exact Hc|]; split; [exact Hl|];
              split; [first [exact He | rewrite He, app_nil_r; reflexivity]|];
              split; [cbn [length]; lia|];
              split; [repeat (apply Forall_cons; [assumption|]);
                      exact (Forall_impl _ (searchFor_cons q rest) Hall)|];
              destruct Hr as [-> | Hr];
                [auto|right; apply answered_cons; exact Hr]
          end;
      eexists _, _, _; (split; [reflexivity|]);
      cbn [llmCooldownUntil pig_travel_log events];
      (split; [reflexivity|]); (split; [reflexivity|]);
      (split; [rewrite <- ?app_assoc; cbn [app];
               first [reflexivity | rewrite app_nil_r; reflexivity]|]);
      (split; [cbn [length]; lia|]);
      (split; [repeat (apply Forall_cons; [assumption|]); apply Forall_nil|]);
      auto.
Qed.

(** The queries of a location, none when their building throws. *)
Definition queriesOf (config : Config) (location : Location) : list string :=
  match Resolver.searchQueries config location with
  | Ok queries => queries
  | Throw _ => []
  end.

Lemma searchQueries_length (config : Config) (location : Location)
    (queries : list string) :
  Resolver.searchQueries config location = Ok queries ->
  (length queries <= 4)%nat.
Proof.
  unfold Resolver.searchQueries.
  destruct (Resolver.formatQuery location _) as [primary|];
    cbn [Resolver.result_bind]; [|discriminate].
  destruct (interpolate [landmark location; country location])
    as [specific|]; cbn [Resolver.result_bind]; [|discriminate].
  match goal with
  | |- Resolver.result_bind ?r _ = _ -> _ =>
      destruct r as [byCity|]; cbn [Resolver.result_bind]; [|discriminate]
  end.
  destruct (cleanQueryOf (country location)) as [byCountry|];
    cbn [Resolver.result_bind]; [|discriminate].
  intros [= <-].
  repeat match goal with
         | |- context [if nonempty ?q then _ else _] => destruct (nonempty q)
         end; cbn [length]; lia.
Qed.

(** The building of the queries throws when the country is no string:
    the last query calls [replace] on it. *)
Lemma searchQueries_needs_string (config : Config) (location : Location) :
  is_string (country location) = false ->
  exists e, Resolver.searchQueries config location = Throw e.
Proof.
  intros Hc. unfold Resolver.searchQueries.
  destruct (Resolver.formatQuery location _) as [primary|e];
    cbn [Resolver.result_bind]; [|eauto].
  destruct (interpolate [landmark location; country location])
    as [specific|e]; cbn [Resolver.result_bind]; [|eauto].
  match goal with
  | |- exists e, Resolver.result_bind ?r _ = _ =>
      destruct r as [byCity|e]; cbn [Resolver.result_bind]; [|eauto]
  end.
  destruct (country location); try discriminate; cbn; eauto.
Qed.

(** It returns when the landmark, the country and the city are
    strings. *)
Lemma searchQueries_of_strings (config : Config) (location : Location) :
  is_string (landmark location) = true ->
  is_string (country location) = true ->
  is_string (city location) = true ->
  exists queries, Resolver.searchQueries config location = Ok queries.
Proof.
  intros Hl Hc Hy. unfold Resolver.searchQueries, Resolver.formatQuery,
    js_replace, js_or.
  destruct (landmark location); try discriminate.
  destruct (country location); try discriminate.
  destruct (city location) as [| | | |y| |]; try discriminate.
  cbn. destruct (negb (String.eqb y "")); cbn; eauto.
Qed.

Lemma replacePhoto_spec (config : Config) (host : Host)
    (location : Location) (w : World) :
  (exists e,
     photoKeys config = true
     /\ Resolver.searchQueries config location = Throw e
     /\ Resolver.replacePhoto config host location w = (Throw e, w))
  \/ (exists loc w' added,
        (photoKeys config = true ->
         exists queries, Resolver.searchQueries config location = Ok queries)
        /\ Resolver.replacePhoto config host location w = (Ok loc, w')
        /\ llmCooldownUntil w' = llmCooldownUntil w
        /\ pig_travel_log w' = pig_travel_log w
        /\ events w' = events w ++ added
        /\ (length added <= 8)%nat
        /\ Forall (searchFor (queriesOf config location)) added
        /\ (loc = location
            \/ exists url,
                 nonempty url = true
                 /\ loc = Resolver.with_landscapeUrl location (JStr url)
                 /\ answered config host (queriesOf config location)
                      (Some url))
        /\ (photoKeys config = false -> added = [] /\ loc = location)).
Proof.
  unfold Resolver.replacePhoto, photoKeys, queriesOf.
  destruct (nonempty (unsplashAccessKey config)
            || nonempty (pexelsApiKey config)) eqn:Ek.
  2: { right. exists location, w, []. run_monad. rewrite app_nil_r.
       split; [discriminate|]. repeat split; auto. cbn. lia. }
  unfold bind at 1, lift.
  destruct (Resolver.searchQueries config location) as [queries|e] eqn:Eq;
    [|left; eauto].
  right. unfold bind.
  destruct (searchLoop_spec config host queries None w)
    as (r & w' & added & -> & Hc & Hl & He & Hlen & Hall & Hr).
  pose proof (searchQueries_length config location queries Eq) as Hq.
  destruct r as [url|]; [destruct (nonempty url) eqn:En|]; run_monad;
    eexists _, w', added; (split; [eauto|]); (split; [reflexivity|]);
    (split; [exact Hc|]); (split; [exact Hl|]); (split; [exact He|]);
    (split; [lia|]); (split; [exact Hall|]);
    (split; [|intros; discriminate]);
    try (left; reflexivity);
    right; exists url; (split; [exact En|]); (split; [reflexivity|]);
    destruct Hr as [Hr|Hr]; [discriminate|exact Hr].
Qed.

(** X5.  The photo search builds its queries before it searches.  When a
    key is configured and that building throws, as it does whenever the
    country of the location is no string, the exception leaves the search
    with the state as it was and without a search call.  Otherwise the
    search returns and changes nothing of the location but its photo URL,
    and that only to a non-empty URL which Pexels or Unsplash answered to
    one of the candidate queries.  It makes at most eight search calls,
    each for one of the at most four candidate queries, and none when
    neither API key is configured; it touches neither the cooldown nor the
    travel log.  The queries are built without an exception when the
    landmark, the country and the city are strings. *)
Theorem photo_search_only_replaces_url (config : Config) (host : Host)
    (location : Location) (w : World) :
  (forall e,
     photoKeys config = true ->
     Resolver.searchQueries config location = Throw e ->
     Resolver.replacePhoto config host location w = (Throw e, w))
  /\ (photoKeys config = false
      \/ (exists queries,
            Resolver.searchQueries config location = Ok queries) ->
      exists loc w' added,
        Resolver.replacePhoto config host location w = (Ok loc, w')
        /\ llmCooldownUntil w' = llmCooldownUntil w
        /\ pig_travel_log w' = pig_travel_log w
        /\ events w' = events w ++ added
        /\ (length added <= 8)%nat
        /\ Forall (searchFor (queriesOf config location)) added
        /\ (loc = location
            \/ exists url,
                 nonempty url = true
                 /\ loc = Resolver.with_landscapeUrl location (JStr url)
                 /\ answered config host (queriesOf config location)
                      (Some url))
        /\ (photoKeys config = false -> added = [] /\ loc = location))
  /\ (is_string (country location) = false ->
      exists e, Resolver.searchQueries config location = Throw e)
  /\ (is_string (landmark location) = true ->
      is_string (country location) = true ->
      is_string (city location) = true ->
      exists queries,
        Resolver.searchQueries config location = Ok queries
        /\ (length queries <= 4)%nat).
Proof.
  split; [|split; [|split]].
  - intros e Hk Hq.
    destruct (replacePhoto_spec config host location w)
      as [(e' & _ & Hq' & E) | (loc & w' & added & Hok & _)].
    + rewrite Hq in Hq'. injection Hq' as <-. exact E.
    + destruct (Hok Hk) as [queries Eq]. congruence.
  - intros Hcase.
    destruct (replacePhoto_spec config host location w)
      as [(e' & Hk & Hq' & _) | (loc & w' & added & _ & Hrest)].
    + exfalso. destruct Hcase as [Hn | [queries Eq]]; congruence.
    + exists loc, w', added. exact Hrest.
  - apply searchQueries_needs_string.
  - intros Hl Hc Hy.
    destruct (searchQueries_of_strings config location Hl Hc Hy)
      as [queries Eq].
    exists queries. split; [exact Eq|].
    exact (searchQueries_length config location queries Eq).
Qed.

(** A call to the AI image service, the card renderer or the storage
    service. *)
Definition isImageEvent (e : Event) : bool :=
  match e with
  | EvMediaLuna _ _ | EvRenderCard | EvCreateTempFile => true
  | _ => false
  end.

Lemma searchFor_not_image (queries : list string) (e : Event) :
  searchFor queries e -> isImageEvent e = false.
Proof. intros (q & _ & [-> | ->]); reflexivity. Qed.

Lemma generateLocationWithLLM_spec (config : Config) (host : Host)
    (w : World) :
  exists loc w' added,
    Resolver.generateLocationWithLLM config host w = (Ok loc, w')
    /\ pig_travel_log w' = pig_travel_log w
    /\ events w' = events w ++ added
    /\ Forall (fun e => isImageEvent e = false) added
    /\ (llmCooldownUntil w' = llmCooldownUntil w
        \/ llmCooldownUntil w' = 0
        \/ llmCooldownUntil w'
           = nowAtFailure host + default 0 (llmFailureCooldownMs config))
    /\ (In loc LOCATIONS
        \/ exists content parsed,
             chatluna host = Some (Ok (Model (Ok content)))
             /\ Resolver.parseLocationResponse (S (stackDepth host)) content
                = Ok (Some parsed)
             /\ (loc = parsed
                 \/ exists url,
                      loc = Resolver.with_landscapeUrl parsed (JStr url))).
Proof.
  assert (Hcooled : forall w0,
             llmCooldownUntil (cooled config host w0) = llmCooldownUntil w0
             \/ llmCooldownUntil (cooled config host w0)
                = nowAtFailure host + default 0 (llmFailureCooldownMs config)).
  { intros w0. unfold cooled. destruct (_ >? 0); cbn; auto. }
  assert (Hevents : forall w0, events (cooled config host w0) = events w0).
  { intros w0. unfold cooled. destruct (_ >? 0); reflexivity. }
  assert (Hlog : forall w0,
             pig_travel_log (cooled config host w0) = pig_travel_log w0).
  { intros w0. unfold cooled. destruct (_ >? 0); reflexivity. }
  destruct (attempts_dec config host w) as [Ha | Hn].
  - pose proof Ha as (_ & _ & Hav & _).
    destruct (chatluna host) as [[[|[content|e]]|e]|] eqn:Hc';
      [| | | |discriminate].
    + rewrite (attempt_no_model _ _ _ Ha Hc').
      eexists _, _, _. split; [reflexivity|]. rewrite Hlog.
      split; [reflexivity|]. rewrite Hevents.
      split; [cbn; rewrite <- ?app_assoc; reflexivity|].
      split; [repeat constructor|].
      split; [destruct (Hcooled (after_call (llmLocationModel config) w));
              auto|].
      left. apply getRandomStaticLocation_in.
    + destruct (parseLocationResponse_returns (stackDepth host) content)
        as [[location|] Hp].
      * destruct (finishes config location) eqn:Ef.
        -- rewrite (attempt_parse_succeeds _ _ _ content location Ha Hc' Hp
                      Ef).
           destruct (replacePhoto_spec config host location
                       (set_llmCooldownUntil 0
                          (after_invoke (llmLocationModel config) w)))
             as [(e & Hk & Hq & _)
                | (loc & w' & added & _ & -> & Hc & Hl & He & _ & Hall & Hr
                   & _)].
           { exfalso. unfold finishes in Ef. rewrite Hk, Hq in Ef.
             destruct (Resolver.generatedLine location); discriminate. }
           eexists loc, w', _. split; [reflexivity|].
           split; [exact Hl|].
           split; [rewrite He; cbn; rewrite <- ?app_assoc; reflexivity|].
           split; [cbn; repeat (apply Forall_cons; [reflexivity|]);
                   exact (Forall_impl _ (searchFor_not_image _) Hall)|].
           split; [right; left; exact Hc|].
           right. exists content, location. split; [reflexivity|].
           split; [exact Hp|].
           destruct Hr as [-> | (url & _ & -> & _)]; eauto.
        -- rewrite (attempt_parse_then_throws _ _ _ content location Ha Hc'
                      Hp Ef).
           eexists _, _, _. split; [reflexivity|]. rewrite Hlog.
           split; [reflexivity|]. rewrite Hevents.
           split; [cbn; rewrite <- ?app_assoc; reflexivity|].
           split; [repeat constructor|].
           split; [|left; apply getRandomStaticLocation_in].
           destruct (Hcooled
                       (set_llmCooldownUntil 0
                          (after_invoke (llmLocationModel config) w)))
             as [E | E]; rewrite E; cbn; auto.
      * rewrite (attempt_parse_fails _ _ _ content Ha Hc' Hp).
        eexists _, _, _. split; [reflexivity|]. split; [reflexivity|].
        split; [cbn; rewrite <- ?app_assoc; reflexivity|].
        split; [repeat constructor|].
        split; [left; reflexivity|].
        left. apply getRandomStaticLocation_in.
    + rewrite (attempt_invoke_throws _ _ _ e Ha Hc').
      eexists _, _, _. split; [reflexivity|]. rewrite Hlog.
      split; [reflexivity|]. rewrite Hevents.
      split; [cbn; rewrite <- ?app_assoc; reflexivity|].
      split; [repeat constructor|].
      split; [destruct (Hcooled (after_invoke (llmLocationModel config) w));
              auto|].
      left. apply getRandomStaticLocation_in.
    + rewrite (attempt_createChatModel_throws _ _ _ e Ha Hc').
      eexists _, _, _. split; [reflexivity|]. rewrite Hlog.
      split; [reflexivity|]. rewrite Hevents.
      split; [cbn; rewrite <- ?app_assoc; reflexivity|].
      split; [repeat constructor|].
      split; [destruct (Hcooled (after_call (llmLocationModel config) w));
              auto|].
      left. apply getRandomStaticLocation_in.
  - rewrite (no_attempt _ _ _ Hn).
    exists (Resolver.getRandomStaticLocation host), w, [].
    split; [reflexivity|]. split; [reflexivity|].
    split; [rewrite app_nil_r; reflexivity|]. split; [constructor|].
    split; [auto|].
    left. apply getRandomStaticLocation_in.
Qed.

(** X4.  Whatever the configuration, the host and the state, a call of
    the resolver returns a location and never throws.  It leaves the travel
    log alone; the host calls it adds to the record are calls of the chat
    model and the photo services only; the cooldown afterwards is the old
    one, zero, or the failure time plus the configured duration; and the
    location is an entry of the static catalog, or the location parsed
    from the reply of the model with at most its photo URL replaced. *)
Theorem resolver_always_returns (config : Config) (host : Host) (w : World) :
  exists loc w' added,
    Resolver.generateLocationWithLLM config host w = (Ok loc, w')
    /\ pig_travel_log w' = pig_travel_log w
    /\ events w' = events w ++ added
    /\ Forall (fun e => isImageEvent e = false) added
    /\ (llmCooldownUntil w' = llmCooldownUntil w
        \/ llmCooldownUntil w' = 0
        \/ llmCooldownUntil w'
           = nowAtFailure host + default 0 (llmFailureCooldownMs config))
    /\ (In loc LOCATIONS
        \/ exists content parsed,
             chatluna host = Some (Ok (Model (Ok content)))
             /\ Resolver.parseLocationResponse (S (stackDepth host)) content
                = Ok (Some parsed)
             /\ (loc = parsed
                 \/ exists url,
                      loc = Resolver.with_landscapeUrl parsed (JStr url))).
Proof. exact (generateLocationWithLLM_spec config host w). Qed.

End ResolverEffects.

(** ** The orchestrator: the AIGC flag and the text mode *)

Section TravelEffects.
Context `{Runtime} `{Catalog}.

(** The AI image service is configured and its call returned a successful
    generation with at least one output, whose URL, if it has one,
    converts to a string. *)
Definition generationSucceeded (config : Config) (host : Host) : bool :=
  aigcEnabled config && nonempty (aigcChannel config)
  && match mediaLuna host with
     | Some (Ok generated) =>
         gen_success generated
         && match gen_output generated with
            | Some (output :: _) =>
                negb (truthy output)
                || match ToString output with
                   | Ok _ => true
                   | Throw _ => false
                   end
            | _ => false
            end
     | _ => false
     end.

Lemma flagFor_generationSucceeded (config : Config) (host : Host) :
  flagFor config host
  = Travel.is_image (outputMode config) && generationSucceeded config host.
Proof.
  unfold flagFor, generationSucceeded, aigcConfigured, aigcOutcome,
    firstOutput.
  destruct (Travel.is_image (outputMode config)); [|reflexivity].
  destruct (aigcEnabled config); [|reflexivity].
  destruct (nonempty (aigcChannel config)); [|reflexivity]. cbn [andb].
  destruct (mediaLuna host) as [[generated|e]|]; try reflexivity.
  cbn [Resolver.available andb].
  destruct (gen_success generated); [|reflexivity]. cbn [andb].
  destruct (gen_output generated) as [[|output rest]|]; try reflexivity.
  destruct (truthy output); reflexivity.
Qed.

(** The location phase returns a settled location and adds only calls of
    the chat model and the photo services. *)
Lemma chooseLocation_spec (config : Config) (host : Host) (w : World) :
  exists loc w1 added,
    chooseLocation config host w = (Ok loc, w1)
    /\ settled loc
    /\ pig_travel_log w1 = pig_travel_log w
    /\ events w1 = events w ++ added
    /\ Forall (fun e => isImageEvent e = false) added.
Proof.
  destruct (chooseLocation_returns config host w)
    as (loc & w1 & E & _ & Hs).
  exists loc, w1. revert E. unfold chooseLocation.
  destruct (llmLocationEnabled config && Resolver.available (chatluna host)).
  - destruct (generateLocationWithLLM_spec config host w)
      as (loc' & w1' & added & E' & Hl & He & Hall & _).
    rewrite E'. intros [= -> ->]. exists added. auto.
  - run_monad. intros [= <- <-]. exists []. rewrite app_nil_r. auto.
Qed.

(** X6.  An invocation returns unless the rejection of its location
    throws.  When it returns, the value of [isAIGC], in the result and in
    the inserted row, is true exactly when the output mode is image, the
    AI image service is configured and present, and its call returned a
    successful generation with a non-empty output list: whether the first
    output carries a URL plays no part, except that a URL whose conversion
    for the log line throws clears the flag.  A result without an image
    buffer has no image URL. *)
Theorem isAIGC_is_generation_success (host : Host) (config : Config)
    (userInfo : UserInfo) (platform guildId : string) (w : World) :
  exists loc w1,
    chooseLocation config host w = (Ok loc, w1)
    /\ match rejection config host loc with
       | Some e =>
           exists w',
             Travel.triggerTravelSequence host config userInfo platform
               guildId w = (Throw e, w')
       | None =>
           exists result row w',
             Travel.triggerTravelSequence host config userInfo platform
               guildId w = (Ok result, w')
             /\ pig_travel_log w' = pig_travel_log w ++ [row]
             /\ Travel.isAIGC result
                = Travel.is_image (outputMode config)
                  && generationSucceeded config host
             /\ log_isAIGC row = Travel.isAIGC result
             /\ (Travel.imageBuffer result = None ->
                 Travel.imageUrl result = JNull)
       end.
Proof.
  destruct (chooseLocation_spec config host w)
    as (loc & w1 & added & Eloc & Hs & L1 & _).
  destruct (triggerTravelSequence_run config host userInfo platform guildId
              w loc w1 Eloc Hs)
    as (m & Em & w2 & added2 & Hrun & _).
  exists loc, w1. split; [exact Eloc|].
  destruct (rejection config host loc) as [e|].
  - destruct Hrun as [E _]. eauto.
  - destruct Hrun as [E L2].
    exists (resultFor config host userInfo platform loc m),
      (rowFor config host userInfo platform guildId loc m), w2.
    split; [exact E|]. split; [rewrite L2, L1; reflexivity|].
    cbn [resultFor rowFor Travel.isAIGC log_isAIGC Travel.imageBuffer
         Travel.imageUrl].
    split; [apply flagFor_generationSucceeded|]. split; [reflexivity|].
    unfold bufferFor, urlFor.
    destruct (Travel.is_image (outputMode config)); [|reflexivity].
    destruct (cardFor config host userInfo platform loc m);
      [discriminate|reflexivity].
Qed.

(** X7.  In the text output mode the orchestrator calls neither the AI
    image service nor the card renderer nor the storage service: the host
    calls of an invocation are those of the location phase.  Its result
    has no image buffer and no image URL, and is not flagged as AIGC. *)
Theorem text_mode_makes_no_image_call (host : Host) (config : Config)
    (userInfo : UserInfo) (platform guildId : string) (w : World) :
  outputMode config = OutText ->
  exists result w' added,
    Travel.triggerTravelSequence host config userInfo platform guildId w
    = (Ok result, w')
    /\ events w' = events w ++ added
    /\ Forall (fun e => isImageEvent e = false) added
    /\ Travel.imageBuffer result = None
    /\ Travel.imageUrl result = JNull
    /\ Travel.isAIGC result = false.
Proof.
  intros Emode.
  destruct (chooseLocation_spec config host w)
    as (loc & w1 & added & Eloc & Hs & L1 & E1 & Hall).
  destruct (triggerTravelSequence_run config host userInfo platform guildId
              w loc w1 Eloc Hs)
    as (m & Em & w2 & added2 & Hrun & E2 & _ & Htext).
  unfold rejection in Hrun. rewrite Emode in Hrun, Htext.
  cbn [Travel.is_image andb] in Hrun, Htext. destruct Hrun as [E _].
  rewrite (Htext eq_refl), app_nil_r in E2.
  exists (resultFor config host userInfo platform loc m), w2, added.
  split; [exact E|]. split; [congruence|]. split; [exact Hall|].
  unfold resultFor, bufferFor, urlFor, flagFor. rewrite Emode.
  cbn. auto.
Qed.

(** X8.  Let the image service report success with a first output that
    has no URL.  Then the AIGC block, on a location whose landmark
    converts and whose prompt is built, returns no background and sets
    the flag.  An invocation in the image mode throws what the building
    of the prompt throws, if it throws; otherwise it returns a result
    flagged as AIGC all the same, whose card was rendered over the photo
    of the location. *)
Theorem aigc_flag_without_generated_background (host : Host)
    (config : Config) (generated : GenerationResult)
    (output : jsval) (rest : list jsval) :
  aigcEnabled config = true ->
  nonempty (aigcChannel config) = true ->
  mediaLuna host = Some (Ok generated) ->
  gen_success generated = true ->
  gen_output generated = Some (output :: rest) ->
  truthy output = false ->
  (forall location w prompt,
     convertible (landmark location) ->
     Travel.aigcPromptFor config location = Ok prompt ->
     Travel.aigcBackground config host location w
     = (Ok (JNull, true),
        emitted (EvMediaLuna (aigcChannel config) prompt) w))
  /\ (forall userInfo platform guildId w,
        outputMode config = OutImage ->
        exists loc w1,
          chooseLocation config host w = (Ok loc, w1)
          /\ match Travel.aigcPromptFor config loc with
             | Throw e =>
                 Travel.triggerTravelSequence host config userInfo platform
                   guildId w = (Throw e, w1)
             | Ok _ =>
                 exists result w',
                   Travel.triggerTravelSequence host config userInfo
                     platform guildId w = (Ok result, w')
                   /\ Travel.location result = loc
                   /\ Travel.isAIGC result = true
                   /\ Travel.imageBuffer result
                      = match Travel.generateFootprintCard host config
                                {| card_location := loc;
                                   card_msg := Travel.msg result |}
                                userInfo platform (landscapeUrl loc) with
                        | Ok card => Some (card_buffer card)
                        | Throw _ => None
                        end
             end).
Proof.
  intros Ea Ec Em Es Eo Et.
  assert (Hconf : aigcConfigured config host = true).
  { unfold aigcConfigured. rewrite Ea, Ec, Em. reflexivity. }
  assert (Hout : aigcOutcome host = (JNull, true)).
  { unfold aigcOutcome, firstOutput. rewrite Em, Es, Eo, Et. reflexivity. }
  split.
  - intros location w prompt [s Hl] Hp.
    rewrite aigcBackground_run, Hconf, Hl, Hp, Hout. reflexivity.
  - intros userInfo platform guildId w Emode.
    destruct (chooseLocation_spec config host w)
      as (loc & w1 & added & Eloc & Hs & _).
    destruct (triggerTravelSequence_run config host userInfo platform guildId
                w loc w1 Eloc Hs)
      as (m & _ & w2 & added2 & Hrun & E2 & _).
    exists loc, w1. split; [exact Eloc|].
    unfold rejection in Hrun. rewrite Emode, Hconf, Hout in Hrun.
    cbn [Travel.is_image andb fst truthy] in Hrun.
    destruct (Travel.aigcPromptFor config loc) as [prompt|e] eqn:Ep.
    + rewrite andb_false_r in Hrun. destruct Hrun as [E _].
      exists (resultFor config host userInfo platform loc m), w2.
      split; [exact E|].
      unfold resultFor, flagFor, bufferFor, cardFor, backgroundFor.
      rewrite Emode, Hconf, Hout. cbn. auto.
    + clear Hrun. unfold Travel.triggerTravelSequence.
      unfold chooseLocation in Eloc. unfold bind at 1. rewrite Eloc.
      destruct (travelMessage_returns config loc Hs) as [m' Em'].
      unfold bind at 1, lift at 1. rewrite Em'. rewrite Emode.
      cbn [Travel.is_image]. unfold bind at 1. unfold bind at 1.
      rewrite aigcBackground_run, Hconf.
      destruct Hs as (_ & [s Hl] & _). rewrite Hl, Ep. reflexivity.
Qed.

End TravelEffects.

(** The sample invocation in the text output mode: no image buffer. *)
Lemma text_mode_witness :
  exists result w',
    @Travel.triggerTravelSequence Demo.runtime Demo.catalog
      (Demo.host (Ok NoModel) 1000 1500) Samples.config_text Samples.visitor
      "onebot" "g1" (Demo.world 0) = (Ok result, w')
    /\ Travel.imageBuffer result = None
    /\ Travel.isAIGC result = false.
Proof.
  destruct (@text_mode_makes_no_image_call Demo.runtime Demo.catalog
              (Demo.host (Ok NoModel) 1000 1500) Samples.config_text
              Samples.visitor "onebot" "g1" (Demo.world 0) eq_refl)
    as (result & w' & added & E & _ & _ & Hb & _ & Hf).
  exists result, w'. split; [exact E|]. split; assumption.
Defined.

(** The sample image service answers with an output without URL: no
    background, and the flag is set, in the block and in an invocation. *)
Lemma aigc_flag_witness :
  @Travel.aigcBackground Demo.runtime Samples.config_aigc Samples.host_aigc
    (@LOCATION_0 Demo.catalog) (Demo.world 0)
  = (Ok (JNull, true),
     emitted (EvMediaLuna "draw" "Blue Lagoon, Iceland") (Demo.world 0))
  /\ exists result w',
       @Travel.triggerTravelSequence Demo.runtime Demo.catalog
         (Samples.host_reply Samples.reply_strings) Samples.config_aigc
         Samples.visitor "onebot" "g1" (Demo.world 0) = (Ok result, w')
       /\ Travel.isAIGC result = true.
Proof.
  split.
  - destruct (@aigc_flag_without_generated_background Demo.runtime
                Demo.catalog Samples.host_aigc Samples.config_aigc
                Samples.generated JNull []
                eq_refl eq_refl eq_refl eq_refl eq_refl eq_refl)
      as (Hblock & _).
    apply Hblock; [eexists; reflexivity|reflexivity].
  - destruct (@aigc_flag_without_generated_background Demo.runtime
                Demo.catalog (Samples.host_reply Samples.reply_strings)
                Samples.config_aigc Samples.generated JNull []
                eq_refl eq_refl eq_refl eq_refl eq_refl eq_refl)
      as (_ & Hrun).
    destruct (Hrun Samples.visitor "onebot" "g1" (Demo.world 0) eq_refl)
      as (loc & w1 & Eloc & Hcase).
    vm_compute in Eloc. injection Eloc as <- <-.
    vm_compute in Hcase.
    destruct Hcase as (result & w' & E & _ & Hflag & _).
    exists result, w'. split; [|exact Hflag]. rewrite <- E.
    vm_compute. reflexivity.
Defined.

(** ** Sorting by a column, largest first *)

Section SortFacts.
Context {A : Type}.
Variable key : A -> Z.

Lemma insertDesc_perm (a : A) (l : list A) :
  Permutation (Collections.insertDesc key a l) (a :: l).
Proof.
  induction l as [|b l IH]; simpl; [reflexivity|].
  destruct (Collections.compareDesc key a b <=? 0); [reflexivity|].
  rewrite IH. apply perm_swap.
Qed.

Lemma sortDesc_perm (l : list A) :
  Permutation (Collections.sortDesc key l) l.
Proof.
  induction l as [|a l IH]; simpl; [reflexivity|].
  rewrite insertDesc_perm. constructor. exact IH.
Qed.

Lemma insertDesc_sorted (a : A) (l : list A) :
  StronglySorted (fun x y => key x >= key y) l ->
  StronglySorted (fun x y => key x >= key y) (Collections.insertDesc key a l).
Proof.
  induction 1 as [|b l Hs IH Hb]; simpl.
  - repeat constructor.
  - unfold Collections.compareDesc.
    destruct (Z.leb_spec (key b - key a) 0).
    + constructor; [constructor; assumption|].
      constructor; [lia|].
      eapply Forall_impl; [|exact Hb]. cbn. intros; lia.
    + constructor; [exact IH|].
      eapply Permutation_Forall; [symmetry; apply insertDesc_perm|].
      constructor; [lia|exact Hb].
Qed.

Lemma sortDesc_sorted (l : list A) :
  StronglySorted (fun x y => key x >= key y) (Collections.sortDesc key l).
Proof.
  induction l as [|a l IH]; simpl; [constructor|].
  apply insertDesc_sorted. exact IH.
Qed.

Lemma insertDesc_stable (v : Z) (a : A) (l : list A) :
  List.filter (fun x => key x =? v) (Collections.insertDesc key a l)
  = List.filter (fun x => key x =? v) (a :: l).
Proof.
  induction l as [|b l IH]; simpl; [reflexivity|].
  unfold Collections.compareDesc.
  destruct (Z.leb_spec (key b - key a) 0); [reflexivity|].
  simpl. rewrite IH. simpl.
  destruct (Z.eqb_spec (key a) v), (Z.eqb_spec (key b) v);
    try reflexivity; lia.
Qed.

Lemma sortDesc_stable (v : Z) (l : list A) :
  List.filter (fun x => key x =? v) (Collections.sortDesc key l)
  = List.filter (fun x => key x =? v) l.
Proof.
  induction l as [|a l IH]; simpl; [reflexivity|].
  rewrite insertDesc_stable. simpl. rewrite IH. reflexivity.
Qed.

Lemma sortDesc_in (l : list A) (x : A) :
  In x (Collections.sortDesc key l) <-> In x l.
Proof.
  split; apply Permutation_in; [|symmetry]; apply sortDesc_perm.
Qed.

Lemma sortDesc_length (l : list A) :
  length (Collections.sortDesc key l) = length l.
Proof. apply Permutation_length, sortDesc_perm. Qed.

End SortFacts.

(** ** Maps in insertion order *)

Section MapFacts.
Context {V : Type}.

Lemma om_get_in (k : string) (m : Collections.OMap (V := V)) (v : V) :
  Collections.om_get k m = Some v -> In (k, v) m.
Proof.
  induction m as [|[k' v'] m IH]; simpl; [discriminate|].
  destruct (String.eqb_spec k' k) as [->|Hne].
  - intros [= ->]. left. reflexivity.
  - intros E. right. exact (IH E).
Qed.

Lemma om_get_none (k : string) (m : Collections.OMap (V := V)) :
  Collections.om_get k m = None <-> ~ In k (List.map fst m).
Proof.
  induction m as [|[k' v'] m IH]; simpl; [tauto|].
  destruct (String.eqb_spec k' k) as [->|Hne].
  - split; [discriminate|]. intros Hn. exfalso. apply Hn. left. reflexivity.
  - rewrite IH. tauto.
Qed.

Lemma om_update_keys (k : string) (f : V -> V)
    (m : Collections.OMap (V := V)) :
  List.map fst (Collections.om_update k f m) = List.map fst m.
Proof.
  induction m as [|[k' v'] m IH]; simpl; [reflexivity|].
  destruct (String.eqb k' k); simpl; [reflexivity|]. rewrite IH. reflexivity.
Qed.

(** What an update leaves and what it changes, in a map with distinct
    keys. *)
Lemma om_update_in (k : string) (f : V -> V)
    (m : Collections.OMap (V := V)) (k0 : string) (v0 : V) :
  NoDup (List.map fst m) ->
  In (k0, v0) (Collections.om_update k f m) ->
  (k0 <> k /\ In (k0, v0) m)
  \/ (k0 = k /\ exists old, In (k, old) m /\ v0 = f old).
Proof.
  induction m as [|[k' v'] m IH]; simpl; [tauto|].
  intros Hnd. inversion Hnd as [|? ? Hnot Hnd']; subst.
  destruct (String.eqb_spec k' k) as [->|Hne]; simpl.
  - intros [[= <- <-]|Hin].
    + right. split; [reflexivity|]. exists v'. auto.
    + left. split; [|right; exact Hin].
      intros ->. apply Hnot. apply (in_map fst) in Hin. exact Hin.
  - intros [[= <- <-]|Hin].
    + left. split; [exact Hne|left; reflexivity].
    + destruct (IH Hnd' Hin) as [[Hn Hi]|[-> (old & Hi & ->)]].
      * left. split; [exact Hn|right; exact Hi].
      * right. split; [reflexivity|]. exists old. split; [right; exact Hi|].
        reflexivity.
Qed.

End MapFacts.

(** ** The visited countries of the world map *)

Section VisitsFacts.
Variable getCountryISOCode : string -> option string.
Variable getPrimaryCountryNameEn : string -> option string.
Variable getPrimaryCountryNameZh : string -> option string.

Abbreviation VisitLog := Leaderboard.PigTravelLog.
Abbreviation isoOf := (Visits.isoOf getCountryISOCode).
Abbreviation countVisit :=
  (Visits.countVisit getCountryISOCode getPrimaryCountryNameEn
     getPrimaryCountryNameZh).
Abbreviation visitUser :=
  (Visits.visitUser getCountryISOCode getPrimaryCountryNameEn
     getPrimaryCountryNameZh).
Abbreviation visitGuild :=
  (Visits.visitGuild getCountryISOCode getPrimaryCountryNameEn
     getPrimaryCountryNameZh).

(** The log resolves to the ISO code [iso]. *)
Definition hasIso (iso : string) (log : VisitLog) : bool :=
  match isoOf log with
  | Some code => String.eqb code iso
  | None => false
  end.

(** The logs that resolve to the ISO code [iso]. *)
Definition visitsTo (iso : string) (logs : list VisitLog) : list VisitLog :=
  List.filter (hasIso iso) logs.

(** An entry of the map is the tally of the logs of its code. *)
Definition talliedEntry (done : list VisitLog) (k : string)
    (c : Visits.VisitedCountry) : Prop :=
  Visits.isoCode c = k
  /\ Visits.visitCount c = Z.of_nat (length (visitsTo k done))
  /\ (forall log, In log (visitsTo k done) ->
        Visits.firstVisit c <= Leaderboard.timestamp log
        <= Visits.lastVisit c)
  /\ (exists log, In log (visitsTo k done)
                  /\ Leaderboard.timestamp log = Visits.firstVisit c)
  /\ (exists log, In log (visitsTo k done)
                  /\ Leaderboard.timestamp log = Visits.lastVisit c).

Definition tallied (done : list VisitLog)
    (countryMap : Collections.OMap (V := Visits.VisitedCountry)) : Prop :=
  NoDup (List.map fst countryMap)
  /\ (forall k c, In (k, c) countryMap -> talliedEntry done k c)
  /\ (forall k log, In log (visitsTo k done) ->
        In k (List.map fst countryMap)).

Lemma hasIso_iff (iso : string) (log : VisitLog) :
  hasIso iso log = true <-> isoOf log = Some iso.
Proof.
  unfold hasIso. destruct (isoOf log) as [code|]; [|split; discriminate].
  rewrite String.eqb_eq. split; congruence.
Qed.

Lemma visitsTo_snoc (k : string) (done : list VisitLog) (x : VisitLog) :
  visitsTo k (done ++ [x])
  = visitsTo k done ++ (if hasIso k x then [x] else []).
Proof. unfold visitsTo. rewrite List.filter_app. reflexivity. Qed.

Lemma talliedEntry_other (done : list VisitLog) (x : VisitLog)
    (k : string) (c : Visits.VisitedCountry) :
  hasIso k x = false -> talliedEntry done k c ->
  talliedEntry (done ++ [x]) k c.
Proof.
  intros Hx. unfold talliedEntry. rewrite visitsTo_snoc, Hx, app_nil_r.
  tauto.
Qed.

Lemma tallied_step (done : list VisitLog) (x : VisitLog)
    (countryMap : Collections.OMap (V := Visits.VisitedCountry)) :
  tallied done countryMap ->
  tallied (done ++ [x]) (countVisit countryMap x).
Proof.
  intros (Hnd & Hall & Hkeys). unfold Visits.countVisit.
  destruct (isoOf x) as [iso|] eqn:Eiso.
  2: { assert (Hx : forall k, hasIso k x = false)
         by (intros k; unfold hasIso; rewrite Eiso; reflexivity).
       split; [exact Hnd|]. split.
       - intros k c Hin. apply talliedEntry_other; auto.
       - intros k log. rewrite visitsTo_snoc, Hx, app_nil_r. apply Hkeys. }
  assert (Hiso : hasIso iso x = true) by (apply hasIso_iff; exact Eiso).
  assert (Hother : forall k, k <> iso -> hasIso k x = false).
  { intros k Hk. destruct (hasIso k x) eqn:E; [|reflexivity].
    apply hasIso_iff in E. congruence. }
  destruct (Collections.om_get iso countryMap) as [existing|] eqn:Eget.
  - (* a further visit *)
    pose proof (om_get_in _ _ _ Eget) as Hex.
    split; [rewrite om_update_keys; exact Hnd|]. split.
    + intros k c Hin.
      destruct (om_update_in _ _ _ _ _ Hnd Hin)
        as [[Hk Hin']|[-> (old & Hold & ->)]].
      * apply talliedEntry_other; auto.
      * destruct (Hall _ _ Hold) as (H1 & H2 & H3 & (l1 & L1 & T1)
                                     & (l2 & L2 & T2)).
        unfold talliedEntry. rewrite visitsTo_snoc, Hiso.
        cbn [Visits.visitAgain Visits.isoCode Visits.visitCount
             Visits.firstVisit Visits.lastVisit].
        split; [exact H1|].
        split; [rewrite length_app; cbn [length]; lia|].
        split; [|split].
        -- intros log Hl. apply in_app_iff in Hl as [Hl|[<-|[]]].
           ++ specialize (H3 log Hl).
              destruct (Z.ltb_spec (Leaderboard.timestamp x)
                          (Visits.firstVisit old)),
                       (Z.gtb_spec (Leaderboard.timestamp x)
                          (Visits.lastVisit old)); lia.
           ++ specialize (H3 l1 L1).
              destruct (Z.ltb_spec (Leaderboard.timestamp x)
                          (Visits.firstVisit old)),
                       (Z.gtb_spec (Leaderboard.timestamp x)
                          (Visits.lastVisit old)); lia.
        -- destruct (Z.ltb_spec (Leaderboard.timestamp x)
                       (Visits.firstVisit old)).
           ++ exists x. split; [apply in_app_iff; right; left|]; reflexivity.
           ++ exists l1. split; [apply in_app_iff; left; exact L1|exact T1].
        -- destruct (Z.gtb_spec (Leaderboard.timestamp x)
                       (Visits.lastVisit old)).
           ++ exists x. split; [apply in_app_iff; right; left|]; reflexivity.
           ++ exists l2. split; [apply in_app_iff; left; exact L2|exact T2].
    + intros k log. rewrite om_update_keys, visitsTo_snoc.
      intros Hl. apply in_app_iff in Hl as [Hl|Hl]; [eauto|].
      destruct (hasIso k x) eqn:E; [|destruct Hl].
      apply hasIso_iff in E. assert (k = iso) by congruence. subst k.
      apply (in_map fst) in Hex. exact Hex.
  - (* the first visit *)
    pose proof (proj1 (om_get_none _ _) Eget) as Hnew.
    assert (Hnone : visitsTo iso done = []).
    { destruct (visitsTo iso done) as [|log rest] eqn:E; [reflexivity|].
      exfalso. apply Hnew. apply (Hkeys iso log). rewrite E. left.
      reflexivity. }
    unfold Collections.om_set, Collections.om_has. rewrite Eget.
    split; [|split].
    + rewrite List.map_app. cbn [List.map fst].
      apply NoDup_app;
        [exact Hnd|repeat constructor; intros []
        |intros k Hk [<-|[]]; exact (Hnew Hk)].
    + intros k c Hin. apply in_app_iff in Hin as [Hin|[[= <- <-]|[]]].
      * apply talliedEntry_other; [|auto]. apply Hother.
        intros ->. apply Hnew. apply (in_map fst) in Hin. exact Hin.
      * unfold talliedEntry. rewrite visitsTo_snoc, Hiso, Hnone.
        cbn [app length Visits.newCountry Visits.isoCode Visits.visitCount
             Visits.firstVisit Visits.lastVisit].
        split; [reflexivity|]. split; [reflexivity|].
        split; [intros log [<-|[]]; lia|].
        split; exists x; (split; [left|]; reflexivity).
    + intros k log. rewrite List.map_app, visitsTo_snoc. cbn [List.map fst].
      intros Hl. apply in_app_iff.
      apply in_app_iff in Hl as [Hl|Hl]; [left; eauto|].
      destruct (hasIso k x) eqn:E; [|destruct Hl].
      apply hasIso_iff in E. assert (k = iso) by congruence. subst k.
      right. left. reflexivity.
Qed.

Lemma tallied_nil : tallied [] [].
Proof.
  split; [constructor|]. split; [intros k c []|intros k log []].
Qed.


(** The first and the last trip span the logs. *)
Definition spans (logs : list VisitLog) (first last : option Z) : Prop :=
  match logs with
  | [] => first = None /\ last = None
  | _ =>
      exists f l,
        first = Some f /\ last = Some l
        /\ (forall log, In log logs -> f <= Leaderboard.timestamp log <= l)
        /\ (exists log, In log logs /\ Leaderboard.timestamp log = f)
        /\ (exists log, In log logs /\ Leaderboard.timestamp log = l)
  end.

Lemma spans_step (done : list VisitLog) (x : VisitLog)
    (first last : option Z) :
  spans done first last ->
  spans (done ++ [x]) (Visits.earliest first (Leaderboard.timestamp x))
    (Visits.latest last (Leaderboard.timestamp x)).
Proof.
  intros Hs.
  assert (Hgoal : exists f l,
             Visits.earliest first (Leaderboard.timestamp x) = Some f
             /\ Visits.latest last (Leaderboard.timestamp x) = Some l
             /\ (forall log, In log (done ++ [x]) ->
                   f <= Leaderboard.timestamp log <= l)
             /\ (exists log, In log (done ++ [x])
                             /\ Leaderboard.timestamp log = f)
             /\ (exists log, In log (done ++ [x])
                             /\ Leaderboard.timestamp log = l)).
  { destruct done as [|d done].
    - destruct Hs as [-> ->]. cbn.
      exists (Leaderboard.timestamp x), (Leaderboard.timestamp x).
      split; [reflexivity|]. split; [reflexivity|].
      split; [intros log [<-|[]]; lia|].
      split; exists x; (split; [left; reflexivity|reflexivity]).
    - destruct Hs as (f & l & -> & -> & Hall & (l1 & L1 & T1)
                      & (l2 & L2 & T2)).
      cbn [Visits.earliest Visits.latest].
      destruct (Z.ltb_spec (Leaderboard.timestamp x) f),
               (Z.gtb_spec (Leaderboard.timestamp x) l);
        eexists _, _; (split; [reflexivity|]); (split; [reflexivity|]);
        (split; [intros log Hl; apply in_app_iff in Hl as [Hl|[<-|[]]];
                 [specialize (Hall log Hl)|specialize (Hall l1 L1)]; lia|]);
        split;
        first [exists x; split; [apply in_app_iff; right; left|];
               reflexivity
              |exists l1; split; [apply in_app_iff; left; exact L1|exact T1]
              |exists l2; split; [apply in_app_iff; left; exact L2|exact T2]]. }
  unfold spans. destruct (done ++ [x]) eqn:E; [|exact Hgoal].
  destruct done; discriminate.
Qed.

(** The sum of the visit counts. *)
Definition sumVisits (countries : list Visits.VisitedCountry) : Z :=
  fold_right (fun c acc => Visits.visitCount c + acc) 0 countries.

(** The logs that resolve to some ISO code. *)
Definition mapped (logs : list VisitLog) : list VisitLog :=
  List.filter (fun log => match isoOf log with
                          | Some _ => true
                          | None => false
                          end) logs.

Lemma sumVisits_app (a b : list Visits.VisitedCountry) :
  sumVisits (a ++ b) = sumVisits a + sumVisits b.
Proof.
  unfold sumVisits. induction a as [|c a IH]; cbn [app fold_right];
    [reflexivity|].
  rewrite IH. lia.
Qed.

Lemma sumVisits_perm (a b : list Visits.VisitedCountry) :
  Permutation a b -> sumVisits a = sumVisits b.
Proof.
  unfold sumVisits.
  induction 1 as [|x a b _ IH|x y a|a b c _ IH1 _ IH2]; cbn [fold_right];
    lia.
Qed.

Lemma sumVisits_update (iso : string) (visitDate : Z)
    (countryMap : Collections.OMap (V := Visits.VisitedCountry))
    (existing : Visits.VisitedCountry) :
  Collections.om_get iso countryMap = Some existing ->
  sumVisits (Collections.om_values
               (Collections.om_update iso (Visits.visitAgain visitDate)
                  countryMap))
  = sumVisits (Collections.om_values countryMap) + 1.
Proof.
  unfold Collections.om_values, sumVisits.
  induction countryMap as [|[k c] m IH];
    cbn [Collections.om_get Collections.om_update]; [discriminate|].
  destruct (String.eqb k iso);
    cbn [List.map fold_right snd Visits.visitAgain Visits.visitCount].
  - intros _. lia.
  - intros E. rewrite (IH E). lia.
Qed.

Lemma sumVisits_step (done : list VisitLog) (x : VisitLog)
    (countryMap : Collections.OMap (V := Visits.VisitedCountry)) :
  sumVisits (Collections.om_values countryMap)
  = Z.of_nat (length (mapped done)) ->
  sumVisits (Collections.om_values (countVisit countryMap x))
  = Z.of_nat (length (mapped (done ++ [x]))).
Proof.
  intros Hs. unfold mapped in *. rewrite List.filter_app, length_app.
  cbn [List.filter]. unfold Visits.countVisit.
  destruct (isoOf x) as [iso|]; cbn [length]; [|lia].
  destruct (Collections.om_get iso countryMap) as [existing|] eqn:Eget.
  - rewrite (sumVisits_update _ _ _ _ Eget). lia.
  - unfold Collections.om_set, Collections.om_has. rewrite Eget.
    unfold Collections.om_values in *. rewrite List.map_app, sumVisits_app.
    unfold sumVisits at 2.
    cbn [List.map fold_right snd Visits.newCountry Visits.visitCount]. lia.
Qed.

(** The loop of the query of a user, after any number of logs. *)
Lemma visitUser_fold (logs : list VisitLog) :
  let t := fold_left visitUser logs Visits.noTally in
  tallied logs (Visits.countryMap t)
  /\ spans logs (Visits.firstTrip t) (Visits.lastTrip t)
  /\ sumVisits (Collections.om_values (Visits.countryMap t))
     = Z.of_nat (length (mapped logs)).
Proof.
  induction logs as [|x logs IH] using rev_ind.
  - cbn. split; [apply tallied_nil|]. auto.
  - cbn zeta in *. rewrite fold_left_app. cbn [fold_left].
    destruct IH as (Ht & Hs & Hsum).
    cbn [Visits.visitUser Visits.countryMap Visits.firstTrip Visits.lastTrip].
    split; [apply tallied_step; exact Ht|].
    split; [apply spans_step; exact Hs|].
    apply sumVisits_step. exact Hsum.
Qed.

(** The loop of the query of a guild does the same, and collects the
    users. *)
Lemma visitGuild_fold (logs : list VisitLog) :
  let t := fold_left visitGuild logs Visits.noTally in
  let u := fold_left visitUser logs Visits.noTally in
  Visits.countryMap t = Visits.countryMap u
  /\ Visits.firstTrip t = Visits.firstTrip u
  /\ Visits.lastTrip t = Visits.lastTrip u
  /\ Visits.userSet t = list_to_set (List.map Leaderboard.userId logs).
Proof.
  induction logs as [|x logs IH] using rev_ind.
  - cbn. repeat split; reflexivity.
  - cbn zeta in *. rewrite !fold_left_app. cbn [fold_left].
    destruct IH as (H1 & H2 & H3 & H4).
    cbn [Visits.visitGuild Visits.visitUser Visits.countryMap
         Visits.firstTrip Visits.lastTrip Visits.userSet].
    rewrite H1, H2, H3, H4. repeat split; try reflexivity.
    rewrite List.map_app, list_to_set_app_L. cbn [List.map list_to_set].
    rewrite (right_id_L ∅ (∪)). reflexivity.
Qed.


(** The ranked countries after the loop over [logs]. *)
Lemma ranked_facts (logs : list VisitLog) :
  let t := fold_left visitUser logs Visits.noTally in
  let countries := Visits.ranked (Visits.countryMap t) in
  NoDup (List.map Visits.isoCode countries)
  /\ (forall c, In c countries -> talliedEntry logs (Visits.isoCode c) c)
  /\ (forall log iso, In log logs -> isoOf log = Some iso ->
        exists c, In c countries /\ Visits.isoCode c = iso)
  /\ sumVisits countries = Z.of_nat (length (mapped logs))
  /\ StronglySorted
       (fun a b => Visits.visitCount a >= Visits.visitCount b) countries.
Proof.
  cbn zeta. destruct (visitUser_fold logs) as ((Hnd & Hall & Hkeys) & _ & Hsum).
  set (cm := Visits.countryMap (fold_left visitUser logs Visits.noTally)) in *.
  unfold Visits.ranked.
  pose proof (sortDesc_perm Visits.visitCount (Collections.om_values cm))
    as Hperm.
  assert (Hin : forall c, In c (Collections.om_values cm) ->
                          In (Visits.isoCode c, c) cm).
  { intros c Hc. unfold Collections.om_values in Hc.
    apply in_map_iff in Hc as ([k c'] & <- & Hc). cbn.
    destruct (Hall _ _ Hc) as (-> & _). exact Hc. }
  assert (Hcodes : List.map Visits.isoCode (Collections.om_values cm)
                   = List.map fst cm).
  { unfold Collections.om_values. rewrite List.map_map.
    apply map_ext_in. intros [k c] Hc. cbn.
    destruct (Hall _ _ Hc) as (-> & _). reflexivity. }
  split; [|split; [|split; [|split]]].
  - eapply Permutation_NoDup;
      [apply Permutation_map; symmetry; exact Hperm|].
    rewrite Hcodes. exact Hnd.
  - intros c Hc. apply (proj1 (sortDesc_in Visits.visitCount _ _)) in Hc.
    apply Hall, Hin, Hc.
  - intros log iso Hlog Hiso.
    assert (Hk : In iso (List.map fst cm)).
    { apply (Hkeys iso log). unfold visitsTo. apply filter_In.
      split; [exact Hlog|]. apply hasIso_iff. exact Hiso. }
    apply in_map_iff in Hk as ([k c] & Hk & Hc). cbn in Hk. subst k.
    exists c. split.
    + apply (proj2 (sortDesc_in Visits.visitCount _ _)).
      unfold Collections.om_values.
      apply in_map_iff. exists (iso, c). auto.
    + destruct (Hall _ _ Hc) as (-> & _). reflexivity.
  - rewrite (sumVisits_perm _ _ Hperm). exact Hsum.
  - apply sortDesc_sorted.
Qed.

Lemma talliedEntry_positive (logs : list VisitLog) (k : string)
    (c : Visits.VisitedCountry) :
  talliedEntry logs k c -> 1 <= Visits.visitCount c.
Proof.
  intros (_ & -> & _ & (log & Hl & _) & _).
  destruct (visitsTo k logs); [destruct Hl|]. cbn [length]. lia.
Qed.

Lemma mapped_length (logs : list VisitLog) :
  (length (mapped logs) <= length logs)%nat.
Proof. apply List.filter_length_le. Qed.

Lemma visited_countries_count_logs_aux (table : list VisitLog)
    (userId platform : string) (guildId : option string) :
  let logs := Visits.logsOfUser table userId platform guildId in
  let v := Visits.getUserVisitedCountries getCountryISOCode
             getPrimaryCountryNameEn getPrimaryCountryNameZh table userId
             platform guildId in
  Visits.totalTrips v = Z.of_nat (length logs)
  /\ NoDup (List.map Visits.isoCode (Visits.visitedCountries v))
  /\ (forall c, In c (Visits.visitedCountries v) ->
        Visits.visitCount c
        = Z.of_nat (length (visitsTo (Visits.isoCode c) logs))
        /\ 1 <= Visits.visitCount c)
  /\ (forall log iso, In log logs -> isoOf log = Some iso ->
        exists c, In c (Visits.visitedCountries v)
                  /\ Visits.isoCode c = iso)
  /\ sumVisits (Visits.visitedCountries v) = Z.of_nat (length (mapped logs))
  /\ sumVisits (Visits.visitedCountries v) <= Visits.totalTrips v
  /\ StronglySorted
       (fun a b => Visits.visitCount a >= Visits.visitCount b)
       (Visits.visitedCountries v).
Proof.
  cbn zeta. unfold Visits.getUserVisitedCountries.
  set (logs := Visits.logsOfUser table userId platform guildId).
  destruct (Nat.eqb_spec (length logs) 0) as [E0|Hne];
    cbn [Visits.totalTrips Visits.visitedCountries].
  - destruct logs; [|discriminate]. cbn.
    repeat split; try constructor; try lia; intros ? [].
  - destruct (ranked_facts logs) as (Hnd & Hall & Hcover & Hsum & Hsorted).
    split; [reflexivity|]. split; [exact Hnd|].
    split; [intros c Hc; split;
            [exact (proj1 (proj2 (Hall c Hc)))
            |exact (talliedEntry_positive _ _ _ (Hall c Hc))]|].
    split; [exact Hcover|]. split; [exact Hsum|]. split; [|exact Hsorted].
    rewrite Hsum. pose proof (mapped_length logs). lia.
Qed.

(** X9.  The query of a user answers with one entry per ISO code that the
    logs of the user resolve to, with distinct codes.  The visit count of
    an entry is the number of the logs that resolve to its code, at least
    1; logs that resolve to no code are counted in [totalTrips] only, so
    the counts add up to the number of resolved logs, at most
    [totalTrips].  The entries come with the larger count first. *)
Theorem visited_countries_count_logs (table : list VisitLog)
    (userId platform : string) (guildId : option string) :
  let logs := Visits.logsOfUser table userId platform guildId in
  let v := Visits.getUserVisitedCountries getCountryISOCode
             getPrimaryCountryNameEn getPrimaryCountryNameZh table userId
             platform guildId in
  Visits.totalTrips v = Z.of_nat (length logs)
  /\ NoDup (List.map Visits.isoCode (Visits.visitedCountries v))
  /\ (forall c, In c (Visits.visitedCountries v) ->
        Visits.visitCount c
        = Z.of_nat (length (visitsTo (Visits.isoCode c) logs))
        /\ 1 <= Visits.visitCount c)
  /\ (forall log iso, In log logs -> isoOf log = Some iso ->
        exists c, In c (Visits.visitedCountries v)
                  /\ Visits.isoCode c = iso)
  /\ sumVisits (Visits.visitedCountries v) = Z.of_nat (length (mapped logs))
  /\ sumVisits (Visits.visitedCountries v) <= Visits.totalTrips v
  /\ StronglySorted
       (fun a b => Visits.visitCount a >= Visits.visitCount b)
       (Visits.visitedCountries v).
Proof.
  exact (visited_countries_count_logs_aux table userId platform guildId).
Qed.

(** X10.  In the answer to the query of a user the first and the last
    trip are the earliest and the latest time of all logs of the user,
    also of those that resolve to no country, and they are absent exactly
    when there is no log.  The first and the last visit of a country are
    the earliest and the latest time of the logs of its code; so first
    trip <= first visit <= last visit <= last trip. *)
Theorem visited_countries_dates (table : list VisitLog)
    (userId platform : string) (guildId : option string) :
  let logs := Visits.logsOfUser table userId platform guildId in
  let v := Visits.getUserVisitedCountries getCountryISOCode
             getPrimaryCountryNameEn getPrimaryCountryNameZh table userId
             platform guildId in
  spans logs (Visits.v_firstTrip v) (Visits.v_lastTrip v)
  /\ (forall c, In c (Visits.visitedCountries v) ->
        (forall log, In log (visitsTo (Visits.isoCode c) logs) ->
           Visits.firstVisit c <= Leaderboard.timestamp log
           <= Visits.lastVisit c)
        /\ (exists log, In log (visitsTo (Visits.isoCode c) logs)
                        /\ Leaderboard.timestamp log = Visits.firstVisit c)
        /\ (exists log, In log (visitsTo (Visits.isoCode c) logs)
                        /\ Leaderboard.timestamp log = Visits.lastVisit c)
        /\ exists first last,
             Visits.v_firstTrip v = Some first
             /\ Visits.v_lastTrip v = Some last
             /\ first <= Visits.firstVisit c
             /\ Visits.firstVisit c <= Visits.lastVisit c
             /\ Visits.lastVisit c <= last).
Proof.
  cbn zeta. unfold Visits.getUserVisitedCountries.
  set (logs := Visits.logsOfUser table userId platform guildId).
  destruct (Nat.eqb_spec (length logs) 0) as [E0|Hne];
    cbn [Visits.v_firstTrip Visits.v_lastTrip Visits.visitedCountries].
  - destruct logs; [|discriminate]. cbn. split; [auto|intros c []].
  - destruct (ranked_facts logs) as (_ & Hall & _).
    destruct (visitUser_fold logs) as (_ & Hs & _).
    split; [exact Hs|]. intros c Hc.
    destruct (Hall c Hc) as (_ & _ & H3 & (l1 & L1 & T1) & (l2 & L2 & T2)).
    split; [exact H3|]. split; [eauto|]. split; [eauto|].
    unfold spans in Hs. destruct logs as [|l0 logs0]; [contradiction|].
    destruct Hs as (f & l & Ef & El & Hrange & _).
    exists f, l. split; [exact Ef|]. split; [exact El|].
    assert (In1 : In l1 (l0 :: logs0))
      by (unfold visitsTo in L1; apply filter_In in L1; tauto).
    assert (In2 : In l2 (l0 :: logs0))
      by (unfold visitsTo in L2; apply filter_In in L2; tauto).
    pose proof (Hrange l1 In1). pose proof (Hrange l2 In2).
    pose proof (H3 l1 L1). lia.
Qed.


Lemma size_list_to_set_le (l : list string) :
  (size (list_to_set l : gset string) <= length l)%nat.
Proof.
  induction l as [|a l IH]; cbn [list_to_set length].
  - rewrite size_empty. lia.
  - rewrite size_union_alt, size_singleton.
    assert (Hsub : (list_to_set l : gset string) ∖ {[a]} ⊆ list_to_set l)
      by apply subseteq_difference_l, reflexivity.
    apply subseteq_size in Hsub. lia.
Qed.

Lemma size_list_to_set_pos (a : string) (l : list string) :
  (1 <= size (list_to_set (a :: l) : gset string))%nat.
Proof.
  cbn [list_to_set]. rewrite size_union_alt, size_singleton. lia.
Qed.

(** X11.  The query of a guild counts the countries as the query of a
    user does, over the logs of the guild, and answers besides with the
    number of distinct users of these logs: at least 1 and at most the
    number of trips when the guild has logs, and 0 when it has none. *)
Theorem guild_visits_count_users (table : list VisitLog)
    (guildId platform : string) :
  let logs := Leaderboard.database_get table guildId platform in
  let g := Visits.getGuildVisitedCountries getCountryISOCode
             getPrimaryCountryNameEn getPrimaryCountryNameZh table guildId
             platform in
  Visits.totalTrips g = Z.of_nat (length logs)
  /\ Visits.uniqueUsers g
     = Some (Z.of_nat
               (size (list_to_set (List.map Leaderboard.userId logs)
                      : gset string)))
  /\ (exists users,
        Visits.uniqueUsers g = Some users
        /\ users <= Visits.totalTrips g
        /\ (users = 0 <-> logs = []))
  /\ NoDup (List.map Visits.isoCode (Visits.visitedCountries g))
  /\ (forall c, In c (Visits.visitedCountries g) ->
        Visits.visitCount c
        = Z.of_nat (length (visitsTo (Visits.isoCode c) logs))
        /\ 1 <= Visits.visitCount c)
  /\ spans logs (Visits.v_firstTrip g) (Visits.v_lastTrip g)
  /\ StronglySorted
       (fun a b => Visits.visitCount a >= Visits.visitCount b)
       (Visits.visitedCountries g).
Proof.
  cbn zeta. unfold Visits.getGuildVisitedCountries.
  set (logs := Leaderboard.database_get table guildId platform).
  destruct (Nat.eqb_spec (length logs) 0) as [E0|Hne];
    cbn [Visits.totalTrips Visits.visitedCountries Visits.uniqueUsers
         Visits.v_firstTrip Visits.v_lastTrip].
  - destruct logs; [|discriminate]. cbn.
    split; [reflexivity|]. split; [reflexivity|].
    split; [exists 0; repeat split; auto; lia|].
    split; [constructor|]. split; [intros c []|].
    split; [auto|constructor].
  - destruct (visitGuild_fold logs) as (-> & -> & -> & ->).
    destruct (ranked_facts logs) as (Hnd & Hall & _ & _ & Hsorted).
    destruct (visitUser_fold logs) as (_ & Hs & _).
    pose proof (size_list_to_set_le (List.map Leaderboard.userId logs))
      as Hle.
    rewrite length_map in Hle.
    split; [reflexivity|]. split; [reflexivity|].
    split.
    { eexists. split; [reflexivity|]. split; [lia|].
      destruct logs as [|l0 logs0]; [contradiction|].
      pose proof (size_list_to_set_pos (Leaderboard.userId l0)
                    (List.map Leaderboard.userId logs0)) as Hpos.
      cbn [List.map]. split; [lia|discriminate]. }
    split; [exact Hnd|].
    split; [intros c Hc; split;
            [exact (proj1 (proj2 (Hall c Hc)))
            |exact (talliedEntry_positive _ _ _ (Hall c Hc))]|].
    split; [exact Hs|exact Hsorted].
Qed.

Lemma length_le_sumVisits (countries : list Visits.VisitedCountry) :
  (forall c, In c countries -> 1 <= Visits.visitCount c) ->
  Z.of_nat (length countries) <= sumVisits countries.
Proof.
  unfold sumVisits. induction countries as [|c l IH]; intros Hall;
    cbn [length fold_right]; [lia|].
  pose proof (Hall c (or_introl eq_refl)).
  specialize (IH (fun c' H' => Hall c' (or_intror H'))). lia.
Qed.

(** X12.  Every country that the data of a world map hands to the
    patcher has a tier: its visit count is at least 1, so its class is
    [visited-2], [visited-3] or [visited-4] and never the bare [visited].
    The number of countries is at most the number of trips, and the
    number of trips is 0 exactly when the user has no log. *)
Theorem world_map_countries_have_a_tier (table : list VisitLog)
    (userId platform username avatarUrl : string) (guildId : option string) :
  let d := Visits.prepareWorldMapData getCountryISOCode
             getPrimaryCountryNameEn getPrimaryCountryNameZh table userId
             platform username avatarUrl guildId in
  Forall (fun c =>
            WorldMap.getVisitClass (Visits.visitCount c)
              = WorldMap.lit "visited-2"
            \/ WorldMap.getVisitClass (Visits.visitCount c)
               = WorldMap.lit "visited-3"
            \/ WorldMap.getVisitClass (Visits.visitCount c)
               = WorldMap.lit "visited-4")
    (Visits.d_visitedCountries d)
  /\ Visits.d_totalCountries d <= Visits.d_totalTrips d
  /\ (Visits.d_totalTrips d = 0
      <-> Visits.logsOfUser table userId platform guildId = []).
Proof.
  cbn zeta. unfold Visits.prepareWorldMapData.
  cbn [Visits.d_visitedCountries Visits.d_totalCountries
       Visits.d_totalTrips].
  destruct (visited_countries_count_logs_aux table userId platform guildId)
    as (Htotal & _ & Hcount & _ & _ & Hsum & _).
  set (v := Visits.getUserVisitedCountries _ _ _ table userId platform
              guildId) in *.
  split; [|split].
  - apply Forall_forall. intros c Hc. destruct (Hcount c Hc) as [_ H1].
    unfold WorldMap.getVisitClass.
    destruct (Z.geb_spec (Visits.visitCount c) 5); [auto|].
    destruct (Z.geb_spec (Visits.visitCount c) 3); [auto|].
    destruct (Z.geb_spec (Visits.visitCount c) 1); [auto|lia].
  - pose proof (length_le_sumVisits (Visits.visitedCountries v)
                  (fun c Hc => proj2 (Hcount c Hc))). lia.
  - rewrite Htotal.
    destruct (Visits.logsOfUser table userId platform guildId);
      cbn [length]; split; try discriminate; try reflexivity; lia.
Qed.

End VisitsFacts.

(** ** The sleep leaderboard *)

Section SleepBoardFacts.
Variable hourlyEntries : string -> option (list (string * Z)).
Variable parseInt : string -> Z.

Abbreviation peakStep := (SleepBoard.peakStep parseInt).

Lemma peak_fold (entries : list (string * Z)) (peak0 max0 : Z) :
  (Forall (fun e => snd e <= max0) entries
   /\ fold_left peakStep entries (peak0, max0) = (peak0, max0))
  \/ exists before hour count after,
       entries = before ++ (hour, count) :: after
       /\ fold_left peakStep entries (peak0, max0) = (parseInt hour, count)
       /\ count > max0
       /\ Forall (fun e => snd e < count) before
       /\ Forall (fun e => snd e <= count) after.
Proof.
  revert peak0 max0. induction entries as [|[h c] rest IH]; intros peak0 max0.
  - left. split; [constructor|reflexivity].
  - cbn [fold_left SleepBoard.peakStep].
    destruct (Z.gtb_spec c max0) as [Hgt|Hle].
    + right. destruct (IH (parseInt h) c)
        as [[Hall ->]|(before & hour & count & after & -> & -> & Hc & Hb & Ha)].
      * exists [], h, c, rest. cbn. repeat split; auto. lia.
      * exists ((h, c) :: before), hour, count, after. cbn [app].
        split; [reflexivity|]. split; [reflexivity|]. split; [lia|].
        split; [constructor; [cbn; lia|exact Hb]|exact Ha].
    + destruct (IH peak0 max0)
        as [[Hall ->]|(before & hour & count & after & -> & -> & Hc & Hb & Ha)].
      * left. split; [constructor; [cbn; lia|exact Hall]|reflexivity].
      * right. exists ((h, c) :: before), hour, count, after. cbn [app].
        split; [reflexivity|]. split; [reflexivity|]. split; [lia|].
        split; [constructor; [cbn; lia|exact Hb]|exact Ha].
Qed.

Lemma firstn_subset {A : Type} (n : nat) (l : list A) (x : A) :
  In x (firstn n l) -> In x l.
Proof.
  revert l. induction n as [|n IH]; intros [|y l]; cbn; try tauto.
  intros [->|H]; [left; reflexivity|right; exact (IH l H)].
Qed.

(** X13.  The peak hour of a user is the hour of the first entry of the
    hourly record, in the order of its keys, whose count is the largest,
    when some count is positive.  It is 0 when no count is positive, and
    when the record is absent, empty or does not parse. *)
Theorem peak_hour_is_first_maximum (s : Stats.PigUserState) :
  let peak := SleepBoard.peakHourOf hourlyEntries parseInt s in
  (forall text entries,
     Stats.hourlyMessageCounts s = Some text -> nonempty text = true ->
     hourlyEntries text = Some entries ->
     (Forall (fun e => snd e <= 0) entries /\ peak = 0)
     \/ exists before hour count after,
          entries = before ++ (hour, count) :: after
          /\ peak = parseInt hour
          /\ count > 0
          /\ Forall (fun e => snd e < count) before
          /\ Forall (fun e => snd e <= count) after)
  /\ (Stats.hourlyMessageCounts s = None -> peak = 0)
  /\ (Stats.hourlyMessageCounts s = Some "" -> peak = 0)
  /\ (forall text, Stats.hourlyMessageCounts s = Some text ->
                   hourlyEntries text = None -> peak = 0).
Proof.
  cbn zeta. unfold SleepBoard.peakHourOf. split; [|split; [|split]].
  - intros text entries -> -> ->.
    destruct (peak_fold entries 0 0)
      as [[Hall ->]|(before & hour & count & after & -> & -> & H)].
    + left. auto.
    + right. exists before, hour, count, after. cbn [fst]. tauto.
  - intros ->. reflexivity.
  - intros ->. reflexivity.
  - intros text -> ->. destruct (nonempty text); reflexivity.
Qed.

(** X14.  The sleep leaderboard lists rows of the guild and platform
    asked for, and only those whose night-owl count is positive: a user
    whose count is absent or 0 never appears.  It is the first [limit]
    entries of a ranking that has one entry for each such row, is
    descending in the night-owl count and keeps rows of equal count in
    the order of the table. *)
Theorem sleep_board_lists_night_owls (table : list Stats.PigUserState)
    (g p : string) (limit : nat) :
  let out := SleepBoard.getSleepLeaderboard hourlyEntries parseInt table g p
               limit in
  let owls := List.filter
                (fun s => default 0 (Stats.nightOwlCount s) >? 0)
                (SleepBoard.database_get table g p) in
  (length out <= limit)%nat
  /\ (forall e, In e out ->
        SleepBoard.e_nightOwlCount e > 0
        /\ exists s, In s table
                     /\ Stats.guildId s = g /\ Stats.platform s = p
                     /\ e = SleepBoard.entryOf hourlyEntries parseInt s)
  /\ exists ranking,
       out = firstn limit ranking
       /\ Permutation ranking
            (List.map (SleepBoard.entryOf hourlyEntries parseInt) owls)
       /\ StronglySorted
            (fun a b =>
               SleepBoard.e_nightOwlCount a >= SleepBoard.e_nightOwlCount b)
            ranking
       /\ (forall v,
             List.filter (fun e => SleepBoard.e_nightOwlCount e =? v) ranking
             = List.filter (fun e => SleepBoard.e_nightOwlCount e =? v)
                 (List.map (SleepBoard.entryOf hourlyEntries parseInt) owls)).
Proof.
  cbn zeta. unfold SleepBoard.getSleepLeaderboard.
  set (states := SleepBoard.database_get table g p).
  set (owls := List.filter _ states).
  set (entries := List.map (SleepBoard.entryOf hourlyEntries parseInt) owls).
  assert (Hin : forall e, In e entries ->
             SleepBoard.e_nightOwlCount e > 0
             /\ exists s, In s table
                          /\ Stats.guildId s = g /\ Stats.platform s = p
                          /\ e = SleepBoard.entryOf hourlyEntries parseInt s).
  { intros e He. unfold entries in He.
    apply in_map_iff in He as (s & <- & Hs). unfold owls in Hs.
    apply filter_In in Hs as [Hs Hpos]. unfold states in Hs.
    unfold SleepBoard.database_get in Hs. apply filter_In in Hs as [Hs Hk].
    apply andb_prop in Hk as [Hg Hp].
    apply String.eqb_eq in Hg, Hp. cbn [SleepBoard.entryOf
      SleepBoard.e_nightOwlCount].
    split; [apply Z.gtb_lt in Hpos; lia|]. exists s. auto. }
  destruct (Nat.eqb_spec (length states) 0) as [E0|Hne].
  - assert (Eo : owls = []).
    { unfold owls. destruct states; [reflexivity|discriminate]. }
    split; [cbn; lia|]. split; [intros e []|].
    exists []. unfold entries. rewrite Eo. cbn.
    split; [destruct limit; reflexivity|]. split; [constructor|].
    split; [constructor|reflexivity].
  - split; [rewrite length_firstn; lia|]. split.
    + intros e He. apply Hin.
      apply (proj1 (sortDesc_in SleepBoard.e_nightOwlCount _ _)).
      exact (firstn_subset limit _ e He).
    + exists (Collections.sortDesc SleepBoard.e_nightOwlCount entries).
      split; [reflexivity|]. split; [apply sortDesc_perm|].
      split; [apply sortDesc_sorted|]. intros v. apply sortDesc_stable.
Qed.

End SleepBoardFacts.

(** ** The event loop *)

Section EventLoopFacts.
Context {Shared Local Input : Type}.
Variable begin : Input -> Shared -> Shared * option Local.
Variable resume : Input -> Local -> Shared -> Shared * option Local.
Variable inputs : list Input.

Abbreviation Pool := (@EventLoop.Pool Shared Local).
Abbreviation turn := (EventLoop.turn begin resume inputs).

Lemma turn_begins (pool : Pool) (h : nat) (input : Input) :
  inputs !! h = Some input ->
  EventLoop.waiting pool !! h = None -> h ∉ EventLoop.started pool ->
  turn pool h
  = {| EventLoop.shared := (begin input (EventLoop.shared pool)).1;
       EventLoop.waiting :=
         EventLoop.suspend h (begin input (EventLoop.shared pool)).2
           (EventLoop.waiting pool);
       EventLoop.started := {[ h ]} ∪ EventLoop.started pool |}.
Proof.
  intros Hi Hw Hs. unfold EventLoop.turn. rewrite Hi, Hw.
  rewrite bool_decide_eq_false_2 by exact Hs.
  destruct (begin input (EventLoop.shared pool)). reflexivity.
Qed.

Lemma turn_resumes (pool : Pool) (h : nat) (input : Input) (local : Local) :
  inputs !! h = Some input ->
  EventLoop.waiting pool !! h = Some local ->
  turn pool h
  = {| EventLoop.shared := (resume input local (EventLoop.shared pool)).1;
       EventLoop.waiting :=
         EventLoop.suspend h (resume input local (EventLoop.shared pool)).2
           (EventLoop.waiting pool);
       EventLoop.started := EventLoop.started pool |}.
Proof.
  intros Hi Hw. unfold EventLoop.turn. rewrite Hi, Hw.
  destruct (resume input local (EventLoop.shared pool)). reflexivity.
Qed.

Lemma turn_finished (pool : Pool) (h : nat) :
  EventLoop.waiting pool !! h = None -> h ∈ EventLoop.started pool ->
  turn pool h = pool.
Proof.
  intros Hw Hs. unfold EventLoop.turn. rewrite Hw.
  rewrite bool_decide_eq_true_2 by exact Hs.
  destruct (inputs !! h); reflexivity.
Qed.

Lemma turn_without_message (pool : Pool) (h : nat) :
  inputs !! h = None -> turn pool h = pool.
Proof. intros Hi. unfold EventLoop.turn. rewrite Hi. reflexivity. Qed.

(** The cases of a turn. *)
Lemma turn_cases (pool : Pool) (h : nat) :
  turn pool h = pool
  \/ (exists input,
        inputs !! h = Some input
        /\ EventLoop.waiting pool !! h = None
        /\ (h ∉ EventLoop.started pool)
        /\ turn pool h
           = {| EventLoop.shared := (begin input (EventLoop.shared pool)).1;
                EventLoop.waiting :=
                  EventLoop.suspend h
                    (begin input (EventLoop.shared pool)).2
                    (EventLoop.waiting pool);
                EventLoop.started := {[ h ]} ∪ EventLoop.started pool |})
  \/ (exists input local,
        inputs !! h = Some input
        /\ EventLoop.waiting pool !! h = Some local
        /\ turn pool h
           = {| EventLoop.shared :=
                  (resume input local (EventLoop.shared pool)).1;
                EventLoop.waiting :=
                  EventLoop.suspend h
                    (resume input local (EventLoop.shared pool)).2
                    (EventLoop.waiting pool);
                EventLoop.started := EventLoop.started pool |}).
Proof.
  destruct (inputs !! h) as [input|] eqn:Hi;
    [|left; apply turn_without_message; exact Hi].
  destruct (EventLoop.waiting pool !! h) as [local|] eqn:Hw.
  - right. right. exists input, local.
    split; [reflexivity|]. split; [reflexivity|].
    apply turn_resumes; assumption.
  - destruct (decide (h ∈ EventLoop.started pool)) as [Hs|Hs].
    + left. apply turn_finished; assumption.
    + right. left. exists input. repeat (split; [first [assumption | reflexivity]|]).
      apply turn_begins; assumption.
Qed.

(** A property of the pool that every turn keeps holds after every
    schedule. *)
Lemma interleave_invariant (P : Pool -> Prop) :
  (forall pool h, P pool -> P (turn pool h)) ->
  forall schedule pool,
    P pool -> P (EventLoop.interleave begin resume inputs schedule pool).
Proof.
  intros Hstep schedule. unfold EventLoop.interleave.
  induction schedule as [|h schedule IH]; intros pool HP; [exact HP|].
  cbn [fold_left]. apply IH. apply Hstep. exact HP.
Qed.

End EventLoopFacts.

(** ** The message counters over a run of messages *)

Section StatsRuns.
Variable tzOffsetMs : Z.
Variable parseHourly : string -> option (gmap string Z).
Variable stringifyHourly : gmap string Z -> string.

Abbreviation middleware :=
  (Stats.statsMiddleware tzOffsetMs parseHourly stringifyHourly).
Abbreviation run := (runMiddleware tzOffsetMs parseHourly stringifyHourly).

(** The messages that the middleware counts: those with a user id and
    with a content or at least one element. *)
Definition counted (session : Stats.Session) : bool :=
  nonempty (Stats.s_userId session)
  && (nonempty (Stats.s_content session)
      || match Stats.s_elements session with
         | Some n => (0 <? n)%nat
         | None => false
         end).

(** The counted messages of a key, and those of them that fall in the
    night-owl window of the configuration. *)
Definition countedFor (k : string * string * string)
    (m : Stats.Session * Z) : bool :=
  counted m.1 && bool_decide (keyOf m.1 = k).

Definition atNight (config : Config) (m : Stats.Session * Z) : bool :=
  Stats.isNightOwlTime (default 0 (nightOwlStartHour config))
    (default 5 (nightOwlEndHour config)) (Stats.getHours tzOffsetMs m.2).

Definition totalOf (row : option Stats.PigUserState) : Z :=
  Stats.column row Stats.totalMessageCount.

Definition nightOf (row : option Stats.PigUserState) : Z :=
  Stats.column row Stats.nightMessageCount.

Definition howMany {A : Type} (p : A -> bool) (l : list A) : Z :=
  Z.of_nat (length (List.filter p l)).

Lemma howMany_cons {A : Type} (p : A -> bool) (a : A) (l : list A) :
  howMany p (a :: l) = (if p a then 1 else 0) + howMany p l.
Proof.
  unfold howMany. cbn [List.filter]. destruct (p a); cbn [length]; lia.
Qed.

Lemma statsUpdate_counted config session now table :
  Stats.statsUpdate tzOffsetMs parseHourly stringifyHourly config session now
    table = None <-> counted session = false.
Proof.
  unfold Stats.statsUpdate, counted.
  destruct (nonempty (Stats.s_userId session)); cbn [negb orb andb];
    [|tauto].
  destruct (nonempty (Stats.s_content session)); cbn [negb orb andb];
    [split; discriminate|].
  destruct (Stats.s_elements session) as [n|]; [|tauto].
  destruct (0 <? n)%nat; cbn [negb]; [split; discriminate|tauto].
Qed.

Lemma middleware_ignores config session now table :
  counted session = false -> middleware config session now table = table.
Proof.
  intros H. unfold Stats.statsMiddleware.
  rewrite (proj2 (statsUpdate_counted config session now table) H).
  reflexivity.
Qed.

Lemma middleware_counts config session now table k :
  totalOf (rowOf (middleware config session now table) k)
  = totalOf (rowOf table k)
    + (if countedFor k (session, now) then 1 else 0)
  /\ nightOf (rowOf (middleware config session now table) k)
     = nightOf (rowOf table k)
       + (if countedFor k (session, now) && atNight config (session, now)
          then 1 else 0).
Proof.
  unfold countedFor. cbn [fst snd].
  destruct (counted session) eqn:Ec;
    [|rewrite (middleware_ignores _ _ _ _ Ec); cbn [andb]; lia].
  unfold Stats.statsMiddleware.
  destruct (Stats.statsUpdate tzOffsetMs parseHourly stringifyHourly config
              session now table) as [u|] eqn:Eu;
    [|apply statsUpdate_counted in Eu; congruence].
  pose proof (statsUpdate_key _ _ _ _ _ _ _ _ Eu) as Hkey.
  cbn [andb]. destruct (bool_decide_reflect (keyOf session = k)) as [<-|Hne].
  - rewrite <- Hkey, rowOf_upsert_same, Hkey.
    unfold Stats.statsUpdate in Eu.
    destruct (negb (nonempty (Stats.s_userId session)) || _); [discriminate|].
    injection Eu as <-.
    change (Stats.database_get table (Stats.s_userId session)
              (Stats.s_platform session) (Stats.s_guildId session))
      with (rowOf table (keyOf session)).
    unfold atNight. cbn [fst snd].
    destruct (rowOf table (keyOf session)) as [row|]; split; reflexivity.
  - rewrite rowOf_upsert_other; [cbn [andb]; lia|]. congruence.
Qed.

Lemma run_counts_aux config messages table k :
  totalOf (rowOf (run config messages table) k)
  = totalOf (rowOf table k) + howMany (countedFor k) messages
  /\ nightOf (rowOf (run config messages table) k)
     = nightOf (rowOf table k)
       + howMany (fun m => countedFor k m && atNight config m) messages.
Proof.
  revert table. induction messages as [|[session now] messages IH];
    intros table.
  - unfold howMany. cbn. lia.
  - rewrite runMiddleware_cons, !howMany_cons.
    destruct (IH (middleware config session now table)) as [Ht Hn].
    destruct (middleware_counts config session now table k) as [Ht1 Hn1].
    rewrite Ht, Hn, Ht1, Hn1. lia.
Qed.

Lemma howMany_le {A : Type} (p q : A -> bool) (l : list A) :
  0 <= howMany (fun a => p a && q a) l <= howMany p l.
Proof.
  induction l as [|a l IH]; [unfold howMany; cbn; lia|].
  rewrite !howMany_cons. destruct (p a), (q a); cbn [andb]; lia.
Qed.

(** *** Handlers that interleave *)

Abbreviation handlers :=
  (StatsHandler.run tzOffsetMs parseHourly stringifyHourly).
Abbreviation hbegin := (StatsHandler.begin).
Abbreviation hresume :=
  (StatsHandler.resume tzOffsetMs parseHourly stringifyHourly).
Abbreviation hturn :=
  (fun config => EventLoop.turn hbegin (hresume config)).
Abbreviation StatsPool :=
  (@EventLoop.Pool (list Stats.PigUserState) StatsHandler.Local).

Lemma passesOn_counted (session : Stats.Session) :
  StatsHandler.passesOn session = negb (counted session).
Proof.
  unfold StatsHandler.passesOn, counted.
  destruct (nonempty (Stats.s_userId session)); [|reflexivity].
  destruct (nonempty (Stats.s_content session)); [reflexivity|].
  destruct (Stats.s_elements session) as [n|]; [|reflexivity].
  destruct (0 <? n)%nat; reflexivity.
Qed.

(** No handler waits. *)
Definition quiet (pool : StatsPool) : Prop :=
  forall h, EventLoop.waiting pool !! h = None.

(** The three turns of a handler that no other handler interrupts are
    one step of the middleware. *)
Lemma handler_alone config (messages : list (Stats.Session * Z)) (h : nat)
    (m : Stats.Session * Z) (pool : StatsPool) :
  messages !! h = Some m -> quiet pool -> h ∉ EventLoop.started pool ->
  let pool' := fold_left (hturn config messages) [h; h; h] pool in
  EventLoop.shared pool' = middleware config m.1 m.2 (EventLoop.shared pool)
  /\ quiet pool'
  /\ EventLoop.started pool' = {[ h ]} ∪ EventLoop.started pool.
Proof.
  intros Hm Hq Hs. cbn [fold_left].
  remember (EventLoop.turn hbegin (hresume config) messages pool h)
    as p1 eqn:E1.
  remember (EventLoop.turn hbegin (hresume config) messages p1 h)
    as p2 eqn:E2.
  remember (EventLoop.turn hbegin (hresume config) messages p2 h)
    as p3 eqn:E3.
  rewrite (turn_begins _ _ _ pool h m Hm (Hq h) Hs) in E1.
  unfold StatsHandler.begin in E1. rewrite passesOn_counted in E1.
  destruct (counted m.1) eqn:Ec; cbn [negb fst snd EventLoop.suspend] in E1.
  - (* the row is read, the update written *)
    rewrite (turn_resumes _ _ _ p1 h m StatsHandler.AwaitGet Hm) in E2
      by (subst p1; apply lookup_insert_eq).
    unfold Stats.statsMiddleware.
    assert (Eu : exists u,
               Stats.statsUpdate tzOffsetMs parseHourly stringifyHourly config
                 m.1 m.2 (EventLoop.shared pool) = Some u).
    { destruct (Stats.statsUpdate tzOffsetMs parseHourly stringifyHourly
                  config m.1 m.2 (EventLoop.shared pool)) as [u|] eqn:Eu;
        [eauto|]. apply statsUpdate_counted in Eu. congruence. }
    destruct Eu as [u Eu]. rewrite Eu.
    subst p1.
    cbn [EventLoop.shared EventLoop.waiting EventLoop.started
         StatsHandler.resume] in E2.
    rewrite Eu in E2. cbn [fst snd EventLoop.suspend] in E2.
    rewrite (turn_resumes _ _ _ p2 h m (StatsHandler.AwaitUpsert u) Hm) in E3
      by (subst p2; apply lookup_insert_eq).
    subst p2.
    cbn [EventLoop.shared EventLoop.waiting EventLoop.started
         StatsHandler.resume fst snd EventLoop.suspend] in E3.
    subst p3. cbn [EventLoop.shared EventLoop.waiting EventLoop.started].
    split; [reflexivity|]. split; [|reflexivity].
    intros h'. cbn [EventLoop.waiting]. rewrite lookup_delete.
    destruct (decide (h = h')); [reflexivity|].
    rewrite !lookup_insert_ne by assumption. apply Hq.
  - (* the message is passed on *)
    rewrite (turn_finished _ _ _ p1 h) in E2
      by (subst p1; cbn; first [apply lookup_delete_eq | set_solver]).
    subst p2.
    rewrite (turn_finished _ _ _ p1 h) in E3
      by (subst p1; cbn; first [apply lookup_delete_eq | set_solver]).
    subst p3 p1. cbn [EventLoop.shared EventLoop.waiting EventLoop.started].
    split; [rewrite (middleware_ignores _ _ _ _ Ec); reflexivity|].
    split; [|reflexivity].
    intros h'. cbn [EventLoop.waiting]. rewrite lookup_delete.
    destruct (decide (h = h')); [reflexivity|apply Hq].
Qed.

Lemma sequential_from config (messages : list (Stats.Session * Z))
    (rest : list (Stats.Session * Z)) (i : nat) (pool : StatsPool) :
  (forall j, rest !! j = messages !! (i + j)%nat) ->
  quiet pool ->
  (forall h, h ∈ EventLoop.started pool -> (h < i)%nat) ->
  EventLoop.shared
    (fold_left (hturn config messages)
       (flat_map (fun h => repeat h 3) (seq i (length rest))) pool)
  = run config rest (EventLoop.shared pool).
Proof.
  revert i pool. induction rest as [|m rest IH]; intros i pool Hrest Hq Hs;
    [reflexivity|].
  cbn [length seq flat_map]. rewrite fold_left_app.
  change (repeat i 3) with [i; i; i].
  assert (Hm : messages !! i = Some m).
  { rewrite <- (Nat.add_0_r i), <- Hrest. reflexivity. }
  assert (Hni : i ∉ EventLoop.started pool).
  { intros Hin. apply Hs in Hin. lia. }
  destruct (handler_alone config messages i m pool Hm Hq Hni)
    as (Hsh & Hq' & Hst').
  rewrite IH.
  - rewrite Hsh. destruct m as [session now]. reflexivity.
  - intros j. specialize (Hrest (S j)).
    change ((m :: rest) !! S j) with (rest !! j) in Hrest.
    rewrite Hrest. f_equal. lia.
  - exact Hq'.
  - intros h. rewrite Hst'. rewrite elem_of_union, elem_of_singleton.
    intros [-> | Hin]; [lia|]. apply Hs in Hin. lia.
Qed.

(** Without overlap, the handlers are the middleware applied to one
    message after the other. *)
Lemma handlers_sequential config (messages : list (Stats.Session * Z))
    (table : list Stats.PigUserState) :
  handlers config messages (EventLoop.sequential 3 (length messages)) table
  = run config messages table.
Proof.
  unfold StatsHandler.run, EventLoop.interleave, EventLoop.sequential.
  apply (sequential_from config messages messages 0).
  - intros j. reflexivity.
  - intros h. apply lookup_empty.
  - intros h Hin. cbn in Hin. set_solver.
Qed.

(** The total that an update writes is one more than the total of the
    row that was read. *)
Lemma statsUpdate_total config session now table u :
  Stats.statsUpdate tzOffsetMs parseHourly stringifyHourly config session now
    table = Some u ->
  Stats.u_totalMessageCount u = totalOf (rowOf table (keyOf session)) + 1
  /\ Stats.u_nightMessageCount u
     = nightOf (rowOf table (keyOf session))
       + (if atNight config (session, now) then 1 else 0).
Proof.
  unfold Stats.statsUpdate.
  destruct (negb (nonempty (Stats.s_userId session)) || _); [discriminate|].
  intros [= <-]. split; reflexivity.
Qed.

Lemma totalOf_upsert (u : Stats.UpdateData)
    (table : list Stats.PigUserState) :
  totalOf (rowOf (Stats.database_upsert u table) (updateKey u))
  = Stats.u_totalMessageCount u
  /\ nightOf (rowOf (Stats.database_upsert u table) (updateKey u))
     = Stats.u_nightMessageCount u.
Proof.
  rewrite rowOf_upsert_same.
  destruct (rowOf table (updateKey u)); split; reflexivity.
Qed.

(** Two handlers of one user that overlap: both read the row before
    either writes, and the total rises by one. *)
Lemma handlers_overlap config (m0 m1 : Stats.Session * Z)
    (table : list Stats.PigUserState) :
  counted m0.1 = true -> counted m1.1 = true -> keyOf m1.1 = keyOf m0.1 ->
  totalOf (rowOf (handlers config [m0; m1] [0; 1; 0; 1; 0; 1]%nat table)
             (keyOf m0.1))
  = totalOf (rowOf table (keyOf m0.1)) + 1.
Proof.
  intros H0 H1 Hk. unfold StatsHandler.run, EventLoop.interleave.
  assert (I0 : [m0; m1] !! 0%nat = Some m0) by reflexivity.
  assert (I1 : [m0; m1] !! 1%nat = Some m1) by reflexivity.
  cbn [fold_left].
  remember (EventLoop.turn hbegin (hresume config) [m0; m1]
              (EventLoop.idle table) 0%nat) as p1 eqn:E1.
  remember (EventLoop.turn hbegin (hresume config) [m0; m1] p1 1%nat)
    as p2 eqn:E2.
  remember (EventLoop.turn hbegin (hresume config) [m0; m1] p2 0%nat)
    as p3 eqn:E3.
  remember (EventLoop.turn hbegin (hresume config) [m0; m1] p3 1%nat)
    as p4 eqn:E4.
  remember (EventLoop.turn hbegin (hresume config) [m0; m1] p4 0%nat)
    as p5 eqn:E5.
  remember (EventLoop.turn hbegin (hresume config) [m0; m1] p5 1%nat)
    as p6 eqn:E6.
  rewrite (turn_begins _ _ _ _ 0%nat m0 I0) in E1
    by (cbn; first [apply lookup_empty | set_solver]).
  unfold StatsHandler.begin in E1. rewrite passesOn_counted, H0 in E1.
  cbn [negb fst snd EventLoop.suspend EventLoop.idle EventLoop.shared
       EventLoop.waiting EventLoop.started] in E1.
  rewrite (turn_begins _ _ _ p1 1%nat m1 I1) in E2
    by (subst p1; cbn;
        first [rewrite lookup_insert_ne by lia; apply lookup_empty
              | set_solver]).
  unfold StatsHandler.begin in E2. rewrite passesOn_counted, H1 in E2.
  subst p1.
  cbn [negb fst snd EventLoop.suspend EventLoop.shared EventLoop.waiting
       EventLoop.started] in E2.
  destruct (Stats.statsUpdate tzOffsetMs parseHourly stringifyHourly config
              m0.1 m0.2 table) as [u0|] eqn:Eu0;
    [|apply statsUpdate_counted in Eu0; congruence].
  destruct (Stats.statsUpdate tzOffsetMs parseHourly stringifyHourly config
              m1.1 m1.2 table) as [u1|] eqn:Eu1;
    [|apply statsUpdate_counted in Eu1; congruence].
  rewrite (turn_resumes _ _ _ p2 0%nat m0 StatsHandler.AwaitGet I0) in E3
    by (subst p2; cbn; rewrite lookup_insert_ne by lia;
        apply lookup_insert_eq).
  subst p2.
  cbn [EventLoop.shared EventLoop.waiting EventLoop.started
       StatsHandler.resume] in E3.
  rewrite Eu0 in E3. cbn [fst snd EventLoop.suspend] in E3.
  rewrite (turn_resumes _ _ _ p3 1%nat m1 StatsHandler.AwaitGet I1) in E4
    by (subst p3; cbn; rewrite lookup_insert_ne by lia;
        apply lookup_insert_eq).
  subst p3.
  cbn [EventLoop.shared EventLoop.waiting EventLoop.started
       StatsHandler.resume] in E4.
  rewrite Eu1 in E4. cbn [fst snd EventLoop.suspend] in E4.
  rewrite (turn_resumes _ _ _ p4 0%nat m0 (StatsHandler.AwaitUpsert u0)
             I0) in E5
    by (subst p4; cbn; rewrite lookup_insert_ne by lia;
        apply lookup_insert_eq).
  subst p4.
  cbn [EventLoop.shared EventLoop.waiting EventLoop.started
       StatsHandler.resume fst snd EventLoop.suspend] in E5.
  rewrite (turn_resumes _ _ _ p5 1%nat m1 (StatsHandler.AwaitUpsert u1)
             I1) in E6
    by (subst p5; cbn; rewrite lookup_delete_ne by lia;
        apply lookup_insert_eq).
  subst p5.
  cbn [EventLoop.shared EventLoop.waiting EventLoop.started
       StatsHandler.resume fst snd EventLoop.suspend] in E6.
  subst p6. cbn [EventLoop.shared].
  pose proof (statsUpdate_key _ _ _ _ _ _ _ _ Eu1) as K1.
  destruct (statsUpdate_total _ _ _ _ _ Eu1) as [T1 _].
  rewrite <- Hk, <- K1. rewrite (proj1 (totalOf_upsert u1 _)).
  rewrite T1, K1. reflexivity.
Qed.

(** *** A bound under every schedule *)

Section Bound.
Variable config : Config.
Variable messages : list (Stats.Session * Z).
Variable k : string * string * string.
Variable before : Z.

(** The message number [h] is a counted message of the key. *)
Definition countedAt (h : nat) : bool :=
  match messages !! h with
  | Some m => countedFor k m
  | None => false
  end.

(** The handlers in [done] have finished, and they account for the total
    of the key: the row, and every update that waits to be written, holds
    at most the total before plus one for each of them, the update one
    more. *)
Definition accounted (pool : StatsPool) (done : gset nat) : Prop :=
  (forall h, h ∈ done ->
     countedAt h = true /\ h ∈ EventLoop.started pool
     /\ EventLoop.waiting pool !! h = None)
  /\ totalOf (rowOf (EventLoop.shared pool) k)
     <= before + Z.of_nat (size done)
  /\ (forall h u,
        EventLoop.waiting pool !! h = Some (StatsHandler.AwaitUpsert u) ->
        exists m,
          messages !! h = Some m /\ counted m.1 = true
          /\ updateKey u = keyOf m.1
          /\ (keyOf m.1 = k ->
              Stats.u_totalMessageCount u
              <= before + Z.of_nat (size done) + 1))
  /\ (forall h,
        EventLoop.waiting pool !! h = Some StatsHandler.AwaitGet ->
        exists m, messages !! h = Some m /\ counted m.1 = true)
  /\ (forall h local,
        EventLoop.waiting pool !! h = Some local ->
        h ∈ EventLoop.started pool).

Lemma accounted_turn (pool : StatsPool) (h : nat) :
  (exists done, accounted pool done) ->
  exists done, accounted (hturn config messages pool h) done.
Proof.
  intros (done & Hdone & Htotal & Hup & Hget & Hst).
  destruct (turn_cases hbegin (hresume config) messages pool h)
    as [-> | [(m & Hm & Hw & Hs & ->) | (m & local & Hm & Hw & ->)]].
  - exists done.
    exact (conj Hdone (conj Htotal (conj Hup (conj Hget Hst)))).
  - (* the handler begins *)
    exists done. unfold StatsHandler.begin. rewrite passesOn_counted.
    assert (Hh : h ∉ done).
    { intros Hin. destruct (Hdone h Hin) as (_ & Hin' & _). contradiction. }
    destruct (counted m.1) eqn:Ec;
      cbn [negb fst snd EventLoop.suspend]; unfold accounted;
      cbn [EventLoop.shared EventLoop.waiting EventLoop.started].
    + split; [|split; [exact Htotal|split; [|split]]].
      * intros h' Hin. destruct (Hdone h' Hin) as (H1 & H2 & H3).
        split; [exact H1|]. split; [set_solver|].
        rewrite lookup_insert_ne; [exact H3|]. intros <-. contradiction.
      * intros h' u. rewrite lookup_insert_Some.
        intros [[_ [=]] | [_ H']]. exact (Hup h' u H').
      * intros h'. rewrite lookup_insert_Some.
        intros [[<- _] | [_ H']]; [eauto|exact (Hget h' H')].
      * intros h' local. rewrite lookup_insert_Some.
        intros [[<- _] | [_ H']]; [set_solver|].
        apply elem_of_union_r. exact (Hst h' local H').
    + split; [|split; [exact Htotal|split; [|split]]].
      * intros h' Hin. destruct (Hdone h' Hin) as (H1 & H2 & H3).
        split; [exact H1|]. split; [set_solver|].
        rewrite lookup_delete_ne; [exact H3|]. intros <-. contradiction.
      * intros h' u. rewrite lookup_delete_Some. intros [_ H'].
        exact (Hup h' u H').
      * intros h'. rewrite lookup_delete_Some. intros [_ H'].
        exact (Hget h' H').
      * intros h' local. rewrite lookup_delete_Some. intros [_ H'].
        apply elem_of_union_r. exact (Hst h' local H').
  - (* the handler resumes *)
    assert (Hh : h ∉ done).
    { intros Hin. destruct (Hdone h Hin) as (_ & _ & Hn). congruence. }
    destruct local as [|u]; cbn [StatsHandler.resume].
    + (* the row is read *)
      destruct (Hget h Hw) as (m' & Hm' & Hc).
      assert (m' = m) by congruence. subst m'.
      destruct (Stats.statsUpdate tzOffsetMs parseHourly stringifyHourly
                  config m.1 m.2 (EventLoop.shared pool)) as [u|] eqn:Eu;
        [|apply statsUpdate_counted in Eu; congruence].
      exists done. cbn [fst snd EventLoop.suspend]. unfold accounted.
      cbn [EventLoop.shared EventLoop.waiting EventLoop.started].
      split; [|split; [exact Htotal|split; [|split]]].
      * intros h' Hin. destruct (Hdone h' Hin) as (H1 & H2 & H3).
        split; [exact H1|]. split; [exact H2|].
        rewrite lookup_insert_ne; [exact H3|]. intros <-. contradiction.
      * intros h' u'. rewrite lookup_insert_Some.
        intros [[<- [= <-]] | [_ H']]; [|exact (Hup h' u' H')].
        exists m. split; [exact Hm|]. split; [exact Hc|].
        split; [exact (statsUpdate_key _ _ _ _ _ _ _ _ Eu)|].
        intros Hk. destruct (statsUpdate_total _ _ _ _ _ Eu) as [-> _].
        rewrite Hk. lia.
      * intros h'. rewrite lookup_insert_Some.
        intros [[_ [=]] | [_ H']]. exact (Hget h' H').
      * intros h' local. rewrite lookup_insert_Some.
        intros [[<- _] | [_ H']]; [exact (Hst h _ Hw)|exact (Hst h' _ H')].
    + (* the update is written *)
      destruct (Hup h u Hw) as (m' & Hm' & Hc & Hkey & Hle).
      assert (m' = m) by congruence. subst m'.
      cbn [fst snd EventLoop.suspend].
      destruct (decide (keyOf m.1 = k)) as [Hk|Hk].
      * exists ({[ h ]} ∪ done). unfold accounted.
        cbn [EventLoop.shared EventLoop.waiting EventLoop.started].
        assert (Hsize : size ({[ h ]} ∪ done) = S (size done)).
        { rewrite size_union by set_solver. rewrite size_singleton.
          reflexivity. }
        rewrite Hsize.
        split; [|split; [|split; [|split]]].
        -- intros h'. rewrite elem_of_union, elem_of_singleton.
           intros [-> | Hin].
           ++ split.
              { unfold countedAt, countedFor. rewrite Hm, Hc.
                rewrite bool_decide_eq_true_2 by exact Hk. reflexivity. }
              split; [exact (Hst h _ Hw)|apply lookup_delete_eq].
           ++ destruct (Hdone h' Hin) as (H1 & H2 & H3).
              split; [exact H1|]. split; [exact H2|].
              rewrite lookup_delete_ne; [exact H3|]. intros <-.
              contradiction.
        -- rewrite <- Hk, <- Hkey. rewrite (proj1 (totalOf_upsert u _)).
           specialize (Hle Hk). lia.
        -- intros h' u'. rewrite lookup_delete_Some. intros [_ H'].
           destruct (Hup h' u' H') as (m' & H1 & H2 & H3 & H4).
           exists m'. repeat (split; [assumption|]).
           intros Hk'. specialize (H4 Hk'). lia.
        -- intros h'. rewrite lookup_delete_Some. intros [_ H'].
           exact (Hget h' H').
        -- intros h' local. rewrite lookup_delete_Some. intros [_ H'].
           exact (Hst h' local H').
      * exists done. unfold accounted.
        cbn [EventLoop.shared EventLoop.waiting EventLoop.started].
        split; [|split; [|split; [|split]]].
        -- intros h' Hin. destruct (Hdone h' Hin) as (H1 & H2 & H3).
           split; [exact H1|]. split; [exact H2|].
           rewrite lookup_delete_ne; [exact H3|]. intros <-. contradiction.
        -- rewrite rowOf_upsert_other; [exact Htotal|]. congruence.
        -- intros h' u'. rewrite lookup_delete_Some. intros [_ H'].
           exact (Hup h' u' H').
        -- intros h'. rewrite lookup_delete_Some. intros [_ H'].
           exact (Hget h' H').
        -- intros h' local. rewrite lookup_delete_Some. intros [_ H'].
           exact (Hst h' local H').
Qed.

(** As many handlers can be accounted for as there are counted messages
    of the key. *)
Lemma countedAt_filter (n : nat) :
  (n <= length messages)%nat ->
  length (List.filter countedAt (seq 0 n))
  = length (List.filter (countedFor k) (firstn n messages)).
Proof.
  induction n as [|n IH]; intros Hn; [reflexivity|].
  rewrite seq_S, List.filter_app, length_app, IH by lia. cbn [Nat.add].
  destruct (lookup_lt_is_Some_2 messages n) as [m Hm]; [lia|].
  rewrite (take_S_r _ _ _ Hm), List.filter_app, length_app.
  cbn [List.filter]. unfold countedAt. rewrite Hm.
  destruct (countedFor k m); reflexivity.
Qed.

Lemma done_size (done : gset nat) :
  (forall h, h ∈ done -> countedAt h = true) ->
  Z.of_nat (size done) <= howMany (countedFor k) messages.
Proof.
  intros Hdone. unfold howMany.
  rewrite <- (firstn_all messages) at 1.
  rewrite <- countedAt_filter by lia.
  set (all := List.filter countedAt (seq 0 (length messages))).
  assert (Hsub : done ⊆ list_to_set all).
  { intros h Hin. apply elem_of_list_to_set, list_elem_of_In.
    apply filter_In. split; [|exact (Hdone h Hin)].
    apply in_seq. specialize (Hdone h Hin). unfold countedAt in Hdone.
    destruct (messages !! h) as [m|] eqn:Hm; [|discriminate].
    apply lookup_lt_Some in Hm. lia. }
  apply subseteq_size in Hsub.
  assert (Hnd : base.NoDup all).
  { apply NoDup_ListNoDup, List.NoDup_filter, seq_NoDup. }
  rewrite (size_list_to_set all Hnd) in Hsub. lia.
Qed.

End Bound.

(** Under every schedule the total of a key is at most the total before
    plus the number of its counted messages. *)
Lemma handlers_bound config (messages : list (Stats.Session * Z))
    (schedule : list nat) (table : list Stats.PigUserState)
    (k : string * string * string) :
  totalOf (rowOf (handlers config messages schedule table) k)
  <= totalOf (rowOf table k) + howMany (countedFor k) messages.
Proof.
  unfold StatsHandler.run.
  destruct (interleave_invariant hbegin (hresume config) messages
              (fun pool =>
                 exists done,
                   accounted messages k (totalOf (rowOf table k)) pool done)
              (fun pool h =>
                 accounted_turn config messages k (totalOf (rowOf table k))
                   pool h)
              schedule (EventLoop.idle table))
    as (done & Hdone & Htotal & _).
  - exists ∅. unfold accounted.
    cbn [EventLoop.idle EventLoop.shared EventLoop.waiting
         EventLoop.started].
    split; [intros h Hin; apply not_elem_of_empty in Hin; contradiction|].
    split; [rewrite size_empty; lia|].
    split; [intros h u Hw; rewrite lookup_empty in Hw; discriminate|].
    split; [intros h Hw; rewrite lookup_empty in Hw; discriminate|].
    intros h local Hw. rewrite lookup_empty in Hw. discriminate.
  - pose proof (done_size messages k done (fun h Hin => proj1 (Hdone h Hin))).
    lia.
Qed.

(** Messages that the middleware passes on leave the table as it is,
    under every schedule. *)
Lemma handlers_pass_on config (messages : list (Stats.Session * Z))
    (schedule : list nat) (table : list Stats.PigUserState) :
  forallb (fun m => negb (counted m.1)) messages = true ->
  handlers config messages schedule table = table.
Proof.
  intros Hall. unfold StatsHandler.run.
  refine (proj1 (interleave_invariant hbegin (hresume config) messages
                   (fun pool => EventLoop.shared pool = table /\ quiet pool)
                   _ schedule (EventLoop.idle table) _)).
  - intros pool h [Hsh Hq].
    destruct (turn_cases hbegin (hresume config) messages pool h)
      as [-> | [(m & Hm & Hw & Hs & ->) | (m & local & Hm & Hw & ->)]].
    + auto.
    + unfold StatsHandler.begin. rewrite passesOn_counted.
      rewrite forallb_forall in Hall.
      rewrite (Hall m) by (apply list_elem_of_In; eapply list_elem_of_lookup_2;
                           exact Hm).
      cbn [fst snd EventLoop.suspend EventLoop.shared EventLoop.waiting].
      split; [exact Hsh|]. intros h'. cbn [EventLoop.waiting].
      rewrite lookup_delete. destruct (decide (h = h')); [reflexivity|].
      apply Hq.
    + rewrite (Hq h) in Hw. discriminate.
  - split; [reflexivity|]. intros h. apply lookup_empty.
Qed.

(** X15.  The handlers of the messages interleave at their awaits: a
    handler reads the row of its user, and writes its update when it is
    resumed, with the total it read plus one.  When no two handlers
    overlap, the table is the one that the middleware gives message after
    message: the total counter of a user in a guild rises by the number
    of the user's messages there that have a content or an element, and
    the night counter by the number of those that arrive in the night-owl
    window, so never by more than the total one.  Under every schedule
    the total is at most the total before plus that number, and messages
    without a user id or with neither content nor elements leave the
    table as it is.  Two handlers of one user that both read before
    either writes raise the total by one, not by two. *)
Theorem message_counters_over_a_run (config : Config)
    (messages : list (Stats.Session * Z)) (table : list Stats.PigUserState)
    (k : string * string * string) :
  (let table' :=
     handlers config messages (EventLoop.sequential 3 (length messages))
       table in
   table' = run config messages table
   /\ totalOf (rowOf table' k)
      = totalOf (rowOf table k) + howMany (countedFor k) messages
   /\ nightOf (rowOf table' k)
      = nightOf (rowOf table k)
        + howMany (fun m => countedFor k m && atNight config m) messages
   /\ nightOf (rowOf table' k) - nightOf (rowOf table k)
      <= totalOf (rowOf table' k) - totalOf (rowOf table k)
   /\ (nightOf (rowOf table k) <= totalOf (rowOf table k) ->
       nightOf (rowOf table' k) <= totalOf (rowOf table' k)))
  /\ (forall schedule,
        totalOf (rowOf (handlers config messages schedule table) k)
        <= totalOf (rowOf table k) + howMany (countedFor k) messages)
  /\ (forall schedule,
        forallb (fun m => negb (counted m.1)) messages = true ->
        handlers config messages schedule table = table)
  /\ (forall m0 m1,
        counted m0.1 = true -> counted m1.1 = true ->
        keyOf m1.1 = keyOf m0.1 ->
        totalOf (rowOf (handlers config [m0; m1] [0; 1; 0; 1; 0; 1]%nat
                          table) (keyOf m0.1))
        = totalOf (rowOf table (keyOf m0.1)) + 1
        /\ totalOf (rowOf (handlers config [m0; m1]
                             (EventLoop.sequential 3 2) table) (keyOf m0.1))
           = totalOf (rowOf table (keyOf m0.1)) + 2).
Proof.
  split; [|split; [|split]].
  - cbn zeta. rewrite handlers_sequential.
    destruct (run_counts_aux config messages table k) as [Ht Hn].
    pose proof (howMany_le (countedFor k) (atNight config) messages) as Hle.
    split; [reflexivity|]. split; [exact Ht|]. split; [exact Hn|].
    split; lia.
  - intros schedule. apply handlers_bound.
  - intros schedule. apply handlers_pass_on.
  - intros m0 m1 H0 H1 Hk. split; [apply handlers_overlap; assumption|].
    change 2%nat with (length [m0; m1]). rewrite handlers_sequential.
    destruct (run_counts_aux config [m0; m1] table (keyOf m0.1)) as [Ht _].
    rewrite Ht. rewrite !howMany_cons. unfold countedFor. cbn [fst].
    rewrite H0, H1, Hk, !bool_decide_eq_true_2 by reflexivity.
    unfold howMany. cbn. lia.
Qed.

End StatsRuns.

(** ** Every log of the guild is counted once on the leaderboard *)

Section LeaderboardBounds.
Variable getCountryISOCode : string -> option string.

Abbreviation BoardLog := Leaderboard.PigTravelLog.
Abbreviation BoardEntry := Leaderboard.PigLeaderboardEntry.
Abbreviation boardEntries :=
  (Leaderboard.leaderboardEntries getCountryISOCode).

Definition sumTrips (entries : list BoardEntry) : Z :=
  fold_right (fun e acc => Leaderboard.e_tripCount e + acc) 0 entries.

Lemma sumTrips_perm (l l' : list BoardEntry) :
  Permutation l l' -> sumTrips l = sumTrips l'.
Proof.
  unfold sumTrips.
  induction 1; cbn [fold_right]; lia.
Qed.

Lemma sumTrips_firstn (n : nat) (l : list BoardEntry) :
  Forall (fun e => 0 <= Leaderboard.e_tripCount e) l ->
  0 <= sumTrips (firstn n l) <= sumTrips l
  /\ ((length l <= n)%nat -> sumTrips (firstn n l) = sumTrips l).
Proof.
  intros Hall. revert n. unfold sumTrips.
  induction Hall as [|e l He _ IH]; intros n.
  - destruct n; cbn; split; lia.
  - destruct n as [|n]; cbn [firstn fold_right length].
    + assert (0 <= fold_right
                      (fun e acc => Leaderboard.e_tripCount e + acc) 0 l).
      { destruct (IH 0%nat) as [H _]. cbn in H. lia. }
      split; [lia|]. intros Hl. lia.
    + destruct (IH n) as [H1 H2]. split; [lia|]. intros Hl.
      rewrite H2; [reflexivity|lia].
Qed.

(** The logs of the users of a duplicate-free list that holds the user
    of every log are all the logs. *)
Lemma logsOf_partition (users : list string) (logs : list BoardLog) :
  NoDup users ->
  (forall log, In log logs -> In (Leaderboard.userId log) users) ->
  fold_right (fun u acc => trips u logs + acc) 0 users
  = Z.of_nat (length logs).
Proof.
  intros Hnd. induction logs as [|x logs IH]; intros Hin.
  - clear. induction users as [|u users IH]; cbn [fold_right]; [reflexivity|].
    rewrite IH. reflexivity.
  - assert (Hone : forall us : list string,
               NoDup us ->
               fold_right (fun u acc => trips u (x :: logs) + acc) 0 us
               = fold_right (fun u acc => trips u logs + acc) 0 us
                 + (if bool_decide (Leaderboard.userId x ∈ us)
                    then 1 else 0)).
    { clear. intros us Hnd. induction Hnd as [|u us Hu Hnd IH];
        cbn [fold_right].
      - rewrite bool_decide_eq_false_2; [lia|]. apply not_elem_of_nil.
      - rewrite IH. unfold trips, logsOf. cbn [List.filter].
        destruct (String.eqb_spec (Leaderboard.userId x) u) as [E|Hne].
        + rewrite (bool_decide_eq_true_2 (_ ∈ u :: us));
            [|rewrite E; apply list_elem_of_here].
          rewrite (bool_decide_eq_false_2 (_ ∈ us));
            [|rewrite E, list_elem_of_In; exact Hu].
          cbn [length]. lia.
        + destruct (decide (Leaderboard.userId x ∈ us)) as [Hi|Hi].
          * rewrite (bool_decide_eq_true_2 _ Hi).
            rewrite (bool_decide_eq_true_2 (_ ∈ u :: us));
              [|apply list_elem_of_further; exact Hi]. lia.
          * rewrite (bool_decide_eq_false_2 _ Hi).
            rewrite (bool_decide_eq_false_2 (_ ∈ u :: us)); [lia|].
            intros H. apply elem_of_cons in H as [E|H];
              [exact (Hne E)|exact (Hi H)]. }
    rewrite (Hone users Hnd), IH; [|intros log Hl; apply Hin; right; exact Hl].
    rewrite bool_decide_eq_true_2;
      [|apply list_elem_of_In, Hin; left; reflexivity].
    cbn [length]. lia.
Qed.

Lemma boardEntries_spec (logs : list BoardLog) :
  boardEntries logs
  = List.map
      (fun u => Leaderboard.entryOf (statOf getCountryISOCode logs u))
      (firstSeen (List.map Leaderboard.userId logs)).
Proof.
  unfold Leaderboard.leaderboardEntries. rewrite userStats_spec.
  rewrite List.map_map. reflexivity.
Qed.

Lemma boardEntries_sum (logs : list BoardLog) :
  sumTrips (boardEntries logs) = Z.of_nat (length logs).
Proof.
  rewrite boardEntries_spec.
  rewrite <- (logsOf_partition (firstSeen (List.map Leaderboard.userId logs))
                logs (firstSeen_NoDup _)).
  - unfold sumTrips.
    induction (firstSeen (List.map Leaderboard.userId logs)) as [|u us IH];
      cbn [List.map fold_right]; [reflexivity|].
    rewrite IH. reflexivity.
  - intros log Hl. apply (proj2 (firstSeen_in getCountryISOCode _ _)).
    apply (in_map Leaderboard.userId). exact Hl.
Qed.

Lemma boardEntries_bounds (logs : list BoardLog) (e : BoardEntry) :
  In e (boardEntries logs) ->
  1 <= Leaderboard.e_countryCount e <= Leaderboard.e_tripCount e
  /\ Leaderboard.e_tripCount e <= Z.of_nat (length logs)
  /\ Leaderboard.e_score e
     = Leaderboard.e_tripCount e + 2 * Leaderboard.e_countryCount e
  /\ exists log, In log logs
                 /\ Leaderboard.userId log = Leaderboard.e_userId e.
Proof.
  rewrite boardEntries_spec. intros He.
  apply in_map_iff in He as (u & <- & Hu).
  apply (proj1 (firstSeen_in getCountryISOCode _ _)) in Hu.
  apply in_map_iff in Hu as (log & <- & Hlog).
  cbn [Leaderboard.entryOf statOf fst snd Leaderboard.e_countryCount
       Leaderboard.e_tripCount Leaderboard.e_score Leaderboard.e_userId
       Leaderboard.tripCount Leaderboard.countries].
  unfold visited, trips.
  set (mine := logsOf (Leaderboard.userId log) logs).
  assert (Hmine : In log mine).
  { unfold mine, logsOf. apply filter_In. split; [exact Hlog|].
    apply String.eqb_refl. }
  pose proof (size_list_to_set_le
                (List.map (Leaderboard.countryKey getCountryISOCode) mine))
    as Hle.
  rewrite length_map in Hle.
  assert (Hpos : (1 <= size (list_to_set
                              (List.map
                                 (Leaderboard.countryKey getCountryISOCode)
                                 mine) : gset string))%nat).
  { destruct mine as [|x rest]; [destruct Hmine|].
    cbn [List.map]. apply size_list_to_set_pos. }
  assert (Hlen : (length mine <= length logs)%nat).
  { unfold mine, logsOf. apply filter_length_le. }
  split; [lia|]. split; [lia|]. split; [lia|].
  exists log. split; [exact Hlog|reflexivity].
Qed.

Lemma getPigLeaderboard_firstn (table : list BoardLog) (g p : string)
    (limit : nat) :
  Leaderboard.getPigLeaderboard getCountryISOCode table g p limit
  = firstn limit
      (Leaderboard.sortEntries
         (boardEntries (Leaderboard.database_get table g p))).
Proof.
  unfold Leaderboard.getPigLeaderboard.
  destruct (Leaderboard.database_get table g p) as [|x logs];
    [|reflexivity].
  cbn. destruct limit; reflexivity.
Qed.

Lemma NoDup_firstn {A : Type} (n : nat) (l : list A) :
  NoDup l -> NoDup (firstn n l).
Proof.
  intros Hnd. revert n. induction Hnd as [|a l Ha Hnd IH]; intros [|n];
    cbn [firstn]; try constructor.
  - intros Hin. apply Ha. exact (firstn_subset n l a Hin).
  - apply IH.
Qed.

(** X16.  On the leaderboard of a guild every listed user has at least
    one trip among the logs of the guild, between one country and as many
    countries as trips, and so a score between trips + 2 and three times
    the trips; no user is listed twice; the trips of the listed users add
    up to at most the number of logs of the guild, and to exactly that
    number when the limit is not below the number of users, in which case
    the user of every log is listed. *)
Theorem leaderboard_counts_every_log (table : list BoardLog) (g p : string)
    (limit : nat) :
  let logs := Leaderboard.database_get table g p in
  let out := Leaderboard.getPigLeaderboard getCountryISOCode table g p limit in
  (forall e, In e out ->
     1 <= Leaderboard.e_countryCount e <= Leaderboard.e_tripCount e
     /\ Leaderboard.e_tripCount e <= Z.of_nat (length logs)
     /\ Leaderboard.e_tripCount e + 2 <= Leaderboard.e_score e
        <= 3 * Leaderboard.e_tripCount e
     /\ exists log, In log logs
                    /\ Leaderboard.userId log = Leaderboard.e_userId e)
  /\ NoDup (List.map Leaderboard.e_userId out)
  /\ sumTrips out <= Z.of_nat (length logs)
  /\ ((length (boardEntries logs) <= limit)%nat ->
      sumTrips out = Z.of_nat (length logs)
      /\ forall log, In log logs ->
           exists e, In e out
                     /\ Leaderboard.e_userId e = Leaderboard.userId log).
Proof.
  cbn zeta. rewrite getPigLeaderboard_firstn.
  set (logs := Leaderboard.database_get table g p).
  set (entries := boardEntries logs).
  pose proof (sortEntries_perm entries) as Hperm.
  assert (Hin : forall e, In e (Leaderboard.sortEntries entries) ->
                          In e entries).
  { intros e He. exact (Permutation_in e Hperm He). }
  assert (Hall : Forall (fun e => 0 <= Leaderboard.e_tripCount e)
                   (Leaderboard.sortEntries entries)).
  { apply Forall_forall. intros e He.
    destruct (boardEntries_bounds logs e (Hin e He)) as (H & _). lia. }
  destruct (sumTrips_firstn limit _ Hall) as [Hsum Hfull].
  rewrite (sumTrips_perm _ _ Hperm) in Hsum, Hfull.
  unfold entries in Hsum, Hfull. rewrite boardEntries_sum in Hsum, Hfull.
  fold entries in Hsum, Hfull.
  split; [|split; [|split]].
  - intros e He. apply firstn_subset in He.
    destruct (boardEntries_bounds logs e (Hin e He)) as (H1 & H2 & H3 & H4).
    split; [exact H1|]. split; [exact H2|]. split; [lia|exact H4].
  - rewrite <- firstn_map. apply NoDup_firstn.
    apply (Permutation_NoDup
             (Permutation_sym (Permutation_map Leaderboard.e_userId Hperm))).
    unfold entries. rewrite boardEntries_spec, List.map_map. cbn.
    rewrite List.map_id. apply firstSeen_NoDup.
  - lia.
  - intros Hlimit.
    assert (Hlen : (length (Leaderboard.sortEntries entries) <= limit)%nat).
    { rewrite (Permutation_length Hperm). exact Hlimit. }
    split; [exact (Hfull Hlen)|].
    intros log Hlog. rewrite firstn_all2 by exact Hlen.
    exists (Leaderboard.entryOf
              (statOf getCountryISOCode logs (Leaderboard.userId log))).
    split; [|reflexivity].
    apply (Permutation_in _ (Permutation_sym Hperm)).
    unfold entries. rewrite boardEntries_spec.
    apply (in_map (fun u => Leaderboard.entryOf
                              (statOf getCountryISOCode logs u))).
    apply (proj2 (firstSeen_in getCountryISOCode _ _)).
    apply (in_map Leaderboard.userId). exact Hlog.
Qed.

End LeaderboardBounds.

(** ** Escaped text *)

Section HtmlFacts.

(** The characters that the pattern matches, and those of them that
    delimit markup. *)
Definition isSpecial (c : ascii) : bool :=
  Ascii.eqb c "&" || Ascii.eqb c "<" || Ascii.eqb c ">" || Ascii.eqb c dq
  || Ascii.eqb c "'".

Definition isDelimiter (c : ascii) : bool :=
  Ascii.eqb c "<" || Ascii.eqb c ">" || Ascii.eqb c dq || Ascii.eqb c "'".

Definition clean (text : string) : bool :=
  forallb (fun c => negb (isSpecial c)) (list_ascii_of_string text).

Definition noDelimiter (text : string) : bool :=
  forallb (fun c => negb (isDelimiter c)) (list_ascii_of_string text).

Ltac by_char c :=
  unfold Html.escapeChar, isSpecial, isDelimiter;
  destruct (Ascii.eqb_spec c "&") as [->|?];
  [|destruct (Ascii.eqb_spec c "<") as [->|?];
    [|destruct (Ascii.eqb_spec c ">") as [->|?];
      [|destruct (Ascii.eqb_spec c dq) as [->|?];
        [|destruct (Ascii.eqb_spec c "'") as [->|?]]]]].

Lemma escapeChar_cancel (c c' : ascii) (r r' : string) :
  Html.escapeChar c +:+ r = Html.escapeChar c' +:+ r' -> c = c' /\ r = r'.
Proof.
  by_char c; by_char c'; cbn; intros E; injection E; intros; subst;
    try (split; [reflexivity|assumption]); try congruence; try discriminate.
Qed.

Lemma escapeHtml_inj (a b : string) :
  Html.escapeHtml a = Html.escapeHtml b -> a = b.
Proof.
  revert b. induction a as [|c a IH]; intros [|c' b]; cbn [Html.escapeHtml].
  - reflexivity.
  - by_char c'; discriminate.
  - by_char c; discriminate.
  - intros E. apply escapeChar_cancel in E as [-> E]. f_equal. exact (IH b E).
Qed.

Lemma list_ascii_app (a b : string) :
  list_ascii_of_string (a +:+ b)
  = list_ascii_of_string a ++ list_ascii_of_string b.
Proof.
  induction a as [|c a IH]; [reflexivity|].
  change (c :: list_ascii_of_string (a +:+ b)
          = c :: (list_ascii_of_string a ++ list_ascii_of_string b)).
  f_equal. exact IH.
Qed.

Lemma escapeHtml_noDelimiter (text : string) :
  noDelimiter (Html.escapeHtml text) = true.
Proof.
  unfold noDelimiter. induction text as [|c text IH]; [reflexivity|].
  cbn [Html.escapeHtml]. rewrite list_ascii_app, forallb_app, IH, andb_true_r.
  by_char c; try reflexivity. cbn.
  destruct (Ascii.eqb_spec c "<"); [contradiction|].
  destruct (Ascii.eqb_spec c ">"); [contradiction|].
  destruct (Ascii.eqb_spec c dq); [contradiction|].
  destruct (Ascii.eqb_spec c "'"); [contradiction|]. reflexivity.
Qed.

Lemma escapeHtml_length (text : string) :
  (String.length text <= String.length (Html.escapeHtml text))%nat
  /\ (String.length (Html.escapeHtml text) = String.length text ->
      clean text = true).
Proof.
  unfold clean. induction text as [|c text [IH1 IH2]]; [split; reflexivity|].
  cbn [Html.escapeHtml list_ascii_of_string forallb String.length].
  assert (Hlen : forall a b, String.length (a +:+ b)
                             = (String.length a + String.length b)%nat).
  { intros a b. induction a as [|x a IHa]; [reflexivity|].
    change (S (String.length (a +:+ b))
            = S (String.length a + String.length b)).
    rewrite IHa. reflexivity. }
  rewrite Hlen.
  by_char c; cbn; try (split; [lia|intros; lia]).
  split; [lia|]. intros E. apply IH2. lia.
Qed.

Lemma escapeHtml_clean (text : string) :
  clean text = true -> Html.escapeHtml text = text.
Proof.
  unfold clean. induction text as [|c text IH]; [reflexivity|].
  cbn [Html.escapeHtml list_ascii_of_string forallb].
  intros H. apply andb_prop in H as [Hc H]. rewrite (IH H).
  revert Hc. by_char c; cbn; try discriminate. reflexivity.
Qed.

Lemma clean_escapeHtml (text : string) :
  clean (Html.escapeHtml text) = true -> clean text = true.
Proof.
  unfold clean. induction text as [|c text IH]; [reflexivity|].
  cbn [Html.escapeHtml list_ascii_of_string forallb].
  rewrite list_ascii_app, forallb_app. intros H.
  apply andb_prop in H as [Hc H]. rewrite (IH H), andb_true_r.
  revert Hc. by_char c; cbn; try discriminate.
  intros _.
  destruct (Ascii.eqb_spec c "&"); [contradiction|].
  destruct (Ascii.eqb_spec c "<"); [contradiction|].
  destruct (Ascii.eqb_spec c ">"); [contradiction|].
  destruct (Ascii.eqb_spec c dq); [contradiction|].
  destruct (Ascii.eqb_spec c "'"); [contradiction|]. reflexivity.
Qed.

(** X17.  An escaped text holds no angle bracket and no quote of either
    kind, so it can end neither a tag nor an attribute value; distinct
    texts have distinct escaped texts; and the escaped text is at least as
    long as the text.  Escaping is not idempotent: escaping an escaped
    text changes it again, unless the text holds none of the five
    characters, in which case the escaped text is the text. *)
Theorem escaped_text_is_inert (text : string) :
  noDelimiter (Html.escapeHtml text) = true
  /\ (forall other, Html.escapeHtml text = Html.escapeHtml other ->
                    text = other)
  /\ (String.length text <= String.length (Html.escapeHtml text))%nat
  /\ (clean text = true <-> Html.escapeHtml text = text)
  /\ (Html.escapeHtml (Html.escapeHtml text) = Html.escapeHtml text
      <-> clean text = true).
Proof.
  split; [apply escapeHtml_noDelimiter|].
  split; [intros other; apply escapeHtml_inj|].
  split; [apply escapeHtml_length|].
  split; [split|split].
  - apply escapeHtml_clean.
  - intros E. apply escapeHtml_length. rewrite E. reflexivity.
  - intros E. apply clean_escapeHtml. apply escapeHtml_length.
    rewrite E. reflexivity.
  - intros H. rewrite (escapeHtml_clean _ H). apply escapeHtml_clean, H.
Qed.

End HtmlFacts.

(** ** Setting and reading the background of a guild *)

Section BackgroundFacts.

Abbreviation GuildConfig := Background.PigGuildConfig.

Lemma bg_same_key_eq (p g p' g' : string) (row : GuildConfig) :
  Background.same_key p g row = true ->
  Background.same_key p' g' row = true -> p = p' /\ g = g'.
Proof.
  unfold Background.same_key. rewrite !andb_true_iff, !String.eqb_eq.
  intros [<- <-] [<- <-]. auto.
Qed.

Lemma bg_get_remove_same (table : list GuildConfig) (p g : string) :
  Background.database_get (Background.database_remove table p g) p g = None.
Proof.
  unfold Background.database_get, Background.database_remove.
  induction table as [|row table IH]; [reflexivity|]. cbn [List.filter].
  destruct (Background.same_key p g row) eqn:E; cbn [negb]; [exact IH|].
  cbn [List.filter]. rewrite E. exact IH.
Qed.

Lemma bg_get_remove_other (table : list GuildConfig) (p g p' g' : string) :
  (p', g') <> (p, g) ->
  Background.database_get (Background.database_remove table p g) p' g'
  = Background.database_get table p' g'.
Proof.
  intros Hne. unfold Background.database_get, Background.database_remove.
  f_equal. induction table as [|row table IH]; [reflexivity|].
  cbn [List.filter].
  destruct (Background.same_key p g row) eqn:E; cbn [negb].
  - destruct (Background.same_key p' g' row) eqn:E'; [|exact IH].
    destruct (bg_same_key_eq _ _ _ _ _ E' E) as [-> ->]. congruence.
  - cbn [List.filter]. rewrite IH. reflexivity.
Qed.

Lemma bg_get_upsert_same (row : GuildConfig) (table : list GuildConfig) :
  Background.database_get (Background.database_upsert row table)
    (Background.platform row) (Background.guildId row) = Some row.
Proof.
  unfold Background.database_get, Background.database_upsert.
  set (hit := Background.same_key _ _).
  assert (Hrow : hit row = true).
  { unfold hit, Background.same_key. rewrite !String.eqb_refl. reflexivity. }
  destruct (existsb hit table) eqn:Ex.
  - induction table as [|old table IH]; [discriminate|].
    cbn [existsb] in Ex. cbn [List.map List.filter].
    destruct (hit old) eqn:Eo.
    + rewrite Hrow. reflexivity.
    + rewrite Eo. apply IH. exact Ex.
  - rewrite List.filter_app.
    assert (Hf : List.filter hit table = []).
    { induction table as [|old table IH]; [reflexivity|]. cbn in *.
      apply orb_false_iff in Ex as [-> Ex]. auto. }
    rewrite Hf. cbn. rewrite Hrow. reflexivity.
Qed.

Lemma bg_get_upsert_other (row : GuildConfig) (table : list GuildConfig)
    (p' g' : string) :
  (p', g') <> (Background.platform row, Background.guildId row) ->
  Background.database_get (Background.database_upsert row table) p' g'
  = Background.database_get table p' g'.
Proof.
  intros Hne. unfold Background.database_get, Background.database_upsert.
  set (hit := Background.same_key (Background.platform row)
                (Background.guildId row)).
  assert (Hrow : hit row = true).
  { unfold hit, Background.same_key. rewrite !String.eqb_refl. reflexivity. }
  assert (Hdisj : forall old, Background.same_key p' g' old = true ->
                              hit old = false).
  { intros old Ho. destruct (hit old) eqn:Eh; [|reflexivity].
    destruct (bg_same_key_eq _ _ _ _ _ Ho Eh) as [-> ->]. congruence. }
  destruct (existsb hit table).
  - f_equal. induction table as [|old table IH]; [reflexivity|].
    cbn [List.map List.filter]. destruct (hit old) eqn:Eh.
    + destruct (Background.same_key p' g' row) eqn:Er;
        [rewrite (Hdisj _ Er) in Hrow; discriminate|].
      destruct (Background.same_key p' g' old) eqn:Eo;
        [rewrite (Hdisj _ Eo) in Eh; discriminate|].
      exact IH.
    + destruct (Background.same_key p' g' old); [f_equal|]; exact IH.
  - rewrite List.filter_app. cbn [List.filter].
    destruct (Background.same_key p' g' row) eqn:Er;
      [rewrite (Hdisj _ Er) in Hrow; discriminate|].
    rewrite app_nil_r. reflexivity.
Qed.

(** X18.  For a guild with a non-empty id: after a background is set,
    the card background read for the guild is that image, and the
    background information is the image with its setter and the time of
    setting, except that an empty image gives no information; after a
    reset both are absent.  Setting or resetting the background of one
    guild changes what is read for no other platform and guild.  For the
    empty guild id both reads are absent whatever the table holds. *)
Theorem guild_background_round_trip (now : Z) (table : list GuildConfig)
    (p g image user : string) :
  let written :=
    Background.setGuildBackgroundImage now table p g (Some image) user in
  let cleared :=
    Background.setGuildBackgroundImage now table p g None user in
  (nonempty g = true ->
   Background.getAdminBackgroundImage written p g = Some image
   /\ Background.getGuildBackgroundInfo written p g
      = (if nonempty image
         then Some {| Background.i_backgroundImage := Some image;
                      Background.setBy := Some user;
                      Background.setAt := Some now |}
         else None)
   /\ Background.getAdminBackgroundImage cleared p g = None
   /\ Background.getGuildBackgroundInfo cleared p g = None)
  /\ (forall p' g', (p', g') <> (p, g) ->
        Background.getAdminBackgroundImage written p' g'
        = Background.getAdminBackgroundImage table p' g'
        /\ Background.getGuildBackgroundInfo written p' g'
           = Background.getGuildBackgroundInfo table p' g'
        /\ Background.getAdminBackgroundImage cleared p' g'
           = Background.getAdminBackgroundImage table p' g'
        /\ Background.getGuildBackgroundInfo cleared p' g'
           = Background.getGuildBackgroundInfo table p' g')
  /\ (forall t p',
        Background.getAdminBackgroundImage t p' "" = None
        /\ Background.getGuildBackgroundInfo t p' "" = None).
Proof.
  cbn zeta. unfold Background.setGuildBackgroundImage.
  set (row := Background.Build_PigGuildConfig p g (Some image) (Some user)
                (Some now)).
  split; [|split].
  - intros Hg.
    unfold Background.getAdminBackgroundImage,
      Background.getGuildBackgroundInfo.
    rewrite Hg. cbn [negb].
    rewrite (bg_get_upsert_same row table : Background.database_get _ p g = _).
    rewrite bg_get_remove_same. cbn.
    destruct (nonempty image); auto.
  - intros p' g' Hne.
    unfold Background.getAdminBackgroundImage,
      Background.getGuildBackgroundInfo.
    rewrite (bg_get_upsert_other row table p' g' Hne).
    rewrite (bg_get_remove_other table p g p' g' Hne). auto.
  - intros t p'. split; reflexivity.
Qed.

End BackgroundFacts.

(** ** The month of a monthly summary *)

Section PeriodFacts.

(** Months counted from the year 0, the month [m] of the year [y] being
    the one of number 1 to 12. *)
Definition monthNumber (period : Z * Z) : Z := 12 * period.1 + period.2.

(** X19.  With [monthIndex] the month of the clock, from 0 for January:
    without arguments the command works on the calendar month before the
    current one, as the monthly job does; a month argument from 1 to 12 is
    taken with the year argument, or the current year without one; a month
    argument of 0 counts as none, and any other month is refused.  A year
    argument without a month selects the month before the current one in
    that year, except in January, where the year argument is ignored and
    the period is December of the year before the current one.  A period
    that is not refused has a month from 1 to 12. *)
Theorem summary_period_defaults (yearArg monthArg : option Z)
    (fullYear monthIndex : Z) :
  0 <= monthIndex <= 11 ->
  (exists period,
     Period.summaryPeriod None None fullYear monthIndex = Some period
     /\ period = Period.cronPeriod fullYear monthIndex
     /\ 1 <= period.2 <= 12
     /\ monthNumber period = monthNumber (fullYear, monthIndex + 1) - 1)
  /\ (forall month, 1 <= month <= 12 ->
        Period.summaryPeriod yearArg (Some month) fullYear monthIndex
        = Some (default fullYear yearArg, month))
  /\ (forall month, month < 0 \/ 12 < month ->
        Period.summaryPeriod yearArg (Some month) fullYear monthIndex = None)
  /\ Period.summaryPeriod yearArg (Some 0) fullYear monthIndex
     = Period.summaryPeriod yearArg None fullYear monthIndex
  /\ Period.summaryPeriod yearArg None fullYear monthIndex
     = (if monthIndex =? 0 then Some (fullYear - 1, 12)
        else Some (default fullYear yearArg, monthIndex))
  /\ (forall period,
        Period.summaryPeriod yearArg monthArg fullYear monthIndex
        = Some period -> 1 <= period.2 <= 12).
Proof.
  intros Hm. unfold Period.summaryPeriod, Period.cronPeriod, monthNumber.
  split; [|split; [|split; [|split; [|split]]]].
  - cbn [Period.falsy andb default from_option id].
    destruct (Z.eqb_spec monthIndex 0) as [->|Hne].
    + exists (fullYear - 1, 12). cbn. repeat split; lia.
    + exists (fullYear, monthIndex).
      destruct (Z.ltb_spec monthIndex 1); [lia|].
      destruct (Z.gtb_spec monthIndex 12); [lia|]. cbn. repeat split; lia.
  - intros month Hr. cbn [Period.falsy default from_option id].
    destruct (Z.eqb_spec month 0); [lia|]. cbn [andb].
    destruct (Z.ltb_spec month 1); [lia|].
    destruct (Z.gtb_spec month 12); [lia|]. reflexivity.
  - intros month Hr. cbn [Period.falsy default from_option id].
    destruct (Z.eqb_spec month 0); [lia|]. cbn [andb].
    destruct (Z.ltb_spec month 1); [reflexivity|].
    destruct (Z.gtb_spec month 12); [reflexivity|lia].
  - reflexivity.
  - cbn [Period.falsy andb].
    destruct (Z.eqb_spec monthIndex 0) as [->|Hne]; [reflexivity|].
    destruct (Z.ltb_spec monthIndex 1); [lia|].
    destruct (Z.gtb_spec monthIndex 12); [lia|]. reflexivity.
  - intros period.
    destruct (Period.falsy monthArg && (monthIndex =? 0));
      [intros [= <-]; cbn; lia|].
    destruct (Period.falsy monthArg).
    + destruct (Z.ltb_spec monthIndex 1); [discriminate|].
      destruct (Z.gtb_spec monthIndex 12); [discriminate|].
      intros [= <-]. cbn. lia.
    + destruct (Z.ltb_spec (default monthIndex monthArg) 1); [discriminate|].
      destruct (Z.gtb_spec (default monthIndex monthArg) 12);
        [discriminate|].
      intros [= <-]. cbn. lia.
Qed.

(** In January 2026 a summary asked for the year 2024 without a month is
    the one of December 2025. *)
Lemma summary_period_witness :
  Period.summaryPeriod (Some 2024) None 2026 0 = Some (2025, 12).
Proof.
  destruct (summary_period_defaults (Some 2024) None 2026 0 ltac:(lia))
    as (_ & _ & _ & _ & H & _).
  exact H.
Defined.

End PeriodFacts.

(** ** Grouping the logs of a month by user *)

Section SetAddFacts.

Lemma set_add_spec (set : list string) (x : string) :
  NoDup set ->
  NoDup (Monthly.set_add set x)
  /\ (forall y, In y (Monthly.set_add set x) <-> In y set \/ y = x)
  /\ (length (Monthly.set_add set x) <= length set + 1)%nat.
Proof.
  intros Hnd. unfold Monthly.set_add.
  destruct (existsb (String.eqb x) set) eqn:E.
  - apply existsb_exists in E as (y & Hy & Exy). apply String.eqb_eq in Exy.
    subst y. split; [exact Hnd|]. split; [|lia].
    intros y. split; [auto|]. intros [H| ->]; assumption.
  - assert (Hx : ~ In x set).
    { intros Hin. apply not_true_iff_false in E. apply E.
      apply existsb_exists. exists x. split; [exact Hin|].
      apply String.eqb_refl. }
    split; [|split].
    + apply NoDup_app; [exact Hnd|repeat constructor; intros []|].
      intros y Hy [<-|[]]. exact (Hx Hy).
    + intros y. rewrite in_app_iff. cbn. split.
      * intros [H|[<-|[]]]; auto.
      * intros [H| ->]; auto.
    + rewrite length_app. cbn. lia.
Qed.

Lemma set_add_fold {A : Type} (f : A -> string) (xs : list A)
    (set : list string) :
  NoDup set ->
  let out := fold_left (fun set x => Monthly.set_add set (f x)) xs set in
  NoDup out
  /\ (forall y, In y out <-> In y set \/ In y (List.map f xs))
  /\ (length out <= length set + length xs)%nat.
Proof.
  cbn zeta. revert set. induction xs as [|x xs IH]; intros set Hnd.
  - cbn. split; [exact Hnd|]. split; [intros y; tauto|lia].
  - cbn [fold_left List.map length].
    destruct (set_add_spec set (f x) Hnd) as (Hnd1 & Hin1 & Hlen1).
    destruct (IH _ Hnd1) as (Hnd2 & Hin2 & Hlen2).
    split; [exact Hnd2|]. split; [|lia].
    intros y. rewrite Hin2, Hin1. cbn [In]. intuition congruence.
Qed.

End SetAddFacts.

Section GroupByFacts.
Context {L V : Type}.
Variable key : L -> string.
Variable init : L -> V.
Variable bump : L -> V -> V.

(** The step that the loops over the logs of a month share: the first log
    of a key makes its entry, every log of the key changes it. *)
Definition groupStep (m : Collections.OMap (V := V)) (log : L)
  : Collections.OMap (V := V) :=
  let m1 :=
    if negb (Collections.om_has (key log) m)
    then Collections.om_set (key log) (init log) m
    else m in
  Collections.om_update (key log) (bump log) m1.

Definition groupOf (k : string) (logs : list L) : list L :=
  List.filter (fun log => String.eqb (key log) k) logs.

Definition entryFor (first : L) (rest : list L) : V :=
  fold_left (fun v log => bump log v) (first :: rest) (init first).

Definition grouped (done : list L) (m : Collections.OMap (V := V)) : Prop :=
  NoDup (List.map fst m)
  /\ (forall k v, In (k, v) m ->
        exists first rest,
          groupOf k done = first :: rest /\ v = entryFor first rest)
  /\ (forall log, In log done -> In (key log) (List.map fst m)).

Lemma groupOf_snoc (k : string) (done : list L) (x : L) :
  groupOf k (done ++ [x])
  = groupOf k done ++ (if String.eqb (key x) k then [x] else []).
Proof. unfold groupOf. rewrite List.filter_app. reflexivity. Qed.

Lemma om_update_last (k : string) (f : V -> V) (v : V)
    (m : Collections.OMap (V := V)) :
  ~ In k (List.map fst m) ->
  Collections.om_update k f (m ++ [(k, v)]) = m ++ [(k, f v)].
Proof.
  induction m as [|[k' v'] m IH]; cbn [app Collections.om_update List.map fst In].
  - rewrite String.eqb_refl. reflexivity.
  - intros Hn. destruct (String.eqb_spec k' k) as [->|Hne]; [tauto|].
    rewrite IH; [reflexivity|tauto].
Qed.

Lemma grouped_step (done : list L) (x : L)
    (m : Collections.OMap (V := V)) :
  grouped done m -> grouped (done ++ [x]) (groupStep m x).
Proof.
  intros (Hnd & Hall & Hkeys). unfold groupStep, Collections.om_has.
  assert (Hother : forall k, k <> key x ->
                             groupOf k (done ++ [x]) = groupOf k done).
  { intros k Hk. rewrite groupOf_snoc.
    destruct (String.eqb_spec (key x) k); [congruence|apply app_nil_r]. }
  assert (Hsame : groupOf (key x) (done ++ [x])
                  = groupOf (key x) done ++ [x]).
  { rewrite groupOf_snoc, String.eqb_refl. reflexivity. }
  destruct (Collections.om_get (key x) m) as [old|] eqn:Eget; cbn [negb].
  - pose proof (om_get_in _ _ _ Eget) as Hold.
    split; [rewrite om_update_keys; exact Hnd|]. split.
    + intros k v Hin.
      destruct (om_update_in _ _ _ _ _ Hnd Hin)
        as [[Hk Hin']|[-> (old' & Hold' & ->)]].
      * rewrite (Hother k Hk). exact (Hall k v Hin').
      * destruct (Hall _ _ Hold') as (first & rest & Eg & ->).
        exists first, (rest ++ [x]). rewrite Hsame, Eg.
        split; [reflexivity|]. unfold entryFor.
        change (first :: rest ++ [x]) with ((first :: rest) ++ [x]).
        rewrite fold_left_app. reflexivity.
    + intros log Hl. rewrite om_update_keys.
      apply in_app_iff in Hl as [Hl|[<-|[]]]; [exact (Hkeys log Hl)|].
      apply (in_map fst) in Hold. exact Hold.
  - pose proof (proj1 (om_get_none _ _) Eget) as Hnew.
    unfold Collections.om_set, Collections.om_has. rewrite Eget.
    rewrite (om_update_last _ _ _ _ Hnew).
    assert (Hnone : groupOf (key x) done = []).
    { destruct (groupOf (key x) done) as [|log rest] eqn:E; [reflexivity|].
      exfalso. apply Hnew.
      assert (Hl : In log (groupOf (key x) done)) by (rewrite E; left; auto).
      unfold groupOf in Hl. apply filter_In in Hl as [Hl Hk].
      apply String.eqb_eq in Hk. rewrite <- Hk. exact (Hkeys log Hl). }
    split; [|split].
    + rewrite List.map_app. cbn [List.map fst].
      apply NoDup_app; [exact Hnd|repeat constructor; intros []|].
      intros k Hk [<-|[]]. exact (Hnew Hk).
    + intros k v Hin. apply in_app_iff in Hin as [Hin|[[= <- <-]|[]]].
      * rewrite Hother; [exact (Hall k v Hin)|].
        intros ->. apply Hnew. apply (in_map fst) in Hin. exact Hin.
      * exists x, []. rewrite Hsame, Hnone. split; reflexivity.
    + intros log Hl. rewrite List.map_app, in_app_iff. cbn [List.map fst In].
      apply in_app_iff in Hl as [Hl|[<-|[]]]; [left; exact (Hkeys log Hl)|].
      right. left. reflexivity.
Qed.

Lemma grouped_fold (logs : list L) :
  grouped logs (fold_left groupStep logs []).
Proof.
  assert (H : forall done m, grouped done m ->
                grouped (done ++ logs) (fold_left groupStep logs m)).
  { induction logs as [|x logs IH]; intros done m Hg.
    - rewrite app_nil_r. exact Hg.
    - cbn [fold_left].
      replace (done ++ x :: logs) with ((done ++ [x]) ++ logs)
        by (rewrite <- app_assoc; reflexivity).
      apply IH. apply grouped_step. exact Hg. }
  apply (H [] []). split; [constructor|]. split; [intros k v []|intros log []].
Qed.

End GroupByFacts.

(** ** The monthly summaries *)

Section MonthlyFacts.
Variable monthStart : Z -> Z -> Z.

Abbreviation MonthLog := Leaderboard.PigTravelLog.
Abbreviation logsInMonth := (Monthly.logsInMonth monthStart).
Abbreviation GroupUser := Monthly.MonthlySummaryGroupUser.

Definition sumUserTrips (users : list GroupUser) : Z :=
  fold_right (fun u acc => Monthly.u_totalTrips u + acc) 0 users.

Definition sumEntryTrips (m : Collections.OMap (V := Monthly.GroupEntry))
  : Z :=
  fold_right (fun kv acc => Monthly.g_totalTrips (snd kv) + acc) 0 m.

(** The logs of a user of a platform. *)
Definition logsBy (platform userId : string) (logs : list MonthLog)
  : list MonthLog :=
  List.filter
    (fun log => String.eqb (Leaderboard.platform log) platform
                && String.eqb (Leaderboard.userId log) userId)
    logs.

Definition countriesOf (logs : list MonthLog) : gset string :=
  list_to_set (List.map Leaderboard.country logs).

Definition locationsOf (logs : list MonthLog) : gset string :=
  list_to_set (List.map Leaderboard.location logs).

Definition noColon (s : string) : bool :=
  forallb (fun c => negb (Ascii.eqb c ":")) (list_ascii_of_string s).

Lemma addUserLog_groupStep (m : Collections.OMap (V := Monthly.GroupEntry))
    (log : MonthLog) :
  Monthly.addUserLog m log
  = groupStep Monthly.userKey Monthly.newEntry Monthly.countTrip m log.
Proof. reflexivity. Qed.

Lemma om_update_id {V : Type} (k : string) (m : Collections.OMap (V := V)) :
  Collections.om_update k (fun v => v) m = m.
Proof.
  induction m as [|[k' v'] m IH]; [reflexivity|]. cbn [Collections.om_update].
  destruct (String.eqb k' k); [reflexivity|]. rewrite IH. reflexivity.
Qed.

Definition refOf (log : MonthLog) : Monthly.UserRef :=
  {| Monthly.r_userId := Leaderboard.userId log;
     Monthly.r_platform := Leaderboard.platform log |}.

Lemma noteUser_groupStep (m : Collections.OMap (V := Monthly.UserRef))
    (log : MonthLog) :
  Monthly.noteUser m log
  = groupStep Monthly.userKey refOf (fun _ v => v) m log.
Proof.
  unfold Monthly.noteUser, groupStep. rewrite om_update_id. reflexivity.
Qed.

Lemma fold_countTrip (logs : list MonthLog) (e0 : Monthly.GroupEntry) :
  let e := fold_left (fun v log => Monthly.countTrip log v) logs e0 in
  Monthly.g_userId e = Monthly.g_userId e0
  /\ Monthly.g_platform e = Monthly.g_platform e0
  /\ Monthly.g_totalTrips e
     = Monthly.g_totalTrips e0 + Z.of_nat (length logs)
  /\ Monthly.g_countries e = Monthly.g_countries e0 ∪ countriesOf logs
  /\ Monthly.g_locations e = Monthly.g_locations e0 ∪ locationsOf logs.
Proof.
  cbn zeta. revert e0. unfold countriesOf, locationsOf.
  induction logs as [|x logs IH]; intros e0.
  - cbn. rewrite !union_empty_r_L. repeat split; lia.
  - cbn [fold_left List.map list_to_set length].
    destruct (IH (Monthly.countTrip x e0)) as (H1 & H2 & H3 & H4 & H5).
    rewrite H1, H2, H3, H4, H5. cbn [Monthly.countTrip Monthly.g_userId
      Monthly.g_platform Monthly.g_totalTrips Monthly.g_countries
      Monthly.g_locations].
    rewrite !(assoc_L (∪)). repeat split; lia.
Qed.

(** The entry of a key after the loop, from the logs of the key. *)
Lemma entryFor_spec (first : MonthLog) (rest : list MonthLog) :
  let e := entryFor Monthly.newEntry Monthly.countTrip first rest in
  Monthly.g_userId e = Leaderboard.userId first
  /\ Monthly.g_platform e = Leaderboard.platform first
  /\ Monthly.g_totalTrips e = Z.of_nat (length (first :: rest))
  /\ Monthly.g_countries e = countriesOf (first :: rest)
  /\ Monthly.g_locations e = locationsOf (first :: rest).
Proof.
  cbn zeta. unfold entryFor.
  destruct (fold_countTrip (first :: rest) (Monthly.newEntry first))
    as (H1 & H2 & H3 & H4 & H5).
  rewrite H1, H2, H3, H4, H5. cbn [Monthly.newEntry Monthly.g_userId
    Monthly.g_platform Monthly.g_totalTrips Monthly.g_countries
    Monthly.g_locations].
  rewrite !union_empty_l_L. repeat split; lia.
Qed.

Lemma fold_addGroupLog (logs : list MonthLog) (t : Monthly.GroupTally) :
  let t' := fold_left Monthly.addGroupLog logs t in
  Monthly.userMap t' = fold_left Monthly.addUserLog logs (Monthly.userMap t)
  /\ Monthly.countriesSet t'
     = fold_left (fun set log => Monthly.set_add set (Leaderboard.country log))
         logs (Monthly.countriesSet t)
  /\ Monthly.locationsSet t'
     = fold_left
         (fun set log => Monthly.set_add set (Leaderboard.location log))
         logs (Monthly.locationsSet t).
Proof.
  cbn zeta. revert t. induction logs as [|x logs IH]; intros t;
    [repeat split|].
  cbn [fold_left]. destruct (IH (Monthly.addGroupLog t x)) as (H1 & H2 & H3).
  rewrite H1, H2, H3. repeat split.
Qed.

Lemma sumEntryTrips_app (m m' : Collections.OMap (V := Monthly.GroupEntry)) :
  sumEntryTrips (m ++ m') = sumEntryTrips m + sumEntryTrips m'.
Proof.
  unfold sumEntryTrips. induction m as [|kv m IH]; cbn [app fold_right];
    [lia|]. rewrite IH. lia.
Qed.

Lemma sumEntryTrips_update (k : string) (x : MonthLog)
    (m : Collections.OMap (V := Monthly.GroupEntry)) :
  In k (List.map fst m) ->
  sumEntryTrips (Collections.om_update k (Monthly.countTrip x) m)
  = sumEntryTrips m + 1.
Proof.
  unfold sumEntryTrips.
  induction m as [|[k' v'] m IH]; cbn [List.map fst In]; [intros []|].
  cbn [Collections.om_update].
  destruct (String.eqb_spec k' k) as [->|Hne]; cbn [fold_right snd].
  - intros _. cbn [Monthly.countTrip Monthly.g_totalTrips]. lia.
  - intros [E|Hin]; [congruence|]. rewrite (IH Hin). lia.
Qed.

Lemma sumEntryTrips_step (m : Collections.OMap (V := Monthly.GroupEntry))
    (x : MonthLog) :
  sumEntryTrips (Monthly.addUserLog m x) = sumEntryTrips m + 1.
Proof.
  unfold Monthly.addUserLog, Collections.om_has.
  destruct (Collections.om_get (Monthly.userKey x) m) as [old|] eqn:Eget;
    cbn [negb].
  - apply sumEntryTrips_update. apply om_get_in in Eget.
    apply (in_map fst) in Eget. exact Eget.
  - unfold Collections.om_set, Collections.om_has. rewrite Eget.
    rewrite sumEntryTrips_update.
    + rewrite sumEntryTrips_app. unfold sumEntryTrips at 2. cbn. lia.
    + rewrite List.map_app. apply in_app_iff. right. left. reflexivity.
Qed.

Lemma sumEntryTrips_fold (logs : list MonthLog)
    (m : Collections.OMap (V := Monthly.GroupEntry)) :
  sumEntryTrips (fold_left Monthly.addUserLog logs m)
  = sumEntryTrips m + Z.of_nat (length logs).
Proof.
  revert m. induction logs as [|x logs IH]; intros m;
    [cbn [fold_left length]; lia|].
  cbn [fold_left length]. rewrite IH, sumEntryTrips_step. lia.
Qed.

Lemma sumUserTrips_perm (l l' : list GroupUser) :
  Permutation l l' -> sumUserTrips l = sumUserTrips l'.
Proof. unfold sumUserTrips. induction 1; cbn [fold_right]; lia. Qed.

Lemma sumUserTrips_entries (profiles : option (string -> option Monthly.Profile))
    (m : Collections.OMap (V := Monthly.GroupEntry)) :
  sumUserTrips (List.map (Monthly.groupUser profiles)
                  (Collections.om_values m))
  = sumEntryTrips m.
Proof.
  unfold sumUserTrips, sumEntryTrips, Collections.om_values.
  induction m as [|kv m IH]; [reflexivity|].
  cbn [List.map fold_right]. rewrite IH. reflexivity.
Qed.

Lemma length_le_sumUserTrips (users : list GroupUser) :
  Forall (fun u => 1 <= Monthly.u_totalTrips u) users ->
  Z.of_nat (length users) <= sumUserTrips users.
Proof.
  unfold sumUserTrips. induction 1 as [|u users Hu _ IH];
    cbn [length fold_right]; lia.
Qed.

Lemma size_countries_le (group logs : list string) (visited : list string) :
  NoDup visited ->
  (forall c, In c group -> In c visited) ->
  (size (list_to_set group : gset string) <= length visited)%nat.
Proof.
  intros Hnd Hsub. rewrite <- (size_list_to_set (C := gset string) visited)
    by exact (proj2 (NoDup_ListNoDup visited) Hnd).
  apply subseteq_size. intros c Hc. apply elem_of_list_to_set in Hc.
  apply elem_of_list_to_set. apply list_elem_of_In.
  apply Hsub. apply list_elem_of_In. exact Hc.
Qed.

(** The users of the group summary before sorting, from the logs. *)
Lemma group_users_spec (logs : list MonthLog)
    (profiles : option (string -> option Monthly.Profile)) (u : GroupUser) :
  In u (List.map (Monthly.groupUser profiles)
          (Collections.om_values (fold_left Monthly.addUserLog logs []))) ->
  exists k first rest,
    groupOf Monthly.userKey k logs = first :: rest
    /\ Monthly.u_userId u = Leaderboard.userId first
    /\ Monthly.u_platform u = Leaderboard.platform first
    /\ Monthly.u_totalTrips u = Z.of_nat (length (first :: rest))
    /\ Monthly.u_countriesCount u
       = Z.of_nat (size (countriesOf (first :: rest)))
    /\ Monthly.u_locationsCount u
       = Z.of_nat (size (locationsOf (first :: rest))).
Proof.
  intros Hu. apply in_map_iff in Hu as (e & <- & He).
  unfold Collections.om_values in He.
  apply in_map_iff in He as ([k e'] & E & Hin). cbn in E. subst e'.
  destruct (grouped_fold Monthly.userKey Monthly.newEntry Monthly.countTrip
              logs) as (_ & Hall & _).
  assert (Hf : fold_left Monthly.addUserLog logs []
               = fold_left (groupStep Monthly.userKey Monthly.newEntry
                              Monthly.countTrip) logs []) by reflexivity.
  rewrite Hf in Hin. destruct (Hall k e Hin) as (first & rest & Eg & ->).
  destruct (entryFor_spec first rest) as (H1 & H2 & H3 & H4 & H5).
  exists k, first, rest. cbn [Monthly.groupUser Monthly.u_userId
    Monthly.u_platform Monthly.u_totalTrips Monthly.u_countriesCount
    Monthly.u_locationsCount].
  rewrite H1, H2, H3, H4, H5. repeat split. exact Eg.
Qed.

(** X20.  The group summary of a month counts every log of the month
    once: the trips of its users add up to its total, which is the number
    of logs of the month; it has no more users than trips, and none
    exactly when the month has no log.  Every user has at least one trip,
    between one country and as many countries as trips, no more countries
    than the summary lists, and the same for locations; the users stand
    in descending order of their trips; and the countries and locations
    listed are those of the logs, each once. *)
Theorem monthly_group_counts_every_log (table : list MonthLog)
    (year month : Z) (guildId : option string)
    (profiles : option (string -> option Monthly.Profile)) :
  let logs := logsInMonth table year month guildId in
  let data := Monthly.prepareMonthlySummaryGroup monthStart table year month
                guildId profiles in
  Monthly.gd_totalTrips data = Z.of_nat (length logs)
  /\ Monthly.gd_totalUsers data = Z.of_nat (length (Monthly.gd_users data))
  /\ sumUserTrips (Monthly.gd_users data) = Monthly.gd_totalTrips data
  /\ Monthly.gd_totalUsers data <= Monthly.gd_totalTrips data
  /\ (Monthly.gd_totalUsers data = 0 <-> logs = [])
  /\ (forall u, In u (Monthly.gd_users data) ->
        1 <= Monthly.u_countriesCount u <= Monthly.u_totalTrips u
        /\ 1 <= Monthly.u_locationsCount u <= Monthly.u_totalTrips u
        /\ Monthly.u_countriesCount u
           <= Z.of_nat (length (Monthly.gd_countriesVisited data))
        /\ Monthly.u_locationsCount u
           <= Z.of_nat (length (Monthly.gd_locationsVisited data))
        /\ exists log, In log logs
                       /\ Leaderboard.userId log = Monthly.u_userId u
                       /\ Leaderboard.platform log = Monthly.u_platform u)
  /\ StronglySorted
       (fun a b => Monthly.u_totalTrips a >= Monthly.u_totalTrips b)
       (Monthly.gd_users data)
  /\ NoDup (Monthly.gd_countriesVisited data)
  /\ NoDup (Monthly.gd_locationsVisited data)
  /\ (forall c, In c (Monthly.gd_countriesVisited data)
                <-> exists log, In log logs /\ Leaderboard.country log = c)
  /\ (forall l, In l (Monthly.gd_locationsVisited data)
                <-> exists log, In log logs /\ Leaderboard.location log = l).
Proof.
  cbn zeta. unfold Monthly.prepareMonthlySummaryGroup.
  set (logs := logsInMonth table year month guildId).
  set (t0 := Monthly.Build_GroupTally [] [] []).
  destruct (fold_addGroupLog logs t0) as (Hmap & Hcs & Hls).
  cbn zeta in Hmap, Hcs, Hls.
  set (t := fold_left Monthly.addGroupLog logs t0) in *.
  cbn [Monthly.gd_totalTrips Monthly.gd_totalUsers Monthly.gd_users
       Monthly.gd_countriesVisited Monthly.gd_locationsVisited].
  cbn [t0 Monthly.userMap Monthly.countriesSet Monthly.locationsSet]
    in Hmap, Hcs, Hls.
  set (unsorted := List.map (Monthly.groupUser profiles)
                     (Collections.om_values (Monthly.userMap t))).
  pose proof (sortDesc_perm Monthly.u_totalTrips unsorted) as Hperm.
  destruct (set_add_fold Leaderboard.country logs [] (NoDup_nil _))
    as (Hcnd & Hcin & _).
  destruct (set_add_fold Leaderboard.location logs [] (NoDup_nil _))
    as (Hlnd & Hlin & _).
  cbn zeta in Hcnd, Hcin, Hlnd, Hlin.
  rewrite <- Hcs in Hcnd, Hcin. rewrite <- Hls in Hlnd, Hlin.
  assert (Hsum : sumUserTrips unsorted = Z.of_nat (length logs)).
  { unfold unsorted. rewrite sumUserTrips_entries, Hmap, sumEntryTrips_fold.
    unfold sumEntryTrips. cbn. lia. }
  assert (Huser : forall u, In u unsorted ->
            1 <= Monthly.u_countriesCount u <= Monthly.u_totalTrips u
            /\ 1 <= Monthly.u_locationsCount u <= Monthly.u_totalTrips u
            /\ Monthly.u_countriesCount u
               <= Z.of_nat (length (Monthly.countriesSet t))
            /\ Monthly.u_locationsCount u
               <= Z.of_nat (length (Monthly.locationsSet t))
            /\ exists log, In log logs
                           /\ Leaderboard.userId log = Monthly.u_userId u
                           /\ Leaderboard.platform log
                              = Monthly.u_platform u).
  { intros u Hu. unfold unsorted in Hu. rewrite Hmap in Hu.
    destruct (group_users_spec logs profiles u Hu)
      as (k & first & rest & Eg & H1 & H2 & H3 & H4 & H5).
    assert (Hsub : forall log, In log (first :: rest) -> In log logs).
    { intros log Hl. rewrite <- Eg in Hl. unfold groupOf in Hl.
      apply filter_In in Hl as [Hl _]. exact Hl. }
    rewrite H3, H4, H5. unfold countriesOf, locationsOf.
    pose proof (size_list_to_set_le
                  (List.map Leaderboard.country (first :: rest))) as Hc1.
    pose proof (size_list_to_set_le
                  (List.map Leaderboard.location (first :: rest))) as Hl1.
    rewrite length_map in Hc1, Hl1.
    pose proof (size_list_to_set_pos (Leaderboard.country first)
                  (List.map Leaderboard.country rest)) as Hc2.
    pose proof (size_list_to_set_pos (Leaderboard.location first)
                  (List.map Leaderboard.location rest)) as Hl2.
    cbn [List.map] in *.
    assert (Hc3 : (size (list_to_set
                           (Leaderboard.country first
                            :: List.map Leaderboard.country rest)
                         : gset string)
                   <= length (Monthly.countriesSet t))%nat).
    { apply (size_countries_le _ [] _ Hcnd). intros c Hc. apply Hcin. right.
      change (In c (List.map Leaderboard.country (first :: rest))) in Hc.
      apply in_map_iff in Hc as (log & <- & Hl).
      apply in_map. exact (Hsub log Hl). }
    assert (Hl3 : (size (list_to_set
                           (Leaderboard.location first
                            :: List.map Leaderboard.location rest)
                         : gset string)
                   <= length (Monthly.locationsSet t))%nat).
    { apply (size_countries_le _ [] _ Hlnd). intros c Hc. apply Hlin. right.
      change (In c (List.map Leaderboard.location (first :: rest))) in Hc.
      apply in_map_iff in Hc as (log & <- & Hl).
      apply in_map. exact (Hsub log Hl). }
    split; [lia|]. split; [lia|]. split; [lia|]. split; [lia|].
    exists first. split; [apply Hsub; left; reflexivity|]. auto. }
  assert (Hlen : Z.of_nat (length unsorted) <= sumUserTrips unsorted).
  { apply length_le_sumUserTrips. apply Forall_forall. intros u Hu.
    destruct (Huser u Hu) as (H & _). lia. }
  rewrite (sumUserTrips_perm _ _ Hperm), (Permutation_length Hperm).
  split; [reflexivity|]. split; [reflexivity|]. split; [exact Hsum|].
  split; [lia|]. split; [|split; [|split; [|split; [|split; [|split]]]]].
  - split.
    + intros H0. destruct logs as [|x rest]; [reflexivity|].
      assert (E : unsorted = []) by (apply length_zero_iff_nil; lia).
      rewrite E in Hsum. cbn in Hsum. lia.
    + intros E. rewrite E in Hsum. cbn in Hsum. lia.
  - intros u Hu. apply Huser.
    exact (proj1 (sortDesc_in Monthly.u_totalTrips unsorted u) Hu).
  - apply sortDesc_sorted.
  - exact Hcnd.
  - exact Hlnd.
  - intros c. rewrite Hcin, in_map_iff. cbn [In]. split.
    + intros [[]|(log & E & Hl)]. exists log. auto.
    + intros (log & Hl & E). right. exists log. auto.
  - intros l. rewrite Hlin, in_map_iff. cbn [In]. split.
    + intros [[]|(log & E & Hl)]. exists log. auto.
    + intros (log & Hl & E). right. exists log. auto.
Qed.

(** *** Users with distinct keys *)

Lemma key_inj (p p' u u' : string) :
  noColon p = true -> noColon p' = true ->
  p +:+ ":" +:+ u = p' +:+ ":" +:+ u' -> p = p' /\ u = u'.
Proof.
  unfold noColon. revert p'.
  induction p as [|c p IH]; intros [|c' p'];
    cbn [list_ascii_of_string forallb]; intros Hp Hp' E.
  - injection E as E. auto.
  - injection E as Ec E. subst c'. cbn in Hp'. discriminate.
  - injection E as Ec E. subst c. cbn in Hp. discriminate.
  - injection E as Ec E. subst c'.
    apply andb_prop in Hp as [_ Hp]. apply andb_prop in Hp' as [_ Hp'].
    destruct (IH p' Hp Hp' E) as [-> ->]. auto.
Qed.

Definition plainPlatforms (logs : list MonthLog) : bool :=
  forallb (fun log => noColon (Leaderboard.platform log)) logs.

Lemma plainPlatforms_in (logs : list MonthLog) (log : MonthLog) :
  plainPlatforms logs = true -> In log logs ->
  noColon (Leaderboard.platform log) = true.
Proof.
  unfold plainPlatforms. rewrite forallb_forall. intros H Hl. exact (H log Hl).
Qed.

Lemma plainPlatforms_filter (p : MonthLog -> bool) (logs : list MonthLog) :
  plainPlatforms logs = true -> plainPlatforms (List.filter p logs) = true.
Proof.
  unfold plainPlatforms. rewrite !forallb_forall. intros H log Hl.
  apply filter_In in Hl as [Hl _]. exact (H log Hl).
Qed.

Lemma userKey_inj (logs : list MonthLog) (a b : MonthLog) :
  plainPlatforms logs = true -> In a logs -> In b logs ->
  Monthly.userKey a = Monthly.userKey b ->
  Leaderboard.platform a = Leaderboard.platform b
  /\ Leaderboard.userId a = Leaderboard.userId b.
Proof.
  intros Hp Ha Hb E. unfold Monthly.userKey in E.
  exact (key_inj _ _ _ _ (plainPlatforms_in _ _ Hp Ha)
           (plainPlatforms_in _ _ Hp Hb) E).
Qed.

(** With distinct keys the logs of a key are the logs of a user. *)
Lemma groupOf_logsBy (logs : list MonthLog) (first : MonthLog) :
  plainPlatforms logs = true -> In first logs ->
  groupOf Monthly.userKey (Monthly.userKey first) logs
  = logsBy (Leaderboard.platform first) (Leaderboard.userId first) logs.
Proof.
  intros Hp Hf. unfold groupOf, logsBy. apply filter_ext_in. intros log Hl.
  destruct (String.eqb_spec (Monthly.userKey log) (Monthly.userKey first))
    as [E|Hne].
  - destruct (userKey_inj logs log first Hp Hl Hf E) as [-> ->].
    rewrite !String.eqb_refl. reflexivity.
  - symmetry. apply not_true_iff_false. intros H.
    apply andb_prop in H as [H1 H2]. apply String.eqb_eq in H1, H2.
    apply Hne. unfold Monthly.userKey. rewrite H1, H2. reflexivity.
Qed.

Lemma groupOf_first {L : Type} (key : L -> string) (k : string)
    (logs : list L) (first : L) (rest : list L) :
  groupOf key k logs = first :: rest -> In first logs /\ key first = k.
Proof.
  intros E. assert (H : In first (groupOf key k logs)) by (rewrite E; left; auto).
  unfold groupOf in H. apply filter_In in H as [H Hk].
  apply String.eqb_eq in Hk. auto.
Qed.

Lemma filter_both {A : Type} (p q : A -> bool) (l : list A) :
  List.filter (fun x => q x && p x) l = List.filter p (List.filter q l).
Proof.
  induction l as [|x l IH]; [reflexivity|]. cbn [List.filter].
  destruct (q x) eqn:Eq; cbn [andb List.filter].
  - destruct (p x); rewrite IH; reflexivity.
  - exact IH.
Qed.

Lemma getMonthlyLogs_length (table : list MonthLog) (userId platform : string)
    (year month : Z) (guildId : option string) :
  length (Monthly.getMonthlyLogs monthStart table userId platform year month
            guildId)
  = length (logsBy platform userId (logsInMonth table year month guildId)).
Proof.
  unfold Monthly.getMonthlyLogs. rewrite sortDesc_length.
  unfold logsBy, Monthly.logsInMonth. rewrite <- filter_both.
  f_equal. apply filter_ext. intros x.
  destruct (String.eqb (Leaderboard.userId x) userId),
           (String.eqb (Leaderboard.platform x) platform),
           (Monthly.inGuild guildId x),
           (Monthly.inMonth monthStart year month x); reflexivity.
Qed.

Lemma fold_noteUser (logs : list MonthLog)
    (m : Collections.OMap (V := Monthly.UserRef)) :
  fold_left Monthly.noteUser logs m
  = fold_left (groupStep Monthly.userKey refOf (fun _ v => v)) logs m.
Proof.
  revert m. induction logs as [|x logs IH]; intros m; [reflexivity|].
  cbn [fold_left]. rewrite noteUser_groupStep. apply IH.
Qed.

Lemma entryFor_ref (first : MonthLog) (rest : list MonthLog) :
  entryFor refOf (fun _ v => v) first rest = refOf first.
Proof.
  unfold entryFor. generalize (refOf first) as r.
  induction (first :: rest) as [|x l IH]; intros r; [reflexivity|].
  cbn [fold_left]. apply IH.
Qed.

Lemma NoDup_map_of {A B C : Type} (f : A -> B) (g : B -> C) (l : list A) :
  NoDup (List.map (fun a => g (f a)) l) -> NoDup (List.map f l).
Proof.
  rewrite <- (List.map_map f g). apply NoDup_map_inv.
Qed.

(** X21.  When no platform name holds a colon, the key of the loops
    tells the users apart: the group summary of a month has one entry for
    each user of a platform, with the number of the logs of that user in
    the month and the numbers of their countries and locations; the trips
    of an entry are the trips of the summary of that user for the same
    month; the list of the users with logs in the month holds each user of
    a log once; and every user of a log has an entry. *)
Theorem monthly_users_are_told_apart (table : list MonthLog)
    (year month : Z) (guildId : option string)
    (profiles : option (string -> option Monthly.Profile)) :
  plainPlatforms table = true ->
  let logs := logsInMonth table year month guildId in
  let data := Monthly.prepareMonthlySummaryGroup monthStart table year month
                guildId profiles in
  let listed := Monthly.getUsersWithLogsInMonth monthStart table year month
                  guildId in
  NoDup (List.map (fun u => (Monthly.u_platform u, Monthly.u_userId u))
           (Monthly.gd_users data))
  /\ (forall u, In u (Monthly.gd_users data) ->
        let mine := logsBy (Monthly.u_platform u) (Monthly.u_userId u) logs in
        Monthly.u_totalTrips u = Z.of_nat (length mine)
        /\ Monthly.u_countriesCount u = Z.of_nat (size (countriesOf mine))
        /\ Monthly.u_locationsCount u = Z.of_nat (size (locationsOf mine))
        /\ forall guildConfigs username avatarUrl,
             Monthly.sd_totalTrips
               (Monthly.prepareMonthlySummary monthStart table guildConfigs
                  (Monthly.u_userId u) (Monthly.u_platform u) username
                  avatarUrl year month guildId)
             = Monthly.u_totalTrips u)
  /\ (forall log, In log logs ->
        exists u, In u (Monthly.gd_users data)
                  /\ Monthly.u_userId u = Leaderboard.userId log
                  /\ Monthly.u_platform u = Leaderboard.platform log)
  /\ NoDup listed
  /\ (forall r, In r listed <-> exists log, In log logs /\ r = refOf log).
Proof.
  intros Hplain0. cbn zeta.
  unfold Monthly.prepareMonthlySummaryGroup, Monthly.getUsersWithLogsInMonth.
  set (logs := logsInMonth table year month guildId).
  assert (Hplain : plainPlatforms logs = true)
    by (apply plainPlatforms_filter; exact Hplain0).
  set (t0 := Monthly.Build_GroupTally [] [] []).
  destruct (fold_addGroupLog logs t0) as (Hmap & _ & _).
  cbn zeta in Hmap. cbn [t0 Monthly.userMap] in Hmap.
  cbn [Monthly.gd_users]. rewrite Hmap.
  set (m := fold_left Monthly.addUserLog logs []).
  set (unsorted := List.map (Monthly.groupUser profiles)
                     (Collections.om_values m)).
  pose proof (sortDesc_perm Monthly.u_totalTrips unsorted) as Hperm.
  destruct (grouped_fold Monthly.userKey Monthly.newEntry Monthly.countTrip
              logs) as (Hnd & Hall & Hkeys).
  change (fold_left (groupStep Monthly.userKey Monthly.newEntry
                       Monthly.countTrip) logs []) with m in Hnd, Hall, Hkeys.
  (* an entry of the map, from the logs of its user *)
  assert (Hentry : forall k e, In (k, e) m ->
            exists first,
              In first logs /\ k = Monthly.userKey first
              /\ Monthly.g_userId e = Leaderboard.userId first
              /\ Monthly.g_platform e = Leaderboard.platform first
              /\ Monthly.g_totalTrips e
                 = Z.of_nat (length (logsBy (Leaderboard.platform first)
                                       (Leaderboard.userId first) logs))
              /\ Monthly.g_countries e
                 = countriesOf (logsBy (Leaderboard.platform first)
                                  (Leaderboard.userId first) logs)
              /\ Monthly.g_locations e
                 = locationsOf (logsBy (Leaderboard.platform first)
                                  (Leaderboard.userId first) logs)).
  { intros k e Hin. destruct (Hall k e Hin) as (first & rest & Eg & ->).
    destruct (groupOf_first _ _ _ _ _ Eg) as [Hf Hk].
    destruct (entryFor_spec first rest) as (H1 & H2 & H3 & H4 & H5).
    exists first. rewrite H1, H2, H3, H4, H5.
    rewrite <- (groupOf_logsBy logs first Hplain Hf), Hk, Eg.
    repeat split; auto. }
  assert (Huser : forall u, In u unsorted ->
            exists first,
              In first logs
              /\ Monthly.u_userId u = Leaderboard.userId first
              /\ Monthly.u_platform u = Leaderboard.platform first
              /\ Monthly.u_totalTrips u
                 = Z.of_nat (length (logsBy (Leaderboard.platform first)
                                       (Leaderboard.userId first) logs))
              /\ Monthly.u_countriesCount u
                 = Z.of_nat
                     (size (countriesOf
                              (logsBy (Leaderboard.platform first)
                                 (Leaderboard.userId first) logs)))
              /\ Monthly.u_locationsCount u
                 = Z.of_nat
                     (size (locationsOf
                              (logsBy (Leaderboard.platform first)
                                 (Leaderboard.userId first) logs)))).
  { intros u Hu. unfold unsorted, Collections.om_values in Hu.
    apply in_map_iff in Hu as (e & <- & He).
    apply in_map_iff in He as ([k e'] & E & Hin). cbn in E. subst e'.
    destruct (Hentry k e Hin) as (first & Hf & _ & H1 & H2 & H3 & H4 & H5).
    exists first. cbn [Monthly.groupUser Monthly.u_userId Monthly.u_platform
      Monthly.u_totalTrips Monthly.u_countriesCount Monthly.u_locationsCount].
    rewrite H1, H2, H3, H4, H5. repeat split; auto. }
  split; [|split; [|split]].
  - apply (Permutation_NoDup
             (Permutation_sym
                (Permutation_map
                   (fun u => (Monthly.u_platform u, Monthly.u_userId u))
                   Hperm))).
    unfold unsorted, Collections.om_values. rewrite !List.map_map.
    apply (NoDup_map_of
             (fun kv : string * Monthly.GroupEntry =>
                (Monthly.g_platform (snd kv), Monthly.g_userId (snd kv)))
             (fun pu : string * string => pu.1 +:+ ":" +:+ pu.2)).
    assert (E : List.map
                  (fun kv : string * Monthly.GroupEntry =>
                     Monthly.g_platform (snd kv) +:+ ":"
                     +:+ Monthly.g_userId (snd kv)) m
                = List.map fst m).
    { apply map_ext_in. intros [k e] Hin.
      destruct (Hentry k e Hin) as (first & _ & -> & H1 & H2 & _).
      cbn [fst snd]. rewrite H1, H2. reflexivity. }
    cbn [fst snd]. rewrite E. exact Hnd.
  - intros u Hu.
    apply (proj1 (sortDesc_in Monthly.u_totalTrips unsorted u)) in Hu.
    destruct (Huser u Hu) as (first & Hf & H1 & H2 & H3 & H4 & H5).
    cbn zeta. rewrite H1, H2. split; [exact H3|]. split; [exact H4|].
    split; [exact H5|]. intros guildConfigs username avatarUrl.
    unfold Monthly.prepareMonthlySummary. cbn [Monthly.sd_totalTrips].
    rewrite getMonthlyLogs_length, H3. reflexivity.
  - intros log Hl. pose proof (Hkeys log Hl) as Hk.
    apply in_map_iff in Hk as ([k e] & Ek & Hin). cbn in Ek. subst k.
    destruct (Hentry _ e Hin) as (first & Hf & Ekey & H1 & H2 & _).
    destruct (userKey_inj logs log first Hplain Hl Hf Ekey) as [Ep Eu].
    exists (Monthly.groupUser profiles e). split.
    + apply (proj2 (sortDesc_in Monthly.u_totalTrips unsorted _)).
      unfold unsorted, Collections.om_values.
      apply in_map. apply (in_map snd) in Hin. exact Hin.
    + cbn [Monthly.groupUser Monthly.u_userId Monthly.u_platform].
      rewrite H1, H2. auto.
  - rewrite fold_noteUser.
    destruct (grouped_fold Monthly.userKey refOf (fun _ v => v) logs)
      as (Hnd' & Hall' & Hkeys').
    set (m' := fold_left (groupStep Monthly.userKey refOf (fun _ v => v))
                 logs []) in *.
    assert (Href : forall k r, In (k, r) m' ->
              exists first, In first logs /\ k = Monthly.userKey first
                            /\ r = refOf first).
    { intros k r Hin. destruct (Hall' k r Hin) as (first & rest & Eg & ->).
      destruct (groupOf_first _ _ _ _ _ Eg) as [Hf Hk].
      exists first. rewrite entryFor_ref. auto. }
    split.
    + unfold Collections.om_values.
      apply (NoDup_map_of snd
               (fun r : Monthly.UserRef =>
                  Monthly.r_platform r +:+ ":" +:+ Monthly.r_userId r)).
      assert (E : List.map
                    (fun kv : string * Monthly.UserRef =>
                       Monthly.r_platform (snd kv) +:+ ":"
                       +:+ Monthly.r_userId (snd kv)) m'
                  = List.map fst m').
      { apply map_ext_in. intros [k r] Hin.
        destruct (Href k r Hin) as (first & _ & -> & ->). reflexivity. }
      rewrite E. exact Hnd'.
    + intros r. unfold Collections.om_values. rewrite in_map_iff. split.
      * intros ([k r'] & E & Hin). cbn in E. subst r'.
        destruct (Href k r Hin) as (first & Hf & _ & ->). exists first. auto.
      * intros (log & Hl & ->). pose proof (Hkeys' log Hl) as Hk.
        apply in_map_iff in Hk as ([k r] & Ek & Hin). cbn in Ek. subst k.
        destruct (Href _ r Hin) as (first & Hf & Ekey & ->).
        destruct (userKey_inj logs log first Hplain Hl Hf Ekey) as [Ep Eu].
        exists (Monthly.userKey log, refOf first). split; [|exact Hin].
        cbn [snd]. unfold refOf. rewrite Ep, Eu. reflexivity.
Qed.

(** *** The summary of one user *)

Lemma fold_sets (logs : list MonthLog) (sets : list string * list string) :
  fold_left
    (fun sets log =>
       (Monthly.set_add (fst sets) (Leaderboard.country log),
        Monthly.set_add (snd sets) (Leaderboard.location log)))
    logs sets
  = (fold_left (fun set log => Monthly.set_add set (Leaderboard.country log))
       logs (fst sets),
     fold_left (fun set log => Monthly.set_add set (Leaderboard.location log))
       logs (snd sets)).
Proof.
  revert sets. induction logs as [|x logs IH]; intros [cs ls]; [reflexivity|].
  cbn [fold_left fst snd]. rewrite IH. reflexivity.
Qed.

Lemma listed_users (table : list MonthLog) (year month : Z)
    (guildId : option string) (r : Monthly.UserRef) :
  In r (Monthly.getUsersWithLogsInMonth monthStart table year month guildId) ->
  exists log, In log (logsInMonth table year month guildId) /\ r = refOf log.
Proof.
  unfold Monthly.getUsersWithLogsInMonth, Collections.om_values.
  rewrite fold_noteUser, in_map_iff. intros ([k r'] & E & Hin).
  cbn in E. subst r'.
  destruct (grouped_fold Monthly.userKey refOf (fun _ v => v)
              (logsInMonth table year month guildId)) as (_ & Hall & _).
  destruct (Hall k r Hin) as (first & rest & Eg & ->).
  destruct (groupOf_first _ _ _ _ _ Eg) as [Hf _].
  exists first. rewrite entryFor_ref. auto.
Qed.

(** X22.  The summary of a user for a month holds the logs of that user
    and platform, of the guild when one is given, whose time lies in the
    month, from its start on and before the start of the next; newest
    first, logs of one time in the order of the table.  Its trips are the
    number of these logs; its countries and locations are those of these
    logs, each once, so at most as many as trips.  Its background is the
    one read for the guild, and absent without a guild.  For a user that
    the list of the users with logs in the month holds, the summary for
    the same month and guild has at least one trip. *)
Theorem monthly_summary_of_a_user (table : list MonthLog)
    (guildConfigs : list Background.PigGuildConfig)
    (userId platform username avatarUrl : string) (year month : Z)
    (guildId : option string) :
  let d := Monthly.prepareMonthlySummary monthStart table guildConfigs userId
             platform username avatarUrl year month guildId in
  (forall log,
     In log (Monthly.sd_logs d)
     <-> In log table
         /\ Leaderboard.userId log = userId
         /\ Leaderboard.platform log = platform
         /\ Monthly.inGuild guildId log = true
         /\ monthStart year (month - 1) <= Leaderboard.timestamp log
            < monthStart year month)
  /\ StronglySorted
       (fun a b => Leaderboard.timestamp a >= Leaderboard.timestamp b)
       (Monthly.sd_logs d)
  /\ (forall time,
        List.filter (fun log => Leaderboard.timestamp log =? time)
          (Monthly.sd_logs d)
        = List.filter
            (fun log =>
               (Leaderboard.timestamp log =? time)
               && String.eqb (Leaderboard.userId log) userId
               && String.eqb (Leaderboard.platform log) platform
               && Monthly.inGuild guildId log
               && Monthly.inMonth monthStart year month log)
            table)
  /\ Monthly.sd_totalTrips d = Z.of_nat (length (Monthly.sd_logs d))
  /\ NoDup (Monthly.sd_countriesVisited d)
  /\ NoDup (Monthly.sd_locationsVisited d)
  /\ (forall c, In c (Monthly.sd_countriesVisited d)
                <-> exists log, In log (Monthly.sd_logs d)
                                /\ Leaderboard.country log = c)
  /\ (forall l, In l (Monthly.sd_locationsVisited d)
                <-> exists log, In log (Monthly.sd_logs d)
                                /\ Leaderboard.location log = l)
  /\ Z.of_nat (length (Monthly.sd_countriesVisited d))
     <= Monthly.sd_totalTrips d
  /\ Z.of_nat (length (Monthly.sd_locationsVisited d))
     <= Monthly.sd_totalTrips d
  /\ Monthly.sd_backgroundImage d
     = match guildId with
       | Some g => Background.getAdminBackgroundImage guildConfigs platform g
       | None => None
       end
  /\ (In {| Monthly.r_userId := userId; Monthly.r_platform := platform |}
        (Monthly.getUsersWithLogsInMonth monthStart table year month guildId)
      -> 1 <= Monthly.sd_totalTrips d).
Proof.
  cbn zeta. unfold Monthly.prepareMonthlySummary.
  cbn [Monthly.sd_logs Monthly.sd_totalTrips Monthly.sd_countriesVisited
       Monthly.sd_locationsVisited Monthly.sd_backgroundImage].
  rewrite fold_sets. cbn [fst snd].
  set (logs := Monthly.getMonthlyLogs monthStart table userId platform year
                 month guildId).
  destruct (set_add_fold Leaderboard.country logs [] (NoDup_nil _))
    as (Hcnd & Hcin & Hclen).
  destruct (set_add_fold Leaderboard.location logs [] (NoDup_nil _))
    as (Hlnd & Hlin & Hllen).
  cbn zeta in Hcnd, Hcin, Hclen, Hlnd, Hlin, Hllen.
  cbn [length] in Hclen, Hllen.
  assert (Hlogs : forall log,
            In log logs
            <-> In log table
                /\ Leaderboard.userId log = userId
                /\ Leaderboard.platform log = platform
                /\ Monthly.inGuild guildId log = true
                /\ monthStart year (month - 1) <= Leaderboard.timestamp log
                   < monthStart year month).
  { intros log. unfold logs, Monthly.getMonthlyLogs.
    rewrite sortDesc_in, filter_In. unfold Monthly.inMonth.
    rewrite !andb_true_iff, !String.eqb_eq, Z.leb_le, Z.ltb_lt. tauto. }
  split; [exact Hlogs|]. split; [apply sortDesc_sorted|].
  split.
  { intros time. unfold logs, Monthly.getMonthlyLogs.
    rewrite sortDesc_stable, <- filter_both. apply filter_ext. intros x.
    destruct (Leaderboard.timestamp x =? time),
             (String.eqb (Leaderboard.userId x) userId),
             (String.eqb (Leaderboard.platform x) platform),
             (Monthly.inGuild guildId x),
             (Monthly.inMonth monthStart year month x); reflexivity. }
  split; [reflexivity|]. split; [exact Hcnd|]. split; [exact Hlnd|].
  split.
  { intros c. rewrite Hcin, in_map_iff. cbn [In]. split.
    - intros [[]|(log & E & Hl)]. exists log. auto.
    - intros (log & Hl & E). right. exists log. auto. }
  split.
  { intros l. rewrite Hlin, in_map_iff. cbn [In]. split.
    - intros [[]|(log & E & Hl)]. exists log. auto.
    - intros (log & Hl & E). right. exists log. auto. }
  split; [lia|]. split; [lia|]. split.
  { destruct guildId as [g|]; [|reflexivity].
    unfold Background.getAdminBackgroundImage.
    destruct (nonempty g); reflexivity. }
  intros Hlisted. apply listed_users in Hlisted as (log & Hl & E).
  injection E as Eu Ep.
  assert (Hin : In log logs).
  { apply Hlogs. unfold Monthly.logsInMonth in Hl.
    apply filter_In in Hl as [Ht Hc]. apply andb_prop in Hc as [Hg Hm].
    unfold Monthly.inMonth in Hm. apply andb_prop in Hm as [H1 H2].
    apply Z.leb_le in H1. apply Z.ltb_lt in H2.
    split; [exact Ht|]. split; [congruence|]. split; [congruence|].
    split; [exact Hg|lia]. }
  destruct logs as [|x rest]; [destruct Hin|]. cbn [length]. lia.
Qed.

End MonthlyFacts.

(** The users of the sample trips, all of one month. *)
Lemma monthly_users_witness :
  NoDup (Monthly.getUsersWithLogsInMonth (fun y m => (12 * y + m) * 10)
           Demo.trips 0 1 None).
Proof.
  destruct (monthly_users_are_told_apart (fun y m => (12 * y + m) * 10)
              Demo.trips 0 1 None None eq_refl) as (_ & _ & _ & H & _).
  exact H.
Defined.

(** ** The silent record *)

Section SilentFacts.

Definition silentRun (config : Config) (messages : list Silent.Message)
    (st : Silent.State) : Silent.State :=
  fold_left (fun st msg => Silent.silentRecord config msg st) messages st.

(** The cache holds the key as recorded today. *)
Definition isRecorded (st : Silent.State) (k : string) : Prop :=
  Silent.recorded (Silent.dailyUserState st !! k) = true.

(** The key of the user of a started travel. *)
Definition travelKey (t : string * string * string) : string :=
  t.1.2 +:+ ":" +:+ t.1.1.

Lemma wake_rowOf_same (u p g : string) (now sunrise : Z)
    (table : list Stats.PigUserState) :
  rowOf (Silent.database_upsert u p g now sunrise table) (u, p, g)
  = Some match rowOf table (u, p, g) with
         | Some row => Silent.setWake now sunrise row
         | None => Silent.newWakeRow u p g now sunrise
         end.
Proof.
  unfold rowOf, Stats.database_get, Silent.database_upsert. cbn [fst snd].
  set (hit := Stats.same_key u p g).
  assert (Hnew : hit (Silent.newWakeRow u p g now sunrise) = true).
  { unfold hit, Stats.same_key. cbn. rewrite !String.eqb_refl. reflexivity. }
  destruct (existsb hit table) eqn:Ex.
  - induction table as [|row table IH]; cbn in *; [discriminate|].
    destruct (hit row) eqn:Eh; cbn.
    + change (hit (Silent.setWake now sunrise row)) with (hit row).
      rewrite Eh. reflexivity.
    + rewrite Eh. apply IH. exact Ex.
  - assert (Hf : List.filter hit table = []).
    { induction table as [|row table IH]; [reflexivity|]. cbn in *.
      apply orb_false_iff in Ex as [-> Ex]. auto. }
    rewrite List.filter_app, Hf. cbn [List.filter app]. rewrite Hnew.
    reflexivity.
Qed.

Lemma wake_rowOf_other (u p g : string) (now sunrise : Z)
    (table : list Stats.PigUserState) (k : string * string * string) :
  k <> (u, p, g) ->
  rowOf (Silent.database_upsert u p g now sunrise table) k = rowOf table k.
Proof.
  intros Hk. unfold rowOf, Stats.database_get, Silent.database_upsert.
  set (hit := Stats.same_key u p g).
  set (mine := Stats.same_key k.1.1 k.1.2 k.2).
  assert (Hnew : hit (Silent.newWakeRow u p g now sunrise) = true).
  { unfold hit, Stats.same_key. cbn. rewrite !String.eqb_refl. reflexivity. }
  assert (Hdisj : forall row, mine row = true -> hit row = false).
  { intros row Hm. destruct (hit row) eqn:Eh; [|reflexivity].
    exfalso. apply Hk. exact (same_key_eq k (u, p, g) row Hm Eh). }
  destruct (existsb hit table).
  - f_equal. induction table as [|row table IH]; [reflexivity|]. cbn.
    destruct (hit row) eqn:Eh.
    + change (mine (Silent.setWake now sunrise row)) with (mine row).
      destruct (mine row) eqn:Em; [rewrite (Hdisj _ Em) in Eh; discriminate|].
      exact IH.
    + destruct (mine row); [f_equal|]; exact IH.
  - rewrite List.filter_app. cbn [List.filter].
    destruct (mine (Silent.newWakeRow u p g now sunrise)) eqn:Em;
      [rewrite (Hdisj _ Em) in Hnew; discriminate|].
    rewrite app_nil_r. reflexivity.
Qed.

(** What a step that changes the state does: the message has a user and
    a guild and a key that is not recorded, it arrives at or after the
    sunrise, and the row of the user in the guild gets the time of the
    message and the sunrise. *)
Lemma silentRecord_cases (config : Config) (msg : Silent.Message)
    (st : Silent.State) :
  Silent.silentRecord config msg st = st
  \/ exists sunrise,
       silentRecordEnabled config = true
       /\ nonempty (Silent.m_userId msg) = true
       /\ nonempty (Silent.m_guildId msg) = true
       /\ Silent.recorded (Silent.dailyUserState st !! Silent.userKey msg)
          = false
       /\ Silent.m_sunrise msg = Ok sunrise
       /\ sunrise <= Silent.m_now msg
       /\ Silent.pig_user_state (Silent.silentRecord config msg st)
          = Silent.database_upsert (Silent.m_userId msg)
              (Silent.m_platform msg) (Silent.m_guildId msg)
              (Silent.m_now msg) sunrise (Silent.pig_user_state st)
       /\ (forall k, isRecorded (Silent.silentRecord config msg st) k
                     <-> k = Silent.userKey msg \/ isRecorded st k)
       /\ (Silent.travels (Silent.silentRecord config msg st)
           = Silent.travels st
           \/ Silent.travels (Silent.silentRecord config msg st)
              = Silent.travels st
                ++ [(Silent.m_userId msg, Silent.m_platform msg,
                     Silent.m_guildId msg)]).
Proof.
  unfold Silent.silentRecord.
  destruct (silentRecordEnabled config); cbn [negb]; [|left; reflexivity].
  destruct (nonempty (Silent.m_userId msg)); cbn [negb orb];
    [|left; reflexivity].
  destruct (nonempty (Silent.m_guildId msg)); cbn [negb];
    [|left; reflexivity].
  destruct (Silent.recorded (Silent.dailyUserState st !! Silent.userKey msg))
    eqn:Erec; [left; reflexivity|].
  destruct (Silent.m_sunrise msg) as [sunrise|e]; [|left; reflexivity].
  destruct (Z.ltb_spec (Silent.m_now msg) sunrise); [left; reflexivity|].
  destruct (Silent.m_upsert msg) as [[]|e]; [|left; reflexivity].
  right. exists sunrise.
  repeat (split; [reflexivity || assumption|]).
  assert (Hkeys : forall (daily : gmap string Silent.DayState) s k,
            Silent.recordedToday s = true ->
            Silent.recorded (<[Silent.userKey msg := s]> daily !! k) = true
            <-> k = Silent.userKey msg
                \/ Silent.recorded (daily !! k) = true).
  { intros daily s k Hs. destruct (decide (k = Silent.userKey msg)) as [->|Hne].
    - rewrite lookup_insert_eq. cbn. tauto.
    - rewrite lookup_insert_ne by congruence. split; [auto|].
      intros [E|H']; [contradiction|exact H']. }
  destruct (silentRecordAutoTravel config
            && negb (Silent.cardSent
                       (Silent.dailyUserState st !! Silent.userKey msg)));
    cbn [Silent.pig_user_state Silent.travels Silent.dailyUserState].
  - split; [reflexivity|]. split; [|right; reflexivity].
    intros k. unfold isRecorded. cbn [Silent.dailyUserState].
    rewrite alter_insert_eq. apply Hkeys. reflexivity.
  - split; [reflexivity|]. split; [|left; reflexivity].
    intros k. unfold isRecorded. cbn [Silent.dailyUserState].
    apply Hkeys. reflexivity.
Qed.

Lemma silentRecord_recorded (config : Config) (msg : Silent.Message)
    (st : Silent.State) (u p g : string) :
  isRecorded st (p +:+ ":" +:+ u) ->
  isRecorded (Silent.silentRecord config msg st) (p +:+ ":" +:+ u)
  /\ rowOf (Silent.pig_user_state (Silent.silentRecord config msg st))
       (u, p, g)
     = rowOf (Silent.pig_user_state st) (u, p, g).
Proof.
  intros Hrec.
  destruct (silentRecord_cases config msg st)
    as [->|(sunrise & _ & _ & _ & Hnot & _ & _ & Htable & Hkeys & _)];
    [auto|].
  split; [apply Hkeys; right; exact Hrec|].
  rewrite Htable. apply wake_rowOf_other. intros [= -> -> ->].
  unfold isRecorded in Hrec. unfold Silent.userKey in Hnot. congruence.
Qed.

Lemma silentRun_recorded (config : Config) (messages : list Silent.Message)
    (st : Silent.State) (u p g : string) :
  isRecorded st (p +:+ ":" +:+ u) ->
  isRecorded (silentRun config messages st) (p +:+ ":" +:+ u)
  /\ rowOf (Silent.pig_user_state (silentRun config messages st)) (u, p, g)
     = rowOf (Silent.pig_user_state st) (u, p, g).
Proof.
  revert st. induction messages as [|msg messages IH]; intros st Hrec;
    [auto|].
  cbn [silentRun fold_left].
  destruct (silentRecord_recorded config msg st u p g Hrec) as [H1 H2].
  destruct (IH _ H1) as [H3 H4]. split; [exact H3|].
  unfold silentRun in H4. rewrite H4. exact H2.
Qed.

Lemma silentRun_travels (config : Config) (messages : list Silent.Message)
    (st : Silent.State) :
  exists added,
    Silent.travels (silentRun config messages st) = Silent.travels st ++ added
    /\ NoDup (List.map travelKey added)
    /\ (forall t, In t added ->
          isRecorded (silentRun config messages st) (travelKey t))
    /\ (forall k, isRecorded st k ->
          isRecorded (silentRun config messages st) k
          /\ ~ In k (List.map travelKey added)).
Proof.
  revert st. induction messages as [|msg messages IH]; intros st.
  - exists []. cbn. rewrite app_nil_r. split; [reflexivity|].
    split; [constructor|]. split; [intros t []|]. intros k Hk. auto.
  - cbn [silentRun fold_left].
    destruct (IH (Silent.silentRecord config msg st))
      as (added & Et & Hnd & Hrec & Hold).
    fold (silentRun config messages (Silent.silentRecord config msg st))
      in Et, Hrec, Hold |- *.
    destruct (silentRecord_cases config msg st)
      as [E|(sunrise & _ & _ & _ & Hnot & _ & _ & _ & Hkeys & Htr)].
    + rewrite E in *. exists added. auto.
    + assert (Hkeep : forall k, isRecorded st k ->
                isRecorded (silentRun config messages
                              (Silent.silentRecord config msg st)) k
                /\ ~ In k (List.map travelKey added)).
      { intros k Hk. apply Hold. apply Hkeys. right. exact Hk. }
      destruct Htr as [Htr|Htr]; rewrite Htr in Et.
      * exists added. auto.
      * exists ((Silent.m_userId msg, Silent.m_platform msg,
                 Silent.m_guildId msg) :: added).
        rewrite <- app_assoc in Et. split; [exact Et|].
        assert (Hmine : isRecorded (Silent.silentRecord config msg st)
                          (Silent.userKey msg))
          by (apply Hkeys; left; reflexivity).
        destruct (Hold _ Hmine) as [Hafter Hfresh].
        split; [|split].
        -- cbn [List.map]. constructor; [exact Hfresh|exact Hnd].
        -- intros t [<-|Ht]; [exact Hafter|exact (Hrec t Ht)].
        -- intros k Hk. destruct (Hkeep k Hk) as [H1 H2].
           split; [exact H1|]. cbn [List.map In]. intros [E|H]; [|exact (H2 H)].
           unfold travelKey in E. cbn [fst snd] in E.
           unfold isRecorded in Hk. unfold Silent.userKey in Hnot.
           rewrite <- E in Hk. congruence.
Qed.

(** *** Handlers that interleave *)

Abbreviation SilentPool :=
  (@EventLoop.Pool Silent.State SilentHandler.Local).

(** No handler waits. *)
Definition nobodyWaits (pool : SilentPool) : Prop :=
  forall h, EventLoop.waiting pool !! h = None.

(** The three turns of a handler that no other handler interrupts are
    one step of the middleware. *)
Lemma silent_handler_alone (config : Config)
    (messages : list Silent.Message) (h : nat) (msg : Silent.Message)
    (pool : SilentPool) :
  messages !! h = Some msg -> nobodyWaits pool ->
  h ∉ EventLoop.started pool ->
  let pool' :=
    fold_left (EventLoop.turn (SilentHandler.begin config)
                 (SilentHandler.resume config) messages)
      [h; h; h] pool in
  EventLoop.shared pool' = Silent.silentRecord config msg (EventLoop.shared pool)
  /\ nobodyWaits pool'
  /\ EventLoop.started pool' = {[ h ]} ∪ EventLoop.started pool.
Proof.
  intros Hm Hq Hs. cbn [fold_left].
  remember (EventLoop.turn (SilentHandler.begin config)
              (SilentHandler.resume config) messages pool h) as p1 eqn:E1.
  remember (EventLoop.turn (SilentHandler.begin config)
              (SilentHandler.resume config) messages p1 h) as p2 eqn:E2.
  remember (EventLoop.turn (SilentHandler.begin config)
              (SilentHandler.resume config) messages p2 h) as p3 eqn:E3.
  rewrite (turn_begins _ _ _ pool h msg Hm (Hq h) Hs) in E1.
  assert (Hquiet : forall (w : gmap nat SilentHandler.Local),
             (forall h', w !! h' = None) ->
             forall h', delete h w !! h' = None).
  { intros w Hw h'. rewrite lookup_delete.
    destruct (decide (h = h')); [reflexivity|apply Hw]. }
  assert (Hstop : forall (p : SilentPool),
             EventLoop.waiting p !! h = None ->
             h ∈ EventLoop.started p ->
             EventLoop.turn (SilentHandler.begin config)
               (SilentHandler.resume config) messages p h = p)
    by (intros p; apply turn_finished).
  assert (Hin : h ∈ {[ h ]} ∪ EventLoop.started pool)
    by (apply elem_of_union_l, elem_of_singleton; reflexivity).
  unfold SilentHandler.begin in E1. unfold Silent.silentRecord.
  destruct (silentRecordEnabled config); cbn [negb] in E1 |- *.
  2: { cbn [fst snd EventLoop.suspend] in E1.
       rewrite Hstop in E2 by (subst p1; cbn [EventLoop.waiting EventLoop.started];
           first [apply lookup_delete_eq | exact Hin]).
       rewrite E2 in E3. rewrite Hstop in E3
         by (subst p1; cbn [EventLoop.waiting EventLoop.started];
           first [apply lookup_delete_eq | exact Hin]).
       subst.
       cbn [EventLoop.shared EventLoop.waiting EventLoop.started].
       split; [reflexivity|]. split; [|reflexivity].
       exact (Hquiet _ Hq). }
  destruct (negb (nonempty (Silent.m_userId msg))
            || negb (nonempty (Silent.m_guildId msg))).
  { cbn [fst snd EventLoop.suspend] in E1.
    rewrite Hstop in E2 by (subst p1; cbn [EventLoop.waiting EventLoop.started];
           first [apply lookup_delete_eq | exact Hin]).
    rewrite E2 in E3. rewrite Hstop in E3
      by (subst p1; cbn [EventLoop.waiting EventLoop.started];
           first [apply lookup_delete_eq | exact Hin]).
    subst.
    cbn [EventLoop.shared EventLoop.waiting EventLoop.started].
    split; [reflexivity|]. split; [|reflexivity].
    exact (Hquiet _ Hq). }
  destruct (Silent.recorded
              (Silent.dailyUserState (EventLoop.shared pool)
               !! Silent.userKey msg)).
  { cbn [fst snd EventLoop.suspend] in E1.
    rewrite Hstop in E2 by (subst p1; cbn [EventLoop.waiting EventLoop.started];
           first [apply lookup_delete_eq | exact Hin]).
    rewrite E2 in E3. rewrite Hstop in E3
      by (subst p1; cbn [EventLoop.waiting EventLoop.started];
           first [apply lookup_delete_eq | exact Hin]).
    subst.
    cbn [EventLoop.shared EventLoop.waiting EventLoop.started].
    split; [reflexivity|]. split; [|reflexivity].
    exact (Hquiet _ Hq). }
  cbn [fst snd EventLoop.suspend] in E1.
  rewrite (turn_resumes _ _ _ p1 h msg _ Hm) in E2
    by (subst p1; apply lookup_insert_eq).
  subst p1.
  cbn [EventLoop.shared EventLoop.waiting EventLoop.started
       SilentHandler.resume] in E2.
  destruct (Silent.m_sunrise msg) as [sunrise|e].
  2: { cbn [fst snd EventLoop.suspend] in E2.
       rewrite Hstop in E3 by (subst p2; cbn [EventLoop.waiting EventLoop.started];
           first [apply lookup_delete_eq | exact Hin]).
       subst p3 p2. cbn [EventLoop.shared EventLoop.waiting
                         EventLoop.started].
       split; [reflexivity|]. split; [|reflexivity].
       intros h'. cbn [EventLoop.waiting]. rewrite lookup_delete.
       destruct (decide (h = h')); [reflexivity|].
       rewrite lookup_insert_ne by assumption. apply Hq. }
  destruct (Silent.m_now msg <? sunrise).
  { cbn [fst snd EventLoop.suspend] in E2.
    rewrite Hstop in E3 by (subst p2; cbn [EventLoop.waiting EventLoop.started];
           first [apply lookup_delete_eq | exact Hin]).
    subst p3 p2. cbn [EventLoop.shared EventLoop.waiting EventLoop.started].
    split; [reflexivity|]. split; [|reflexivity].
    intros h'. cbn [EventLoop.waiting]. rewrite lookup_delete.
    destruct (decide (h = h')); [reflexivity|].
    rewrite lookup_insert_ne by assumption. apply Hq. }
  cbn [fst snd EventLoop.suspend] in E2.
  rewrite (turn_resumes _ _ _ p2 h msg _ Hm) in E3
    by (subst p2; apply lookup_insert_eq).
  subst p2.
  cbn [EventLoop.shared EventLoop.waiting EventLoop.started
       SilentHandler.resume] in E3.
  assert (Hw3 : forall h',
             delete h
               (<[h := SilentHandler.AwaitUpsert
                         (Silent.dailyUserState (EventLoop.shared pool)
                          !! Silent.userKey msg) sunrise]>
                  (<[h := SilentHandler.AwaitSunrise
                            (Silent.dailyUserState (EventLoop.shared pool)
                             !! Silent.userKey msg)]>
                     (EventLoop.waiting pool))) !! h' = None).
  { intros h'. rewrite lookup_delete.
    destruct (decide (h = h')); [reflexivity|].
    rewrite !lookup_insert_ne by assumption. apply Hq. }
  destruct (Silent.m_upsert msg) as [[]|e].
  2: { cbn [fst snd EventLoop.suspend] in E3. subst p3.
       cbn [EventLoop.shared EventLoop.waiting EventLoop.started]. auto. }
  destruct (silentRecordAutoTravel config
            && negb (Silent.cardSent
                       (Silent.dailyUserState (EventLoop.shared pool)
                        !! Silent.userKey msg)));
    cbn [fst snd EventLoop.suspend] in E3; subst p3;
    cbn [EventLoop.shared EventLoop.waiting EventLoop.started]; auto.
Qed.

Lemma silent_sequential_from (config : Config)
    (messages rest : list Silent.Message) (i : nat) (pool : SilentPool) :
  (forall j, rest !! j = messages !! (i + j)%nat) ->
  nobodyWaits pool ->
  (forall h, h ∈ EventLoop.started pool -> (h < i)%nat) ->
  EventLoop.shared
    (fold_left (EventLoop.turn (SilentHandler.begin config)
                  (SilentHandler.resume config) messages)
       (flat_map (fun h => repeat h 3) (seq i (length rest))) pool)
  = silentRun config rest (EventLoop.shared pool).
Proof.
  revert i pool. induction rest as [|m rest IH]; intros i pool Hrest Hq Hs;
    [reflexivity|].
  cbn [length seq flat_map]. rewrite fold_left_app.
  change (repeat i 3) with [i; i; i].
  assert (Hm : messages !! i = Some m).
  { rewrite <- (Nat.add_0_r i), <- Hrest. reflexivity. }
  assert (Hni : i ∉ EventLoop.started pool).
  { intros Hin. apply Hs in Hin. lia. }
  destruct (silent_handler_alone config messages i m pool Hm Hq Hni)
    as (Hsh & Hq' & Hst').
  rewrite IH.
  - rewrite Hsh. reflexivity.
  - intros j. specialize (Hrest (S j)).
    change ((m :: rest) !! S j) with (rest !! j) in Hrest.
    rewrite Hrest. f_equal. lia.
  - exact Hq'.
  - intros h. rewrite Hst'. rewrite elem_of_union, elem_of_singleton.
    intros [-> | Hin]; [lia|]. apply Hs in Hin. lia.
Qed.

(** Without overlap, the handlers are the middleware applied to one
    message after the other. *)
Lemma silent_handlers_sequential (config : Config)
    (messages : list Silent.Message) (st : Silent.State) :
  SilentHandler.run config messages
    (EventLoop.sequential 3 (length messages)) st
  = silentRun config messages st.
Proof.
  unfold SilentHandler.run, EventLoop.interleave, EventLoop.sequential.
  apply (silent_sequential_from config messages messages 0).
  - intros j. reflexivity.
  - intros h. apply lookup_empty.
  - intros h Hin. cbn in Hin. apply not_elem_of_empty in Hin. contradiction.
Qed.

(** *** Under every schedule *)

Abbreviation silentTurn :=
  (fun config =>
     EventLoop.turn (SilentHandler.begin config)
       (SilentHandler.resume config)).

(** What a turn does to the shared state: nothing, or what the last part
    of the middleware does, for a message whose handler began while its
    key was not recorded. *)
Lemma silentTurn_cases (config : Config) (messages : list Silent.Message)
    (pool : SilentPool) (h : nat) :
  EventLoop.shared (silentTurn config messages pool h) = EventLoop.shared pool
  \/ exists msg state sunrise,
       messages !! h = Some msg
       /\ EventLoop.waiting pool !! h
          = Some (SilentHandler.AwaitUpsert state sunrise)
       /\ Silent.pig_user_state
            (EventLoop.shared (silentTurn config messages pool h))
          = Silent.database_upsert (Silent.m_userId msg)
              (Silent.m_platform msg) (Silent.m_guildId msg)
              (Silent.m_now msg) sunrise
              (Silent.pig_user_state (EventLoop.shared pool))
       /\ (forall k,
             isRecorded (EventLoop.shared (silentTurn config messages pool h))
               k
             <-> k = Silent.userKey msg
                 \/ isRecorded (EventLoop.shared pool) k)
       /\ (Silent.travels
             (EventLoop.shared (silentTurn config messages pool h))
           = Silent.travels (EventLoop.shared pool)
           \/ Silent.travels
                (EventLoop.shared (silentTurn config messages pool h))
              = Silent.travels (EventLoop.shared pool)
                ++ [(Silent.m_userId msg, Silent.m_platform msg,
                     Silent.m_guildId msg)]).
Proof.
  destruct (turn_cases (SilentHandler.begin config)
              (SilentHandler.resume config) messages pool h)
    as [-> | [(msg & Hm & Hw & Hs & ->) | (msg & local & Hm & Hw & ->)]];
    [left; reflexivity| |].
  - left. cbn [EventLoop.shared]. unfold SilentHandler.begin.
    destruct (negb (silentRecordEnabled config)); [reflexivity|].
    destruct (_ || _); [reflexivity|].
    destruct (Silent.recorded _); reflexivity.
  - cbn [EventLoop.shared]. destruct local as [state|state sunrise];
      cbn [SilentHandler.resume].
    + left. destruct (Silent.m_sunrise msg) as [sunrise|e]; [|reflexivity].
      destruct (Silent.m_now msg <? sunrise); reflexivity.
    + destruct (Silent.m_upsert msg) as [[]|e]; [|left; reflexivity].
      right. exists msg, state, sunrise.
      split; [exact Hm|]. split; [exact Hw|].
      assert (Hkeys : forall (daily : gmap string Silent.DayState) s k,
                Silent.recordedToday s = true ->
                Silent.recorded (<[Silent.userKey msg := s]> daily !! k)
                = true
                <-> k = Silent.userKey msg
                    \/ Silent.recorded (daily !! k) = true).
      { intros daily s k Hs.
        destruct (decide (k = Silent.userKey msg)) as [->|Hne].
        - rewrite lookup_insert_eq. cbn. tauto.
        - rewrite lookup_insert_ne by congruence. split; [auto|].
          intros [E|H']; [contradiction|exact H']. }
      destruct (silentRecordAutoTravel config && negb (Silent.cardSent state));
        cbn [fst Silent.pig_user_state Silent.travels Silent.dailyUserState].
      * split; [reflexivity|]. split; [|right; reflexivity].
        intros k. unfold isRecorded. cbn [Silent.dailyUserState].
        rewrite alter_insert_eq. apply Hkeys. reflexivity.
      * split; [reflexivity|]. split; [|left; reflexivity].
        intros k. unfold isRecorded. cbn [Silent.dailyUserState].
        apply Hkeys. reflexivity.
Qed.

(** The keys of the handlers that wait are not recorded keys of the
    start: a handler begins to wait only while its key is not recorded. *)
Definition waitingApartFrom (messages : list Silent.Message) (k : string)
    (pool : SilentPool) : Prop :=
  forall h local msg,
    EventLoop.waiting pool !! h = Some local -> messages !! h = Some msg ->
    Silent.userKey msg <> k.

Lemma waitingApartFrom_turn (config : Config)
    (messages : list Silent.Message) (k : string) (pool : SilentPool)
    (h : nat) :
  isRecorded (EventLoop.shared pool) k ->
  waitingApartFrom messages k pool ->
  waitingApartFrom messages k (silentTurn config messages pool h).
Proof.
  intros Hrec Hw.
  destruct (turn_cases (SilentHandler.begin config)
              (SilentHandler.resume config) messages pool h)
    as [-> | [(msg & Hm & Hnone & Hs & ->) | (msg & local & Hm & Hl & ->)]];
    [exact Hw| |].
  - intros h' local' msg'. cbn [EventLoop.waiting].
    unfold SilentHandler.begin.
    destruct (negb (silentRecordEnabled config));
      [cbn [snd EventLoop.suspend]; rewrite lookup_delete_Some;
       intros [_ H'] Hm'; exact (Hw h' local' msg' H' Hm')|].
    destruct (_ || _);
      [cbn [snd EventLoop.suspend]; rewrite lookup_delete_Some;
       intros [_ H'] Hm'; exact (Hw h' local' msg' H' Hm')|].
    destruct (Silent.recorded
                (Silent.dailyUserState (EventLoop.shared pool)
                 !! Silent.userKey msg)) eqn:Er;
      [cbn [snd EventLoop.suspend]; rewrite lookup_delete_Some;
       intros [_ H'] Hm'; exact (Hw h' local' msg' H' Hm')|].
    cbn [snd EventLoop.suspend]. rewrite lookup_insert_Some.
    intros [[<- _] | [_ H']] Hm'; [|exact (Hw h' local' msg' H' Hm')].
    assert (msg' = msg) by congruence. subst msg'.
    intros E. unfold isRecorded in Hrec. rewrite <- E in Hrec. congruence.
  - intros h' local' msg'. cbn [EventLoop.waiting].
    assert (Hmine : forall msg', messages !! h = Some msg' ->
                                 Silent.userKey msg' <> k)
      by (intros msg'' Hm''; exact (Hw h local msg'' Hl Hm'')).
    destruct ((SilentHandler.resume config msg local
                 (EventLoop.shared pool)).2) as [next|];
      cbn [EventLoop.suspend].
    + rewrite lookup_insert_Some.
      intros [[<- _] | [_ H']] Hm'; [exact (Hmine _ Hm')|].
      exact (Hw h' local' msg' H' Hm').
    + rewrite lookup_delete_Some. intros [_ H'] Hm'.
      exact (Hw h' local' msg' H' Hm').
Qed.

(** A key that is recorded at the start stays recorded under every
    schedule; the rows of its user are never written, and no travel
    starts for it. *)
Lemma silent_recorded_for_good (config : Config)
    (messages : list Silent.Message) (schedule : list nat)
    (st : Silent.State) (u p g : string) :
  isRecorded st (p +:+ ":" +:+ u) ->
  let st' := SilentHandler.run config messages schedule st in
  isRecorded st' (p +:+ ":" +:+ u)
  /\ rowOf (Silent.pig_user_state st') (u, p, g)
     = rowOf (Silent.pig_user_state st) (u, p, g)
  /\ exists added,
       Silent.travels st' = Silent.travels st ++ added
       /\ ~ In (p +:+ ":" +:+ u) (List.map travelKey added).
Proof.
  intros Hrec. cbn zeta. unfold SilentHandler.run.
  set (k := p +:+ ":" +:+ u) in *.
  refine (proj1 (interleave_invariant (SilentHandler.begin config)
                   (SilentHandler.resume config) messages
                   (fun pool =>
                      (isRecorded (EventLoop.shared pool) k
                       /\ rowOf (Silent.pig_user_state
                                   (EventLoop.shared pool)) (u, p, g)
                          = rowOf (Silent.pig_user_state st) (u, p, g)
                       /\ exists added,
                            Silent.travels (EventLoop.shared pool)
                            = Silent.travels st ++ added
                            /\ ~ In k (List.map travelKey added))
                      /\ waitingApartFrom messages k pool)
                   _ schedule (EventLoop.idle st) _)).
  - intros pool h [(Hr & Hrow & added & Ht & Hfresh) Hw].
    split; [|apply waitingApartFrom_turn; assumption].
    destruct (silentTurn_cases config messages pool h)
      as [-> | (msg & state & sunrise & Hm & Hl & Htable & Hkeys & Htr)];
      [eauto|].
    pose proof (Hw h _ msg Hl Hm) as Hne.
    split; [apply Hkeys; right; exact Hr|]. split.
    + rewrite Htable, <- Hrow. apply wake_rowOf_other.
      intros [= -> -> ->]. apply Hne. reflexivity.
    + destruct Htr as [-> | ->]; [eauto|].
      exists (added ++ [(Silent.m_userId msg, Silent.m_platform msg,
                         Silent.m_guildId msg)]).
      rewrite Ht, <- app_assoc. split; [reflexivity|].
      rewrite List.map_app, in_app_iff. cbn [List.map In].
      intros [H | [E | []]]; [exact (Hfresh H)|].
      apply Hne. exact E.
  - cbn [EventLoop.idle EventLoop.shared].
    split; [|intros h local msg Hl; cbn in Hl; rewrite lookup_empty in Hl;
             discriminate].
    split; [exact Hrec|]. split; [reflexivity|].
    exists []. rewrite app_nil_r. split; [reflexivity|]. intros [].
Qed.

(** Every key that is recorded stays recorded, and the started travels
    stay, under every schedule. *)
Lemma silent_run_grows (config : Config) (messages : list Silent.Message)
    (schedule : list nat) (st : Silent.State) :
  let st' := SilentHandler.run config messages schedule st in
  (forall k, isRecorded st k -> isRecorded st' k)
  /\ exists added, Silent.travels st' = Silent.travels st ++ added.
Proof.
  cbn zeta. unfold SilentHandler.run.
  refine (interleave_invariant (SilentHandler.begin config)
            (SilentHandler.resume config) messages
            (fun pool =>
               (forall k, isRecorded st k ->
                          isRecorded (EventLoop.shared pool) k)
               /\ exists added,
                    Silent.travels (EventLoop.shared pool)
                    = Silent.travels st ++ added)
            _ schedule (EventLoop.idle st) _).
  - intros pool h [Hr (added & Ht)].
    destruct (silentTurn_cases config messages pool h)
      as [-> | (msg & state & sunrise & _ & _ & _ & Hkeys & Htr)];
      [eauto|].
    split; [intros k Hk; apply Hkeys; right; exact (Hr k Hk)|].
    destruct Htr as [-> | ->]; [eauto|].
    rewrite Ht, <- app_assoc. eauto.
  - cbn [EventLoop.idle EventLoop.shared]. split; [auto|].
    exists []. rewrite app_nil_r. reflexivity.
Qed.

(** With the silent record switched off no handler ever waits, and the
    state stays as it is under every schedule. *)
Lemma silent_run_off (config : Config) (messages : list Silent.Message)
    (schedule : list nat) (st : Silent.State) :
  silentRecordEnabled config = false ->
  SilentHandler.run config messages schedule st = st.
Proof.
  intros Hoff. unfold SilentHandler.run.
  refine (proj1 (interleave_invariant (SilentHandler.begin config)
                   (SilentHandler.resume config) messages
                   (fun pool =>
                      EventLoop.shared pool = st /\ nobodyWaits pool)
                   _ schedule (EventLoop.idle st) _)).
  - intros pool h [Hsh Hq].
    destruct (turn_cases (SilentHandler.begin config)
                (SilentHandler.resume config) messages pool h)
      as [-> | [(msg & Hm & Hnone & Hs & ->) | (msg & local & Hm & Hl & ->)]].
    + auto.
    + unfold SilentHandler.begin. rewrite Hoff.
      cbn [negb fst snd EventLoop.suspend EventLoop.shared].
      split; [exact Hsh|]. intros h'. cbn [EventLoop.waiting].
      rewrite lookup_delete. destruct (decide (h = h')); [reflexivity|].
      apply Hq.
    + rewrite (Hq h) in Hl. discriminate.
  - split; [reflexivity|]. intros h. apply lookup_empty.
Qed.

(** Two handlers of one user that overlap: both read the entry of the
    cache before either records the key, and both start a travel. *)
Lemma silent_handlers_overlap (config : Config) (m0 m1 : Silent.Message)
    (st : Silent.State) (sunrise0 sunrise1 : Z) :
  silentRecordEnabled config = true ->
  silentRecordAutoTravel config = true ->
  nonempty (Silent.m_userId m0) = true ->
  nonempty (Silent.m_guildId m0) = true ->
  nonempty (Silent.m_userId m1) = true ->
  nonempty (Silent.m_guildId m1) = true ->
  Silent.userKey m1 = Silent.userKey m0 ->
  Silent.dailyUserState st !! Silent.userKey m0 = None ->
  Silent.m_sunrise m0 = Ok sunrise0 -> sunrise0 <= Silent.m_now m0 ->
  Silent.m_upsert m0 = Ok tt ->
  Silent.m_sunrise m1 = Ok sunrise1 -> sunrise1 <= Silent.m_now m1 ->
  Silent.m_upsert m1 = Ok tt ->
  Silent.travels
    (SilentHandler.run config [m0; m1] [0; 1; 0; 1; 0; 1]%nat st)
  = Silent.travels st
    ++ [(Silent.m_userId m0, Silent.m_platform m0, Silent.m_guildId m0);
        (Silent.m_userId m1, Silent.m_platform m1, Silent.m_guildId m1)].
Proof.
  intros Hen Hauto Hu0 Hg0 Hu1 Hg1 Hk Hnone Hs0 Hn0 Hup0 Hs1 Hn1 Hup1.
  unfold SilentHandler.run, EventLoop.interleave.
  assert (I0 : [m0; m1] !! 0%nat = Some m0) by reflexivity.
  assert (I1 : [m0; m1] !! 1%nat = Some m1) by reflexivity.
  assert (L0 : (Silent.m_now m0 <? sunrise0) = false)
    by (apply Z.ltb_ge; exact Hn0).
  assert (L1 : (Silent.m_now m1 <? sunrise1) = false)
    by (apply Z.ltb_ge; exact Hn1).
  cbn [fold_left].
  remember (EventLoop.turn (SilentHandler.begin config)
              (SilentHandler.resume config) [m0; m1]
              (EventLoop.idle st) 0%nat) as p1 eqn:E1.
  remember (EventLoop.turn (SilentHandler.begin config)
              (SilentHandler.resume config) [m0; m1] p1 1%nat) as p2 eqn:E2.
  remember (EventLoop.turn (SilentHandler.begin config)
              (SilentHandler.resume config) [m0; m1] p2 0%nat) as p3 eqn:E3.
  remember (EventLoop.turn (SilentHandler.begin config)
              (SilentHandler.resume config) [m0; m1] p3 1%nat) as p4 eqn:E4.
  remember (EventLoop.turn (SilentHandler.begin config)
              (SilentHandler.resume config) [m0; m1] p4 0%nat) as p5 eqn:E5.
  remember (EventLoop.turn (SilentHandler.begin config)
              (SilentHandler.resume config) [m0; m1] p5 1%nat) as p6 eqn:E6.
  rewrite (turn_begins _ _ _ _ 0%nat m0 I0) in E1
    by (cbn [EventLoop.idle EventLoop.waiting EventLoop.started];
        first [apply lookup_empty | apply not_elem_of_empty]).
  unfold SilentHandler.begin in E1.
  cbn [EventLoop.idle EventLoop.shared EventLoop.waiting EventLoop.started]
    in E1.
  rewrite Hen, Hu0, Hg0, Hnone in E1.
  cbn [negb orb Silent.recorded fst snd EventLoop.suspend] in E1.
  rewrite (turn_begins _ _ _ p1 1%nat m1 I1) in E2
    by (subst p1; cbn [EventLoop.waiting EventLoop.started];
        first [rewrite lookup_insert_ne by lia; apply lookup_empty
              | rewrite elem_of_union, elem_of_singleton;
                intros [? | Hin]; [lia|];
                apply not_elem_of_empty in Hin; contradiction]).
  unfold SilentHandler.begin in E2. subst p1.
  cbn [EventLoop.shared EventLoop.waiting EventLoop.started] in E2.
  rewrite Hen, Hu1, Hg1, Hk, Hnone in E2.
  cbn [negb orb Silent.recorded fst snd EventLoop.suspend] in E2.
  rewrite (turn_resumes _ _ _ p2 0%nat m0 (SilentHandler.AwaitSunrise None)
             I0) in E3
    by (subst p2; cbn [EventLoop.waiting];
        rewrite lookup_insert_ne by lia; apply lookup_insert_eq).
  subst p2.
  cbn [EventLoop.shared EventLoop.waiting EventLoop.started
       SilentHandler.resume] in E3.
  rewrite Hs0, L0 in E3. cbn [fst snd EventLoop.suspend] in E3.
  rewrite (turn_resumes _ _ _ p3 1%nat m1 (SilentHandler.AwaitSunrise None)
             I1) in E4
    by (subst p3; cbn [EventLoop.waiting];
        rewrite lookup_insert_ne by lia; apply lookup_insert_eq).
  subst p3.
  cbn [EventLoop.shared EventLoop.waiting EventLoop.started
       SilentHandler.resume] in E4.
  rewrite Hs1, L1 in E4. cbn [fst snd EventLoop.suspend] in E4.
  rewrite (turn_resumes _ _ _ p4 0%nat m0
             (SilentHandler.AwaitUpsert None sunrise0) I0) in E5
    by (subst p4; cbn [EventLoop.waiting];
        rewrite lookup_insert_ne by lia; apply lookup_insert_eq).
  subst p4.
  cbn [EventLoop.shared EventLoop.waiting EventLoop.started
       SilentHandler.resume] in E5.
  rewrite Hup0, Hauto in E5.
  cbn [Silent.cardSent negb andb fst snd EventLoop.suspend] in E5.
  rewrite (turn_resumes _ _ _ p5 1%nat m1
             (SilentHandler.AwaitUpsert None sunrise1) I1) in E6
    by (subst p5; cbn [EventLoop.waiting];
        rewrite lookup_delete_ne by lia; apply lookup_insert_eq).
  subst p5.
  cbn [EventLoop.shared EventLoop.waiting EventLoop.started
       SilentHandler.resume] in E6.
  rewrite Hup1, Hauto in E6.
  cbn [Silent.cardSent negb andb fst snd EventLoop.suspend] in E6.
  subst p6. cbn [EventLoop.shared Silent.travels].
  rewrite <- app_assoc. reflexivity.
Qed.

(** X23.  The handlers of the silent record interleave at their awaits:
    a handler reads the entry of its user in the cache when it begins,
    and uses what it read after its upsert.  Alone, the handler of the
    first message of a user with a guild that arrives at or after the
    sunrise, while the key of the user is not recorded, writes the time
    of the message and the sunrise to the row of the user in that guild
    and records the key; it changes the state only for such a message.
    When no two handlers overlap, the state is the one that the
    middleware gives message after message, and at most one automatic
    travel starts for a key.  Under every schedule, a key that is
    recorded at the start stays recorded, no handler changes a row of its
    user, in whichever guild, and no travel starts for it; recorded keys
    stay recorded and started travels stay; and with the silent record
    switched off the state never changes.  Two handlers of one user that
    both begin before either has recorded the key both start a travel.
    The daily job leaves no key recorded and the table as it is. *)
Theorem silent_record_once_a_day (config : Config) :
  (forall msg st sunrise,
     silentRecordEnabled config = true ->
     nonempty (Silent.m_userId msg) = true ->
     nonempty (Silent.m_guildId msg) = true ->
     ~ isRecorded st (Silent.userKey msg) ->
     Silent.m_sunrise msg = Ok sunrise ->
     sunrise <= Silent.m_now msg ->
     Silent.m_upsert msg = Ok tt ->
     let st' := SilentHandler.run config [msg] [0; 0; 0]%nat st in
     st' = Silent.silentRecord config msg st
     /\ isRecorded st' (Silent.userKey msg)
     /\ exists row,
          rowOf (Silent.pig_user_state st')
            (Silent.m_userId msg, Silent.m_platform msg, Silent.m_guildId msg)
          = Some row
          /\ Stats.lastWakeUp row = Some (Silent.m_now msg)
          /\ Stats.lastSunrise row = Some sunrise)
  /\ (forall msg st,
        SilentHandler.run config [msg] [0; 0; 0]%nat st <> st ->
        nonempty (Silent.m_userId msg) = true
        /\ nonempty (Silent.m_guildId msg) = true
        /\ ~ isRecorded st (Silent.userKey msg)
        /\ exists sunrise, Silent.m_sunrise msg = Ok sunrise
                           /\ sunrise <= Silent.m_now msg)
  /\ (forall messages st,
        let st' := SilentHandler.run config messages
                     (EventLoop.sequential 3 (length messages)) st in
        st' = silentRun config messages st
        /\ exists added,
             Silent.travels st' = Silent.travels st ++ added
             /\ NoDup (List.map travelKey added))
  /\ (forall messages schedule st u p g,
        isRecorded st (p +:+ ":" +:+ u) ->
        let st' := SilentHandler.run config messages schedule st in
        isRecorded st' (p +:+ ":" +:+ u)
        /\ rowOf (Silent.pig_user_state st') (u, p, g)
           = rowOf (Silent.pig_user_state st) (u, p, g)
        /\ exists added,
             Silent.travels st' = Silent.travels st ++ added
             /\ ~ In (p +:+ ":" +:+ u) (List.map travelKey added))
  /\ (forall messages schedule st,
        let st' := SilentHandler.run config messages schedule st in
        (forall k, isRecorded st k -> isRecorded st' k)
        /\ exists added, Silent.travels st' = Silent.travels st ++ added)
  /\ (silentRecordEnabled config = false ->
      forall messages schedule st,
        SilentHandler.run config messages schedule st = st)
  /\ (forall m0 m1 st sunrise0 sunrise1,
        silentRecordEnabled config = true ->
        silentRecordAutoTravel config = true ->
        nonempty (Silent.m_userId m0) = true ->
        nonempty (Silent.m_guildId m0) = true ->
        nonempty (Silent.m_userId m1) = true ->
        nonempty (Silent.m_guildId m1) = true ->
        Silent.userKey m1 = Silent.userKey m0 ->
        Silent.dailyUserState st !! Silent.userKey m0 = None ->
        Silent.m_sunrise m0 = Ok sunrise0 -> sunrise0 <= Silent.m_now m0 ->
        Silent.m_upsert m0 = Ok tt ->
        Silent.m_sunrise m1 = Ok sunrise1 -> sunrise1 <= Silent.m_now m1 ->
        Silent.m_upsert m1 = Ok tt ->
        Silent.travels
          (SilentHandler.run config [m0; m1] [0; 1; 0; 1; 0; 1]%nat st)
        = Silent.travels st
          ++ [(Silent.m_userId m0, Silent.m_platform m0, Silent.m_guildId m0);
              (Silent.m_userId m1, Silent.m_platform m1,
               Silent.m_guildId m1)])
  /\ (forall st k,
        ~ isRecorded (Silent.dailyReset st) k
        /\ Silent.pig_user_state (Silent.dailyReset st)
           = Silent.pig_user_state st).
Proof.
  assert (Hlone : forall msg st,
             SilentHandler.run config [msg] [0; 0; 0]%nat st
             = Silent.silentRecord config msg st).
  { intros msg st.
    exact (silent_handlers_sequential config [msg] st). }
  split; [|split; [|split; [|split; [|split; [|split; [|split]]]]]].
  - intros msg st sunrise He Hu Hg Hn Hs Hnow Hup. cbn zeta.
    rewrite Hlone. split; [reflexivity|].
    assert (Hchanged : exists row,
              rowOf (Silent.pig_user_state (Silent.silentRecord config msg st))
                (Silent.m_userId msg, Silent.m_platform msg,
                 Silent.m_guildId msg) = Some row
              /\ Stats.lastWakeUp row = Some (Silent.m_now msg)
              /\ Stats.lastSunrise row = Some sunrise
              /\ isRecorded (Silent.silentRecord config msg st)
                   (Silent.userKey msg)).
    { unfold isRecorded in Hn. apply not_true_is_false in Hn.
      unfold Silent.silentRecord. rewrite He, Hu, Hg, Hn, Hs, Hup.
      cbn [negb orb].
      destruct (Z.ltb_spec (Silent.m_now msg) sunrise); [lia|].
      assert (Hrow : exists row,
                rowOf (Silent.database_upsert (Silent.m_userId msg)
                         (Silent.m_platform msg) (Silent.m_guildId msg)
                         (Silent.m_now msg) sunrise (Silent.pig_user_state st))
                  (Silent.m_userId msg, Silent.m_platform msg,
                   Silent.m_guildId msg) = Some row
                /\ Stats.lastWakeUp row = Some (Silent.m_now msg)
                /\ Stats.lastSunrise row = Some sunrise).
      { rewrite wake_rowOf_same. eexists. split; [reflexivity|].
        destruct (rowOf (Silent.pig_user_state st) _); split; reflexivity. }
      destruct Hrow as (row & Hr & H1 & H2).
      destruct (silentRecordAutoTravel config && _);
        cbn [Silent.pig_user_state]; exists row;
        (split; [exact Hr|]); (split; [exact H1|]); (split; [exact H2|]);
        unfold isRecorded; cbn [Silent.dailyUserState].
      - rewrite alter_insert_eq, lookup_insert_eq. reflexivity.
      - rewrite lookup_insert_eq. reflexivity. }
    destruct Hchanged as (row & Hr & H1 & H2 & H3).
    split; [exact H3|]. exists row. auto.
  - intros msg st. rewrite Hlone. intros Hne.
    destruct (silentRecord_cases config msg st)
      as [E|(sunrise & _ & Hu & Hg & Hnot & Hs & Hnow & _)]; [contradiction|].
    split; [exact Hu|]. split; [exact Hg|]. split.
    + unfold isRecorded. rewrite Hnot. discriminate.
    + exists sunrise. auto.
  - intros messages st. cbn zeta. rewrite silent_handlers_sequential.
    split; [reflexivity|].
    destruct (silentRun_travels config messages st) as (added & E & Hnd & _).
    exists added. auto.
  - intros messages schedule st u p g.
    apply silent_recorded_for_good.
  - intros messages schedule st. apply silent_run_grows.
  - intros Hoff messages schedule st. apply silent_run_off. exact Hoff.
  - intros m0 m1 st sunrise0 sunrise1. apply silent_handlers_overlap.
  - intros st k. split; [|reflexivity].
    unfold isRecorded, Silent.dailyReset. cbn [Silent.dailyUserState].
    rewrite lookup_empty. discriminate.
Qed.

End SilentFacts.

(** ** The width of a photo of Pexels *)

Section PexelsFacts.

Abbreviation lit := WorldMap.lit.
Abbreviation includes := WorldMap.includes.

Lemma skip_digits_idem (s : list ascii) :
  Pexels.skip_digits (Pexels.skip_digits s) = Pexels.skip_digits s.
Proof.
  induction s as [|c s IH]; [reflexivity|]. cbn [Pexels.skip_digits].
  destruct (Pexels.is_digit c) eqn:E; [exact IH|].
  cbn [Pexels.skip_digits]. rewrite E. reflexivity.
Qed.

Lemma skip_digits_split (s : list ascii) :
  exists digits,
    s = digits ++ Pexels.skip_digits s
    /\ forallb Pexels.is_digit digits = true.
Proof.
  induction s as [|c s (digits & E & Hd)]; [exists []; auto|].
  cbn [Pexels.skip_digits]. destruct (Pexels.is_digit c) eqn:Ec.
  - exists (c :: digits). cbn [app forallb]. rewrite Ec, Hd, <- E. auto.
  - exists []. auto.
Qed.

Lemma width_here_spec (s rest : list ascii) :
  Pexels.width_here s = Some rest ->
  exists digits,
    s = lit "w=" ++ digits ++ rest
    /\ digits <> []
    /\ forallb Pexels.is_digit digits = true
    /\ Pexels.skip_digits rest = rest.
Proof.
  destruct s as [|w [|e [|d r]]]; try discriminate. cbn [Pexels.width_here].
  destruct (Ascii.eqb_spec w "w") as [->|]; [|discriminate].
  destruct (Ascii.eqb_spec e "=") as [->|]; [|discriminate].
  destruct (Pexels.is_digit d) eqn:Ed; [|discriminate]. cbn [andb].
  intros [= <-]. destruct (skip_digits_split r) as (digits & E & Hd).
  exists (d :: digits). cbn [app forallb]. rewrite Ed, Hd.
  split; [cbn; rewrite <- E; reflexivity|]. split; [discriminate|].
  split; [reflexivity|apply skip_digits_idem].
Qed.

Lemma width_here_prefix (a b : list ascii) :
  Pexels.width_here (a ++ b) = None -> Pexels.width_here a = None.
Proof.
  destruct a as [|w [|e [|d r]]]; try reflexivity. cbn [app Pexels.width_here].
  destruct (Ascii.eqb w "w" && Ascii.eqb e "=" && Pexels.is_digit d);
    [discriminate|reflexivity].
Qed.

Lemma replaceWidth_spec (s out : list ascii) :
  Pexels.replaceWidth s = Some out ->
  exists pre digits post,
    s = pre ++ lit "w=" ++ digits ++ post
    /\ digits <> []
    /\ forallb Pexels.is_digit digits = true
    /\ Pexels.skip_digits post = post
    /\ Pexels.replaceWidth pre = None
    /\ out = pre ++ lit "w=1080" ++ post.
Proof.
  revert out. induction s as [|c s IH]; intros out; [discriminate|].
  cbn [Pexels.replaceWidth].
  destruct (Pexels.width_here (c :: s)) as [rest|] eqn:Eh.
  - intros [= <-]. destruct (width_here_spec _ _ Eh) as (digits & E & H1 & H2 & H3).
    exists [], digits, rest. cbn [app]. auto 10.
  - destruct (Pexels.replaceWidth s) as [out'|] eqn:Er; [|discriminate].
    intros [= <-].
    destruct (IH out' eq_refl) as (pre & digits & post & E & H1 & H2 & H3 & H4 & ->).
    exists (c :: pre), digits, post. cbn [app]. rewrite <- E.
    split; [reflexivity|]. split; [exact H1|]. split; [exact H2|].
    split; [exact H3|]. split; [|reflexivity].
    cbn [Pexels.replaceWidth]. rewrite H4.
    rewrite E in Eh. change (c :: pre ++ lit "w=" ++ digits ++ post)
      with ((c :: pre) ++ lit "w=" ++ digits ++ post) in Eh.
    rewrite (width_here_prefix _ _ Eh). reflexivity.
Qed.

(** After a replacement further on, the start of the text still has no
    match. *)
Lemma width_here_kept (c : ascii) (r t : list ascii) :
  Pexels.width_here (c :: r) = None -> Pexels.replaceWidth r = Some t ->
  Pexels.width_here (c :: t) = None.
Proof.
  intros Hn Hr. destruct (Ascii.eqb_spec c "w") as [->|Hc];
    [|destruct t as [|e [|d t]]; cbn [Pexels.width_here];
      rewrite ?(proj2 (Ascii.eqb_neq c "w") Hc); reflexivity].
  destruct r as [|e r]; [discriminate|]. cbn [Pexels.replaceWidth] in Hr.
  destruct (Pexels.width_here (e :: r)) as [rest|] eqn:Ee.
  - injection Hr as <-. reflexivity.
  - destruct (Pexels.replaceWidth r) as [t1|] eqn:Er1; [|discriminate].
    injection Hr as <-.
    destruct (Ascii.eqb_spec e "=") as [->|He];
      [|destruct t1 as [|d t1]; cbn [Pexels.width_here];
        rewrite ?(proj2 (Ascii.eqb_neq e "=") He); reflexivity].
    destruct r as [|d r]; [discriminate|]. cbn [Pexels.replaceWidth] in Er1.
    cbn [Pexels.width_here] in Hn. cbn [Ascii.eqb andb] in Hn.
    assert (Hd : Pexels.is_digit d = false).
    { revert Hn. change (Ascii.eqb "w" "w") with true.
      change (Ascii.eqb "=" "=") with true. cbn [andb].
      destruct (Pexels.is_digit d); [discriminate|reflexivity]. }
    destruct (Pexels.width_here (d :: r)) as [rest|] eqn:Ed.
    + injection Er1 as <-. reflexivity.
    + destruct (Pexels.replaceWidth r) as [t2|]; [|discriminate].
      injection Er1 as <-. cbn [Pexels.width_here]. rewrite Hd.
      rewrite andb_false_r. reflexivity.
Qed.

Lemma replaceWidth_fixed (s t : list ascii) :
  Pexels.replaceWidth s = Some t -> Pexels.replaceWidth t = Some t.
Proof.
  revert t. induction s as [|c s IH]; intros t; [discriminate|].
  cbn [Pexels.replaceWidth].
  destruct (Pexels.width_here (c :: s)) as [rest|] eqn:Eh.
  - intros [= <-]. destruct (width_here_spec _ _ Eh) as (_ & _ & _ & _ & Hrest).
    cbn [WorldMap.lit list_ascii_of_string app Pexels.replaceWidth
         Pexels.width_here].
    change (Ascii.eqb "w" "w" && Ascii.eqb "=" "=" && Pexels.is_digit "1")
      with true. cbv iota.
    change (Pexels.skip_digits ("0"%char :: "8"%char :: "0"%char :: rest))
      with (Pexels.skip_digits rest).
    rewrite Hrest. reflexivity.
  - destruct (Pexels.replaceWidth s) as [t'|] eqn:Er; [|discriminate].
    intros [= <-]. cbn [Pexels.replaceWidth].
    rewrite (width_here_kept c s t' Eh Er), (IH t' eq_refl). reflexivity.
Qed.

Lemma includes_cons (pat : list ascii) (c : ascii) (s : list ascii) :
  includes pat s = true -> includes pat (c :: s) = true.
Proof.
  unfold WorldMap.includes. cbn [WorldMap.occurs]. intros ->.
  destruct (WorldMap.match_lit _ _ _); reflexivity.
Qed.

Lemma replaceWidth_includes (s t : list ascii) :
  Pexels.replaceWidth s = Some t -> includes (lit "w=") t = true.
Proof.
  revert t. induction s as [|c s IH]; intros t; [discriminate|].
  cbn [Pexels.replaceWidth].
  destruct (Pexels.width_here (c :: s)) as [rest|].
  - intros [= <-]. reflexivity.
  - destruct (Pexels.replaceWidth s) as [t'|]; [|discriminate].
    intros [= <-]. apply includes_cons. exact (IH t' eq_refl).
Qed.

Lemma includes_app_r (pat s w : list ascii) :
  includes pat w = true -> includes pat (s ++ w) = true.
Proof.
  intros H. induction s as [|c s IH]; [exact H|].
  cbn [app]. apply includes_cons. exact IH.
Qed.

(** A text without [w=], with a separator and the parameter appended:
    the first match of the pattern is the appended parameter. *)
Lemma replaceWidth_appended (s : list ascii) (sep : ascii) :
  includes (lit "w=") s = false ->
  Ascii.eqb sep "w" = false -> Ascii.eqb sep "=" = false ->
  Pexels.replaceWidth (s ++ sep :: lit "w=1080")
  = Some (s ++ sep :: lit "w=1080").
Proof.
  intros Hs Hw He. induction s as [|c s IH].
  - cbn [app Pexels.replaceWidth Pexels.width_here WorldMap.lit
         list_ascii_of_string]. rewrite Hw. cbn [andb]. reflexivity.
  - unfold WorldMap.includes in Hs. cbn [WorldMap.occurs] in Hs.
    destruct (WorldMap.match_lit WorldMap.eq_cs (lit "w=") (c :: s))
      as [m|] eqn:Em; [discriminate|].
    cbn [app Pexels.replaceWidth]. rewrite (IH Hs).
    assert (Hh : Pexels.width_here (c :: s ++ sep :: lit "w=1080") = None).
    { destruct s as [|e s]; cbn [app Pexels.width_here].
      - cbn [WorldMap.lit list_ascii_of_string].
        destruct (Ascii.eqb c "w"), (Ascii.eqb sep "="); reflexivity.
      - destruct (s ++ sep :: lit "w=1080") as [|d r]; [reflexivity|].
        destruct (Ascii.eqb_spec c "w") as [->|]; [|reflexivity].
        destruct (Ascii.eqb_spec e "=") as [->|]; [|reflexivity].
        vm_compute in Em. discriminate. }
    rewrite Hh. reflexivity.
Qed.

Lemma withWidth_spec (url : list ascii) :
  let out := Pexels.withWidth url in
  includes (lit "w=") out = true
  /\ Pexels.withWidth out = out
  /\ (includes (lit "w=") url = false ->
      out = url ++ (if includes (lit "?") url then lit "&w=1080"
                    else lit "?w=1080"))
  /\ (includes (lit "w=") url = true ->
      (Pexels.replaceWidth url = None /\ out = url)
      \/ exists pre digits post,
           url = pre ++ lit "w=" ++ digits ++ post
           /\ digits <> []
           /\ forallb Pexels.is_digit digits = true
           /\ Pexels.skip_digits post = post
           /\ Pexels.replaceWidth pre = None
           /\ out = pre ++ lit "w=1080" ++ post).
Proof.
  cbn zeta. destruct (includes (lit "w=") url) eqn:Ew.
  - destruct (Pexels.replaceWidth url) as [out|] eqn:Er.
    + assert (Eo : Pexels.withWidth url = out)
        by (unfold Pexels.withWidth; rewrite Ew, Er; reflexivity).
      rewrite Eo.
      pose proof (replaceWidth_includes _ _ Er) as Hi.
      pose proof (replaceWidth_fixed _ _ Er) as Hf.
      split; [exact Hi|]. split.
      { unfold Pexels.withWidth. rewrite Hi, Hf. reflexivity. }
      split; [discriminate|]. intros _. right.
      exact (replaceWidth_spec _ _ Er).
    + assert (Eo : Pexels.withWidth url = url)
        by (unfold Pexels.withWidth; rewrite Ew, Er; reflexivity).
      rewrite Eo. split; [exact Ew|]. split; [exact Eo|].
      split; [discriminate|]. intros _. left. auto.
  - assert (Happ : forall sep : ascii,
              Ascii.eqb sep "w" = false -> Ascii.eqb sep "=" = false ->
              includes (lit "w=") (url ++ sep :: lit "w=1080") = true
              /\ Pexels.withWidth (url ++ sep :: lit "w=1080")
                 = url ++ sep :: lit "w=1080").
    { intros sep Hw He.
      assert (Hi : includes (lit "w=") (url ++ sep :: lit "w=1080") = true).
      { apply includes_app_r. apply includes_cons. reflexivity. }
      split; [exact Hi|]. unfold Pexels.withWidth.
      rewrite Hi, (replaceWidth_appended url sep Ew Hw He). reflexivity. }
    destruct (includes (lit "?") url) eqn:Eq.
    + assert (Eo : Pexels.withWidth url = url ++ lit "&w=1080")
        by (unfold Pexels.withWidth; rewrite Ew, Eq; reflexivity).
      rewrite Eo. destruct (Happ "&"%char eq_refl eq_refl) as [H1 H2].
      split; [exact H1|]. split; [exact H2|].
      split; [reflexivity|discriminate].
    + assert (Eo : Pexels.withWidth url = url ++ lit "?w=1080")
        by (unfold Pexels.withWidth; rewrite Ew, Eq; reflexivity).
      rewrite Eo. destruct (Happ "?"%char eq_refl eq_refl) as [H1 H2].
      split; [exact H1|]. split; [exact H2|].
      split; [reflexivity|discriminate].
Qed.

(** X24.  A URL that the search of Pexels returns is the [large2x] URL,
    or else the [large] URL, of a photo of the response, with its width
    set: when the URL has no [w=], the parameter [w=1080] is appended
    behind [&] or [?]; when it has, the first [w=] that digits follow gets
    the digits 1080, wherever it stands, and a URL whose [w=] no digit
    follows is returned as it is.  The returned URL holds [w=], and
    setting the width again does not change it.  Without an API key, and
    on a rejected request or an empty response, nothing is returned. *)
Theorem pexels_photo_has_width (apiKey : string)
    (response : Result (option (list Pexels.PexelsPhoto))) (draw : nat) :
  (forall found,
     Pexels.searchPexelsPhoto apiKey response draw = Some found ->
     nonempty apiKey = true
     /\ exists photos photo url,
          response = Ok (Some photos)
          /\ In photo photos
          /\ Pexels.largeUrl photo = Some url
          /\ (Pexels.large2x photo = Some url /\ url <> []
              \/ (Pexels.large2x photo = None \/ Pexels.large2x photo = Some [])
                 /\ Pexels.large photo = Some url)
          /\ found = Pexels.withWidth url
          /\ includes (lit "w=") found = true
          /\ Pexels.withWidth found = found)
  /\ (forall url,
        let out := Pexels.withWidth url in
        (includes (lit "w=") url = false ->
         out = url ++ (if includes (lit "?") url then lit "&w=1080"
                       else lit "?w=1080"))
        /\ (includes (lit "w=") url = true ->
            (Pexels.replaceWidth url = None /\ out = url)
            \/ exists pre digits post,
                 url = pre ++ lit "w=" ++ digits ++ post
                 /\ digits <> []
                 /\ forallb Pexels.is_digit digits = true
                 /\ Pexels.skip_digits post = post
                 /\ Pexels.replaceWidth pre = None
                 /\ out = pre ++ lit "w=1080" ++ post))
  /\ ((nonempty apiKey = false \/ response = Ok None \/ response = Ok (Some [])
       \/ exists e, response = Throw e) ->
      Pexels.searchPexelsPhoto apiKey response draw = None).
Proof.
  split; [|split].
  - intros found. unfold Pexels.searchPexelsPhoto.
    destruct (nonempty apiKey); cbn [negb]; [|discriminate].
    destruct response as [[photos|]|e]; try discriminate.
    destruct (0 <? length photos)%nat; [|discriminate].
    destruct (nth_error photos (draw mod length photos)) as [photo|] eqn:En;
      [|discriminate].
    destruct (Pexels.largeUrl photo) as [url|] eqn:Eu; [|discriminate].
    intros [= <-]. split; [reflexivity|].
    destruct (withWidth_spec url) as (H1 & H2 & _).
    exists photos, photo, url. split; [reflexivity|].
    split; [exact (nth_error_In _ _ En)|]. split; [exact Eu|].
    split; [|auto].
    unfold Pexels.largeUrl in Eu.
    destruct (Pexels.large2x photo) as [[|c u]|]; auto.
    injection Eu as <-. left. split; [reflexivity|discriminate].
  - intros url. destruct (withWidth_spec url) as (_ & _ & H3 & H4).
    cbn zeta. auto.
  - unfold Pexels.searchPexelsPhoto.
    intros [->|[->|[->|[e ->]]]]; [reflexivity| | |];
      destruct (nonempty apiKey); reflexivity.
Qed.

End PexelsFacts.
